(* ===== verification/_CoqProject ===== *)
-Q . S2P
Prelude.v
Float64.v
Protocol.v
Crc.v
Externals.v
Utf8.v
Text.v
Io.v
System.v
IridiumSbd.v
AstsProtobuf.v
InmarsatC.v
Vsat.v
Hfvhf.v
Nidd.v
Samsara.v
Translator.v
Cache.v
Reliability.v
Snapshot.v
Bitemporal.v
Batching.v
Sharding.v
ClockReconciliation.v
Cadence.v
Metrics.v
Sensors.v
Lora.v
Gateway.v
Pipeline.v
Quiescence.v
Delivery.v
OtelSpan.v
OtelBundle.v
OtelConverter.v
OtelReconciler.v
Buffers.v
CodecTests.v
Wal.v
StrOps.v
Radio.v
Board.v
Modem.v
Provisioning.v
Storage.v
Can.v
Gnss.v
Mesh.v
Supervisor.v
Errors.v
SystemTests.v
