(* ===== verification/Prelude.v ===== *)
(** * Float Protocols: a verification library

    Float Protocols (src/src, a Rust crate) is a gateway between maritime and
    satellite message protocols and the AST SpaceMobile cellular uplink.  A
    message enters through [Gateway::send]; emergencies are translated and
    uplinked at once, everything else goes through an input batcher, clock
    reconciliation, the bi-temporal store, spread-based routing, cadence rules
    and a cache lookup, then waits in a shard for a worker that translates it;
    a transmission batcher coalesces the translated messages into requests that
    a circuit breaker guards.  Around it, a hardware supervisor (main.rs) drives a
    board with sensor ports, a LoRa radio, a cellular modem, an ECC chip, an
    encrypted disk, a button, an LED and a watchdog, and feeds what the sensors
    deliver to a write-ahead log and to the gateway.

    ** Files and the code they model

    - [Prelude]: outcomes of Rust code (a value or a panic), [Result], machine
      integers, byte strings with checked indexing and slicing, byte order,
      tactics and hint databases shared by all files.
    - [Float64]: the [f64] operations the code uses, on the Standard Library's
      specification floats.
    - [Protocol] (protocol.rs): protocols, priorities, bi-temporal messages.
    - [Crc], [Externals], [Utf8]: checksums as polynomial division with the
      linearity and burst lemmas; the crates [crc], [hex], [zstd] and [nom] as
      operational type classes with separate classes for their documented laws,
      and instances that meet them; validation of UTF-8 as in [str::from_utf8].
    - [IridiumSbd], [AstsProtobuf], [InmarsatC], [Vsat], [Hfvhf], [Nidd],
      [Samsara] (the files of the same names): one module per message type, with
      its parser, encoder and accessors.
    - [Translator] (translator.rs): the decoders inlined in the translator, the
      synchronous, asynchronous and zero-allocation paths, [BufferPool] and
      [TranslatorPool].
    - [Cache] (cache.rs), [Snapshot] (snapshot.rs), [Bitemporal]
      (bitemporal.rs): the three stores.
    - [Reliability] (reliability.rs): circuit breaker, retry policy, health
      checker.
    - [Batching] (batcher.rs, transmission_batcher.rs): the two batching tasks.
    - [Sharding] (sharding.rs): shards, their channels, the workers.
    - [Sensors] (sensor/rs232.rs, sensor/rs485.rs), [Can] (sensor/can.rs): frame
      parsers, reading loops and ports of the sensor readers.
    - [Lora], [Mesh] (lora/mesh.rs, lora/node_registry.rs): mesh frames and the
      registry; the aggregator's task over [Radio].
    - [ClockReconciliation], [Cadence], [Metrics] (clock_reconciliation.rs,
      cadence_translation.rs, metrics.rs).
    - [Gateway] (gateway.rs): the adaptive threshold and all handlers, composed
      of the operations above.
    - [Pipeline], [Quiescence], [Delivery] (gateway.rs, [Gateway::new]): the tasks
      the gateway spawns.  The gateway, its two batcher tasks and the log of what was sent are
      one state; an action is one turn of one task or a public call, and an
      execution any list of actions.
    - [Text], [StrOps]: literals, printing and parsing of integers, lossy UTF-8
      decoding, searching, splitting, trimming and [f64] parsing of the standard
      library.
    - [OtelSpan], [OtelBundle], [OtelConverter], [OtelReconciler]
      (otel_compact_span.rs, otel_bundle.rs, otel_converter.rs,
      otel_reconciler.rs): the telemetry path from a span's binary form to the
      bi-temporal reconciler.
    - [Buffers] (dynamic_buffer.rs, lifetime_safe.rs): growing buffers, their
      pools, the translation arena.
    - [Wal], [Storage] (storage/wal.rs, storage/encrypted_store.rs): the log file
      with its cursor and failing writes, the store over it; compaction, and the
      commands that open, mount and close the encrypted volume.
    - [Io]: the monad of the drivers; a computation extends a history of events
      and finishes, fails, panics or is still waiting.
    - [System]: paths, external commands, environment variables and pins, as
      classes of the operating system.
    - [Radio] (hardware/lr1121.rs, hardware/sx1262.rs), [Modem]
      (hardware/gm02sp.rs, hardware/bg95.rs), [Board] (hardware/config_button.rs,
      led.rs, watchdog.rs, atecc608b.rs): the drivers against any device.  The two
      radio drivers are the same code up to names, and so are the two modem
      drivers; the second of each pair is a module of names.
    - [Provisioning] (provisioning/lora_provisioning.rs, provision.rs): joining
      nodes through [Radio], and the gateway's own provisioning.
    - [Gnss] (gnss/gnss.rs, gnss/rtc.rs): positions through [Modem], and the
      hardware clock.
    - [Supervisor] (main.rs): the world of all devices, the start-up sequence over
      the drivers, the reader, button, positioning and bridge tasks, the shutdown.
    - [Errors]: the texts of the error types (their [Display] implementations).
    - [CodecTests], [SystemTests]: the unit tests of the crate, translated like
      other functions and run on the models; they tie the definitions to the
      behaviour the repository's authors expect.

    A Rust struct is a [Record] (usually called [t] in a module named after it),
    an enum an [Inductive] with the same constructors, a method a [Definition] or
    [Fixpoint] of the same name, with the state it mutates passed in and out.

    ** How the code is read

    - Panics.  An index or slice out of range, a failed [unwrap], a length
      mismatch in [copy_from_slice] and [% 0] are the value [Panic] of the type
      [outcome]; [Option] and [Result] are the values they are in the source.
    - Integers.  The release profile has [overflow-checks = false]: arithmetic
      wraps, written out with [wrap w] and [swrap w].  Floats are computed, not
      approximated.
    - Clocks, results of HTTP requests and the iteration order of hash maps are
      arguments; theorems quantify over them.
    - Concurrency.  The circuit breaker is modelled at the level of its atomic
      accesses, with callers that come and go in any interleaving. The tasks that
      join LoRa nodes are modelled from one lock of the radio's mutex to the next,
      with the scopes of its guards. The batching tasks are functions of the
      sequence of events they select on. Elsewhere operations under one lock are one
      step; the shard manager's operations and the gateway's handlers are taken as
      one step each, and the invariants of the stores and of the running gateway are
      proved for every sequence of steps. Bounded channels are unbounded where a
      full one only delays its sender.
    - Devices (SPI, I2C and serial ports, pins, clocks) are type classes whose
      operations answer as functions of the history of events, so a theorem holds
      for every device; laws about them (a read fills its buffer, the clock does
      not go back) are separate classes, named where a theorem needs them.
    - External commands, files and pins are a class of the operating system in the
      same style; that a pin in use is refused is a law of its own.
    - Sources that do not type-check are read with the smallest repair; the file
      headers say which and why.
    - Loops over data are structural, or have as fuel a bound on the data: the
      retry loop its number of attempts ([retry_returns] proves that [max 1 n]
      suffices), the decoding of bundles and the replay of a log one more than the
      length of the input, since every turn consumes a byte (the round-trip
      theorems show the result), lossy decoding the length of its input.  Loops
      that wait for a device take a number of polls and end in [Waiting] when it is
      used up: [modem_returns] and [gnss_wait_returns] give numbers that are enough,
      [radio_polls_stable]
      shows that more polls do not change a result, and [radio_tx_hangs] that no
      number is enough for a silent radio.

    ** What is proved

    - Codecs: parsers never panic except where a theorem says exactly when
      ([samsara_parse_panics_iff]); they accept exactly the stated formats
      ([iridium_parse_exact], [nidd_parse_exact], [samsara_parse_encode_iff],
      [inmarsat_canonical]); encoding and parsing are inverse on the stated
      domains (the [_roundtrip] theorems); the SBD checksum detects two-byte
      corruption ([iridium_burst_detected]).
    - Translation is total and keeps priority and time stamps
      ([translate_sync_total]); the duplicated decoders agree with the parsers
      ([iridium_decoders_agree], [samsara_decoders_agree]); the hot path writes
      the exact frame ([hot_path_contract], [asts_encode_contract],
      [sequence_numbers]); the asynchronous path differs in its time stamps
      ([async_sync_differ]); the pool loses no translator ([pool_conservation]).
    - Stores: invariants of every reachable state and the exact effect of the
      operations on lookups ([cache_reachable_inv], [cache_get_set],
      [cache_invalidation], [snapshot_reachable_inv], [drain_exact],
      [bitemporal_window], [bitemporal_query_exact]).
    - Reliability: exclusion of the half-open slot under interleaving, the life
      cycle of the breaker, the sequential reading refines the interleaved one,
      the retry loop returns; and that a breaker whose clock nobody initialised never
      closes again ([uninitialised_breaker_stays_open]).
    - Flow: no message is lost, reordered or over-batched by the batchers, shard
      channels are bounded queues, [push_contract]; and that backpressure never
      clears ([backpressure_permanent]).
    - Gateway: which messages of an incoming batch are diverted, looked up, pushed and
      posted ([incoming_routing]), what becomes of the batches of the shards
      ([translated_batches]), and the emergency path whatever the state of the uplink
      ([emergency_path]).
    - Running gateway, for every interleaving of its tasks: nothing panics and what
      is uplinked is the translation of what was sent ([uplink_authentic]);
      emergencies never wait in a queue and the deadzone shard is never consumed
      ([emergencies_bypass]); clocks are never corrected
      ([reconciliation_is_identity]); without new messages every schedule
      terminates with all queues empty ([gateway_quiesces]), and within the bounds
      of the shards, with a working uplink, nothing is lost ([messages_delivered]).
    - Field side: serial frames are delivered exactly, in order and without a panic
      ([serial_loops], [rs232_receive]), single-byte corruption of Modbus frames is
      detected ([modbus_exchange]), messages keep exactly the identifier and the data of
      CAN frames ([can_message_exact], [can_delivery]), mesh frames are authenticated ([mesh_decode]) but never
      delivered ([mesh_never_delivers]).
    - Telemetry: span and bundle decoding is exact and typed ([span_decode_exact],
      [bundle_roundtrip], [bundle_decode_exact]), exports keep every field
      ([otlp_json_fields], [otlp_binary_faithful]), the reconciler refines a log
      ([reconciler_refines_log], [system_belief_exact], [spread_stats_exact]), and
      both time stamps survive the whole path ([telemetry_end_to_end]).
    - Storage: appends come back in order ([wal_append_replay]), storing is
      write-ahead under any failing call ([store_write_ahead]), snapshots round
      trip ([snapshot_persist_load]), compaction keeps exactly the recent messages
      ([compact_exact]) but is neither atomic nor readable ([compact_loses_log],
      [compact_unreadable]), the volume is mounted only when open ([volume_prepared]);
      buffers stay within their bounds
      ([dynamic_buffer_bounds], [pool_round_robin], [safe_translation_agrees]).
    - Drivers: the chip-select protocol in every sequence of calls
      ([radio_chip_select]), the commands sent at start-up ([radio_init_commands]),
      the accuracy of the frequency ([radio_frequency_accurate]), ranges of what is
      received ([radio_rx_bounds]); the modem's operations return and follow its
      state machine ([modem_returns], [modem_state_machine]); waiting for a position
      ends and returns valid ones ([gnss_wait_returns]); the events of the
      button, the period of the watchdog, the signing command
      ([button_press_events], [watchdog_period], [atecc_sign]).
    - Provisioning: join requests are parsed exactly ([join_request_exact]), and the
      task that got one waits for its own lock ([provisioning_deadlocks]); what a
      successful and a failed provisioning leave behind ([provision_outcome],
      [factory_reset_outcome]).
    - Supervisor: every message of the sensors reaches the gateway in order and is
      logged first where the log works ([bridge_delivers]); the drivers' pins do not
      collide ([pins_compatible]); credentials, button, clock and shutdown behave as
      stated ([credentials_gate], [button_tasks], [gnss_task_sets_clock],
      [shutdown_sequence]); and the start-up always stops in its first two steps
      ([supervisor_never_starts]).
    - Theorems that exhibit a defect on purpose say so in their comment.

    ** What is not modelled

    Logging, the panic hook, URLs and headers of requests, and the module
    declarations and re-exports of lib.rs and the mod.rs files are outside the
    model: they carry no logic of the program.  Clients that use the shard manager
    or the stores through the gateway's accessors are not part of the running
    gateway; the operations they can call are modelled in the components.  The
    tasks of the supervisor are modelled one by one; of their interleavings the
    theorems consider those that reach shared state, the log and the gateway, as
    sequences of messages.  The capacity of the asynchronous channels between
    tasks, which only delays senders, is left out, and so are failing allocations and
    what becomes of the pins of a driver that is dropped. *)

From Stdlib Require Export ZArith Lia Bool.
From stdpp Require Export base list gmap strings numbers.

#[global] Open Scope Z_scope.
#[export] Set Warnings "-clear-no-such-hyp".

(** ** Outcomes: a Rust computation returns or panics *)

Inductive outcome (A : Type) : Type :=
| Ret (a : A)
| Panic.
Arguments Ret {A} _.
Arguments Panic {A}.

#[export] Instance outcome_ret : MRet outcome := fun A a => Ret a.
#[export] Instance outcome_bind : MBind outcome :=
  fun A B f m => match m with Ret a => f a | Panic => Panic end.

(** [Result<A, E>] of the source. *)
Inductive result (A E : Type) : Type :=
| Ok (a : A)
| Err (e : E).
Arguments Ok {A E} _.
Arguments Err {A E} _.

#[export] Instance outcome_eq_dec {A} `{EqDecision A} : EqDecision (outcome A).
Proof. solve_decision. Defined.
#[export] Instance result_eq_dec {A E} `{EqDecision A, EqDecision E} :
  EqDecision (result A E).
Proof. solve_decision. Defined.

(** [?] on an [Option] or a [Result] inside a function that may panic. *)
Definition obind {A B} (m : outcome (option A)) (f : A -> outcome (option B))
  : outcome (option B) :=
  match m with
  | Ret (Some a) => f a
  | Ret None => Ret None
  | Panic => Panic
  end.

Definition rbind {A B E} (m : outcome (result A E)) (f : A -> outcome (result B E))
  : outcome (result B E) :=
  match m with
  | Ret (Ok a) => f a
  | Ret (Err e) => Ret (Err e)
  | Panic => Panic
  end.

Declare Scope rust_scope.
Delimit Scope rust_scope with rust.
#[global] Open Scope rust_scope.

Notation "x <-? m ; k" := (obind m (fun x => k))
  (at level 20, m at level 100, k at level 200, right associativity) : rust_scope.
Notation "x <-! m ; k" := (rbind m (fun x => k))
  (at level 20, m at level 100, k at level 200, right associativity) : rust_scope.

Notation "' x <-! m ; k" := (rbind m (fun x => k))
  (at level 20, x pattern, m at level 100, k at level 200, right associativity,
   only parsing) : rust_scope.

(** ** Machine integers *)

(** Unsigned and signed wrap-around at width [w] ([as uN], [as iN], and the
    arithmetic of a build with [overflow-checks = false]). *)
Definition wrap (w z : Z) : Z := z mod 2 ^ w.
Definition swrap (w z : Z) : Z := (z + 2 ^ (w - 1)) mod 2 ^ w - 2 ^ (w - 1).

Definition in_u (w z : Z) : Prop := 0 <= z < 2 ^ w.
Definition in_i (w z : Z) : Prop := - 2 ^ (w - 1) <= z < 2 ^ (w - 1).

#[export] Instance in_u_dec w z : Decision (in_u w z).
Proof. unfold in_u. apply _. Defined.
#[export] Instance in_i_dec w z : Decision (in_i w z).
Proof. unfold in_i. apply _. Defined.

Abbreviation u8_ok := (in_u 8).
Abbreviation bytes := (list Z).

(** The type invariant of [&[u8]]. *)
Definition bytes_ok (bs : bytes) : Prop := Forall (in_u 8) bs.

#[export] Instance bytes_ok_dec bs : Decision (bytes_ok bs).
Proof. unfold bytes_ok. apply _. Defined.

(** ** Slices *)

Definition len {A} (l : list A) : Z := Z.of_nat (length l).

(** [l[i]] *)
Definition at_ {A} (l : list A) (i : Z) : outcome A :=
  if i <? 0 then Panic else
  match l !! Z.to_nat i with Some x => Ret x | None => Panic end.

(** The elements [a .. a + n]. *)
Definition sub {A} (l : list A) (a n : Z) : list A :=
  take (Z.to_nat n) (drop (Z.to_nat a) l).

(** [&l[a..b]] *)
Definition slice {A} (l : list A) (a b : Z) : outcome (list A) :=
  if (0 <=? a) && (a <=? b) && (b <=? len l) then Ret (sub l a (b - a)) else Panic.

(** [dst[a..b].copy_from_slice(src)] *)
Definition copy_from_slice {A} (dst : list A) (a b : Z) (src : list A) : outcome (list A) :=
  if (0 <=? a) && (a <=? b) && (b <=? len dst) && (len src =? b - a)
  then Ret (take (Z.to_nat a) dst ++ src ++ drop (Z.to_nat b) dst)
  else Panic.

(** [dst[i] = x] *)
Definition set_at {A} (dst : list A) (i : Z) (x : A) : outcome (list A) :=
  copy_from_slice dst i (i + 1) [x].

(** [dst.truncate(n)] *)
Definition truncate {A} (dst : list A) (n : Z) : list A := take (Z.to_nat n) dst.

(** [[x; n]] and [vec![x; n]] *)
Definition fill {A} (x : A) (n : Z) : list A := replicate (Z.to_nat n) x.

Notation "l .[ i ]" := (at_ l i)
  (at level 1, i at level 99, left associativity, format "l .[ i ]") : rust_scope.

(** [[l[i], l[i + 1], ..]]: [n] consecutive indexed reads. *)
Definition read_at {A} (l : list A) (i n : Z) : outcome (list A) :=
  mapM (at_ l) (seqZ i n).

Notation "l .[ a ~> b ]" := (slice l a b)
  (at level 1, a at level 99, b at level 99, left associativity) : rust_scope.

(** [&l[a..]] *)
Definition slice_from {A} (l : list A) (a : Z) : outcome (list A) := slice l a (len l).

(** ** Byte order *)

Fixpoint to_le (n : nat) (z : Z) : bytes :=
  match n with
  | O => []
  | S n => z mod 256 :: to_le n (z / 256)
  end.

Fixpoint from_le (bs : bytes) : Z :=
  match bs with
  | [] => 0
  | b :: bs => b + 256 * from_le bs
  end.

Definition to_be (n : nat) (z : Z) : bytes := reverse (to_le n z).
Definition from_be (bs : bytes) : Z := from_le (reverse bs).

(** ** Tactics *)

(** Splits every boolean test of the goal and of the hypotheses. *)
Ltac bsplit :=
  repeat match goal with
  | |- context [if ?b then _ else _] =>
      lazymatch type of b with bool => destruct b eqn:? end
  | H : context [if ?b then _ else _] |- _ =>
      lazymatch type of b with bool => destruct b eqn:? end
  end.

(** Turns boolean comparisons of the context into propositions. *)
Ltac breflect :=
  repeat match goal with
  | H : (_ && _) = true |- _ => apply andb_true_iff in H; destruct H
  | H : (_ || _) = false |- _ => apply orb_false_iff in H; destruct H
  | H : negb _ = true |- _ => apply negb_true_iff in H
  | H : negb _ = false |- _ => apply negb_false_iff in H
  | H : (_ <? _) = true |- _ => apply Z.ltb_lt in H
  | H : (_ <? _) = false |- _ => apply Z.ltb_ge in H
  | H : (_ <=? _) = true |- _ => apply Z.leb_le in H
  | H : (_ <=? _) = false |- _ => apply Z.leb_gt in H
  | H : (_ =? _) = true |- _ => apply Z.eqb_eq in H
  | H : (_ =? _) = false |- _ => apply Z.eqb_neq in H
  end.

(** Arithmetic on lengths. *)
Create Rewrite HintDb lens.

Ltac len_simpl := autorewrite with lens in *.
Ltac len_solve := unfold in_u, in_i in *; len_simpl; try lia.

(** ** Lengths, indices and slices *)

Section lists.
Context {A : Type}.
Implicit Types l : list A.

Lemma len_nonneg l : 0 <= len l.
Proof. unfold len. lia. Qed.

Lemma len_nil : len (@nil A) = 0.
Proof. done. Qed.

Lemma len_cons x l : len (x :: l) = 1 + len l.
Proof. unfold len. simpl length. lia. Qed.

Lemma len_app l1 l2 : len (l1 ++ l2) = len l1 + len l2.
Proof. unfold len. rewrite length_app. lia. Qed.

Lemma len_fill x n : len (@fill A x n) = Z.max 0 n.
Proof. unfold len, fill. rewrite length_replicate. lia. Qed.

Lemma len_reverse l : len (reverse l) = len l.
Proof. unfold len. by rewrite length_reverse. Qed.

Lemma len_0_nil l : len l = 0 -> l = [].
Proof. unfold len. intros ?. apply length_zero_iff_nil. lia. Qed.

Lemma len_sub l a n :
  0 <= a -> 0 <= n -> a + n <= len l -> len (sub l a n) = n.
Proof.
  unfold len, sub. intros ???. rewrite length_take, length_drop. lia.
Qed.

Lemma at_Ret l i :
  0 <= i < len l -> exists x, at_ l i = Ret x /\ l !! Z.to_nat i = Some x.
Proof.
  unfold at_, len. intros Hi.
  destruct (i <? 0) eqn:?; breflect; [lia|].
  destruct (lookup_lt_is_Some_2 l (Z.to_nat i)) as [x Hx]; [lia|].
  exists x. by rewrite Hx.
Qed.

Lemma at_Panic l i : len l <= i -> at_ l i = Panic.
Proof.
  unfold at_, len. intros Hi. destruct (i <? 0) eqn:?; [done|].
  by rewrite lookup_ge_None_2 by lia.
Qed.

Lemma at_lookup l i x : 0 <= i -> l !! Z.to_nat i = Some x -> at_ l i = Ret x.
Proof.
  unfold at_. intros Hi Hx. destruct (i <? 0) eqn:?; breflect; [lia|].
  by rewrite Hx.
Qed.

Lemma at_app_r l1 l2 i :
  len l1 <= i -> at_ (l1 ++ l2) i = at_ l2 (i - len l1).
Proof.
  intros Hi. pose proof (len_nonneg l1). unfold at_.
  destruct (i <? 0) eqn:?, (i - len l1 <? 0) eqn:?; breflect; try lia.
  unfold len in *. rewrite lookup_app_r by lia.
  by replace (Z.to_nat i - length l1)%nat with (Z.to_nat (i - Z.of_nat (length l1)))
    by lia.
Qed.

Lemma at_app_l l1 l2 i : i < len l1 -> at_ (l1 ++ l2) i = at_ l1 i.
Proof.
  intros Hi. unfold at_. destruct (i <? 0) eqn:?; breflect; [done|].
  unfold len in *. by rewrite lookup_app_l by lia.
Qed.

Lemma at_cons_0 x l : at_ (x :: l) 0 = Ret x.
Proof. done. Qed.

Lemma at_cons_pos x l i : 0 < i -> at_ (x :: l) i = at_ l (i - 1).
Proof.
  intros Hi. unfold at_.
  destruct (i <? 0) eqn:?, (i - 1 <? 0) eqn:?; breflect; try lia.
  by replace (Z.to_nat i) with (S (Z.to_nat (i - 1))) by lia.
Qed.

Lemma slice_Ret l a b :
  0 <= a <= b -> b <= len l -> slice l a b = Ret (sub l a (b - a)).
Proof.
  intros. unfold slice.
  by rewrite !(proj2 (Z.leb_le _ _)) by lia.
Qed.

Lemma slice_Panic l a b : len l < b -> slice l a b = Panic.
Proof.
  intros. unfold slice.
  rewrite (proj2 (Z.leb_gt b (len l))) by lia. by rewrite andb_false_r.
Qed.

Lemma slice_from_Ret l a :
  0 <= a <= len l -> slice_from l a = Ret (sub l a (len l - a)).
Proof. intros. unfold slice_from. by apply slice_Ret; lia. Qed.

Lemma slice_from_Panic l a : len l < a -> slice_from l a = Panic.
Proof.
  intros. unfold slice_from, slice.
  rewrite (proj2 (Z.leb_gt a (len l))) by lia. by rewrite andb_false_r.
Qed.

Lemma sub_step l a n :
  0 <= a < len l -> 0 <= n ->
  exists x, at_ l a = Ret x /\ sub l a (1 + n) = x :: sub l (a + 1) n.
Proof.
  intros Ha Hn. destruct (at_Ret l a Ha) as (x & Hx & Hl). exists x. split; [done|].
  unfold sub. rewrite (drop_S l x (Z.to_nat a)) by done.
  replace (Z.to_nat (1 + n)) with (S (Z.to_nat n)) by lia.
  by replace (Z.to_nat (a + 1)) with (S (Z.to_nat a)) by lia.
Qed.

(** In range, consecutive reads are a sub-list; out of range they panic. *)
Lemma read_at_Ret l a n :
  0 <= a -> 0 <= n -> a + n <= len l -> read_at l a n = Ret (sub l a n).
Proof.
  intros Ha Hn. revert a Ha. pattern n. apply natlike_ind; [done| |done].
  intros m Hm IH a Ha Hl. unfold read_at in *.
  rewrite seqZ_cons, Z.pred_succ by lia. cbn [mapM].
  destruct (sub_step l a m ltac:(lia) Hm) as (x & -> & Hs).
  cbn [mbind outcome_bind]. rewrite <- Z.add_1_r, IH by lia.
  rewrite <- Z.add_1_r, (Z.add_comm m 1), Hs. done.
Qed.

Lemma read_at_Panic l a n :
  0 <= a -> 0 < n -> len l < a + n -> read_at l a n = Panic.
Proof.
  intros Ha Hn. revert a Ha. pattern n. apply Zlt_lower_bound_ind with (z := 1); [|lia].
  intros m IH Hm a Ha Hl. unfold read_at in *.
  rewrite seqZ_cons by lia. cbn [mapM].
  destruct (at_ l a) as [x|] eqn:E; [|done]. cbn [mbind outcome_bind].
  destruct (decide (m = 1)) as [->|].
  - rewrite at_Panic in E by lia. done.
  - rewrite IH by lia. done.
Qed.

Lemma sub_app_r l1 l2 a n :
  len l1 <= a -> sub (l1 ++ l2) a n = sub l2 (a - len l1) n.
Proof.
  unfold sub, len. intros Ha. rewrite drop_app_ge by lia.
  by replace (Z.to_nat a - length l1)%nat with (Z.to_nat (a - Z.of_nat (length l1))) by lia.
Qed.

Lemma sub_app_l l1 l2 n : n = len l1 -> sub (l1 ++ l2) 0 n = l1.
Proof.
  unfold sub, len. intros ->. rewrite Nat2Z.id, drop_0. by rewrite take_app_length.
Qed.

Lemma sub_app_in l1 l2 a n :
  0 <= a -> 0 <= n -> a + n <= len l1 -> sub (l1 ++ l2) a n = sub l1 a n.
Proof.
  unfold sub, len. intros. rewrite drop_app_le by lia.
  rewrite take_app_le by (rewrite length_drop; lia). done.
Qed.

Lemma sub_all l n : n = len l -> sub l 0 n = l.
Proof. intros ->. rewrite <- (app_nil_r l) at 1. by apply sub_app_l. Qed.

Lemma sub_mid l1 l2 l3 a n :
  a = len l1 -> n = len l2 -> sub (l1 ++ l2 ++ l3) a n = l2.
Proof.
  intros -> ->. rewrite sub_app_r by lia. rewrite Z.sub_diag. by apply sub_app_l.
Qed.

Lemma sub_0 l a : sub l a 0 = [].
Proof. done. Qed.

Lemma sub_cons x l a n : 0 < a -> sub (x :: l) a n = sub l (a - 1) n.
Proof.
  unfold sub. intros Ha.
  by replace (Z.to_nat a) with (S (Z.to_nat (a - 1))) by lia.
Qed.

Lemma sub_split l a :
  0 <= a <= len l -> l = sub l 0 a ++ sub l a (len l - a).
Proof.
  unfold sub, len. intros Ha. rewrite drop_0.
  rewrite (take_ge (drop _ _)); [by rewrite take_drop|].
  rewrite length_drop. lia.
Qed.

Lemma sub_sub l a n b m :
  0 <= a -> 0 <= b -> 0 <= m -> b + m <= n ->
  sub (sub l a n) b m = sub l (a + b) m.
Proof.
  unfold sub. intros. rewrite skipn_firstn_comm, take_take, drop_drop.
  f_equal; [lia|]. f_equal. lia.
Qed.

Lemma sub_app_sub l a n m :
  0 <= a -> 0 <= n -> 0 <= m ->
  sub l a n ++ sub l (a + n) m = sub l a (n + m).
Proof.
  unfold sub. intros.
  replace (Z.to_nat (a + n)) with (Z.to_nat a + Z.to_nat n)%nat by lia.
  rewrite <- drop_drop. rewrite Z2Nat.inj_add by lia.
  generalize (drop (Z.to_nat a) l). intros k.
  revert k. induction (Z.to_nat n) as [|p IH]; intros k; [done|].
  destruct k as [|x k]; simpl; [by rewrite take_nil|]. by rewrite IH.
Qed.

Lemma sub_fill (x : A) n a m :
  0 <= a -> 0 <= m -> a + m <= n -> sub (fill x n) a m = fill x m.
Proof.
  unfold sub, fill. intros. rewrite drop_replicate, take_replicate. f_equal. lia.
Qed.

Lemma copy_Ret l a b src :
  0 <= a -> a <= b -> b <= len l -> len src = b - a ->
  copy_from_slice l a b src =
  Ret (sub l 0 a ++ src ++ sub l b (len l - b)).
Proof.
  intros. unfold copy_from_slice, sub. rewrite drop_0.
  rewrite !(proj2 (Z.leb_le _ _)) by lia.
  rewrite (proj2 (Z.eqb_eq _ _)) by lia. simpl. do 3 f_equal.
  rewrite take_ge; [done|]. rewrite length_drop. unfold len in *. lia.
Qed.

(** Overwriting [src] at the start of what follows the prefix [pre]. *)
Lemma copy_after (pre src old suf : list A) a b :
  a = len pre -> b = a + len src -> len old = len src ->
  copy_from_slice (pre ++ old ++ suf) a b src = Ret (pre ++ src ++ suf).
Proof.
  intros -> -> Hold. pose proof (len_nonneg pre). pose proof (len_nonneg src).
  pose proof (len_nonneg suf).
  rewrite copy_Ret by (rewrite ?len_app; lia). do 2 f_equal; [by apply sub_app_l|].
  f_equal. rewrite sub_app_r by lia. rewrite sub_app_r by lia.
  rewrite !len_app. replace (len pre + len src - len pre - len old) with 0 by lia.
  apply sub_all. lia.
Qed.

Lemma copy_first (src old suf : list A) b :
  b = len src -> len old = len src ->
  copy_from_slice (old ++ suf) 0 b src = Ret (src ++ suf).
Proof. intros. by apply (copy_after []). Qed.

Lemma truncate_app (l1 l2 : list A) n : n = len l1 -> truncate (l1 ++ l2) n = l1.
Proof. intros ->. unfold truncate, len. rewrite Nat2Z.id. apply take_app_length. Qed.

Lemma fill_split (x : A) n m : 0 <= m <= n -> fill x n = fill x m ++ fill x (n - m).
Proof.
  intros. unfold fill. rewrite <- replicate_add. f_equal. lia.
Qed.

(** Writing at the cursor of a buffer filled from the left. *)
Lemma copy_cursor (x : A) (pre src : list A) n a b :
  a = len pre -> b = a + len src -> len src <= n ->
  copy_from_slice (pre ++ fill x n) a b src = Ret ((pre ++ src) ++ fill x (n - len src)).
Proof.
  intros -> -> Hn. pose proof (len_nonneg src).
  rewrite (fill_split x n (len src)) by lia.
  rewrite copy_after by (rewrite ?len_fill; lia). by rewrite <- app_assoc.
Qed.

Lemma copy_cursor_0 (x : A) (src : list A) n b :
  b = len src -> len src <= n ->
  copy_from_slice (fill x n) 0 b src = Ret (src ++ fill x (n - len src)).
Proof. intros. by apply (copy_cursor x []). Qed.
End lists.

#[export] Hint Rewrite @len_nil @len_cons @len_app @len_fill @len_reverse : lens.
#[export] Hint Rewrite @len_sub using (len_solve) : lens.

Lemma Forall_sub {A} (P : A -> Prop) l a n : Forall P l -> Forall P (sub l a n).
Proof. intros. unfold sub. by apply Forall_take, Forall_drop. Qed.

Lemma at_Forall {A} (P : A -> Prop) l i x :
  Forall P l -> at_ l i = Ret x -> P x.
Proof.
  unfold at_. intros Hl Hx. destruct (i <? 0); [done|].
  destruct (l !! Z.to_nat i) as [y|] eqn:E; simplify_eq.
  eapply Forall_lookup_1; eauto.
Qed.

#[export] Instance filter_bool_perm {A} (f : A -> bool) :
  Proper ((≡ₚ) ==> (≡ₚ)) (List.filter f).
Proof.
  intros l1 l2 H. induction H as [|x l1 l2 _ IH|x y l|l1 l2 l3 _ IH1 _ IH2]; cbn.
  - done.
  - destruct (f x); by rewrite IH.
  - destruct (f x), (f y); try done. apply Permutation_swap.
  - by transitivity (List.filter f l2).
Qed.

Lemma NoDup_drop_list {A} (l : list A) n : NoDup l -> NoDup (drop n l).
Proof.
  intros H. rewrite <- (take_drop n l) in H. by apply list.NoDup_app in H as (_ & _ & ?).
Qed.

(** ** Outcomes *)

Lemma bind_Ret {A B} (m : outcome A) (f : A -> outcome B) b :
  (m ≫= f) = Ret b -> exists a, m = Ret a /\ f a = Ret b.
Proof. destruct m; simpl; [eauto|done]. Qed.

(** Evaluates the binds of a computation whose head is a value. *)
Ltac mstep :=
  cbn [mbind outcome_bind mret outcome_ret obind rbind].

(** Reads of a literal index of a list given by its first elements. *)
Ltac at_lit :=
  repeat match goal with
  | |- context [at_ (?x :: ?l) ?i] =>
      let v := eval hnf in (at_ (x :: l) i) in
      lazymatch v with Ret ?y => change (at_ (x :: l) i) with (Ret y) end
  end.

(** Resolves comparisons decided by the context. *)
Ltac bcase :=
  match goal with
  | |- context [?a <? ?b] =>
      first [ rewrite (proj2 (Z.ltb_lt a b)) by (first [lia | len_simpl; lia])
            | rewrite (proj2 (Z.ltb_ge a b)) by (first [lia | len_simpl; lia]) ]
  | |- context [?a <=? ?b] =>
      first [ rewrite (proj2 (Z.leb_le a b)) by (first [lia | len_simpl; lia])
            | rewrite (proj2 (Z.leb_gt a b)) by (first [lia | len_simpl; lia]) ]
  | |- context [?a =? ?b] =>
      first [ rewrite (proj2 (Z.eqb_eq a b)) by (first [lia | len_simpl; lia])
            | rewrite (proj2 (Z.eqb_neq a b)) by (first [lia | len_simpl; lia]) ]
  end.

(** Inverts a successful monadic computation. *)
Ltac inv_ret :=
  repeat match goal with
  | H : Ret _ = Ret _ |- _ => injection H as H; subst
  | H : Panic = Ret _ |- _ => discriminate H
  | H : Ret _ = Panic |- _ => discriminate H
  | H : (_ ≫= _) = Ret _ |- _ => apply bind_Ret in H as (? & ? & ?)
  end.

(** ** Wrap-around *)

Lemma wrap_range w z : 0 <= w -> in_u w (wrap w z).
Proof. intros. unfold in_u, wrap. apply Z.mod_pos_bound. lia. Qed.

Lemma wrap_small w z : in_u w z -> wrap w z = z.
Proof. unfold in_u, wrap. apply Z.mod_small. Qed.

Lemma pow_double w : 1 <= w -> 2 ^ w = 2 * 2 ^ (w - 1).
Proof. intros. rewrite <- Z.pow_succ_r by lia. f_equal. lia. Qed.

Lemma swrap_range w z : 1 <= w -> in_i w (swrap w z).
Proof.
  intros. unfold in_i, swrap.
  pose proof (pow_double w ltac:(lia)).
  pose proof (Z.mod_pos_bound (z + 2 ^ (w - 1)) (2 ^ w) ltac:(lia)). lia.
Qed.

Lemma swrap_small w z : 1 <= w -> in_i w z -> swrap w z = z.
Proof.
  intros ? [? ?]. unfold swrap. pose proof (pow_double w ltac:(lia)).
  rewrite Z.mod_small by lia. lia.
Qed.

(** Reading the two's complement pattern of a signed integer back. *)
Lemma swrap_wrap w z : 1 <= w -> in_i w z -> swrap w (wrap w z) = z.
Proof.
  intros ? Hz. rewrite <- (swrap_small w z) at 2 by done.
  unfold swrap, wrap. by rewrite Zplus_mod_idemp_l.
Qed.

Lemma wrap_swrap w z : 1 <= w -> in_u w z -> wrap w (swrap w z) = z.
Proof.
  intros ? Hz. rewrite <- (wrap_small w z) at 2 by done. unfold wrap, swrap.
  rewrite Zminus_mod_idemp_l. f_equal. lia.
Qed.

(** ** Byte order *)

Create HintDb rbytes discriminated.

Lemma to_le_length n z : length (to_le n z) = n.
Proof. revert z. induction n; intros; simpl; [done|]. by rewrite IHn. Qed.

Lemma len_to_le n z : len (to_le n z) = Z.of_nat n.
Proof. unfold len. by rewrite to_le_length. Qed.

Lemma len_to_be n z : len (to_be n z) = Z.of_nat n.
Proof. unfold to_be. by rewrite len_reverse, len_to_le. Qed.

#[export] Hint Rewrite len_to_le len_to_be : lens.

Lemma to_le_ok n z : bytes_ok (to_le n z).
Proof.
  revert z. induction n; intros z; constructor; [|apply IHn].
  apply (Z.mod_pos_bound z 256). lia.
Qed.

Lemma bytes_ok_reverse bs : bytes_ok bs -> bytes_ok (reverse bs).
Proof. intros. unfold bytes_ok. by apply Forall_reverse. Qed.

Lemma to_be_ok n z : bytes_ok (to_be n z).
Proof. apply bytes_ok_reverse, to_le_ok. Qed.

Lemma bytes_ok_app a b : bytes_ok a -> bytes_ok b -> bytes_ok (a ++ b).
Proof. intros. by apply Forall_app. Qed.

Lemma bytes_ok_app_inv a b : bytes_ok (a ++ b) -> bytes_ok a /\ bytes_ok b.
Proof. by intros [? ?]%Forall_app. Qed.

Lemma bytes_ok_sub l a n : bytes_ok l -> bytes_ok (sub l a n).
Proof. apply Forall_sub. Qed.

Lemma bytes_ok_cons b l : in_u 8 b -> bytes_ok l -> bytes_ok (b :: l).
Proof. by constructor. Qed.

Lemma bytes_ok_nil : bytes_ok [].
Proof. constructor. Qed.

#[export] Hint Resolve to_le_ok to_be_ok bytes_ok_reverse bytes_ok_app bytes_ok_sub
  bytes_ok_cons bytes_ok_nil : rbytes.

Lemma from_le_range bs : bytes_ok bs -> in_u (8 * len bs) (from_le bs).
Proof.
  unfold in_u. induction 1 as [|b bs Hb _ IH]; [done|].
  rewrite len_cons. simpl from_le. unfold in_u in Hb.
  pose proof (len_nonneg bs).
  replace (8 * (1 + len bs)) with (8 + 8 * len bs) by lia.
  rewrite Z.pow_add_r by lia. lia.
Qed.

Lemma from_be_range bs : bytes_ok bs -> in_u (8 * len bs) (from_be bs).
Proof.
  intros. unfold from_be. rewrite <- (len_reverse bs).
  by apply from_le_range, bytes_ok_reverse.
Qed.

Lemma from_to_le n z : from_le (to_le n z) = wrap (8 * Z.of_nat n) z.
Proof.
  revert z. induction n as [|n IH]; intros z; simpl from_le.
  { unfold wrap. by rewrite Z.mod_1_r. }
  rewrite IH. unfold wrap.
  replace (8 * Z.of_nat (S n)) with (8 + 8 * Z.of_nat n) by lia.
  rewrite Z.pow_add_r by lia. change (2 ^ 8) with 256.
  rewrite Z.rem_mul_r by lia. done.
Qed.

Lemma from_to_be n z : from_be (to_be n z) = wrap (8 * Z.of_nat n) z.
Proof. unfold from_be, to_be. by rewrite reverse_involutive, from_to_le. Qed.

Lemma from_to_be_small n z : in_u (8 * Z.of_nat n) z -> from_be (to_be n z) = z.
Proof. intros. rewrite from_to_be. by apply wrap_small. Qed.

Lemma to_from_le bs : bytes_ok bs -> to_le (length bs) (from_le bs) = bs.
Proof.
  induction 1 as [|b bs Hb _ IH]; simpl; [done|]. unfold in_u in Hb.
  rewrite Z.mul_comm, Z.mod_add, Z.div_add by lia.
  rewrite Z.mod_small, Z.div_small, Z.add_0_l by lia. by rewrite IH.
Qed.

Lemma to_from_be n bs : bytes_ok bs -> len bs = Z.of_nat n -> to_be n (from_be bs) = bs.
Proof.
  unfold len. intros Hok Hn. unfold to_be, from_be.
  replace n with (length (reverse bs)) by (rewrite length_reverse; lia).
  rewrite to_from_le by eauto with rbytes. apply reverse_involutive.
Qed.
