(* ===== verification/Float64.v ===== *)
(** * Double precision arithmetic

    The [f64] operations the program uses, on the Standard Library's
    specification floats at precision 53 and exponent bound 1024: conversion from
    an integer ([as f64], round to nearest even), product, quotient, comparison,
    and the saturating truncation [as iN] / [as uN] (NaN gives zero). *)

From Stdlib Require Import SpecFloat.
From S2P Require Import Prelude.

Definition prec : Z := 53.
Definition emax : Z := 1024.

Abbreviation f64 := spec_float.

Definition f64_of_Z (z : Z) : f64 := binary_normalize prec emax z 0 false.
Definition f64_mul (x y : f64) : f64 := SFmul prec emax x y.
Definition f64_div (x y : f64) : f64 := SFdiv prec emax x y.
Definition f64_add (x y : f64) : f64 := SFadd prec emax x y.
Definition f64_sub (x y : f64) : f64 := SFsub prec emax x y.
Definition f64_ltb (x y : f64) : bool := SFltb x y.

(** Truncation towards zero. *)
Definition f64_trunc (x : f64) : option Z :=
  match x with
  | S754_zero _ => Some 0
  | S754_finite s m e =>
      let a := if 0 <=? e then Zpos m * 2 ^ e else Zpos m / 2 ^ (- e) in
      Some (if s then - a else a)
  | _ => None
  end.

(** [x as iN] / [x as uN] for the range [lo .. hi]. *)
Definition f64_as (lo hi : Z) (x : f64) : Z :=
  match x with
  | S754_nan => 0
  | S754_infinity s => if s then lo else hi
  | _ => match f64_trunc x with Some z => Z.max lo (Z.min hi z) | None => 0 end
  end.

Definition as_i64 : f64 -> Z := f64_as (- 2 ^ 63) (2 ^ 63 - 1).
Definition as_usize : f64 -> Z := f64_as 0 (2 ^ 64 - 1).

Lemma f64_as_range lo hi x : lo <= 0 <= hi -> lo <= f64_as lo hi x <= hi.
Proof.
  intros. unfold f64_as. destruct x as [s|s| |s m e]; [|destruct s; lia|lia|];
    destruct (f64_trunc _); lia.
Qed.

Example f64_average : as_i64 (f64_div (f64_of_Z (-7)) (f64_of_Z 2)) = -3.
Proof. vm_compute. reflexivity. Qed.
Example f64_saturates : as_usize (f64_mul (f64_of_Z (2 ^ 63)) (f64_of_Z 4)) = 2 ^ 64 - 1.
Proof. vm_compute. reflexivity. Qed.
