(* ===== verification/Protocol.v ===== *)
(** * The protocol vocabulary ([src/src/protocol.rs])

    [Protocol], [Priority] and the bi-temporal [Message] every other component
    exchanges, with the per-protocol size limits and spread thresholds.  The
    clock read by [Message::new] is the argument [now]. *)

From S2P Require Import Prelude Float64.

Inductive Protocol :=
| IridiumSBD | InmarsatC | VSAT | HFVHF | RockBLOCK | Samsara | NIDD
| ASTSpaceMobile | LoRaMesh.

Inductive Priority := Emergency | SafetyCritical | Operational | Diagnostic.

#[export] Instance Protocol_eq_dec : EqDecision Protocol.
Proof. solve_decision. Defined.
#[export] Instance Priority_eq_dec : EqDecision Priority.
Proof. solve_decision. Defined.

(** [protocol as u64] *)
Definition protocol_discr (p : Protocol) : Z :=
  match p with
  | IridiumSBD => 0 | InmarsatC => 1 | VSAT => 2 | HFVHF => 3 | RockBLOCK => 4
  | Samsara => 5 | NIDD => 6 | ASTSpaceMobile => 7 | LoRaMesh => 8
  end.

Definition protocol_of_discr (z : Z) : option Protocol :=
  list_find (fun p => protocol_discr p = z)
    [IridiumSBD; InmarsatC; VSAT; HFVHF; RockBLOCK; Samsara; NIDD; ASTSpaceMobile; LoRaMesh]
  ≫= fun '(_, p) => Some p.

#[export] Instance Protocol_countable : Countable Protocol.
Proof.
  refine (inj_countable protocol_discr protocol_of_discr _).
  by intros [].
Defined.

Record Message := mkMessage {
  protocol : Protocol;
  data : bytes;
  priority : Priority;
  timestamp : Z;
  t_event : Z;
  t_system : Z
}.

#[export] Instance Message_eq_dec : EqDecision Message.
Proof. solve_decision. Defined.

(** The Rust types of the fields. *)
Definition msg_ok (m : Message) : Prop :=
  bytes_ok (data m) /\ in_u 64 (timestamp m) /\ in_u 64 (t_event m) /\ in_u 64 (t_system m).

#[export] Instance msg_ok_dec m : Decision (msg_ok m).
Proof. unfold msg_ok. apply _. Defined.

(** ** Protocol constants *)

Definition max_message_size (p : Protocol) : Z :=
  match p with
  | IridiumSBD => 340
  | InmarsatC => 128
  | VSAT => 65536
  | HFVHF => 1024
  | RockBLOCK => 340
  | Samsara => 1048576
  | NIDD => 1600
  | ASTSpaceMobile => 120000000
  | LoRaMesh => 250
  end.

Definition requires_compression (p : Protocol) : bool :=
  match p with VSAT | HFVHF | NIDD => true | _ => false end.

Definition spread_burst_threshold_ms (p : Protocol) : Z :=
  match p with
  | Samsara => 5000
  | IridiumSBD | RockBLOCK => 120000
  | InmarsatC => 300000
  | VSAT => 3000
  | HFVHF => 30000
  | NIDD => 10000
  | ASTSpaceMobile => 1000
  | LoRaMesh => 60000
  end.

Definition protocol_display (p : Protocol) : string :=
  match p with
  | IridiumSBD => "IridiumSBD"
  | InmarsatC => "InmarsatC"
  | VSAT => "VSAT"
  | HFVHF => "HFVHF"
  | RockBLOCK => "RockBLOCK"
  | Samsara => "Samsara"
  | NIDD => "NIDD"
  | ASTSpaceMobile => "ASTSpaceMobile"
  | LoRaMesh => "LoRaMesh"
  end.

(** ** Messages *)

(** [Message::new]: the packet size guard, then the clock. *)
Definition message_new (now : Z) (p : Protocol) (d : bytes) (pr : Priority) : Message :=
  let max_size := max_message_size p in
  let d := if max_size <? len d then sub d 0 max_size else d in
  mkMessage p d pr now now now.

(** [Message::new_with_temporal]: no size guard. *)
Definition new_with_temporal (p : Protocol) (d : bytes) (pr : Priority) (te ts : Z) : Message :=
  mkMessage p d pr ts te ts.

(** [self.t_system as i64 - self.t_event as i64] *)
Definition spread_ms (m : Message) : Z :=
  swrap 64 (swrap 64 (t_system m) - swrap 64 (t_event m)).

Definition spread_seconds (m : Message) : f64 := f64_div (f64_of_Z (spread_ms m)) (f64_of_Z 1000).
Definition is_delayed (m : Message) : bool := 0 <? spread_ms m.
Definition is_future (m : Message) : bool := spread_ms m <? 0.
Definition is_emergency (m : Message) : bool := bool_decide (priority m = Emergency).
Definition size_of (m : Message) : Z := len (data m).

(** Field updates used by the gateway. *)
Definition with_t_event (m : Message) (te : Z) : Message :=
  mkMessage (protocol m) (data m) (priority m) (timestamp m) te (t_system m).
Definition with_t_system (m : Message) (ts : Z) : Message :=
  mkMessage (protocol m) (data m) (priority m) (timestamp m) (t_event m) ts.

(** ** Lemmas *)

Lemma max_message_size_pos p : 0 < max_message_size p.
Proof. by destruct p. Qed.

Lemma protocol_discr_inj p q : protocol_discr p = protocol_discr q -> p = q.
Proof. by destruct p, q. Qed.

Lemma protocol_display_inj p q : protocol_display p = protocol_display q -> p = q.
Proof. by destruct p, q. Qed.

Lemma message_new_ok now p d pr :
  in_u 64 now -> bytes_ok d -> msg_ok (message_new now p d pr).
Proof.
  intros Hn Hd. unfold message_new, msg_ok. simpl.
  split_and!; [|done..]. bsplit; [by apply bytes_ok_sub|done].
Qed.

(** A message inside the size limit is stored unchanged. *)
Lemma message_new_fits now p d pr :
  len d <= max_message_size p -> data (message_new now p d pr) = d.
Proof.
  intros. unfold message_new. simpl.
  by rewrite (proj2 (Z.ltb_ge _ _)) by lia.
Qed.

Lemma message_new_size now p d pr :
  len (data (message_new now p d pr)) <= max_message_size p.
Proof.
  pose proof (max_message_size_pos p). unfold message_new. cbn [data].
  destruct (max_message_size p <? len d) eqn:E; breflect; [rewrite len_sub by lia|]; lia.
Qed.

(** For timestamps below [2^63] the casts are the identity. *)
Lemma spread_ms_exact m :
  0 <= t_event m < 2 ^ 63 -> 0 <= t_system m < 2 ^ 63 ->
  spread_ms m = t_system m - t_event m.
Proof.
  intros. unfold spread_ms.
  rewrite (swrap_small 64 (t_system m)), (swrap_small 64 (t_event m)), swrap_small;
    unfold in_i; change (2 ^ (64 - 1)) with (2 ^ 63); lia.
Qed.

Lemma spread_ms_range m : in_i 64 (spread_ms m).
Proof. by apply swrap_range. Qed.

(** ** Properties *)

(** The size guard: whatever the input, the stored payload is a prefix of it, no
    longer than the protocol's limit, and it is the whole input exactly when the
    input fits. *)
Theorem message_new_guard now p d pr :
  exists rest,
    d = data (message_new now p d pr) ++ rest /\
    size_of (message_new now p d pr) = Z.min (len d) (max_message_size p) /\
    (rest = [] <-> len d <= max_message_size p).
Proof.
  pose proof (max_message_size_pos p).
  pose proof (len_nonneg d).
  unfold message_new, size_of. simpl.
  destruct (max_message_size p <? len d) eqn:E; breflect.
  - exists (sub d (max_message_size p) (len d - max_message_size p)).
    split_and!.
    + by apply sub_split; lia.
    + rewrite len_sub by lia. lia.
    + split; [|lia]. intros Hn. apply (f_equal len) in Hn.
      rewrite len_sub, len_nil in Hn by lia. lia.
  - exists []. rewrite app_nil_r. split_and!; [done|lia|]. split; [lia|done].
Qed.

(** The spread is exact below [2^63] ms, and the two predicates split it. *)
Theorem spread_trichotomy m
  (He : 0 <= t_event m < 2 ^ 63) (Hs : 0 <= t_system m < 2 ^ 63) :
  spread_ms m = t_system m - t_event m /\
  (is_delayed m = true <-> t_event m < t_system m) /\
  (is_future m = true <-> t_system m < t_event m) /\
  (is_delayed m = false /\ is_future m = false <-> t_event m = t_system m).
Proof.
  unfold is_delayed, is_future. rewrite spread_ms_exact by done.
  rewrite !Z.ltb_lt, !Z.ltb_ge. lia.
Qed.

Lemma spread_trichotomy_witness :
  spread_ms (mkMessage IridiumSBD [1] Operational 5000 1000 5000) = 4000.
Proof.
  destruct (spread_trichotomy (mkMessage IridiumSBD [1] Operational 5000 1000 5000)
    ltac:(simpl; lia) ltac:(simpl; lia)) as [H _]. exact H.
Defined.
