(* ===== verification/Crc.v ===== *)
(** * Cyclic redundancy checks

    The algebra behind the checksum loops of the source
    ([iridium_sbd.rs], [hardware/atecc608b.rs], [sensor/rs232.rs]).  A loop that shifts the
    register most (or least) significant bit first and folds a polynomial in is
    a linear map over GF(2); linearity gives injectivity of the register update,
    and injectivity gives the error-detection theorems of the components. *)

From S2P Require Import Prelude.

(** One round of the inner loop, most significant bit first. *)
Definition msb_bit (w poly c : Z) : Z :=
  if negb (Z.land c (2 ^ (w - 1)) =? 0)
  then Z.lxor (wrap w (Z.shiftl c 1)) poly
  else wrap w (Z.shiftl c 1).

(** One byte: fold it into the top of the register, then eight rounds. *)
Definition msb_byte (w poly c b : Z) : Z :=
  Nat.iter 8 (msb_bit w poly) (Z.lxor c (wrap w (Z.shiftl b (w - 8)))).

Definition msb_crc (w poly : Z) (c : Z) (bs : bytes) : Z :=
  fold_left (msb_byte w poly) bs c.

(** One round of the inner loop, least significant bit first. *)
Definition lsb_bit (poly c : Z) : Z :=
  if negb (Z.land c 1 =? 0) then Z.lxor (Z.shiftr c 1) poly else Z.shiftr c 1.

Definition lsb_byte (poly c b : Z) : Z := Nat.iter 8 (lsb_bit poly) (Z.lxor c b).

Definition lsb_crc (poly : Z) (c : Z) (bs : bytes) : Z :=
  fold_left (lsb_byte poly) bs c.

(** ** Bits of bounded integers *)

Lemma land_pow2_eqb c n : 0 <= n -> negb (Z.land c (2 ^ n) =? 0) = Z.testbit c n.
Proof.
  intros Hn. destruct (Z.testbit c n) eqn:E.
  - apply negb_true_iff, Z.eqb_neq. intros H0.
    apply (f_equal (fun z => Z.testbit z n)) in H0.
    rewrite Z.land_spec, E, Z.pow2_bits_true, Z.bits_0 in H0 by lia. done.
  - apply negb_false_iff, Z.eqb_eq, Z.bits_inj_iff. intros m.
    rewrite Z.land_spec, Z.bits_0, Z.pow2_bits_eqb by lia.
    destruct (Z.eqb_spec n m) as [<-|]; [by rewrite E|apply andb_false_r].
Qed.

Lemma in_u_bits w z :
  0 <= w -> 0 <= z -> (in_u w z <-> forall n, w <= n -> Z.testbit z n = false).
Proof.
  intros Hw Hz. unfold in_u.
  rewrite <- Z.bounded_iff_bits_nonneg by lia. lia.
Qed.

Lemma in_u_lxor w a b : 0 <= w -> in_u w a -> in_u w b -> in_u w (Z.lxor a b).
Proof.
  intros Hw Ha Hb. pose proof (proj1 Ha). pose proof (proj1 Hb).
  apply in_u_bits; [done|by apply Z.lxor_nonneg|]. intros n Hn.
  rewrite Z.lxor_spec.
  by rewrite (proj1 (in_u_bits w a Hw ltac:(done)) Ha n Hn),
    (proj1 (in_u_bits w b Hw ltac:(done)) Hb n Hn).
Qed.

Lemma in_u_mono w1 w2 z : 0 <= w1 <= w2 -> in_u w1 z -> in_u w2 z.
Proof.
  unfold in_u. intros ? [? ?]. pose proof (Z.pow_le_mono_r 2 w1 w2). lia.
Qed.

Lemma wrap_testbit w z n :
  0 <= w -> Z.testbit (wrap w z) n = (n <? w) && Z.testbit z n.
Proof.
  intros. unfold wrap. rewrite <- Z.land_ones by lia. rewrite Z.land_spec.
  rewrite Z.testbit_ones by lia. rewrite andb_comm.
  destruct (Z.ltb_spec n w), (Z.leb_spec 0 n); simpl; try done.
  by rewrite Z.testbit_neg_r by lia.
Qed.

(** ** Most significant bit first *)

Section msb.
Context (w poly : Z) (Hw : 8 <= w) (Hpoly : in_u w poly) (Hodd : Z.testbit poly 0 = true).

Lemma msb_bit_testbit c n :
  0 <= n ->
  Z.testbit (msb_bit w poly c) n =
  xorb ((n <? w) && Z.testbit c (n - 1)) (Z.testbit c (w - 1) && Z.testbit poly n).
Proof.
  intros Hn. unfold msb_bit. rewrite land_pow2_eqb by lia.
  destruct (Z.testbit c (w - 1)); rewrite ?Z.lxor_spec, wrap_testbit by lia;
    rewrite Z.shiftl_spec by lia; simpl; [done|by rewrite xorb_false_r].
Qed.

Lemma msb_bit_nonneg c : 0 <= msb_bit w poly c.
Proof.
  unfold msb_bit. destruct Hpoly.
  pose proof (wrap_range w (Z.shiftl c 1) ltac:(lia)) as [? ?].
  bsplit; [by apply Z.lxor_nonneg|done].
Qed.

Lemma msb_bit_range c : in_u w (msb_bit w poly c).
Proof.
  apply in_u_bits; [lia|apply msb_bit_nonneg|]. intros n Hn.
  rewrite msb_bit_testbit by lia.
  rewrite (proj1 (in_u_bits w poly ltac:(lia) (proj1 Hpoly)) Hpoly n Hn).
  rewrite (proj2 (Z.ltb_ge n w)) by lia. by rewrite andb_false_r.
Qed.

Lemma msb_bit_linear a b :
  msb_bit w poly (Z.lxor a b) = Z.lxor (msb_bit w poly a) (msb_bit w poly b).
Proof.
  apply Z.bits_inj_iff'. intros n Hn.
  rewrite Z.lxor_spec, !msb_bit_testbit, !Z.lxor_spec by done.
  destruct (n <? w), (Z.testbit a (n - 1)), (Z.testbit b (n - 1)),
    (Z.testbit a (w - 1)), (Z.testbit b (w - 1)), (Z.testbit poly n); done.
Qed.

(** The kernel of a round is trivial: bit 0 of the result is the bit shifted out. *)
Lemma msb_bit_kernel c : in_u w c -> msb_bit w poly c = 0 -> c = 0.
Proof.
  intros Hc H0.
  assert (Htop : Z.testbit c (w - 1) = false).
  { apply (f_equal (fun z => Z.testbit z 0)) in H0.
    rewrite msb_bit_testbit, Z.bits_0, Hodd in H0 by lia.
    rewrite (Z.testbit_neg_r c (0 - 1)) in H0 by lia.
    rewrite andb_false_r, andb_true_r in H0. by destruct (Z.testbit c (w - 1)). }
  apply Z.bits_inj_iff'. intros n Hn. rewrite Z.bits_0.
  destruct (decide (w <= n)) as [Hge|Hlt].
  { by apply (in_u_bits w c); [lia|apply Hc|..]. }
  destruct (decide (n = w - 1)) as [->|Hne]; [done|].
  apply (f_equal (fun z => Z.testbit z (n + 1))) in H0.
  rewrite msb_bit_testbit, Z.bits_0, Htop in H0 by lia.
  replace (n + 1 - 1) with n in H0 by lia.
  rewrite (proj2 (Z.ltb_lt (n + 1) w)) in H0 by lia. simpl in H0.
  by rewrite xorb_false_r in H0.
Qed.

Lemma msb_iter_linear k a b :
  Nat.iter k (msb_bit w poly) (Z.lxor a b) =
  Z.lxor (Nat.iter k (msb_bit w poly) a) (Nat.iter k (msb_bit w poly) b).
Proof. induction k as [|k IH]; simpl; [done|]. by rewrite IH, msb_bit_linear. Qed.

Lemma msb_iter_range k c : in_u w c -> in_u w (Nat.iter k (msb_bit w poly) c).
Proof. destruct k; simpl; intros; [done|apply msb_bit_range]. Qed.

Lemma msb_iter_kernel k c :
  in_u w c -> Nat.iter k (msb_bit w poly) c = 0 -> c = 0.
Proof.
  intros Hc. induction k as [|k IH]; simpl; [done|].
  intros H0. apply IH, msb_bit_kernel; [by apply msb_iter_range|done].
Qed.

Lemma msb_iter_inj k a b :
  in_u w a -> in_u w b ->
  Nat.iter k (msb_bit w poly) a = Nat.iter k (msb_bit w poly) b -> a = b.
Proof.
  intros Ha Hb H. apply Z.lxor_eq. apply (msb_iter_kernel k).
  - apply in_u_lxor; [lia|done..].
  - rewrite msb_iter_linear, H. apply Z.lxor_nilpotent.
Qed.

Lemma msb_top_range b : in_u w (wrap w (Z.shiftl b (w - 8))).
Proof. apply wrap_range. lia. Qed.

Lemma msb_top_small b : in_u 8 b -> wrap w (Z.shiftl b (w - 8)) = Z.shiftl b (w - 8).
Proof.
  unfold in_u. intros ?. apply wrap_small. unfold in_u.
  rewrite Z.shiftl_mul_pow2 by lia.
  replace (2 ^ w) with (2 ^ 8 * 2 ^ (w - 8)); [nia|].
  rewrite <- Z.pow_add_r by lia. f_equal. lia.
Qed.

Lemma msb_top_inj a b :
  in_u 8 a -> in_u 8 b ->
  wrap w (Z.shiftl a (w - 8)) = wrap w (Z.shiftl b (w - 8)) -> a = b.
Proof.
  intros ??. rewrite !msb_top_small by done. rewrite !Z.shiftl_mul_pow2 by lia.
  intros Heq. apply Z.mul_reg_r in Heq; [done|]. lia.
Qed.

Lemma msb_byte_range c b : in_u w (msb_byte w poly c b).
Proof. apply msb_bit_range. Qed.

Lemma msb_crc_range c bs : in_u w c -> in_u w (msb_crc w poly c bs).
Proof.
  revert c. induction bs as [|b bs IH]; intros c Hc; simpl; [done|].
  apply IH, msb_byte_range.
Qed.

Lemma msb_crc_2 c a b :
  msb_crc w poly c [a; b] = msb_byte w poly (msb_byte w poly c a) b.
Proof. done. Qed.

Lemma msb_crc_app c a b : msb_crc w poly c (a ++ b) = msb_crc w poly (msb_crc w poly c a) b.
Proof. apply fold_left_app. Qed.

Lemma msb_byte_inj c1 c2 b1 b2 :
  in_u w c1 -> in_u w c2 -> msb_byte w poly c1 b1 = msb_byte w poly c2 b2 ->
  Z.lxor c1 (wrap w (Z.shiftl b1 (w - 8))) = Z.lxor c2 (wrap w (Z.shiftl b2 (w - 8))).
Proof.
  intros H1 H2 H. apply msb_iter_inj in H; [done|..];
    (apply in_u_lxor; [lia|done|apply msb_top_range]).
Qed.

Lemma msb_byte_diff c a b :
  in_u 8 a -> in_u 8 b ->
  Z.lxor (msb_byte w poly c a) (msb_byte w poly c b) =
  Nat.iter 8 (msb_bit w poly) (Z.shiftl (Z.lxor a b) (w - 8)).
Proof.
  intros. unfold msb_byte. rewrite <- msb_iter_linear. f_equal.
  rewrite Z.shiftl_lxor, !msb_top_small by done.
  generalize (Z.shiftl a (w - 8)), (Z.shiftl b (w - 8)). intros x y.
  apply Z.bits_inj_iff'. intros n _. rewrite !Z.lxor_spec.
  by destruct (Z.testbit c n), (Z.testbit x n), (Z.testbit y n).
Qed.

Lemma msb_byte_inj_state c1 c2 b :
  in_u w c1 -> in_u w c2 -> msb_byte w poly c1 b = msb_byte w poly c2 b -> c1 = c2.
Proof.
  intros H1 H2 H. apply msb_byte_inj in H; [|done..].
  apply (f_equal (fun z => Z.lxor z (wrap w (Z.shiftl b (w - 8))))) in H.
  by rewrite !Z.lxor_assoc, !Z.lxor_nilpotent, !Z.lxor_0_r in H.
Qed.

Lemma msb_byte_inj_byte c b1 b2 :
  in_u w c -> in_u 8 b1 -> in_u 8 b2 ->
  msb_byte w poly c b1 = msb_byte w poly c b2 -> b1 = b2.
Proof.
  intros Hc H1 H2 H. apply msb_byte_inj in H; [|done..].
  apply (f_equal (Z.lxor c)) in H.
  rewrite <- !Z.lxor_assoc, !Z.lxor_nilpotent, !Z.lxor_0_l in H.
  by apply msb_top_inj.
Qed.

(** The register after a fixed suffix determines the register before it. *)
Lemma msb_crc_inj_state c1 c2 bs :
  in_u w c1 -> in_u w c2 -> msb_crc w poly c1 bs = msb_crc w poly c2 bs -> c1 = c2.
Proof.
  revert c1 c2. induction bs as [|b bs IH]; intros c1 c2 H1 H2; simpl; [done|].
  intros H. apply IH in H; [|apply msb_byte_range..].
  by apply msb_byte_inj_state in H.
Qed.

(** Two adjacent bytes.  [Hlow]: a non-zero byte at the top of the register leaves
    a trace below the top byte after eight rounds; for a concrete polynomial this
    is a finite check. *)
Context (Hlow : forall d, in_u 8 d -> d <> 0 ->
  wrap (w - 8) (Nat.iter 8 (msb_bit w poly) (Z.shiftl d (w - 8))) <> 0).

Lemma msb_low_top e : wrap (w - 8) (wrap w (Z.shiftl e (w - 8))) = 0.
Proof.
  apply Z.bits_inj_iff'. intros n Hn. rewrite Z.bits_0, !wrap_testbit by lia.
  destruct (Z.ltb_spec n (w - 8)); [|done]. simpl.
  rewrite Z.shiftl_spec_low by lia. apply andb_false_r.
Qed.

Lemma wrap_lxor k a b : 0 <= k -> wrap k (Z.lxor a b) = Z.lxor (wrap k a) (wrap k b).
Proof.
  intros. apply Z.bits_inj_iff'. intros n Hn.
  rewrite Z.lxor_spec, !wrap_testbit, Z.lxor_spec by lia.
  by destruct (n <? k), (Z.testbit a n), (Z.testbit b n).
Qed.

Lemma msb_byte2_first c a1 a2 b1 b2 :
  in_u 8 a1 -> in_u 8 b1 ->
  msb_byte w poly (msb_byte w poly c a1) a2 = msb_byte w poly (msb_byte w poly c b1) b2 ->
  a1 = b1.
Proof.
  intros Ha Hb H. apply msb_byte_inj in H; [|apply msb_byte_range..].
  apply Z.lxor_eq. destruct (decide (Z.lxor a1 b1 = 0)) as [|Hne]; [done|].
  exfalso. apply (Hlow (Z.lxor a1 b1)); [by apply in_u_lxor|done|].
  rewrite <- (msb_byte_diff c) by done.
  revert H. generalize (msb_byte w poly c a1), (msb_byte w poly c b1). intros x y H.
  apply (f_equal (fun z => wrap (w - 8) (Z.lxor z y))) in H.
  rewrite wrap_lxor by lia.
  by rewrite !wrap_lxor, !msb_low_top, !Z.lxor_0_r, Z.lxor_nilpotent in H by lia.
Qed.

Lemma msb_byte2_inj c a1 a2 b1 b2 :
  in_u w c -> in_u 8 a1 -> in_u 8 a2 -> in_u 8 b1 -> in_u 8 b2 ->
  msb_byte w poly (msb_byte w poly c a1) a2 = msb_byte w poly (msb_byte w poly c b1) b2 ->
  a1 = b1 /\ a2 = b2.
Proof.
  intros Hc Ha1 Ha2 Hb1 Hb2 H.
  assert (a1 = b1) as <- by (by eapply msb_byte2_first).
  split; [done|].
  exact (msb_byte_inj_byte _ _ _ (msb_byte_range c a1) Ha2 Hb2 H).
Qed.
End msb.

(** ** Checksums fed least significant bit first *)

Section lsb.
Context (w poly : Z).
Hypothesis Hw : 8 <= w.
Hypothesis Hpoly : in_u w poly.
Hypothesis Htop : Z.testbit poly (w - 1) = true.

Lemma lsb_bit_odd c : lsb_bit poly c = Z.lxor (Z.shiftr c 1) (if Z.odd c then poly else 0).
Proof.
  unfold lsb_bit. change 1 with (2 ^ 0) at 1. rewrite land_pow2_eqb, Z.bit0_odd by lia.
  destruct (Z.odd c); [done|]. by rewrite Z.lxor_0_r.
Qed.

Lemma shiftr1_range c : in_u w c -> in_u w (Z.shiftr c 1).
Proof. unfold in_u. rewrite Z.shiftr_div_pow2 by lia. intros. change (2 ^ 1) with 2.
  pose proof (Z.mul_div_le c 2). pose proof (Z.div_pos c 2). lia.
Qed.

Lemma lsb_bit_range c : in_u w c -> in_u w (lsb_bit poly c).
Proof.
  intros Hc. rewrite lsb_bit_odd. apply in_u_lxor; [lia|by apply shiftr1_range|].
  destruct (Z.odd c); [done|]. unfold in_u in *. lia.
Qed.

(** The top bit of the result tells the parity of the argument. *)
Lemma lsb_bit_top c : in_u w c -> Z.testbit (lsb_bit poly c) (w - 1) = Z.odd c.
Proof.
  intros Hc. rewrite lsb_bit_odd, Z.lxor_spec, Z.shiftr_spec by lia.
  rewrite (proj1 (in_u_bits w c ltac:(lia) (proj1 Hc)) Hc) by lia.
  destruct (Z.odd c); [by rewrite Htop|by rewrite Z.bits_0].
Qed.

Lemma lsb_bit_inj a b : in_u w a -> in_u w b -> lsb_bit poly a = lsb_bit poly b -> a = b.
Proof.
  intros Ha Hb E.
  assert (Ho : Z.odd a = Z.odd b) by (rewrite <- !lsb_bit_top by done; by rewrite E).
  rewrite !lsb_bit_odd, Ho in E.
  assert (Hs : Z.shiftr a 1 = Z.shiftr b 1).
  { apply (f_equal (fun z => Z.lxor z (if Z.odd b then poly else 0))) in E.
    by rewrite !Z.lxor_assoc, Z.lxor_nilpotent, !Z.lxor_0_r in E. }
  rewrite <- !Z.div2_spec in Hs.
  rewrite (Z.div2_odd a), (Z.div2_odd b), Hs, Ho. done.
Qed.

Lemma lsb_iter_range n c : in_u w c -> in_u w (Nat.iter n (lsb_bit poly) c).
Proof. intros Hc. induction n as [|n IH]; [done|]. cbn. by apply lsb_bit_range. Qed.

Lemma lsb_iter_inj n a b : in_u w a -> in_u w b ->
  Nat.iter n (lsb_bit poly) a = Nat.iter n (lsb_bit poly) b -> a = b.
Proof.
  intros Ha Hb. induction n as [|n IH]; [done|]. cbn. intros E. apply IH.
  apply lsb_bit_inj; [by apply lsb_iter_range|by apply lsb_iter_range|done].
Qed.

Lemma lsb_fed_range c b : in_u w c -> in_u 8 b -> in_u w (Z.lxor c b).
Proof. intros Hc Hb. apply in_u_lxor; [lia|done|]. by apply (in_u_mono 8). Qed.

Lemma lsb_byte_range c b : in_u w c -> in_u 8 b -> in_u w (lsb_byte poly c b).
Proof. intros. by apply lsb_iter_range, lsb_fed_range. Qed.

Lemma lsb_byte_inj c c' b b' : in_u w c -> in_u w c' -> in_u 8 b -> in_u 8 b' ->
  lsb_byte poly c b = lsb_byte poly c' b' -> Z.lxor c b = Z.lxor c' b'.
Proof. intros. by apply (lsb_iter_inj 8); [apply lsb_fed_range..|]. Qed.

Lemma lsb_crc_range c bs : in_u w c -> bytes_ok bs -> in_u w (lsb_crc poly c bs).
Proof.
  intros Hc Hbs. revert c Hc. induction Hbs as [|b bs Hb _ IH]; intros c Hc; [done|].
  cbn. by apply IH, lsb_byte_range.
Qed.

Lemma lxor_cancel_r a b c : Z.lxor a c = Z.lxor b c -> a = b.
Proof.
  intros E. apply (f_equal (fun z => Z.lxor z c)) in E.
  by rewrite !Z.lxor_assoc, Z.lxor_nilpotent, !Z.lxor_0_r in E.
Qed.

Lemma lsb_crc_inj_state c c' bs : in_u w c -> in_u w c' -> bytes_ok bs ->
  lsb_crc poly c bs = lsb_crc poly c' bs -> c = c'.
Proof.
  intros Hc Hc' Hbs. revert c c' Hc Hc'. induction Hbs as [|b bs Hb _ IH]; intros c c' Hc Hc'; [done|].
  cbn [lsb_crc fold_left]. intros E. apply IH in E; [|by apply lsb_byte_range..].
  apply lsb_byte_inj in E; [|done..]. by apply lxor_cancel_r in E.
Qed.

(** Replacing one byte changes the checksum. *)
Lemma lsb_crc_one c pre suf x y :
  in_u w c -> bytes_ok pre -> bytes_ok suf -> in_u 8 x -> in_u 8 y ->
  lsb_crc poly c (pre ++ x :: suf) = lsb_crc poly c (pre ++ y :: suf) -> x = y.
Proof.
  intros Hc Hpre Hsuf Hx Hy. unfold lsb_crc. rewrite !fold_left_app. cbn [fold_left].
  change (fold_left (lsb_byte poly) pre c) with (lsb_crc poly c pre).
  pose proof (lsb_crc_range c pre Hc Hpre) as Hs. generalize dependent (lsb_crc poly c pre).
  intros s Hs E. apply lsb_crc_inj_state in E; [|by apply lsb_byte_range..|done].
  apply lsb_byte_inj in E; [|done..].
  rewrite !(Z.lxor_comm s) in E. by apply lxor_cancel_r in E.
Qed.
End lsb.
