(* ===== verification/Externals.v ===== *)
(** * Third-party crates as interfaces

    What the program uses of crates whose sources are not part of the
    repository, as operational type classes with separate classes for their
    documented laws: [crc] (a 16-bit checksum), [hex] (decoding of hexadecimal
    text), [zstd] and [flate2] (whole-buffer compression), [nom] (the primitive
    [complete] parsers) and [bytes] (its reading and writing cursors).  Client theorems are proved against the laws; the
    instances at the end show that the laws can be met. *)

From S2P Require Import Prelude Crc.

(** [crc::Crc::<u16>::checksum] *)
Class CrcCrate := crc_checksum : bytes -> Z.
Class CrcLaws `{CrcCrate} : Prop := {
  crc_checksum_u16 : forall d, in_u 16 (crc_checksum d)
}.

(** [hex::decode], on the bytes of the text. *)
Class HexCrate := hex_decode : bytes -> option bytes.

(** The digit [{:x}] prints. *)
Definition hex_digit (d : Z) : Z := if d <? 10 then 48 + d else 87 + d.

(** [format!("{:02x}", b)], as the bytes of the text. *)
Definition hex_byte (b : Z) : bytes := [hex_digit (b / 16); hex_digit (b mod 16)].

Definition hex_text (bs : bytes) : bytes := concat (map hex_byte bs).

Class HexLaws `{HexCrate} : Prop := {
  hex_decode_text : forall bs, bytes_ok bs -> hex_decode (hex_text bs) = Some bs;
  hex_decode_bytes : forall s bs, hex_decode s = Some bs -> bytes_ok bs
}.

(** [hex::encode], as the bytes of the text it returns. *)
Class HexEncodeCrate := hex_encode : bytes -> bytes.
Class HexEncodeLaws `{HexEncodeCrate} : Prop := {
  hex_encode_text : forall bs, bytes_ok bs -> hex_encode bs = hex_text bs
}.

(** [zstd::encode_all] and [zstd::decode_all]; [None] is an [io::Error]. *)
Class ZstdCrate := {
  encode_all : bytes -> option bytes;
  decode_all : bytes -> option bytes
}.
Class ZstdLaws `{ZstdCrate} : Prop := {
  zstd_roundtrip : forall d c, encode_all d = Some c -> decode_all c = Some d;
  zstd_bytes : forall d c, bytes_ok d -> encode_all d = Some c -> bytes_ok c
}.

(** [nom::number::complete::be_uN] ([n] bytes) and [nom::bytes::complete::take]:
    the remaining input and the value, [None] for an error. *)
Class NomCrate := {
  be_uint : nat -> bytes -> option (bytes * Z);
  nom_take : Z -> bytes -> option (bytes * bytes)
}.
Class NomLaws `{NomCrate} : Prop := {
  be_uint_spec : forall n i,
    be_uint n i = if len i <? Z.of_nat n then None
                  else Some (sub i (Z.of_nat n) (len i - Z.of_nat n),
                             from_be (sub i 0 (Z.of_nat n)));
  nom_take_spec : forall n i, 0 <= n ->
    nom_take n i = if len i <? n then None
                   else Some (sub i n (len i - n), sub i 0 n)
}.

Lemma be_uint_eq `{NomCrate, !NomLaws} n z i :
  z = Z.of_nat n ->
  be_uint n i = if len i <? z then None else Some (sub i z (len i - z), from_be (sub i 0 z)).
Proof. intros ->. apply be_uint_spec. Qed.

(** A compressor with a level: [zstd::encode_all(d, level)] and
    [zstd::decode_all]; or, of [flate2], [write_all] and [finish] of a [GzEncoder]
    made with [Compression::new(level)], and [read_to_end] of a [GzDecoder]. *)
Class LevelCodec := {
  compress_at : Z -> bytes -> option bytes;
  decompress : bytes -> option bytes
}.
Class LevelCodecLaws (C : LevelCodec) : Prop := {
  decompress_compress : forall l d c, compress_at l d = Some c -> decompress c = Some d;
  compress_bytes : forall l d c, bytes_ok d -> compress_at l d = Some c -> bytes_ok c;
  decompress_bytes : forall c d, bytes_ok c -> decompress c = Some d -> bytes_ok d
}.

(** [bytes::BufMut] on a [BytesMut] or [Vec<u8>] ([put_slice], and the big-endian
    [put_uN] of [n] bytes) and [bytes::Buf] on a [Bytes] ([get_uN]; and
    [split_to] or [copy_to_slice]): a value and what remains of the buffer. *)
Class BufCrate := {
  put_slice : bytes -> bytes -> bytes;
  put_uint : nat -> bytes -> Z -> bytes;
  get_uint : nat -> bytes -> outcome (Z * bytes);
  split_to : bytes -> Z -> outcome (bytes * bytes)
}.
Class BufLaws `{BufCrate} : Prop := {
  put_slice_spec : forall b s, put_slice b s = b ++ s;
  put_uint_spec : forall n b v, put_uint n b v = b ++ to_be n v;
  get_uint_spec : forall n b,
    get_uint n b = if len b <? Z.of_nat n then Panic
                   else Ret (from_be (sub b 0 (Z.of_nat n)),
                             sub b (Z.of_nat n) (len b - Z.of_nat n));
  split_to_spec : forall b n, 0 <= n ->
    split_to b n = if len b <? n then Panic else Ret (sub b 0 n, sub b n (len b - n))
}.

Section buf.
Context `{BufCrate, !BufLaws}.

Lemma split_to_app a b n : n = len a -> split_to (a ++ b) n = Ret (a, b).
Proof.
  intros ->. pose proof (len_nonneg a). pose proof (len_nonneg b).
  rewrite split_to_spec by lia. bcase.
  rewrite sub_app_l by done. do 2 f_equal.
  rewrite sub_app_r, Z.sub_diag by lia. apply sub_all. len_solve.
Qed.

Lemma get_uint_app n v b :
  get_uint n (to_be n v ++ b) = Ret (wrap (8 * Z.of_nat n) v, b).
Proof.
  pose proof (len_nonneg b). rewrite get_uint_spec. bcase.
  rewrite sub_app_l by len_solve. rewrite from_to_be. do 2 f_equal.
  rewrite sub_app_r by len_solve. rewrite len_to_be, Z.sub_diag. apply sub_all. len_solve.
Qed.

(** A read that succeeds takes a prefix of the buffer. *)
Lemma split_to_Ret b n x r :
  0 <= n -> split_to b n = Ret (x, r) -> b = x ++ r /\ len x = n.
Proof.
  intros Hn. rewrite split_to_spec by done. destruct (len b <? n) eqn:E; [done|].
  intros [= <- <-]. breflect. split; [|len_solve].
  apply sub_split. lia.
Qed.

Lemma get_uint_Ret n b v r :
  bytes_ok b -> get_uint n b = Ret (v, r) ->
  b = to_be n v ++ r /\ in_u (8 * Z.of_nat n) v.
Proof.
  intros Hok. rewrite get_uint_spec. destruct (len b <? Z.of_nat n) eqn:E; [done|].
  intros [= <- <-]. breflect.
  assert (Hl : len (sub b 0 (Z.of_nat n)) = Z.of_nat n) by len_solve.
  split.
  - rewrite to_from_be; [by apply sub_split; lia|eauto with rbytes|done].
  - rewrite <- Hl at 1. apply from_be_range. eauto with rbytes.
Qed.

Lemma get_uint_short n b : len b < Z.of_nat n -> get_uint n b = Panic.
Proof. intros. rewrite get_uint_spec. by bcase. Qed.
End buf.

(** ** Instances *)

(** CRC-16/IBM-3740: polynomial [0x1021], initial value [0xFFFF], no reflection. *)
Definition crc_ibm_3740 : CrcCrate := msb_crc 16 0x1021 0xFFFF.

Lemma crc_ibm_3740_laws : @CrcLaws crc_ibm_3740.
Proof.
  constructor. intros d. apply msb_crc_range; unfold in_u; lia.
Qed.

Definition unhex_digit (c : Z) : option Z :=
  if (48 <=? c) && (c <=? 57) then Some (c - 48)
  else if (97 <=? c) && (c <=? 102) then Some (c - 87)
  else if (65 <=? c) && (c <=? 70) then Some (c - 55)
  else None.

Fixpoint hex_decode_ref (s : bytes) : option bytes :=
  match s with
  | [] => Some []
  | [_] => None
  | h :: l :: s =>
      h ← unhex_digit h; l ← unhex_digit l; bs ← hex_decode_ref s;
      Some (16 * h + l :: bs)
  end.

Lemma unhex_digit_digit d : 0 <= d < 16 -> unhex_digit (hex_digit d) = Some d.
Proof.
  intros. unfold unhex_digit, hex_digit.
  destruct (d <? 10) eqn:E; breflect.
  - rewrite !(proj2 (Z.leb_le _ _)) by lia. simpl. f_equal. lia.
  - rewrite (proj2 (Z.leb_gt _ 57)) by lia. rewrite andb_false_r.
    rewrite !(proj2 (Z.leb_le _ _)) by lia. simpl. f_equal. lia.
Qed.

Lemma unhex_digit_range c d : unhex_digit c = Some d -> 0 <= d < 16.
Proof. unfold unhex_digit. intros. bsplit; simplify_eq; breflect; lia. Qed.

Lemma hex_decode_ref_text bs : bytes_ok bs -> hex_decode_ref (hex_text bs) = Some bs.
Proof.
  induction 1 as [|b bs Hb _ IH]; [done|]. unfold in_u in Hb.
  unfold hex_text in *. cbn [map concat hex_byte app hex_decode_ref].
  assert (0 <= b / 16 < 16) by (split; [apply Z.div_pos; lia|apply Z.div_lt_upper_bound; lia]).
  pose proof (Z.mod_pos_bound b 16 ltac:(lia)).
  rewrite !unhex_digit_digit by lia. simpl. rewrite IH. simpl.
  do 2 f_equal. pose proof (Z.div_mod b 16). lia.
Qed.

Lemma hex_decode_ref_bytes s bs : hex_decode_ref s = Some bs -> bytes_ok bs.
Proof.
  enough (H : forall n s bs, (length s <= n)%nat -> hex_decode_ref s = Some bs -> bytes_ok bs)
    by (apply (H (length s)); lia).
  clear. induction n as [|n IH]; intros s bs Hn Hs.
  { destruct s; [|simpl in Hn; lia]. injection Hs as <-. constructor. }
  destruct s as [|h [|l s]]; simplify_eq/=; [constructor|].
  destruct (unhex_digit h) as [x|] eqn:Hx, (unhex_digit l) as [y|] eqn:Hy; simplify_eq/=.
  destruct (hex_decode_ref s) eqn:E; simplify_eq/=.
  apply unhex_digit_range in Hx, Hy. constructor; [unfold in_u; lia|].
  apply (IH s); [lia|done].
Qed.

Definition hex_ref : HexCrate := hex_decode_ref.

Lemma hex_ref_laws : @HexLaws hex_ref.
Proof.
  constructor; [apply hex_decode_ref_text|apply hex_decode_ref_bytes].
Qed.

(** A codec that stores the buffer behind one magic byte. *)
Definition zstd_stored : ZstdCrate := {|
  encode_all d := Some (0x28 :: d);
  decode_all c := match c with x :: d => if x =? 0x28 then Some d else None | [] => None end
|}.

Lemma zstd_stored_laws : @ZstdLaws zstd_stored.
Proof.
  constructor; simpl; intros; simplify_eq; [done|]. constructor; [unfold in_u; lia|done].
Qed.

Definition nom_ref : NomCrate := {|
  be_uint n i := if len i <? Z.of_nat n then None
                 else Some (sub i (Z.of_nat n) (len i - Z.of_nat n),
                            from_be (sub i 0 (Z.of_nat n)));
  nom_take n i := if len i <? n then None else Some (sub i n (len i - n), sub i 0 n)
|}.

Lemma nom_ref_laws : @NomLaws nom_ref.
Proof. by constructor. Qed.

Definition hex_encode_ref : HexEncodeCrate := hex_text.

Lemma hex_encode_ref_laws : @HexEncodeLaws hex_encode_ref.
Proof. by constructor. Qed.

(** A codec that stores the buffer behind a magic byte and the level. *)
Definition codec_stored (magic : Z) : LevelCodec := {|
  compress_at l d := Some (magic :: wrap 8 l :: d);
  decompress c := match c with x :: _ :: d => if x =? magic then Some d else None | _ => None end
|}.

Lemma codec_stored_laws magic : in_u 8 magic -> LevelCodecLaws (codec_stored magic).
Proof.
  intros Hm. constructor; simpl; intros.
  - simplify_eq. by rewrite Z.eqb_refl.
  - simplify_eq. apply bytes_ok_cons; [done|]. apply bytes_ok_cons; [by apply wrap_range|done].
  - destruct c as [|x [|y r]]; simplify_eq. bsplit; simplify_eq.
    by do 2 (apply Forall_cons_1 in H as [_ H]).
Qed.

Definition buf_ref : BufCrate := {|
  put_slice b s := b ++ s;
  put_uint n b v := b ++ to_be n v;
  get_uint n b := if len b <? Z.of_nat n then Panic
                  else Ret (from_be (sub b 0 (Z.of_nat n)),
                            sub b (Z.of_nat n) (len b - Z.of_nat n));
  split_to b n := if len b <? n then Panic else Ret (sub b 0 n, sub b n (len b - n))
|}.

Lemma buf_ref_laws : @BufLaws buf_ref.
Proof. by constructor. Qed.
