(* ===== verification/Utf8.v ===== *)
(** * UTF-8 validation

    The part of the standard library behind [String::from_utf8] and
    [str::from_utf8]: a byte string is accepted when it is well formed in the
    sense of the Unicode standard (table 3-7: no overlong forms, no surrogates,
    nothing above U+10FFFF). *)

From S2P Require Import Prelude.

Definition in_range (lo hi b : Z) : bool := (lo <=? b) && (b <=? hi).
Definition is_cont (b : Z) : bool := in_range 0x80 0xBF b.

Fixpoint utf8_valid (s : bytes) : bool :=
  match s with
  | [] => true
  | b0 :: s1 =>
      if in_range 0 0x7F b0 then utf8_valid s1 else
      match s1 with
      | [] => false
      | b1 :: s2 =>
          if in_range 0xC2 0xDF b0 then is_cont b1 && utf8_valid s2 else
          match s2 with
          | [] => false
          | b2 :: s3 =>
              if b0 =? 0xE0 then in_range 0xA0 0xBF b1 && is_cont b2 && utf8_valid s3 else
              if in_range 0xE1 0xEC b0 || in_range 0xEE 0xEF b0
              then is_cont b1 && is_cont b2 && utf8_valid s3 else
              if b0 =? 0xED then in_range 0x80 0x9F b1 && is_cont b2 && utf8_valid s3 else
              match s3 with
              | [] => false
              | b3 :: s4 =>
                  if b0 =? 0xF0
                  then in_range 0x90 0xBF b1 && is_cont b2 && is_cont b3 && utf8_valid s4 else
                  if in_range 0xF1 0xF3 b0
                  then is_cont b1 && is_cont b2 && is_cont b3 && utf8_valid s4 else
                  if b0 =? 0xF4
                  then in_range 0x80 0x8F b1 && is_cont b2 && is_cont b3 && utf8_valid s4
                  else false
              end
          end
      end
  end.

(** [String::from_utf8(bs).ok()] *)
Definition from_utf8 (bs : bytes) : option bytes := if utf8_valid bs then Some bs else None.

Lemma from_utf8_Some bs s : from_utf8 bs = Some s -> s = bs /\ utf8_valid bs = true.
Proof. unfold from_utf8. intros. by destruct (utf8_valid bs); simplify_eq. Qed.

(** ASCII text is valid. *)
Lemma utf8_valid_ascii s : Forall (fun b => 0 <= b <= 0x7F) s -> utf8_valid s = true.
Proof.
  induction 1 as [|b s Hb _ IH]; [done|]. cbn [utf8_valid]. unfold in_range.
  by rewrite !(proj2 (Z.leb_le _ _)) by lia.
Qed.

Example utf8_two_bytes : utf8_valid [0xC3; 0xA9] = true.
Proof. reflexivity. Qed.
Example utf8_overlong : utf8_valid [0xC0; 0xAF] = false.
Proof. reflexivity. Qed.
Example utf8_surrogate : utf8_valid [0xED; 0xA0; 0x80] = false.
Proof. reflexivity. Qed.
