(* ===== verification/Text.v ===== *)
(** * Text of the standard library

    String literals as their bytes, [to_string] of integers, and [parse] of
    integers ([i64::from_str], [u64::from_str] and so on), with the round trip
    between the two. *)

From Stdlib Require Import Ascii.
From S2P Require Import Prelude Utf8.

(** The bytes of a literal. *)
Definition lit (s : string) : bytes :=
  map (fun c => Z.of_nat (nat_of_ascii c)) (String.list_ascii_of_string s).

(** ** Printing *)

(** At most [fuel] decimal digits of [n] in front of [acc]. *)
Fixpoint dec_digits (fuel : nat) (n : Z) (acc : bytes) : bytes :=
  match fuel with
  | O => acc
  | S fuel =>
      let acc := (48 + n mod 10) :: acc in
      if n <? 10 then acc else dec_digits fuel (n / 10) acc
  end.

(** [z.to_string()] for an integer of at most 64 bits: twenty digits are enough. *)
Definition int_to_string (z : Z) : bytes :=
  if z <? 0 then 45 :: dec_digits 20 (- z) [] else dec_digits 20 z [].

(** ** Parsing *)

(** The loop over the digits, with checked multiplication, addition and (for a
    negative number) subtraction in [lo .. hi]. *)
Fixpoint parse_digits (lo hi : Z) (neg : bool) (acc : Z) (s : bytes) : option Z :=
  match s with
  | [] => Some acc
  | c :: s =>
      if negb ((48 <=? c) && (c <=? 57)) then None else
      let m := acc * 10 in
      if negb ((lo <=? m) && (m <=? hi)) then None else
      let v := if neg then m - (c - 48) else m + (c - 48) in
      if negb ((lo <=? v) && (v <=? hi)) then None else
      parse_digits lo hi neg v s
  end.

(** [s.parse::<T>().ok()] for the integer type with range [lo .. hi]. *)
Definition parse_int (lo hi : Z) (s : bytes) : option Z :=
  match s with
  | [] => None
  | c :: r =>
      if (c =? 43) || (c =? 45) then
        match r with
        | [] => None
        | _ =>
            if c =? 43 then parse_digits lo hi false 0 r
            else if lo <? 0 then parse_digits lo hi true 0 r
            else parse_digits lo hi false 0 s
        end
      else parse_digits lo hi false 0 s
  end.

Definition parse_i64 : bytes -> option Z := parse_int (- 2 ^ 63) (2 ^ 63 - 1).
Definition parse_u64 : bytes -> option Z := parse_int 0 (2 ^ 64 - 1).

(** ** Lemmas *)

Lemma parse_dec_digits lo hi (neg : bool) fuel n acc :
  lo <= 0 <= hi -> 0 <= n < 10 ^ Z.of_nat fuel -> (0 < fuel)%nat ->
  lo <= (if neg then - n else n) <= hi ->
  parse_digits lo hi neg 0 (dec_digits fuel n acc)
  = parse_digits lo hi neg (if neg then - n else n) acc.
Proof.
  intros H0. revert n acc. induction fuel as [|fuel IH]; intros n acc Hn Hf Hr; [lia|].
  cbn [dec_digits]. pose proof (Z.mod_pos_bound n 10 ltac:(lia)).
  pose proof (Z.div_mod n 10 ltac:(lia)).
  destruct (n <? 10) eqn:E; breflect.
  - assert (n / 10 = 0) by (apply Z.div_small; lia). cbn [parse_digits].
    replace (48 + n mod 10 - 48) with n by lia.
    rewrite (proj2 (Z.leb_le 48 _)), (proj2 (Z.leb_le _ 57)) by lia. cbn [andb negb].
    rewrite (proj2 (Z.leb_le lo (0 * 10))), (proj2 (Z.leb_le (0 * 10) hi)) by lia. cbn [andb negb].
    replace (if neg then 0 * 10 - n else 0 * 10 + n) with (if neg then - n else n)
      by (destruct neg; lia).
    by rewrite !(proj2 (Z.leb_le _ _)) by lia.
  - rewrite Nat2Z.inj_succ, Z.pow_succ_r in Hn by lia.
    assert (1 <= n / 10) by (apply Z.div_le_lower_bound; lia).
    assert (0 < fuel)%nat by (destruct fuel; [simpl in Hn; lia|lia]).
    rewrite IH by (destruct neg; lia). cbn [parse_digits].
    rewrite (proj2 (Z.leb_le 48 _)), (proj2 (Z.leb_le _ 57)) by lia. cbn [andb negb].
    rewrite !(proj2 (Z.leb_le _ _)) by (destruct neg; lia). cbn [andb negb].
    destruct neg; f_equal; lia.
Qed.

(** The first character of a printed number is a digit. *)
Lemma dec_digits_head fuel n acc :
  (0 < fuel)%nat -> 0 <= n -> exists c s, dec_digits fuel n acc = c :: s /\ 48 <= c <= 57.
Proof.
  intros Hf. revert n acc. induction fuel as [|fuel IH]; [lia|]. intros n acc Hn.
  cbn [dec_digits]. pose proof (Z.mod_pos_bound n 10 ltac:(lia)).
  destruct (n <? 10); [eexists _, _; split; [done|lia]|].
  destruct fuel as [|fuel]; [eexists _, _; split; [done|lia]|].
  apply IH; [lia|apply Z.div_pos; lia].
Qed.

(** Printing and parsing are inverse in any range within 64 bits. *)
Lemma parse_int_to_string lo hi z :
  - 2 ^ 63 <= lo <= 0 -> 0 <= hi < 2 ^ 64 -> lo <= z <= hi ->
  parse_int lo hi (int_to_string z) = Some z.
Proof.
  intros Hlo Hhi Hz. unfold int_to_string. destruct (z <? 0) eqn:E; breflect.
  - destruct (dec_digits_head 20 (- z) [] ltac:(lia) ltac:(lia)) as (c & s & Hd & _).
    unfold parse_int. cbn [Z.eqb Pos.eqb orb]. rewrite Hd, <- Hd.
    rewrite (proj2 (Z.ltb_lt lo 0)) by lia.
    rewrite parse_dec_digits by (rewrite ?Z.opp_involutive; lia).
    cbn [parse_digits]. f_equal. lia.
  - destruct (dec_digits_head 20 z [] ltac:(lia) ltac:(lia)) as (c & s & Hd & Hc).
    unfold parse_int. rewrite Hd.
    rewrite (proj2 (Z.eqb_neq c 43)), (proj2 (Z.eqb_neq c 45)) by lia. cbn [orb].
    rewrite <- Hd, parse_dec_digits by lia. done.
Qed.

Lemma parse_i64_to_string z : in_i 64 z -> parse_i64 (int_to_string z) = Some z.
Proof. unfold in_i. intros. apply parse_int_to_string; lia. Qed.

Lemma parse_digits_range lo hi neg acc s z :
  lo <= acc <= hi -> parse_digits lo hi neg acc s = Some z -> lo <= z <= hi.
Proof.
  revert acc. induction s as [|c s IH]; intros acc Ha Hp; [by simplify_eq/=|].
  cbn [parse_digits] in Hp. bsplit; try done; breflect; by apply IH in Hp.
Qed.

Lemma parse_i64_range s z : parse_i64 s = Some z -> in_i 64 z.
Proof.
  unfold parse_i64, parse_int, in_i. intros Hp.
  destruct s as [|c s]; [done|].
  enough (- 2 ^ 63 <= z <= 2 ^ 63 - 1) by lia.
  destruct (_ || _); [|by apply parse_digits_range in Hp].
  destruct s as [|d r]; [done|].
  destruct (c =? 43); [by apply parse_digits_range in Hp|].
  destruct (_ <? 0); by apply parse_digits_range in Hp.
Qed.

(** A printed natural number is a non-empty sequence of digits. *)
Lemma print_digits z :
  0 <= z -> int_to_string z <> [] /\ Forall (fun b => 48 <= b <= 57) (int_to_string z).
Proof.
  intros Hz. unfold int_to_string. rewrite (proj2 (Z.ltb_ge z 0)) by lia. split.
  - by destruct (dec_digits_head 20 z [] ltac:(lia) Hz) as (c & s & -> & _).
  - enough (H : forall f n acc, Forall (fun b => 48 <= b <= 57) acc ->
              Forall (fun b => 48 <= b <= 57) (dec_digits f n acc)) by (apply H; constructor).
    induction f as [|f IH]; intros n acc Hacc; [done|]. cbn [dec_digits].
    pose proof (Z.mod_pos_bound n 10 ltac:(lia)).
    assert (Forall (fun b => 48 <= b <= 57) (48 + n mod 10 :: acc)) by (constructor; [lia|done]).
    destruct (n <? 10); [done|by apply IH].
Qed.

(** Printed numbers are ASCII. *)
Lemma int_to_string_ascii z : Forall (fun b => 0 <= b <= 0x7F) (int_to_string z).
Proof.
  assert (H : forall f n acc, Forall (fun b => 0 <= b <= 0x7F) acc ->
              Forall (fun b => 0 <= b <= 0x7F) (dec_digits f n acc)).
  { induction f as [|f IH]; intros n acc Hacc; [done|]. cbn [dec_digits].
    pose proof (Z.mod_pos_bound n 10 ltac:(lia)).
    assert (Forall (fun b => 0 <= b <= 0x7F) (48 + n mod 10 :: acc)) by (constructor; [lia|done]).
    destruct (n <? 10); [done|by apply IH]. }
  unfold int_to_string. destruct (z <? 0); [constructor; [lia|]|]; apply H; constructor.
Qed.

Example print_min : int_to_string (- 2 ^ 63) = lit "-9223372036854775808".
Proof. reflexivity. Qed.
Example parse_overflow : parse_i64 (lit "9223372036854775808") = None.
Proof. reflexivity. Qed.
Example parse_plus : parse_i64 (lit "+12") = Some 12.
Proof. reflexivity. Qed.
