(* ===== verification/Io.v ===== *)
(** * Device I/O

    A monad for the drivers: a computation transforms a state that contains a history
    of events (what the driver did to its bus, port or pins) and finishes with a
    value, fails with the driver's error, panics, or is still waiting for the device
    after the number of polls it was given.  What the device answers is a function
    of the history. *)

From S2P Require Import Prelude.

Inductive run (Err A : Type) :=
| Fin (a : A)
| Fail (e : Err)
| Panicked
| Waiting.
Arguments Fin {Err A} _.
Arguments Fail {Err A} _.
Arguments Panicked {Err A}.
Arguments Waiting {Err A}.

Definition io (St Err A : Type) : Type := St -> St * run Err A.

Section io.
Context {St Err : Type}.

Definition io_ret {A} (a : A) : io St Err A := fun h => (h, Fin a).
Definition io_fail {A} (e : Err) : io St Err A := fun h => (h, Fail e).
Definition io_wait {A} : io St Err A := fun h => (h, Waiting).

Definition io_bind {A B} (m : io St Err A) (k : A -> io St Err B) : io St Err B := fun h =>
  let '(h, r) := m h in
  match r with
  | Fin a => k a h
  | Fail e => (h, Fail e)
  | Panicked => (h, Panicked)
  | Waiting => (h, Waiting)
  end.

(** A computation without I/O that may panic. *)
Definition of_outcome {A} (m : outcome A) : io St Err A := fun h =>
  (h, match m with Ret a => Fin a | Panic => Panicked end).

(** [m2] behaves like [m1] wherever [m1] does not wait. *)
Definition stable {A} (m1 m2 : io St Err A) : Prop :=
  forall h, (m1 h).2 <> Waiting -> m2 h = m1 h.
End io.

(** One event without an answer, where the state is the history. *)
Definition emit {Ev Err} (e : Ev) : io (list Ev) Err unit := fun h => (h ++ [e], Fin tt).

Declare Scope io_scope.
Delimit Scope io_scope with io.
Notation "x <~ m ; k" := (io_bind m (fun x => k))
  (at level 20, m at level 100, k at level 200, right associativity) : io_scope.
Notation "m ;;; k" := (io_bind m (fun _ => k))
  (at level 20, k at level 200, right associativity) : io_scope.

Section lemmas.
Context {St Err : Type}.

Lemma bind_Fin {A B} (m : io St Err A) (k : A -> io St Err B) h h' a :
  m h = (h', Fin a) -> io_bind m k h = k a h'.
Proof. unfold io_bind. by intros ->. Qed.

Lemma bind_Fin_inv {A B} (m : io St Err A) (k : A -> io St Err B) h h' b :
  io_bind m k h = (h', Fin b) -> exists h1 a, m h = (h1, Fin a) /\ k a h1 = (h', Fin b).
Proof. unfold io_bind. destruct (m h) as [h1 [a|e| |]]; [|done..]. eauto. Qed.

Lemma stable_refl {A} (m : io St Err A) : stable m m.
Proof. done. Qed.

Lemma stable_bind {A B} (m1 m2 : io St Err A) (k1 k2 : A -> io St Err B) :
  stable m1 m2 -> (forall a, stable (k1 a) (k2 a)) -> stable (io_bind m1 k1) (io_bind m2 k2).
Proof.
  intros Hm Hk h. unfold io_bind. specialize (Hm h).
  destruct (m1 h) as [h1 r]. cbn [snd] in Hm. intros Hr.
  rewrite Hm by (by intros ->). destruct r; [by apply Hk|done..].
Qed.

Lemma stable_wait {A} (m : io St Err A) : stable io_wait m.
Proof. intros h Hr. by destruct Hr. Qed.
End lemmas.

(** Inverts the binds of a computation that finished. *)
Ltac io_inv :=
  repeat match goal with
  | H : io_bind _ _ _ = (_, Fin _) |- _ => apply bind_Fin_inv in H as (? & ? & ? & ?)
  | H : io_ret _ _ = (_, Fin _) |- _ => unfold io_ret in H; injection H as ??; subst
  end.
