(* ===== verification/System.v ===== *)
(** * The operating system

    What the program asks of the system outside its own process: whether a path
    exists, directories, external commands ([std::process::Command]), environment
    variables and GPIO pins.  As for the devices, the system answers as a function of
    what has happened; calls are events of a history.  Paths, arguments and values are
    byte strings. *)

From S2P Require Import Prelude Text Io.

#[local] Open Scope io_scope.

Record command := Cmd { program : bytes; args : list bytes; envs : list (bytes * bytes) }.

Inductive sys_event :=
| Exists (path : bytes)
| CreateDir (path : bytes)
| Run (c : command)                       (* output() or status(): waits for the end *)
| Spawn (c : command) (stdin : bytes).    (* spawn(), then writes to its input *)

Record output := mkOutput { success : bool; stdout : bytes; stderr : bytes }.

(** [None] as the answer to a command: it could not be started. *)
Class System := {
  path_exists : list sys_event -> bytes -> bool;
  create_dir_all : list sys_event -> bytes -> bool;
  run_output : list sys_event -> command -> option output;
  spawn_writes : list sys_event -> command -> bytes -> bool;
  env_var : bytes -> option bytes
}.

Section calls.
Context `{System} {Err : Type}.

Definition exists_ (path : bytes) : io (list sys_event) Err bool := fun h =>
  (h ++ [Exists path], Fin (path_exists h path)).

Definition create_dir (path : bytes) (e : Err) : io (list sys_event) Err unit := fun h =>
  (h ++ [CreateDir path], if create_dir_all h path then Fin tt else Fail e).

(** [Command::output], with the error of a command that could not be started. *)
Definition run_command (c : command) (e : Err) : io (list sys_event) Err output := fun h =>
  (h ++ [Run c], match run_output h c with Some o => Fin o | None => Fail e end).

(** [spawn] with a piped input, to which [input] is written; the exit status of the
    process is not asked for. *)
Definition spawn_with (c : command) (input : bytes) (e : Err) : io (list sys_event) Err unit := fun h =>
  (h ++ [Spawn c input], if spawn_writes h c input then Fin tt else Fail e).

(** [std::env::var(name).unwrap_or_else(|_| default)] *)
Definition env_or (name dflt : bytes) : bytes := default dflt (env_var name).
End calls.

(** ** Pins

    [rppal::gpio]: [Gpio::get] hands out a pin, and refuses one that is in use.
    [gpio_get held p] is whether pin [p] is given when the pins [held] are in use. *)

Class GpioCrate := {
  gpio_new : bool;
  gpio_get : list Z -> Z -> bool
}.
Class GpioLaws `{GpioCrate} : Prop := {
  gpio_in_use : forall held p, p ∈ held -> gpio_get held p = false
}.

(** The state of the pins is the list of those in use. *)
Section pins.
Context `{GpioCrate} {Err : Type}.

(** [Gpio::new().map_err(e)?] *)
Definition gpio_open (e : Err) : io (list Z) Err unit := fun held =>
  (held, if gpio_new then Fin tt else Fail e).

(** [gpio.get(p).map_err(e)?.into_output()], or an input. *)
Definition gpio_take (p : Z) (e : Err) : io (list Z) Err unit := fun held =>
  if gpio_get held p then (held ++ [p], Fin tt) else (held, Fail e).
End pins.

(** Pins in use are refused, all others are given. *)
Definition gpio_ref : GpioCrate := {| gpio_new := true; gpio_get held p := bool_decide (p ∉ held) |}.
Lemma gpio_ref_laws : @GpioLaws gpio_ref.
Proof. constructor. intros held p Hp. apply bool_decide_eq_false_2. tauto. Qed.

(** A system on which nothing exists yet and every command succeeds. *)
Definition willing : System := {|
  path_exists _ _ := false;
  create_dir_all _ _ := true;
  run_output _ _ := Some (mkOutput true [] []);
  spawn_writes _ _ _ := true;
  env_var _ := None
|}.
