(* ===== verification/IridiumSbd.v ===== *)
(** * Iridium Short Burst Data ([src/src/iridium_sbd.rs])

    The zero-allocation frame parser and its CRC-16-CCITT.  A frame is
    [protocol (1)][length (2, big endian)][payload (length)][checksum (2)]; the
    payload lives in a fixed array of 340 bytes, of which [payload_len] are
    meaningful.  Every index and slice of the source is a checked operation of
    the model, so a panic is a value of the model. *)

From S2P Require Import Prelude Crc.

Definition CRC16_CCITT_POLY : Z := 0x1021.
Definition CRC16_CCITT_INIT : Z := 0xFFFF.

(** One round of the inner loop of [crc16_ccitt_continue]. *)
Definition crc16_round (crc : Z) : Z :=
  if negb (Z.land crc 0x8000 =? 0)
  then Z.lxor (wrap 16 (Z.shiftl crc 1)) CRC16_CCITT_POLY
  else wrap 16 (Z.shiftl crc 1).

Definition crc16_ccitt_continue (crc : Z) (data : bytes) : Z :=
  fold_left
    (fun crc byte => Nat.iter 8 crc16_round (Z.lxor crc (wrap 16 (Z.shiftl byte 8))))
    data crc.

Definition crc16_ccitt (data : bytes) : Z := crc16_ccitt_continue CRC16_CCITT_INIT data.

Module IridiumSBDMessage.

Record IridiumSBDHeader := mkHeader { h_protocol : Z; h_length : Z }.

Record t := mk {
  header : IridiumSBDHeader;
  payload : bytes; (* [u8; 340] *)
  payload_len : Z;
  checksum : Z
}.

(** [IridiumSBDMessage::parse] *)
Definition parse (data : bytes) : outcome (option t) :=
  if len data <? 3 then Ret None else
  protocol ← data.[0];
  b1 ← data.[1];
  b2 ← data.[2];
  let length := from_be [b1; b2] in
  if len data <? 3 + length then Ret None else
  if 340 <? length then Ret None else
  src ← data.[3 ~> 3 + length];
  payload ← copy_from_slice (fill 0 340) 0 length src;
  checksum ←
    (if 3 + length + 2 <=? len data then
       c1 ← data.[3 + length];
       c2 ← data.[3 + length + 1];
       Ret (from_be [c1; c2])
     else Ret 0);
  Ret (Some (mk (mkHeader protocol length) payload length checksum)).

(** [payload_slice] *)
Definition payload_slice (m : t) : outcome bytes := (payload m).[0 ~> payload_len m].

(** [compute_crc]: header bytes, then the payload, in one chained register. *)
Definition compute_crc (m : t) : outcome Z :=
  let header_data :=
    [h_protocol (header m); wrap 8 (Z.shiftr (h_length (header m)) 8);
     Z.land (h_length (header m)) 0xFF] in
  let crc := crc16_ccitt header_data in
  p ← (payload m).[0 ~> payload_len m];
  Ret (crc16_ccitt_continue crc p).

(** [validate_checksum] *)
Definition validate_checksum (m : t) : outcome bool :=
  crc ← compute_crc m;
  Ret (crc =? checksum m).

(** [total_size] *)
Definition total_size (m : t) : Z := 3 + payload_len m + 2.

(** The frame layout the parser reads, as a writer would produce it. *)
Definition frame (protocol : Z) (pl : bytes) (crc : Z) : bytes :=
  protocol :: to_be 2 (len pl) ++ pl ++ to_be 2 crc.

(** Well-formed values: what [parse] produces. *)
Definition wf (m : t) : Prop :=
  in_u 8 (h_protocol (header m)) /\ h_length (header m) = payload_len m /\
  bytes_ok (payload m) /\ len (payload m) = 340 /\
  0 <= payload_len m <= 340 /\ in_u 16 (checksum m).

End IridiumSBDMessage.

Import IridiumSBDMessage.

(** ** The CRC is the generic most-significant-bit-first one *)

Lemma crc16_continue_msb c d : crc16_ccitt_continue c d = msb_crc 16 0x1021 c d.
Proof. reflexivity. Qed.

Lemma crc16_width : 8 <= 16.
Proof. lia. Qed.

Lemma crc16_poly_ok : in_u 16 0x1021.
Proof. unfold in_u. lia. Qed.

Lemma crc16_continue_app c a b :
  crc16_ccitt_continue c (a ++ b) = crc16_ccitt_continue (crc16_ccitt_continue c a) b.
Proof. rewrite !crc16_continue_msb. apply msb_crc_app. Qed.

Lemma crc16_continue_range c d : in_u 16 c -> in_u 16 (crc16_ccitt_continue c d).
Proof.
  intros. rewrite crc16_continue_msb.
  apply msb_crc_range; [lia|apply crc16_poly_ok|done].
Qed.

Lemma crc16_range d : in_u 16 (crc16_ccitt d).
Proof. apply crc16_continue_range. unfold CRC16_CCITT_INIT, in_u. lia. Qed.

(** A byte at the top of the register reaches the low byte after eight rounds:
    all 255 non-zero bytes checked. *)
Lemma crc16_low d :
  in_u 8 d -> d <> 0 -> wrap (16 - 8) (Nat.iter 8 (msb_bit 16 0x1021) (Z.shiftl d (16 - 8))) <> 0.
Proof.
  intros Hd Hne.
  assert (Hall : forallb (fun d => negb (wrap 8 (Nat.iter 8 (msb_bit 16 0x1021) (Z.shiftl d 8)) =? 0))
    (seqZ 1 255) = true) by (vm_compute; reflexivity).
  rewrite forallb_forall in Hall. unfold in_u in Hd.
  specialize (Hall d). rewrite <- list_elem_of_In, elem_of_seqZ in Hall.
  specialize (Hall ltac:(lia)). apply negb_true_iff, Z.eqb_neq in Hall. exact Hall.
Qed.

Lemma crc16_inj_state c1 c2 d :
  in_u 16 c1 -> in_u 16 c2 ->
  crc16_ccitt_continue c1 d = crc16_ccitt_continue c2 d -> c1 = c2.
Proof.
  intros H1 H2 Heq. rewrite (crc16_continue_msb c1 d), (crc16_continue_msb c2 d) in Heq.
  exact (msb_crc_inj_state 16 0x1021 crc16_width crc16_poly_ok eq_refl c1 c2 d H1 H2 Heq).
Qed.

Lemma crc16_two c a1 a2 b1 b2 :
  in_u 16 c -> in_u 8 a1 -> in_u 8 a2 -> in_u 8 b1 -> in_u 8 b2 ->
  crc16_ccitt_continue c [a1; a2] = crc16_ccitt_continue c [b1; b2] ->
  a1 = b1 /\ a2 = b2.
Proof.
  intros Hc Ha1 Ha2 Hb1 Hb2 Heq.
  rewrite (crc16_continue_msb c [a1; a2]), (crc16_continue_msb c [b1; b2]), !msb_crc_2 in Heq.
  exact (msb_byte2_inj 16 0x1021 crc16_width crc16_poly_ok eq_refl crc16_low
    c a1 a2 b1 b2 Hc Ha1 Ha2 Hb1 Hb2 Heq).
Qed.

(** Two adjacent bytes inside a message determine its CRC injectively. *)
Lemma crc16_burst c pre suf a1 a2 b1 b2 :
  in_u 16 c -> in_u 8 a1 -> in_u 8 a2 -> in_u 8 b1 -> in_u 8 b2 ->
  crc16_ccitt_continue c (pre ++ [a1; a2] ++ suf) =
  crc16_ccitt_continue c (pre ++ [b1; b2] ++ suf) ->
  a1 = b1 /\ a2 = b2.
Proof.
  intros Hc Ha1 Ha2 Hb1 Hb2 Heq. rewrite !crc16_continue_app in Heq.
  pose proof (crc16_continue_range c pre Hc) as Hpre.
  revert Hpre Heq. generalize (crc16_ccitt_continue c pre). intros r Hr Heq.
  apply crc16_inj_state in Heq; [|by apply crc16_continue_range..].
  exact (crc16_two r a1 a2 b1 b2 Hr Ha1 Ha2 Hb1 Hb2 Heq).
Qed.

(** ** The parser in closed form *)

Lemma to_be_2 z : to_be 2 z = [wrap 8 (Z.shiftr z 8); Z.land z 0xFF].
Proof.
  unfold to_be, wrap. simpl. change 255 with (Z.ones 8).
  rewrite Z.land_ones, Z.shiftr_div_pow2 by lia. done.
Qed.

Lemma compute_crc_chain m :
  wf m ->
  compute_crc m =
  Ret (crc16_ccitt (h_protocol (header m) :: to_be 2 (payload_len m)
                    ++ sub (payload m) 0 (payload_len m))).
Proof.
  intros (_ & Hlen & _ & H340 & Hl & _). unfold compute_crc.
  rewrite slice_Ret by lia. mstep. rewrite to_be_2, Hlen, Z.sub_0_r.
  unfold crc16_ccitt. rewrite <- crc16_continue_app. done.
Qed.

(** Every accepted input, with the value it is parsed to. *)
Definition parsed (p : Z) (pl : bytes) (c : Z) : t :=
  mk (mkHeader p (len pl)) (pl ++ fill 0 (340 - len pl)) (len pl) c.

Lemma parsed_wf p pl c :
  in_u 8 p -> bytes_ok pl -> len pl <= 340 -> in_u 16 c -> wf (parsed p pl c).
Proof.
  intros. pose proof (len_nonneg pl). unfold wf, parsed. simpl.
  do 2 (split; [done|]). split; [|split; [len_simpl; lia|split; [lia|done]]].
  apply bytes_ok_app; [done|]. apply Forall_replicate. unfold in_u. lia.
Qed.

Lemma parsed_payload p pl c : sub (payload (parsed p pl c)) 0 (len pl) = pl.
Proof. simpl. by apply sub_app_l. Qed.

Lemma parsed_payload_slice p pl c :
  len pl <= 340 -> payload_slice (parsed p pl c) = Ret pl.
Proof.
  intros. pose proof (len_nonneg pl). unfold payload_slice, parsed. simpl.
  rewrite slice_Ret by (len_simpl; lia). rewrite Z.sub_0_r. f_equal.
  by apply sub_app_l.
Qed.

(** The checksum field: the two bytes after the payload, 0 when they are missing. *)
Definition trailer_checksum (rest : bytes) : Z :=
  if 2 <=? len rest then from_be (sub rest 0 2) else 0.

Lemma trailer_checksum_range rest : bytes_ok rest -> in_u 16 (trailer_checksum rest).
Proof.
  intros. unfold trailer_checksum. bsplit; breflect; [|unfold in_u; lia].
  pose proof (from_be_range (sub rest 0 2) ltac:(eauto with rbytes)) as Hr.
  by rewrite len_sub in Hr by lia.
Qed.

Lemma from_be_sub2 (l : bytes) x y r : l = x :: y :: r -> from_be (sub l 0 2) = from_be [x; y].
Proof. by intros ->. Qed.

Lemma iridium_parse_accepts p pl rest :
  len pl <= 340 ->
  parse (p :: to_be 2 (len pl) ++ pl ++ rest) =
  Ret (Some (parsed p pl (trailer_checksum rest))).
Proof.
  intros Hpl. pose proof (len_nonneg pl). pose proof (len_nonneg rest).
  assert (Hl : from_be (to_be 2 (len pl)) = len pl)
    by (apply from_to_be_small; unfold in_u; lia).
  rewrite to_be_2 in Hl |- *. cbn [app]. unfold parse. bcase.
  at_lit. mstep. rewrite Hl. do 2 bcase.
  rewrite slice_Ret by (len_simpl; lia). mstep.
  rewrite !sub_cons by lia. rewrite sub_app_l by lia.
  rewrite copy_Ret by (len_simpl; lia). mstep.
  unfold trailer_checksum, parsed. rewrite len_fill, Z.max_r by lia.
  rewrite (sub_fill 0 340 0 0), (sub_fill 0 340 (len pl)) by lia. cbn [fill Z.to_nat replicate app].
  destruct (2 <=? len rest) eqn:E; breflect; bcase; [|done].
  destruct rest as [|x [|y r]]; [rewrite ?len_cons, ?len_nil in E; lia..|].
  rewrite !at_cons_pos, !at_app_r by lia.
  replace (3 + len pl - 1 - 1 - 1 - len pl) with 0 by lia.
  replace (3 + len pl + 1 - 1 - 1 - 1 - len pl) with 1 by lia.
  at_lit. mstep. done.
Qed.

(** Every input that reaches the length field is one of the accepted shape, is too
    short for the length it announces, or announces more than 340 bytes. *)
Lemma iridium_split data :
  bytes_ok data -> 3 <= len data ->
  exists p n r, data = p :: to_be 2 n ++ r /\ in_u 8 p /\ in_u 16 n /\ bytes_ok r /\
    len data = 3 + len r.
Proof.
  intros Hok Hlen.
  destruct data as [|p [|x [|y r]]]; [rewrite ?len_cons, ?len_nil in Hlen; lia..|].
  inversion_clear Hok as [|? ? Hp Hok']. inversion_clear Hok' as [|? ? Hx Hok''].
  inversion_clear Hok'' as [|? ? Hy Hr].
  exists p, (from_be [x; y]), r.
  assert (Hxy : bytes_ok [x; y]) by eauto with rbytes.
  rewrite to_from_be by done. split; [done|]. split; [done|].
  split; [exact (from_be_range _ Hxy)|]. split; [done|]. len_simpl. lia.
Qed.

Lemma iridium_parse_rejects p n r :
  in_u 16 n -> (len r < n \/ 340 < n) ->
  parse (p :: to_be 2 n ++ r) = Ret None.
Proof.
  intros Hn Hbad. pose proof (len_nonneg r).
  assert (Hl : from_be (to_be 2 n) = n) by (by apply from_to_be_small).
  rewrite to_be_2 in Hl |- *. cbn [app]. unfold parse. bcase.
  at_lit. mstep. rewrite Hl.
  destruct (len _ <? 3 + n) eqn:E1; [done|]. breflect.
  rewrite !len_cons in E1. by bcase.
Qed.

(** ** Properties *)

(** C14: the frame parser is total and exact.  On any byte string it either
    returns a well-formed message, and then the input is precisely the protocol
    byte, the big-endian payload length, that payload, and a tail whose first two
    bytes (0 if missing) are the stored checksum; or it returns [None], and then
    the input has no such decomposition with a payload of at most 340 bytes.  It
    never panics, although every byte is read with an unchecked index. *)
Theorem iridium_parse_exact data (Hok : bytes_ok data) :
  (exists m rest pl, parse data = Ret (Some m) /\ wf m /\ payload_slice m = Ret pl /\
     data = h_protocol (header m) :: to_be 2 (len pl) ++ pl ++ rest /\
     payload_len m = len pl /\ checksum m = trailer_checksum rest) \/
  (parse data = Ret None /\
     ~ exists p pl rest, data = p :: to_be 2 (len pl) ++ pl ++ rest /\ len pl <= 340).
Proof.
  assert (Hno : parse data = Ret None ->
    ~ exists p pl rest, data = p :: to_be 2 (len pl) ++ pl ++ rest /\ len pl <= 340).
  { intros Hn (p & pl & rest & -> & Hle). by rewrite iridium_parse_accepts in Hn. }
  destruct (decide (3 <= len data)) as [H3|H3]; cycle 1.
  { right. assert (Hn : parse data = Ret None) by (unfold parse; by bcase). auto. }
  destruct (iridium_split data Hok H3) as (p & n & r & -> & Hp & Hn & Hr & Hlen).
  destruct (decide (n <= len r /\ n <= 340)) as [[Hnr Hn3]|Hbad]; cycle 1.
  { right. assert (Hnone : parse (p :: to_be 2 n ++ r) = Ret None)
      by (apply iridium_parse_rejects; [done|lia]). auto. }
  left. unfold in_u in Hn.
  assert (Hpl : len (sub r 0 n) = n) by (apply len_sub; lia).
  pose proof (sub_split r n ltac:(lia)) as Hsplit. revert Hsplit Hpl.
  assert (Hrest : bytes_ok (sub r n (len r - n))) by eauto with rbytes.
  assert (Hplok : bytes_ok (sub r 0 n)) by eauto with rbytes.
  revert Hrest Hplok. generalize (sub r n (len r - n)) as rest, (sub r 0 n) as pl.
  intros rest pl Hrest Hplok Hsplit <-. clear Hno. subst r.
  exists (parsed p pl (trailer_checksum rest)), rest, pl.
  split; [by apply iridium_parse_accepts|].
  split; [by apply parsed_wf, trailer_checksum_range|].
  split; [by apply parsed_payload_slice|]. done.
Qed.

Lemma iridium_parse_exact_witness :
  exists m rest pl, parse [7; 0; 2; 10; 11; 0; 5; 99] = Ret (Some m) /\ wf m /\
    payload_slice m = Ret pl /\
    [7; 0; 2; 10; 11; 0; 5; 99] = h_protocol (header m) :: to_be 2 (len pl) ++ pl ++ rest /\
    payload_len m = len pl /\ checksum m = trailer_checksum rest.
Proof.
  destruct (iridium_parse_exact [7; 0; 2; 10; 11; 0; 5; 99]
    ltac:(apply (bool_decide_unpack _); vm_compute; reflexivity)) as [H|[H _]].
  - exact H.
  - vm_compute in H. discriminate H.
Defined.

Lemma frame_bytes p pl c :
  frame p pl c = p :: to_be 2 (len pl) ++ pl ++ to_be 2 c.
Proof. done. Qed.

Lemma trailer_checksum_frame c : in_u 16 c -> trailer_checksum (to_be 2 c) = c.
Proof.
  intros. unfold trailer_checksum. rewrite len_to_be. simpl.
  rewrite sub_all by (by rewrite len_to_be). by apply from_to_be_small.
Qed.

Lemma validate_parsed p pl c :
  in_u 8 p -> bytes_ok pl -> len pl <= 340 -> in_u 16 c ->
  validate_checksum (parsed p pl c) =
  Ret (crc16_ccitt (p :: to_be 2 (len pl) ++ pl) =? c).
Proof.
  intros. unfold validate_checksum. rewrite compute_crc_chain by (by apply parsed_wf).
  mstep. rewrite parsed_payload. done.
Qed.

(** a frame whose trailer is the CRC of its header and payload is parsed back
    to the same protocol byte, payload and checksum, validates, and its
    [total_size] is the number of bytes on the wire. *)
Theorem iridium_frame_roundtrip p pl
  (Hp : in_u 8 p) (Hpl : bytes_ok pl) (Hle : len pl <= 340) :
  let wire := frame p pl (crc16_ccitt (p :: to_be 2 (len pl) ++ pl)) in
  exists m, parse wire = Ret (Some m) /\ h_protocol (header m) = p /\
    payload_slice m = Ret pl /\ validate_checksum m = Ret true /\
    total_size m = len wire.
Proof.
  intros wire. set (c := crc16_ccitt _) in wire. subst wire.
  assert (Hc : in_u 16 c) by apply crc16_range.
  exists (parsed p pl c). rewrite frame_bytes.
  rewrite iridium_parse_accepts, trailer_checksum_frame by done.
  split; [done|]. split; [done|]. split; [by apply parsed_payload_slice|].
  rewrite validate_parsed by done. split; [by rewrite Z.eqb_refl|].
  unfold total_size, parsed. cbn [payload_len]. rewrite len_cons, !len_app, !len_to_be. lia.
Qed.

Lemma iridium_frame_roundtrip_witness :
  exists m, parse (frame 3 [1; 2; 3] (crc16_ccitt (3 :: to_be 2 3 ++ [1; 2; 3]))) = Ret (Some m) /\
    validate_checksum m = Ret true.
Proof.
  destruct (iridium_frame_roundtrip 3 [1; 2; 3]) as (m & H1 & _ & _ & H2 & _).
  - apply (bool_decide_unpack _). vm_compute. reflexivity.
  - apply (bool_decide_unpack _). vm_compute. reflexivity.
  - vm_compute. discriminate.
  - exists m. split; [exact H1|exact H2].
Defined.

(** C26: the checksum detects every corruption confined to two adjacent payload
    bytes: if a frame carries the right CRC and an adversary replaces two
    neighbouring bytes of the payload by others, the frame is still accepted by
    the parser but no longer validates. *)
Theorem iridium_burst_detected p pre suf a1 a2 b1 b2
  (Hp : in_u 8 p) (Hpre : bytes_ok pre) (Hsuf : bytes_ok suf)
  (Ha : in_u 8 a1 /\ in_u 8 a2) (Hb : in_u 8 b1 /\ in_u 8 b2)
  (Hle : len pre + 2 + len suf <= 340)
  (Hne : (a1, a2) <> (b1, b2)) :
  let sent := pre ++ [a1; a2] ++ suf in
  let received := pre ++ [b1; b2] ++ suf in
  exists m,
    parse (frame p received (crc16_ccitt (p :: to_be 2 (len sent) ++ sent))) = Ret (Some m) /\
    payload_slice m = Ret received /\ validate_checksum m = Ret false.
Proof.
  intros sent received. destruct Ha as [Ha1 Ha2], Hb as [Hb1 Hb2].
  set (c := crc16_ccitt (p :: to_be 2 (len sent) ++ sent)).
  assert (Hc : in_u 16 c) by apply crc16_range.
  assert (Hlen : len received = len sent)
    by (unfold sent, received; rewrite !len_app, !len_cons, len_nil; lia).
  assert (Hle' : len received <= 340)
    by (unfold received; rewrite !len_app, !len_cons, len_nil; lia).
  assert (Hrok : bytes_ok received) by (unfold received; eauto 8 with rbytes).
  exists (parsed p received c). rewrite frame_bytes.
  rewrite iridium_parse_accepts, trailer_checksum_frame by done.
  split; [done|]. split; [by apply parsed_payload_slice|].
  rewrite validate_parsed by done. f_equal. apply Z.eqb_neq.
  rewrite Hlen. intros Heq. apply Hne. unfold c, crc16_ccitt, sent, received in Heq.
  rewrite !app_comm_cons, !(app_assoc (p :: _)) in Heq.
  apply crc16_burst in Heq as [-> ->]; [done|unfold CRC16_CCITT_INIT, in_u; lia|done..].
Qed.

Lemma iridium_burst_detected_witness :
  exists m,
    parse (frame 1 [9; 4; 6; 8] (crc16_ccitt (1 :: to_be 2 4 ++ [9; 4; 5; 8]))) = Ret (Some m) /\
    validate_checksum m = Ret false.
Proof.
  destruct (iridium_burst_detected 1 [9] [8] 4 5 4 6) as (m & H1 & _ & H2).
  - apply (bool_decide_unpack _). vm_compute. reflexivity.
  - apply (bool_decide_unpack _). vm_compute. reflexivity.
  - apply (bool_decide_unpack _). vm_compute. reflexivity.
  - unfold in_u. lia.
  - unfold in_u. lia.
  - vm_compute. discriminate.
  - intros H. discriminate H.
  - exists m. split; [exact H1|exact H2].
Defined.
