(* ===== verification/AstsProtobuf.v ===== *)
(** * AST SpaceMobile Protobuf framing ([src/src/asts_protobuf.rs])

    The fixed-size [ASTSProtobufMessage], its encoder into a caller-supplied
    buffer, and the [ZeroCopyTranslator] whose only state is the process-wide
    atomic counter [GLOBAL_SEQUENCE] (an argument and a result here).  The
    encoder mutates the caller's buffer, so the buffer is a result as well. *)

From S2P Require Import Prelude IridiumSbd.

Module ASTSProtobufMessage.

Record ASTSProtobufHeader := mkHeader {
  message_type : Z;
  sequence : Z;
  length : Z
}.

Record t := mk {
  header : ASTSProtobufHeader;
  payload : bytes; (* [u8; 1024] *)
  payload_len : Z
}.

Definition new (message_type sequence : Z) : t :=
  mk (mkHeader message_type sequence 0) (fill 0 1024) 0.

(** [set_payload]: the Boolean result and the message after the call. *)
Definition set_payload (m : t) (data : bytes) : outcome (bool * t) :=
  if 1024 <? len data then Ret (false, m) else
  p ← copy_from_slice (payload m) 0 (len data) data;
  Ret (true, mk (mkHeader (message_type (header m)) (sequence (header m)) (wrap 16 (len data)))
               p (wrap 16 (len data))).

Definition total_size (m : t) : Z := 7 + payload_len m.

(** [payload_slice] *)
Definition payload_slice (m : t) : outcome bytes := (payload m).[0 ~> payload_len m].

(** [encode_to_buffer]: the result and the buffer after the call. *)
Definition encode_to_buffer (m : t) (buffer : bytes) : outcome (option Z * bytes) :=
  if len buffer <? total_size m then Ret (None, buffer) else
  b ← set_at buffer 0 (message_type (header m));
  b ← copy_from_slice b 1 5 (to_be 4 (sequence (header m)));
  b ← copy_from_slice b 5 7 (to_be 2 (length (header m)));
  p ← (payload m).[0 ~> payload_len m];
  b ← copy_from_slice b 7 (7 + payload_len m) p;
  Ret (Some (total_size m), b).

(** Well-formed messages: the invariant of [new] and [set_payload]. *)
Definition wf (m : t) : Prop :=
  in_u 8 (message_type (header m)) /\ in_u 32 (sequence (header m)) /\
  length (header m) = payload_len m /\ 0 <= payload_len m <= 1024 /\
  len (payload m) = 1024 /\ bytes_ok (payload m).

End ASTSProtobufMessage.

Module ZeroCopyTranslator.
Import ASTSProtobufMessage.

(** [GLOBAL_SEQUENCE.fetch_add(1)]: the value read and the counter left. *)
Definition fetch_add (global_sequence : Z) : Z * Z :=
  (global_sequence, wrap 32 (global_sequence + 1)).

(** [ZeroCopyTranslator::translate_with_type] *)
Definition translate_with_type (g : Z) (iridium_msg : IridiumSBDMessage.t) (message_type : Z)
    (output_buffer : bytes) : outcome (option Z * bytes * Z) :=
  let '(seq, g) := fetch_add g in
  let asts_msg := new message_type seq in
  p ← IridiumSBDMessage.payload_slice iridium_msg;
  '(ok, asts_msg) ← set_payload asts_msg p;
  if negb ok then Ret (None, output_buffer, g) else
  '(r, b) ← encode_to_buffer asts_msg output_buffer;
  Ret (r, b, g).

(** [ZeroCopyTranslator::translate] *)
Definition translate (g : Z) (iridium_msg : IridiumSBDMessage.t) (output_buffer : bytes)
    : outcome (option Z * bytes * Z) :=
  let '(seq, g) := fetch_add g in
  let asts_msg := new 0x01 seq in
  p ← IridiumSBDMessage.payload_slice iridium_msg;
  '(ok, asts_msg) ← set_payload asts_msg p;
  if negb ok then Ret (None, output_buffer, g) else
  '(r, b) ← encode_to_buffer asts_msg output_buffer;
  Ret (r, b, g).

(** The translations a process performs, in the order of their [fetch_add]s: the
    results and the counter left. *)
Fixpoint run (g : Z) (jobs : list (IridiumSBDMessage.t * bytes))
    : outcome (list (option Z * bytes) * Z) :=
  match jobs with
  | [] => Ret ([], g)
  | (m, buf) :: jobs =>
      '(r, b, g) ← translate g m buf;
      '(rs, g) ← run g jobs;
      Ret ((r, b) :: rs, g)
  end.

End ZeroCopyTranslator.

Import ASTSProtobufMessage.

(** ** Lemmas *)

(** The bytes [encode_to_buffer] writes. *)
Definition asts_wire (mt seq : Z) (pl : bytes) : bytes :=
  mt :: to_be 4 seq ++ to_be 2 (len pl) ++ pl.

Lemma len_asts_wire mt seq pl : len (asts_wire mt seq pl) = 7 + len pl.
Proof. unfold asts_wire. rewrite len_cons, !len_app, !len_to_be. lia. Qed.

#[export] Hint Rewrite len_asts_wire : lens.

Lemma asts_new_wf mt seq : in_u 8 mt -> in_u 32 seq -> wf (new mt seq).
Proof.
  intros. unfold wf, new. simpl. repeat (split; [done || lia|]).
  apply Forall_replicate. unfold in_u. lia.
Qed.

Lemma asts_set_payload m pl :
  wf m -> bytes_ok pl -> len pl <= 1024 ->
  exists m', set_payload m pl = Ret (true, m') /\ wf m' /\ payload_len m' = len pl /\
    message_type (header m') = message_type (header m) /\
    sequence (header m') = sequence (header m) /\ sub (payload m') 0 (len pl) = pl.
Proof.
  intros (Ht & Hs & Hl & Hr & H1024 & Hok) Hpl Hle. pose proof (len_nonneg pl).
  unfold set_payload. bcase. rewrite copy_Ret by lia. mstep.
  rewrite sub_0, !wrap_small by (unfold in_u; lia). eexists. split; [done|].
  cbn [payload payload_len header message_type sequence length app].
  split; [|split_and!; [done..|by apply sub_app_l]].
  unfold wf; cbn [payload payload_len header message_type sequence length].
  do 3 (split; [done|]). split; [lia|].
  rewrite len_app, (len_sub (payload m)) by lia. split; [lia|eauto with rbytes].
Qed.

(** The four writes of the encoder produce the wire image and keep the rest of the
    buffer. *)
Lemma asts_encode_fits m buffer :
  wf m -> total_size m <= len buffer ->
  encode_to_buffer m buffer =
  Ret (Some (total_size m),
       asts_wire (message_type (header m)) (sequence (header m)) (sub (payload m) 0 (payload_len m))
       ++ sub buffer (total_size m) (len buffer - total_size m)).
Proof.
  unfold total_size. intros (_ & _ & Hl & Hr & H1024 & _) Hfit. unfold encode_to_buffer, total_size.
  set (pl := sub (payload m) 0 (payload_len m)).
  assert (Hpl : len pl = payload_len m) by (apply len_sub; lia).
  bcase. rewrite slice_Ret, Z.sub_0_r by lia. fold pl. rewrite Hl, <- Hpl in *.
  set (suf := sub buffer (7 + len pl) (len buffer - (7 + len pl))).
  assert (Hbuf : buffer = sub buffer 0 1 ++ sub buffer 1 4 ++ sub buffer 5 2
    ++ sub buffer 7 (len pl) ++ suf).
  { unfold suf. rewrite (sub_app_sub buffer 7 (len pl)), (sub_app_sub buffer 5 2),
      (sub_app_sub buffer 1 4), (sub_app_sub buffer 0 1) by lia. by rewrite sub_all by lia. }
  assert (Hlen : len (sub buffer 0 1) = 1 /\ len (sub buffer 1 4) = 4 /\
    len (sub buffer 5 2) = 2 /\ len (sub buffer 7 (len pl)) = len pl)
    by (rewrite !len_sub by lia; done).
  clearbody suf. revert Hbuf Hlen. clear Hfit.
  generalize (sub buffer 0 1) as x1, (sub buffer 1 4) as x2, (sub buffer 5 2) as x3,
    (sub buffer 7 (len pl)) as x4. intros x1 x2 x3 x4 -> (H1 & H2 & H3 & H4).
  unfold set_at. rewrite (copy_first [_] x1) by done. mstep.
  rewrite (copy_after [_] (to_be 4 _) x2 (x3 ++ x4 ++ suf)) by (rewrite ?len_to_be; done).
  mstep.
  rewrite app_assoc, (copy_after (_ ++ _) (to_be 2 _) x3 (x4 ++ suf))
    by (rewrite ?len_app, ?len_to_be; done). mstep.
  rewrite app_assoc, (copy_after (_ ++ _) pl x4 suf)
    by (rewrite ?len_app, ?len_to_be; done). mstep.
  unfold asts_wire. cbn [app]. by rewrite <- !app_assoc.
Qed.

Lemma asts_encode_short m buffer :
  len buffer < total_size m -> encode_to_buffer m buffer = Ret (None, buffer).
Proof. intros. unfold encode_to_buffer. by bcase. Qed.

(** The translation of a well-formed Iridium message, in closed form. *)
Definition translated (g mt : Z) (pl buffer : bytes) : option Z * bytes :=
  if len buffer <? 7 + len pl then (None, buffer)
  else (Some (7 + len pl), asts_wire mt g pl ++ sub buffer (7 + len pl) (len buffer - (7 + len pl))).

Lemma translate_with_type_eq g mt m pl buffer :
  in_u 32 g -> in_u 8 mt -> bytes_ok pl -> len pl <= 1024 ->
  IridiumSBDMessage.payload_slice m = Ret pl ->
  ZeroCopyTranslator.translate_with_type g m mt buffer =
  Ret (translated g mt pl buffer, wrap 32 (g + 1)).
Proof.
  intros Hg Hmt Hok Hle Hpl. unfold ZeroCopyTranslator.translate_with_type. simpl.
  rewrite Hpl. mstep.
  destruct (asts_set_payload (new mt g) pl (asts_new_wf _ _ Hmt Hg) Hok Hle)
    as (m' & Heq & Hwf & Hl & Ht & Hs & Hsub).
  rewrite Heq. mstep. cbn [negb]. unfold translated.
  assert (Hts : total_size m' = 7 + len pl) by (unfold total_size; lia).
  destruct (len buffer <? 7 + len pl) eqn:E; breflect.
  - by rewrite asts_encode_short by lia.
  - rewrite asts_encode_fits by (done || lia). mstep.
    by rewrite Hts, Ht, Hs, Hl, Hsub.
Qed.

Lemma translate_is_type_1 g m buffer :
  ZeroCopyTranslator.translate g m buffer =
  ZeroCopyTranslator.translate_with_type g m 0x01 buffer.
Proof. done. Qed.

Lemma wf_iridium_payload m :
  IridiumSBDMessage.wf m ->
  exists pl, IridiumSBDMessage.payload_slice m = Ret pl /\ bytes_ok pl /\
    len pl = IridiumSBDMessage.payload_len m /\ len pl <= 340.
Proof.
  intros (_ & _ & Hok & H340 & Hl & _). unfold IridiumSBDMessage.payload_slice.
  rewrite slice_Ret by lia. eexists. split; [done|].
  split; [eauto with rbytes|]. rewrite len_sub; lia.
Qed.

(** ** Properties *)

(** the encoder's contract on every buffer.  If the buffer is too small it
    is returned untouched with [None]; otherwise its first [7 + payload_len]
    bytes become type, big-endian sequence, big-endian length and payload, the
    number of bytes written is returned, and every later byte of the buffer is
    what it was. *)
Theorem asts_encode_contract m buffer (Hwf : wf m) :
  exists pl, payload_slice m = Ret pl /\
  encode_to_buffer m buffer =
    (if len buffer <? 7 + len pl then Ret (None, buffer)
     else Ret (Some (7 + len pl),
               (message_type (header m) :: to_be 4 (sequence (header m)) ++ to_be 2 (len pl) ++ pl)
               ++ sub buffer (7 + len pl) (len buffer - (7 + len pl)))).
Proof.
  pose proof Hwf as (_ & _ & Hl & Hr & H1024 & _).
  unfold payload_slice. rewrite slice_Ret, Z.sub_0_r by lia. eexists. split; [done|].
  rewrite len_sub by lia. bsplit; breflect.
  - by apply asts_encode_short.
  - rewrite asts_encode_fits by done. unfold asts_wire.
    by rewrite (len_sub (payload m)) by lia.
Qed.

Lemma asts_encode_contract_witness :
  encode_to_buffer (new 5 258) (fill 9 9) =
  Ret (Some 7, [5; 0; 0; 1; 2; 0; 0; 9; 9]).
Proof.
  destruct (asts_encode_contract (new 5 258) (fill 9 9)
    ltac:(apply asts_new_wf; unfold in_u; lia)) as (pl & Hpl & Heq).
  vm_compute in Hpl. injection Hpl as <-. rewrite Heq. vm_compute. reflexivity.
Defined.

(** The sequence number found on the wire. *)
Definition wire_sequence (r : option Z * bytes) : Z := from_be (sub (r.2) 1 4).

Lemma run_numbers g jobs :
  in_u 32 g ->
  Forall (fun j : IridiumSBDMessage.t * bytes => IridiumSBDMessage.wf j.1 /\ 347 <= len j.2) jobs ->
  exists rs, ZeroCopyTranslator.run g jobs = Ret (rs, wrap 32 (g + len jobs)) /\
    wire_sequence <$> rs = (fun i => wrap 32 (g + i)) <$> seqZ 0 (len jobs).
Proof.
  intros Hg Hjobs. revert g Hg.
  induction Hjobs as [|[m buf] jobs [Hwf Hbuf] _ IH]; intros g Hg.
  { exists []. rewrite len_nil, Z.add_0_r, wrap_small by done. done. }
  simpl in Hwf, Hbuf. cbn [ZeroCopyTranslator.run].
  destruct (wf_iridium_payload m Hwf) as (pl & Hpl & Hok & _ & Hle).
  rewrite translate_is_type_1, (translate_with_type_eq _ _ _ pl)
    by (done || lia || (unfold in_u; lia)). mstep. unfold translated. bcase. mstep.
  destruct (IH (wrap 32 (g + 1)) (wrap_range 32 _ ltac:(lia))) as (rs & -> & Hrs).
  mstep. eexists. pose proof (len_nonneg jobs). rewrite len_cons. split.
  { do 2 f_equal. unfold wrap. rewrite Zplus_mod_idemp_l. f_equal. lia. }
  rewrite fmap_cons, Hrs, (seqZ_cons 0 (1 + len jobs)), fmap_cons by lia. f_equal.
  - unfold wire_sequence, asts_wire. cbn [snd app].
    rewrite sub_cons by lia. rewrite <- app_assoc, sub_app_l by (by rewrite len_to_be).
    rewrite from_to_be. by rewrite Z.add_0_r.
  - replace (Z.pred (1 + len jobs)) with (len jobs) by lia.
    rewrite <- (fmap_add_seqZ 1 0), <- list_fmap_compose.
    apply list_fmap_ext. intros i x _. simpl.
    unfold wrap. rewrite Zplus_mod_idemp_l. f_equal. lia.
Qed.

(** Offsets below [2^w] keep wrapped numbers apart. *)
Lemma wrap_offsets_distinct w g n :
  0 <= w -> n <= 2 ^ w -> NoDup ((fun i => wrap w (g + i)) <$> seqZ 0 n).
Proof.
  intros Hw Hn. apply NoDup_fmap_2_strong; [|apply NoDup_seqZ].
  intros x y Hx%elem_of_seqZ Hy%elem_of_seqZ Heq. unfold wrap in Heq.
  assert (0 < 2 ^ w) by lia.
  assert (Hd : (x - y) mod 2 ^ w = 0).
  { replace (x - y) with ((g + x) - (g + y)) by lia.
    rewrite Zminus_mod, Heq, Z.sub_diag. apply Z.mod_0_l. lia. }
  apply Z.mod_divide in Hd as [k Hk]; [|lia]. assert (k = 0) by nia. lia.
Qed.

(** the process-wide counter numbers translations consecutively modulo
    [2^32]: for any run of translations of parsed messages into large enough
    buffers, the [i]-th output carries sequence number [g + i] modulo [2^32]; so
    all numbers of a run of up to [2^32] translations are distinct, and the
    counter afterwards continues where the run ended. *)
Theorem sequence_numbers g jobs
  (Hg : in_u 32 g)
  (Hjobs : Forall (fun j => IridiumSBDMessage.wf j.1 /\ 347 <= len j.2) jobs) :
  exists rs, ZeroCopyTranslator.run g jobs = Ret (rs, wrap 32 (g + len jobs)) /\
    wire_sequence <$> rs = (fun i => wrap 32 (g + i)) <$> seqZ 0 (len jobs) /\
    (len jobs <= 2 ^ 32 -> NoDup (wire_sequence <$> rs)).
Proof.
  destruct (run_numbers g jobs Hg Hjobs) as (rs & Hrun & Hrs). exists rs.
  split; [done|]. split; [done|].
  intros Hlt. rewrite Hrs. by apply wrap_offsets_distinct.
Qed.

Lemma sequence_numbers_witness :
  let m := IridiumSBDMessage.mk (IridiumSBDMessage.mkHeader 1 2) (fill 7 340) 2 0 in
  exists rs, ZeroCopyTranslator.run (2 ^ 32 - 1) [(m, fill 0 347); (m, fill 0 347)] = Ret (rs, 1) /\
    NoDup (wire_sequence <$> rs).
Proof.
  intros m.
  destruct (sequence_numbers (2 ^ 32 - 1) [(m, fill 0 347); (m, fill 0 347)])
    as (rs & H1 & _ & H2).
  - unfold in_u. lia.
  - assert (H : IridiumSBDMessage.wf m /\ 347 <= len (fill 0 347)).
    { unfold IridiumSBDMessage.wf.
      split; [|rewrite len_fill; lia].
      repeat (split; [first [reflexivity | unfold in_u; simpl; lia | apply (bool_decide_unpack _); vm_compute; reflexivity]|]).
      unfold in_u. simpl. lia. }
    repeat constructor; apply H.
  - exists rs. split; [exact H1|]. apply H2. vm_compute. discriminate.
Defined.
