(* ===== verification/InmarsatC.v ===== *)
(** * Inmarsat-C teletype frames ([src/src/inmarsat_c.rs])

    [magic (4)][message number (2)][destination (4)][source (4)][payload (0..)]
    [checksum (2)].  Station identifiers are kept as hexadecimal text (the bytes
    of the [String]).  The CRC and the hexadecimal decoder are the [crc] and
    [hex] crates, used through their interfaces. *)

From S2P Require Import Prelude Crc Externals.

Module InmarsatCMessage.

Definition MAGIC_NUMBER : Z := 0x494E4D01.

Inductive ParseError :=
| InvalidMagicNumber (found expected : Z)
| ChecksumMismatch (expected found : Z)
| InvalidLength (min found : Z)
| InvalidDestinationId (value : bytes)
| InvalidSourceId (value : bytes).

#[export] Instance ParseError_eq_dec : EqDecision ParseError.
Proof. solve_decision. Defined.

Record t := mk {
  message_number : Z;
  destination_id : bytes;
  source_id : bytes;
  payload : bytes
}.

Section ops.
Context `{CrcCrate, HexCrate}.

Definition compute_checksum (data : bytes) : Z := crc_checksum data.

(** [format!("{:02x}{:02x}{:02x}{:02x}", ..)] of four indexed bytes *)
Definition parse_inner (data : bytes) : outcome (result t ParseError) :=
  mn ← read_at data 4 2;
  let message_number := from_be mn in
  db ← read_at data 6 4;
  let destination_id := hex_text db in
  match hex_decode destination_id with
  | None => Ret (Err (InvalidDestinationId destination_id))
  | Some _ =>
      sb ← read_at data 10 4;
      let source_id := hex_text sb in
      match hex_decode source_id with
      | None => Ret (Err (InvalidSourceId source_id))
      | Some _ =>
          payload ← (if 14 <? len data then slice_from data 14 else Ret []);
          Ret (Ok (mk message_number destination_id source_id payload))
      end
  end.

Definition parse (data : bytes) : outcome (result t ParseError) :=
  if len data <? 16 then Ret (Err (InvalidLength 16 (len data))) else
  mb ← read_at data 0 4;
  let magic := from_be mb in
  if negb (magic =? MAGIC_NUMBER) then Ret (Err (InvalidMagicNumber magic MAGIC_NUMBER)) else
  let payload_len := len data - 2 in
  body ← data.[0 ~> payload_len];
  let computed_checksum := compute_checksum body in
  cb ← read_at data payload_len 2;
  let stored_checksum := from_be cb in
  if negb (computed_checksum =? stored_checksum)
  then Ret (Err (ChecksumMismatch computed_checksum stored_checksum)) else
  parse_inner body.

(** [&bytes[..4.min(bytes.len())]] of a decoded identifier, zero if undecodable *)
Definition id_bytes (id : bytes) : outcome bytes :=
  let bs := match hex_decode id with Some bs => bs | None => fill 0 4 end in
  bs.[0 ~> Z.min 4 (len bs)].

Definition encode (m : t) : outcome bytes :=
  let buffer := fill 0 128 in
  buffer ← copy_from_slice buffer 0 4 (to_be 4 MAGIC_NUMBER);
  buffer ← copy_from_slice buffer 4 6 (to_be 2 (message_number m));
  dest_bytes ← id_bytes (destination_id m);
  buffer ← copy_from_slice buffer 6 10 dest_bytes;
  src_bytes ← id_bytes (source_id m);
  buffer ← copy_from_slice buffer 10 14 src_bytes;
  let payload_len := Z.min (len (payload m)) 114 in
  p ← (payload m).[0 ~> payload_len];
  buffer ← copy_from_slice buffer 14 (14 + payload_len) p;
  let data_len := 14 + payload_len in
  let buffer := truncate buffer data_len in
  body ← buffer.[0 ~> data_len];
  let checksum := compute_checksum body in
  Ret (buffer ++ to_be 2 checksum).

(** The frame without and with its checksum. *)
Definition body (mn : Z) (dst src pl : bytes) : bytes :=
  to_be 4 MAGIC_NUMBER ++ to_be 2 mn ++ dst ++ src ++ pl.
Definition wire (mn : Z) (dst src pl : bytes) : bytes :=
  body mn dst src pl ++ to_be 2 (compute_checksum (body mn dst src pl)).

End ops.
End InmarsatCMessage.

Import InmarsatCMessage.

Section proofs.
Context `{CrcCrate, HexCrate, !CrcLaws, !HexLaws}.

(** ** Lemmas *)

Lemma len_body mn dst src pl :
  len dst = 4 -> len src = 4 -> len (body mn dst src pl) = 14 + len pl.
Proof. intros. unfold body. rewrite !len_app, !len_to_be. lia. Qed.

Lemma parse_inner_body d :
  bytes_ok d -> 14 <= len d ->
  parse_inner d = Ret (Ok (mk (from_be (sub d 4 2)) (hex_text (sub d 6 4))
    (hex_text (sub d 10 4)) (sub d 14 (len d - 14)))).
Proof.
  intros Hok Hlen. unfold parse_inner. rewrite !read_at_Ret by lia. mstep.
  rewrite !hex_decode_text by eauto with rbytes. mstep.
  destruct (14 <? len d) eqn:E; breflect.
  - rewrite slice_from_Ret by lia. done.
  - replace (len d - 14) with 0 by lia. by rewrite sub_0.
Qed.

(** The parser in closed form. *)
Lemma inmarsat_parse_eq data :
  bytes_ok data ->
  parse data = Ret (
    if len data <? 16 then Err (InvalidLength 16 (len data)) else
    if negb (from_be (sub data 0 4) =? MAGIC_NUMBER)
    then Err (InvalidMagicNumber (from_be (sub data 0 4)) MAGIC_NUMBER) else
    let computed := compute_checksum (sub data 0 (len data - 2)) in
    let stored := from_be (sub data (len data - 2) 2) in
    if negb (computed =? stored) then Err (ChecksumMismatch computed stored) else
    Ok (mk (from_be (sub data 4 2)) (hex_text (sub data 6 4))
         (hex_text (sub data 10 4)) (sub data 14 (len data - 16)))).
Proof.
  intros Hok. unfold parse. destruct (len data <? 16) eqn:E; [done|]. breflect.
  rewrite (read_at_Ret data 0 4) by lia. mstep. destruct (negb _); [done|].
  rewrite slice_Ret, Z.sub_0_r, (read_at_Ret data) by lia. mstep. cbv zeta.
  destruct (negb _); [done|].
  rewrite parse_inner_body by (eauto with rbytes || (rewrite len_sub; lia)).
  rewrite len_sub, !sub_sub by lia. do 4 f_equal; lia.
Qed.

Lemma id_bytes_eq id bs :
  hex_decode id = Some bs -> id_bytes id = Ret (sub bs 0 (Z.min 4 (len bs))).
Proof.
  intros Hid. pose proof (len_nonneg bs). unfold id_bytes. rewrite Hid.
  rewrite slice_Ret by lia. by rewrite Z.sub_0_r.
Qed.

Lemma copy_short_Panic {A} (dst src : list A) a b :
  len src <> b - a -> copy_from_slice dst a b src = Panic.
Proof.
  intros. unfold copy_from_slice.
  rewrite (proj2 (Z.eqb_neq _ _)) by lia. by rewrite andb_false_r.
Qed.

(** The first six writes: what is in the buffer when the identifiers are written. *)
Lemma inmarsat_encode_eq m dst src :
  hex_decode (destination_id m) = Some dst -> hex_decode (source_id m) = Some src ->
  encode m =
    if (len dst <? 4) || (len src <? 4) then Panic
    else Ret (wire (message_number m) (sub dst 0 4) (sub src 0 4)
                (sub (payload m) 0 (Z.min (len (payload m)) 114))).
Proof.
  intros Hd Hs. pose proof (len_nonneg dst). pose proof (len_nonneg src).
  pose proof (len_nonneg (payload m)). unfold encode.
  rewrite copy_cursor_0 by (rewrite ?len_to_be; lia). mstep.
  rewrite copy_cursor by (rewrite ?len_to_be; lia). mstep.
  rewrite (id_bytes_eq (destination_id m) dst) by done. mstep.
  destruct (len dst <? 4) eqn:E; breflect; cbn [orb].
  { rewrite copy_short_Panic by (rewrite len_sub; lia). done. }
  rewrite (Z.min_l 4 (len dst)) by lia. rewrite copy_cursor by (rewrite ?len_app, ?len_to_be, ?len_sub; lia).
  mstep. rewrite (id_bytes_eq (source_id m) src) by done. mstep.
  destruct (len src <? 4) eqn:E'; breflect.
  { rewrite copy_short_Panic by (rewrite len_sub; lia). done. }
  rewrite (Z.min_l 4 (len src)) by lia.
  rewrite copy_cursor by (rewrite ?len_app, ?len_to_be, ?len_sub; lia). mstep.
  rewrite slice_Ret, Z.sub_0_r by lia. mstep.
  set (n := Z.min (len (payload m)) 114).
  assert (Hn : 0 <= n <= len (payload m) /\ n <= 114) by lia. clearbody n.
  rewrite copy_cursor by (rewrite ?len_app, ?len_to_be, ?len_sub; lia). mstep.
  rewrite truncate_app by (rewrite !len_app, !len_to_be, !len_sub by lia; lia).
  rewrite slice_Ret by (rewrite ?len_app, ?len_to_be, ?len_sub; lia). mstep.
  rewrite Z.sub_0_r, (sub_all (_ ++ _)) by (rewrite ?len_app, ?len_to_be, ?len_sub; lia).
  unfold wire, body. by rewrite <- !app_assoc.
Qed.

Lemma wire_bytes_ok mn dst src pl :
  bytes_ok dst -> bytes_ok src -> bytes_ok pl -> bytes_ok (wire mn dst src pl).
Proof. intros. unfold wire, body. eauto 12 with rbytes. Qed.

Lemma inmarsat_parse_wire mn dst src pl :
  in_u 16 mn -> bytes_ok dst -> bytes_ok src -> bytes_ok pl -> len dst = 4 -> len src = 4 ->
  parse (wire mn dst src pl) = Ret (Ok (mk mn (hex_text dst) (hex_text src) pl)).
Proof.
  intros Hmn Hd Hs Hp Hld Hls. rewrite inmarsat_parse_eq by (by apply wire_bytes_ok).
  set (c := compute_checksum (body mn dst src pl)).
  assert (Hlen : len (wire mn dst src pl) = 16 + len pl)
    by (unfold wire; rewrite len_app, len_body, len_to_be by done; lia).
  pose proof (len_nonneg pl). rewrite Hlen. bcase. unfold wire. fold c.
  assert (Hb : len (body mn dst src pl) = 14 + len pl) by (by apply len_body).
  replace (16 + len pl - 2) with (len (body mn dst src pl)) by lia. cbv zeta.
  rewrite (sub_app_l (body mn dst src pl) (to_be 2 c) (len (body mn dst src pl)) eq_refl).
  rewrite (sub_app_r _ (to_be 2 c) (len (body mn dst src pl)) 2), Z.sub_diag by lia.
  rewrite (sub_all (to_be 2 c)), (from_to_be_small 2 c)
    by (rewrite ?len_to_be; done || apply crc_checksum_u16).
  fold c. rewrite Z.eqb_refl, !(sub_app_in (body _ _ _ _)) by lia. unfold body.
  rewrite sub_app_l by (by rewrite len_to_be).
  rewrite (sub_mid (to_be 4 MAGIC_NUMBER)) by (by rewrite len_to_be).
  rewrite !(sub_app_r (to_be 4 MAGIC_NUMBER)), !(sub_app_r (to_be 2 mn)), !len_to_be
    by (rewrite !len_to_be; lia).
  rewrite sub_app_l, (sub_mid dst src), (from_to_be_small 2 mn) by (done || lia).
  rewrite !(sub_app_r dst), !(sub_app_r src), Hld, Hls by lia.
  rewrite (Z.eqb_refl c). cbn [negb]. do 3 f_equal. apply sub_all. lia.
Qed.

(** ** Properties *)

(** [parse] is total on byte strings: it never panics, reports the first
    failing check in the order length, magic number, checksum, and otherwise
    returns the message number, both identifiers as hexadecimal text and the
    whole remaining payload; the two identifier errors are unreachable. *)
Theorem inmarsat_parse_total data (Hok : bytes_ok data) :
  parse data = Ret (
    if len data <? 16 then Err (InvalidLength 16 (len data)) else
    if negb (from_be (sub data 0 4) =? MAGIC_NUMBER)
    then Err (InvalidMagicNumber (from_be (sub data 0 4)) MAGIC_NUMBER) else
    let computed := compute_checksum (sub data 0 (len data - 2)) in
    let stored := from_be (sub data (len data - 2) 2) in
    if negb (computed =? stored) then Err (ChecksumMismatch computed stored) else
    Ok (mk (from_be (sub data 4 2)) (hex_text (sub data 6 4))
         (hex_text (sub data 10 4)) (sub data 14 (len data - 16)))).
Proof. by apply inmarsat_parse_eq. Qed.

(** encoding then parsing.  For every message whose identifiers decode to at
    least four bytes, [encode] succeeds and [parse] accepts its output; the
    number is preserved, the identifiers come back as the canonical text of
    their first four bytes, and the payload comes back cut to 114 bytes.  If an
    identifier decodes to fewer than four bytes, [encode] panics. *)
Theorem inmarsat_roundtrip m dst src
  (Hmn : in_u 16 (message_number m)) (Hpl : bytes_ok (payload m))
  (Hd : hex_decode (destination_id m) = Some dst)
  (Hs : hex_decode (source_id m) = Some src) :
  (len dst < 4 \/ len src < 4 -> encode m = Panic) /\
  (4 <= len dst -> 4 <= len src ->
   exists w, encode m = Ret w /\ len w = 16 + Z.min (len (payload m)) 114 /\
     parse w = Ret (Ok (mk (message_number m) (hex_text (sub dst 0 4)) (hex_text (sub src 0 4))
                          (sub (payload m) 0 (Z.min (len (payload m)) 114))))).
Proof.
  pose proof (hex_decode_bytes _ _ Hd). pose proof (hex_decode_bytes _ _ Hs).
  pose proof (len_nonneg (payload m)).
  rewrite (inmarsat_encode_eq m dst src) by done. split.
  - intros Hbad. destruct (len dst <? 4) eqn:E; breflect; [done|].
    cbn [orb]. by bcase.
  - intros Hld Hls. do 2 bcase. cbn [orb]. eexists. split; [done|]. split.
    + unfold wire. rewrite len_app, len_body, len_to_be, len_sub
        by (rewrite ?len_sub; lia). lia.
    + apply inmarsat_parse_wire; eauto with rbytes; apply len_sub; lia.
Qed.

(** the accepted frames are exactly the canonical ones: if [parse] accepts a
    frame of at most 130 bytes, encoding the result gives that frame back, byte
    for byte. *)
Theorem inmarsat_canonical data m
  (Hok : bytes_ok data) (Hlen : len data <= 130) (Hp : parse data = Ret (Ok m)) :
  encode m = Ret data.
Proof.
  rewrite inmarsat_parse_eq in Hp by done.
  destruct (len data <? 16) eqn:E1; [done|].
  destruct (negb (from_be (sub data 0 4) =? MAGIC_NUMBER)) eqn:E2; [done|].
  cbv zeta in Hp.
  destruct (negb (compute_checksum _ =? _)) eqn:E3; [done|]. breflect. injection Hp as <-.
  rewrite (inmarsat_encode_eq _ (sub data 6 4) (sub data 10 4))
    by (apply hex_decode_text; eauto with rbytes).
  rewrite !len_sub by lia. cbn [Z.ltb Z.compare orb message_number payload]. 
  rewrite len_sub, Z.min_l, !sub_all by (rewrite ?len_sub; lia).
  assert (Hb : body (from_be (sub data 4 2)) (sub data 6 4) (sub data 10 4)
    (sub data 14 (len data - 16)) = sub data 0 (len data - 2)).
  { unfold body. rewrite <- E2, !to_from_be by (eauto with rbytes || (rewrite len_sub; lia)).
    rewrite !sub_app_sub by lia. f_equal. lia. }
  unfold wire. rewrite Hb, E3, to_from_be, sub_app_sub, sub_all
    by (eauto with rbytes || (rewrite ?len_sub; lia)). done.
Qed.

End proofs.

#[local] Existing Instances crc_ibm_3740 crc_ibm_3740_laws hex_ref hex_ref_laws.

Lemma inmarsat_parse_total_witness :
  parse (fill 1 16) = Ret (Err (InvalidMagicNumber 0x01010101 MAGIC_NUMBER)).
Proof.
  rewrite (inmarsat_parse_total (fill 1 16)).
  - vm_compute. reflexivity.
  - apply (bool_decide_unpack _). vm_compute. reflexivity.
Defined.

Lemma inmarsat_roundtrip_witness :
  exists w, encode (mk 1234 (hex_text [1; 2; 3; 4]) (hex_text [5; 6; 7; 8]) [72; 101]) = Ret w /\
    parse w = Ret (Ok (mk 1234 (hex_text [1; 2; 3; 4]) (hex_text [5; 6; 7; 8]) [72; 101])).
Proof.
  destruct (inmarsat_roundtrip (mk 1234 (hex_text [1; 2; 3; 4]) (hex_text [5; 6; 7; 8]) [72; 101])
    [1; 2; 3; 4] [5; 6; 7; 8]) as [_ H].
  - unfold in_u. simpl. lia.
  - apply (bool_decide_unpack _). vm_compute. reflexivity.
  - reflexivity.
  - reflexivity.
  - destruct H as (w & H1 & _ & H2); [vm_compute; discriminate..|].
    exists w. split; [exact H1|exact H2].
Defined.

Lemma inmarsat_canonical_witness :
  encode (mk 7 (hex_text [1; 2; 3; 4]) (hex_text [5; 6; 7; 8]) []) =
  Ret (wire 7 [1; 2; 3; 4] [5; 6; 7; 8] []).
Proof.
  apply (inmarsat_canonical (wire 7 [1; 2; 3; 4] [5; 6; 7; 8] [])).
  - apply (bool_decide_unpack _). vm_compute. reflexivity.
  - vm_compute. discriminate.
  - vm_compute. reflexivity.
Defined.
