(* ===== verification/Vsat.v ===== *)
(** * VSAT packets ([src/src/vsat.rs])

    [packet id (4)][source ip (4)][destination ip (4)][payload], compressed with
    the [zstd] crate when encoded.  A failure of the compressor makes [encode]
    fall back to the uncompressed buffer. *)

From S2P Require Import Prelude Externals.

Module VSATMessage.

Record t := mk {
  packet_id : Z;
  source_ip : bytes; (* [u8; 4] *)
  dest_ip : bytes;   (* [u8; 4] *)
  payload : bytes
}.

#[export] Instance t_eq_dec : EqDecision t.
Proof. solve_decision. Defined.

Definition parse (data : bytes) : outcome (option t) :=
  if len data <? 16 then Ret None else
  pid ← read_at data 0 4;
  let packet_id := from_be pid in
  source_ip ← read_at data 4 4;
  dest_ip ← read_at data 8 4;
  payload ← slice_from data 12;
  Ret (Some (mk packet_id source_ip dest_ip payload)).

Section ops.
Context `{ZstdCrate}.

Definition encode (m : t) : outcome bytes :=
  let buffer := fill 0 (12 + len (payload m)) in
  buffer ← copy_from_slice buffer 0 4 (to_be 4 (packet_id m));
  buffer ← copy_from_slice buffer 4 8 (source_ip m);
  buffer ← copy_from_slice buffer 8 12 (dest_ip m);
  buffer ← copy_from_slice buffer 12 (len buffer) (payload m);
  Ret (match encode_all buffer with Some c => c | None => buffer end).

Definition decompress (compressed_data : bytes) : option bytes := decode_all compressed_data.
End ops.

(** The uncompressed packet. *)
Definition packet (m : t) : bytes :=
  to_be 4 (packet_id m) ++ source_ip m ++ dest_ip m ++ payload m.

(** The Rust types of the fields. *)
Definition wf (m : t) : Prop :=
  in_u 32 (packet_id m) /\ len (source_ip m) = 4 /\ len (dest_ip m) = 4 /\
  bytes_ok (source_ip m) /\ bytes_ok (dest_ip m) /\ bytes_ok (payload m).

End VSATMessage.

Import VSATMessage.

(** ** Lemmas *)

Lemma vsat_parse_eq data :
  parse data = Ret (if len data <? 16 then None else
    Some (mk (from_be (sub data 0 4)) (sub data 4 4) (sub data 8 4)
            (sub data 12 (len data - 12)))).
Proof.
  unfold parse. destruct (len data <? 16) eqn:E; [done|]. breflect.
  rewrite !read_at_Ret, slice_from_Ret by lia. done.
Qed.

Lemma len_packet m : wf m -> len (packet m) = 12 + len (payload m).
Proof.
  intros (_ & Hs & Hd & _). unfold packet. rewrite !len_app, len_to_be. lia.
Qed.

Lemma vsat_encode_eq `{ZstdCrate} m :
  wf m -> encode m = Ret (match encode_all (packet m) with Some c => c | None => packet m end).
Proof.
  intros (_ & Hs & Hd & _). pose proof (len_nonneg (payload m)). unfold encode.
  rewrite copy_cursor_0 by (rewrite ?len_to_be; lia). mstep.
  rewrite !copy_cursor by (rewrite ?len_app, ?len_to_be; lia). mstep.
  rewrite copy_cursor by (rewrite ?len_app, ?len_to_be, ?len_fill; lia). mstep.
  rewrite copy_cursor by (rewrite ?len_app, ?len_to_be, ?len_fill; lia). mstep.
  rewrite len_to_be, Hs, Hd.
  replace (12 + len (payload m) - Z.of_nat 4 - 4 - 4 - len (payload m)) with 0 by lia.
  cbn [fill Z.to_nat replicate]. rewrite app_nil_r, <- !app_assoc. done.
Qed.

Lemma vsat_parse_packet m :
  wf m -> parse (packet m) = Ret (if len (payload m) <? 4 then None else Some m).
Proof.
  intros Hwf. pose proof (len_packet m Hwf) as Hl.
  destruct Hwf as (Hi & Hs & Hd & _). rewrite vsat_parse_eq, Hl.
  destruct (len (payload m) <? 4) eqn:E; breflect; bcase; [done|].
  unfold packet. rewrite (sub_app_l (to_be 4 _)) by (by rewrite len_to_be).
  rewrite !(sub_app_r (to_be 4 _)), !len_to_be by (rewrite !len_to_be; lia).
  rewrite sub_app_l, (sub_mid (source_ip m)), from_to_be_small by (done || lia).
  rewrite !(sub_app_r (source_ip m)), !(sub_app_r (dest_ip m)), Hs, Hd by lia.
  rewrite sub_all by lia. by destruct m.
Qed.

(** ** Properties *)

(** the VSAT path is lossless.  [parse] never panics and keeps every byte
    (re-concatenating the fields gives the input); and when the compressor
    succeeds, decompressing an encoded message and parsing the result gives the
    message back, provided its payload has at least four bytes: shorter payloads
    are encoded but never accepted back. *)
Theorem vsat_roundtrip `{ZstdCrate, !ZstdLaws} m c
  (Hwf : wf m) (Hc : encode_all (packet m) = Some c) :
  encode m = Ret c /\ decompress c = Some (packet m) /\
  parse (packet m) = Ret (if len (payload m) <? 4 then None else Some m) /\
  (forall data m', bytes_ok data -> parse data = Ret (Some m') -> wf m' /\ packet m' = data).
Proof.
  split; [by rewrite vsat_encode_eq, Hc|]. split; [by apply zstd_roundtrip|].
  split; [by apply vsat_parse_packet|].
  intros data m' Hok. rewrite vsat_parse_eq. destruct (len data <? 16) eqn:E; [done|].
  breflect. intros [= <-]. unfold wf, packet. cbn [packet_id source_ip dest_ip payload].
  pose proof (from_be_range (sub data 0 4) ltac:(eauto with rbytes)) as Hr.
  rewrite len_sub in Hr by lia. split.
  - split; [exact Hr|]. rewrite !len_sub by lia. eauto 10 with rbytes.
  - rewrite to_from_be, !sub_app_sub by (eauto with rbytes || (rewrite ?len_sub; lia)).
    apply sub_all. lia.
Qed.

#[local] Existing Instances zstd_stored zstd_stored_laws.

Lemma vsat_roundtrip_witness :
  let m := mk 12345678 [192; 168; 1; 1] [192; 168; 1; 2] [72; 101; 108; 108; 111] in
  exists c, encode m = Ret c /\ decompress c = Some (packet m) /\ parse (packet m) = Ret (Some m).
Proof.
  intros m. destruct (vsat_roundtrip m (0x28 :: packet m)) as (H1 & H2 & H3 & _).
  - unfold wf. split; [unfold in_u; simpl; lia|].
    do 2 (split; [reflexivity|]).
    repeat split; apply (bool_decide_unpack _); vm_compute; reflexivity.
  - reflexivity.
  - eexists. split; [exact H1|]. split; [exact H2|exact H3].
Defined.
