(* ===== verification/Hfvhf.v ===== *)
(** * HF/VHF audio frames ([src/src/hfvhf.rs])

    [frequency (4, big endian)][modulation (1)][PCM samples (2 each, little
    endian, signed)].  [resample], which computes in [f64], is not modelled. *)

From S2P Require Import Prelude Float64.

Module HFVHFMessage.

Inductive ModulationType := AM | FM | SSB | CW.

#[export] Instance ModulationType_eq_dec : EqDecision ModulationType.
Proof. solve_decision. Defined.

Record t := mk {
  frequency_khz : Z;
  modulation : ModulationType;
  audio_samples : list Z (* i16 *)
}.

(** [match data[4] { .. }] *)
Definition modulation_of (b : Z) : option ModulationType :=
  match b with 0 => Some AM | 1 => Some FM | 2 => Some SSB | 3 => Some CW | _ => None end.

Definition modulation_byte (m : ModulationType) : Z :=
  match m with AM => 0 | FM => 1 | SSB => 2 | CW => 3 end.

(** [.chunks(2)] *)
Fixpoint chunks2 (l : bytes) : list bytes :=
  match l with
  | [] => []
  | [x] => [[x]]
  | x :: y :: r => [x; y] :: chunks2 r
  end.

(** The loop over the chunks; an odd last byte is dropped. *)
Fixpoint parse_samples (chunks : list bytes) (audio_samples : list Z) : outcome (list Z) :=
  match chunks with
  | [] => Ret audio_samples
  | chunk :: chunks =>
      if len chunk =? 2 then
        c0 ← chunk.[0];
        c1 ← chunk.[1];
        let sample := swrap 16 (from_le [c0; c1]) in
        parse_samples chunks (audio_samples ++ [sample])
      else parse_samples chunks audio_samples
  end.

Definition parse (data : bytes) : outcome (option t) :=
  if len data <? 8 then Ret None else
  fb ← read_at data 0 4;
  let frequency_khz := from_be fb in
  mb ← data.[4];
  match modulation_of mb with
  | None => Ret None
  | Some modulation =>
      tail ← slice_from data 5;
      audio_samples ← parse_samples (chunks2 tail) [];
      Ret (Some (mk frequency_khz modulation audio_samples))
  end.

(** The loop of [encode] over the enumerated samples. *)
Fixpoint encode_samples (i : Z) (samples : list Z) (buffer : bytes) : outcome bytes :=
  match samples with
  | [] => Ret buffer
  | sample :: samples =>
      let offset := 5 + i * 2 in
      buffer ← copy_from_slice buffer offset (offset + 2) (to_le 2 sample);
      encode_samples (i + 1) samples buffer
  end.

Definition encode (m : t) : outcome bytes :=
  let buffer := fill 0 (5 + len (audio_samples m) * 2) in
  buffer ← copy_from_slice buffer 0 4 (to_be 4 (frequency_khz m));
  buffer ← set_at buffer 4 (modulation_byte (modulation m));
  encode_samples 0 (audio_samples m) buffer.

(** [resample]: the nearest earlier sample, positions computed in [f64]. *)
Definition resample (m : t) (target_rate original_rate : Z) : t :=
  let ratio := f64_div (f64_of_Z target_rate) (f64_of_Z original_rate) in
  let new_len := as_usize (f64_mul (f64_of_Z (len (audio_samples m))) ratio) in
  mk (frequency_khz m) (modulation m)
    (omap (fun i =>
       let src_idx := as_usize (f64_div (f64_of_Z i) ratio) in
       if src_idx <? len (audio_samples m) then audio_samples m !! Z.to_nat src_idx else None)
     (seqZ 0 new_len)).

Definition codec_translate_to_digital (m : t) : outcome bytes := encode m.

(** The Rust types of the fields. *)
Definition wf (m : t) : Prop :=
  in_u 32 (frequency_khz m) /\ Forall (in_i 16) (audio_samples m).

(** The frame of a message. *)
Definition frame (m : t) : bytes :=
  to_be 4 (frequency_khz m) ++ [modulation_byte (modulation m)] ++
  concat (map (to_le 2) (audio_samples m)).

End HFVHFMessage.

Import HFVHFMessage.

(** ** Lemmas *)

Lemma len_pcm samples : len (concat (map (to_le 2) samples)) = 2 * len samples.
Proof.
  induction samples as [|s ss IH]; [done|].
  cbn [map concat]. rewrite len_app, len_to_le, IH, len_cons. lia.
Qed.

Lemma encode_samples_eq i samples pre n :
  0 <= i -> len pre = 5 + i * 2 -> n = 2 * len samples ->
  encode_samples i samples (pre ++ fill 0 n) = Ret (pre ++ concat (map (to_le 2) samples)).
Proof.
  revert i pre n. induction samples as [|s ss IH]; intros i pre n Hi Hpre ->.
  { done. }
  rewrite len_cons. cbn [encode_samples]. pose proof (len_nonneg ss).
  rewrite copy_cursor by (rewrite ?len_to_le; lia). mstep.
  rewrite IH by (rewrite ?len_app, ?len_to_le; lia).
  cbn [map concat]. by rewrite <- app_assoc.
Qed.

Lemma hfvhf_encode_eq m : encode m = Ret (frame m).
Proof.
  unfold encode, set_at. pose proof (len_nonneg (audio_samples m)).
  rewrite copy_cursor_0 by (rewrite ?len_to_be; lia). mstep.
  rewrite copy_cursor by (rewrite ?len_to_be, ?len_cons, ?len_nil; lia). mstep.
  rewrite encode_samples_eq
    by (rewrite ?len_app, ?len_to_be, ?len_cons, ?len_nil; lia).
  unfold frame. by rewrite <- app_assoc.
Qed.

Lemma le2_sample s : in_i 16 s -> swrap 16 (from_le (to_le 2 s)) = s.
Proof. intros. rewrite from_to_le. by apply swrap_wrap. Qed.

Lemma le2_bytes x y : in_u 8 x -> in_u 8 y -> to_le 2 (swrap 16 (from_le [x; y])) = [x; y].
Proof.
  unfold in_u. intros. unfold swrap. cbn [from_le to_le].
  change (2 ^ (16 - 1)) with 32768. change (2 ^ 16) with 65536.
  rewrite (Z.mod_eq (_ + 32768) 65536) by lia.
  set (k := (x + 256 * (y + 256 * 0) + 32768) / 65536). clearbody k.
  replace (x + 256 * (y + 256 * 0) + 32768 - 65536 * k - 32768) with (x + (y - 256 * k) * 256) by lia.
  rewrite Z.mod_add, Z.div_add, (Z.mod_small x), (Z.div_small x) by lia. do 2 f_equal.
  replace (0 + (y - 256 * k)) with (y + (- k) * 256) by lia.
  rewrite Z.mod_add by lia. by apply Z.mod_small.
Qed.

(** Sample bytes are read back in order, and an odd trailing byte is ignored. *)
Lemma parse_samples_pcm samples tail acc :
  Forall (in_i 16) samples -> (length tail <= 1)%nat ->
  parse_samples (chunks2 (concat (map (to_le 2) samples) ++ tail)) acc = Ret (acc ++ samples).
Proof.
  intros Hs Ht. revert acc. induction Hs as [|s ss Hs _ IH]; intros acc.
  { rewrite app_nil_r. destruct tail as [|x [|? ?]]; simpl in Ht; try lia; done. }
  pose proof (le2_sample s Hs) as Hle.
  cbn [map concat to_le app chunks2 parse_samples] in Hle |- *.
  change (len [_; _]) with 2. cbn [Z.eqb Pos.eqb]. at_lit. mstep.
  rewrite Hle, IH. by rewrite <- app_assoc.
Qed.

Lemma pcm_split l :
  bytes_ok l -> exists samples tail, l = concat (map (to_le 2) samples) ++ tail /\
    Forall (in_i 16) samples /\ (length tail <= 1)%nat.
Proof.
  enough (H : forall n l, (length l <= n)%nat -> bytes_ok l ->
    exists samples tail, l = concat (map (to_le 2) samples) ++ tail /\
    Forall (in_i 16) samples /\ (length tail <= 1)%nat) by (apply (H (length l)); lia).
  clear l. induction n as [|n IH]; intros [|x [|y l]] Hn Hok; simpl in Hn; try lia.
  1,2: exists [], []; done || (split; [done|]; split; [constructor|simpl; lia]).
  { exists [], [x]. split; [done|]. split; [constructor|simpl; lia]. }
  inversion_clear Hok as [|? ? Hx Hok']. inversion_clear Hok' as [|? ? Hy Hl].
  destruct (IH l ltac:(lia) Hl) as (ss & tail & -> & Hss & Ht).
  exists (swrap 16 (from_le [x; y]) :: ss), tail. cbn [map concat].
  rewrite le2_bytes by done. split; [done|].
  split; [constructor; [by apply swrap_range|done]|done].
Qed.

Lemma modulation_of_byte b m : modulation_of b = Some m -> b = modulation_byte m.
Proof.
  unfold modulation_of. intros. destruct b as [|[[?|?|]|[?|?|]|]|?]; simplify_eq; done.
Qed.

Lemma hfvhf_parse_frame m tail :
  wf m -> (length tail <= 1)%nat ->
  parse (frame m ++ tail) =
  Ret (if len (frame m ++ tail) <? 8 then None else Some m).
Proof.
  intros [Hf Hs] Ht. unfold parse. destruct (len _ <? 8) eqn:E; [done|]. breflect.
  assert (Hframe : frame m ++ tail = to_be 4 (frequency_khz m) ++
    [modulation_byte (modulation m)] ++ (concat (map (to_le 2) (audio_samples m)) ++ tail))
    by (unfold frame; by rewrite <- !app_assoc).
  rewrite Hframe in E |- *. rewrite !len_app, len_to_be in E.
  change (len [_]) with 1 in E.
  rewrite read_at_Ret, slice_from_Ret by (rewrite ?len_app, ?len_to_be; change (len [_]) with 1; lia).
  mstep. rewrite sub_app_l by (by rewrite len_to_be).
  rewrite from_to_be_small by done.
  rewrite at_app_r by (by rewrite len_to_be). rewrite len_to_be. at_lit. cbn [app]. at_lit. mstep.
  assert (Hm : modulation_of (modulation_byte (modulation m)) = Some (modulation m))
    by (by destruct (modulation m)).
  rewrite Hm. rewrite sub_app_r, len_to_be, sub_cons by (rewrite ?len_to_be; lia).
  rewrite sub_all by (rewrite !len_app, !len_to_be, len_cons, len_app; lia).
  rewrite parse_samples_pcm by done. mstep. by destruct m.
Qed.

(** Every input is rejected, or is a frame with at most one extra byte. *)
Lemma hfvhf_parse_cases data :
  bytes_ok data ->
  parse data = Ret None \/
  exists m w tail, parse data = Ret (Some m) /\ wf m /\ encode m = Ret w /\
    data = w ++ tail /\ (length tail <= 1)%nat.
Proof.
  intros Hok.
  destruct (decide (len data < 8)) as [Hs|Hs].
  { left. unfold parse. by bcase. }
  destruct (at_Ret data 4 ltac:(lia)) as (b & Hb & _).
  destruct (modulation_of b) as [md|] eqn:Hmd; cycle 1.
  { left. unfold parse. bcase. rewrite read_at_Ret by lia. mstep. rewrite Hb. mstep.
    by rewrite Hmd. }
  right.
  pose proof (from_be_range (sub data 0 4) ltac:(eauto with rbytes)) as Hf.
  rewrite len_sub in Hf by lia.
  destruct (pcm_split (sub data 5 (len data - 5)) ltac:(eauto with rbytes))
    as (ss & tail & Hpcm & Hss & Ht).
  set (m := mk (from_be (sub data 0 4)) md ss).
  assert (Hdata : data = frame m ++ tail).
  { unfold frame, m. cbn [frequency_khz modulation audio_samples].
    rewrite <- !app_assoc, <- Hpcm.
    rewrite to_from_be by (eauto with rbytes || (rewrite len_sub; lia)).
    apply modulation_of_byte in Hmd as <-.
    destruct (sub_step data 4 0 ltac:(lia) ltac:(lia)) as (b' & Hb' & Hsub).
    rewrite Hb in Hb'. injection Hb' as <-. rewrite sub_0 in Hsub. rewrite <- Hsub.
    change (4 + 1) with 5. change (1 + 0) with 1. 
    rewrite (sub_app_sub data 4 1), (sub_app_sub data 0 4), sub_all by lia. done. }
  exists m, (frame m), tail. split.
  { rewrite Hdata at 1. rewrite hfvhf_parse_frame by (first [done | split; done]). rewrite <- Hdata.
    by bcase. }
  split; [done|]. split; [apply hfvhf_encode_eq|]. done.
Qed.

(** ** Properties *)

(** encoding never panics and parsing inverts it.  The frame of a message of
    at least two samples is parsed back to that message, samples keeping sign and
    order; a frame of fewer samples is below the parser's minimum and is
    rejected. *)
Theorem hfvhf_roundtrip m (Hwf : wf m) :
  exists w, encode m = Ret w /\ codec_translate_to_digital m = Ret w /\
    len w = 5 + 2 * len (audio_samples m) /\
    parse w = Ret (if len (audio_samples m) <? 2 then None else Some m).
Proof.
  exists (frame m). unfold codec_translate_to_digital. rewrite hfvhf_encode_eq.
  assert (Hl : len (frame m) = 5 + 2 * len (audio_samples m)).
  { unfold frame. rewrite !len_app, len_to_be, len_pcm. change (len [_]) with 1. lia. }
  do 3 (split; [done|]).
  rewrite <- (app_nil_r (frame m)) at 1. rewrite hfvhf_parse_frame by (done || simpl; lia).
  rewrite app_nil_r, Hl. destruct (len (audio_samples m) <? 2) eqn:E; breflect; by bcase.
Qed.

Lemma hfvhf_roundtrip_witness :
  exists w, encode (mk 145800 FM [1000; -2000]) = Ret w /\
    parse w = Ret (Some (mk 145800 FM [1000; -2000])).
Proof.
  destruct (hfvhf_roundtrip (mk 145800 FM [1000; -2000])) as (w & H1 & _ & _ & H2).
  - split; [unfold in_u; simpl; lia|].
    apply (bool_decide_unpack _). vm_compute. reflexivity.
  - exists w. split; [exact H1|exact H2].
Defined.

(** parsing never panics, and translating what was parsed reproduces the
    input except for an odd trailing byte: on any byte string, either [parse]
    answers [None], or it returns a well-formed message whose encoding is the
    input without at most one last byte. *)
Theorem hfvhf_translate_lossless data (Hok : bytes_ok data) :
  parse data = Ret None \/
  exists m w tail, parse data = Ret (Some m) /\ wf m /\ encode m = Ret w /\
    data = w ++ tail /\ (length tail <= 1)%nat.
Proof. by apply hfvhf_parse_cases. Qed.

Lemma hfvhf_translate_lossless_witness :
  exists m w tail, parse [0; 2; 57; 136; 1; 232; 3; 48; 248; 9] = Ret (Some m) /\ wf m /\
    encode m = Ret w /\ [0; 2; 57; 136; 1; 232; 3; 48; 248; 9] = w ++ tail /\
    (length tail <= 1)%nat.
Proof.
  destruct (hfvhf_translate_lossless [0; 2; 57; 136; 1; 232; 3; 48; 248; 9]
    ltac:(apply (bool_decide_unpack _); vm_compute; reflexivity)) as [H|H].
  - vm_compute in H. discriminate H.
  - exact H.
Defined.
