(* ===== verification/Nidd.v ===== *)
(** * Non-IP data delivery ([src/src/nidd.rs])

    [pdu type (1)][qos (1)][reliability (1)][delay class (1)][coverage (1)]
    [length (2)][sequence (2)][payload], the payload in a fixed array of 1600
    bytes; the accessors decode the header bytes with a default for the unknown
    ones. *)

From S2P Require Import Prelude.

Module NIDDMessage.

Inductive PduType := UserData | ControlPlane.
Inductive QosPriority := Low | Normal | High | QEmergency.
Inductive ReliabilityClass := Unreliable | Reliable.
Inductive DelayClass := DelayInsensitive | DelaySensitive.
Inductive CoverageEnhancement := CENone | Level1 | Level2 | Level3 | Level4.

(** [as u8] *)
Definition pdu_type_discr (p : PduType) : Z := match p with UserData => 0 | ControlPlane => 0x80 end.
Definition qos_priority_discr (q : QosPriority) : Z :=
  match q with Low => 0 | Normal => 1 | High => 2 | QEmergency => 3 end.
Definition reliability_discr (r : ReliabilityClass) : Z :=
  match r with Unreliable => 0 | Reliable => 1 end.
Definition delay_class_discr (d : DelayClass) : Z :=
  match d with DelayInsensitive => 0 | DelaySensitive => 1 end.
Definition coverage_discr (c : CoverageEnhancement) : Z :=
  match c with CENone => 0 | Level1 => 1 | Level2 => 2 | Level3 => 3 | Level4 => 4 end.

Record NIDDHeader := mkHeader {
  h_pdu_type : Z;
  h_qos_priority : Z;
  h_reliability : Z;
  h_delay_class : Z;
  h_coverage_enhancement : Z;
  h_length : Z;
  h_sequence_number : Z
}.

Record t := mk {
  header : NIDDHeader;
  payload : bytes; (* [u8; 1600] *)
  payload_len : Z
}.

Definition parse (data : bytes) : outcome (option t) :=
  if len data <? 9 then Ret None else
  pdu_type ← data.[0];
  qos_priority ← data.[1];
  reliability ← data.[2];
  delay_class ← data.[3];
  coverage_enhancement ← data.[4];
  lb ← read_at data 5 2;
  let length := from_be lb in
  sb ← read_at data 7 2;
  let sequence_number := from_be sb in
  if len data <? 9 + length then Ret None else
  if 1600 <? length then Ret None else
  src ← data.[9 ~> 9 + length];
  payload ← copy_from_slice (fill 0 1600) 0 length src;
  Ret (Some (mk (mkHeader pdu_type qos_priority reliability delay_class
                   coverage_enhancement length sequence_number) payload length)).

Definition payload_slice (m : t) : outcome bytes := (payload m).[0 ~> payload_len m].
Definition total_size (m : t) : Z := 9 + payload_len m.

Definition is_control_plane (m : t) : bool :=
  negb (Z.land (h_pdu_type (header m)) 0x80 =? 0).

Definition pdu_type (m : t) : PduType :=
  if negb (Z.land (h_pdu_type (header m)) 0x80 =? 0) then ControlPlane else UserData.

Definition qos_priority (m : t) : QosPriority :=
  match h_qos_priority (header m) with
  | 0 => Low | 1 => Normal | 2 => High | 3 => QEmergency | _ => Normal
  end.

Definition reliability (m : t) : ReliabilityClass :=
  match h_reliability (header m) with 0 => Unreliable | 1 => Reliable | _ => Unreliable end.

Definition delay_class (m : t) : DelayClass :=
  match h_delay_class (header m) with
  | 0 => DelayInsensitive | 1 => DelaySensitive | _ => DelayInsensitive
  end.

Definition coverage_enhancement (m : t) : CoverageEnhancement :=
  match h_coverage_enhancement (header m) with
  | 0 => CENone | 1 => Level1 | 2 => Level2 | 3 => Level3 | 4 => Level4 | _ => CENone
  end.

(** The packet a sender writes for typed header fields. *)
Definition packet (p : PduType) (q : QosPriority) (r : ReliabilityClass) (d : DelayClass)
    (c : CoverageEnhancement) (seq : Z) (pl : bytes) : bytes :=
  [pdu_type_discr p; qos_priority_discr q; reliability_discr r; delay_class_discr d;
   coverage_discr c] ++ to_be 2 (len pl) ++ to_be 2 seq ++ pl.

End NIDDMessage.

Import NIDDMessage.

(** ** Lemmas *)

(** The parser in closed form. *)
Lemma nidd_parse_eq h pl rest seq :
  len h = 5 -> in_u 16 seq -> in_u 16 (len pl) ->
  exists b0 b1 b2 b3 b4, h = [b0; b1; b2; b3; b4] /\
  parse (h ++ to_be 2 (len pl) ++ to_be 2 seq ++ pl ++ rest) = Ret (
    if 1600 <? len pl then None else
    Some (mk (mkHeader b0 b1 b2 b3 b4 (len pl) seq)
            (pl ++ fill 0 (1600 - len pl)) (len pl))).
Proof.
  intros Hh Hseq Hpl. pose proof (len_nonneg pl). pose proof (len_nonneg rest).
  destruct h as [|b0 [|b1 [|b2 [|b3 [|b4 [|? h]]]]]];
    rewrite ?len_cons, ?len_nil in Hh; try lia; [|pose proof (len_nonneg h); lia].
  exists b0, b1, b2, b3, b4. split; [done|]. unfold parse.
  set (data := [_; _; _; _; _] ++ _).
  assert (Hl : len data = 9 + len pl + len rest)
    by (unfold data; rewrite !len_app, !len_to_be; unfold len at 1; simpl; lia).
  rewrite Hl. bcase. change (data.[0]) with (Ret b0). change (data.[1]) with (Ret b1).
  change (data.[2]) with (Ret b2). change (data.[3]) with (Ret b3).
  change (data.[4]) with (Ret b4). mstep.
  rewrite (read_at_Ret data 5 2), (read_at_Ret data 7 2) by lia. mstep.
  assert (Hs5 : sub data 5 2 = to_be 2 (len pl)) by (by apply (sub_mid [_; _; _; _; _])).
  assert (Hs7 : sub data 7 2 = to_be 2 seq).
  { unfold data. rewrite (sub_app_r [_; _; _; _; _]) by (unfold len; simpl; lia).
    apply sub_mid; rewrite len_to_be; done. }
  assert (Hs9 : sub data 9 (len pl) = pl).
  { unfold data. rewrite (sub_app_r [_; _; _; _; _]) by (unfold len; simpl; lia).
    rewrite !sub_app_r by (rewrite ?len_to_be; unfold len; simpl; lia).
    by apply sub_app_l. }
  rewrite Hs5, Hs7, (from_to_be_small 2 seq), (from_to_be_small 2 (len pl)) by done.
  bcase.
  destruct (1600 <? len pl) eqn:E; [done|]. breflect.
  rewrite slice_Ret by lia. mstep.
  replace (9 + len pl - 9) with (len pl) by lia. rewrite Hs9.
  by rewrite copy_cursor_0 by lia.
Qed.

Lemma nidd_parse_short data : len data < 9 -> parse data = Ret None.
Proof. intros. unfold parse. by bcase. Qed.

Lemma nidd_parse_truncated h n seq pl :
  len h = 5 -> in_u 16 n -> in_u 16 seq -> len pl < n ->
  parse (h ++ to_be 2 n ++ to_be 2 seq ++ pl) = Ret None.
Proof.
  intros Hh Hn Hseq Hpl. pose proof (len_nonneg pl). unfold parse.
  set (data := h ++ _).
  assert (Hl : len data = 9 + len pl)
    by (unfold data; rewrite !len_app, !len_to_be; lia).
  rewrite Hl. bcase.
  destruct (at_Ret data 0 ltac:(lia)) as (? & -> & _). destruct (at_Ret data 1 ltac:(lia)) as (? & -> & _).
  destruct (at_Ret data 2 ltac:(lia)) as (? & -> & _). destruct (at_Ret data 3 ltac:(lia)) as (? & -> & _).
  destruct (at_Ret data 4 ltac:(lia)) as (? & -> & _). mstep.
  rewrite (read_at_Ret data 5 2), (read_at_Ret data 7 2) by lia. mstep.
  assert (Hs5 : sub data 5 2 = to_be 2 n) by (by apply sub_mid).
  rewrite Hs5, (from_to_be_small 2 n) by done. by bcase.
Qed.

(** The header fields of any input of at least nine bytes. *)
Lemma nidd_split data :
  bytes_ok data -> 9 <= len data ->
  exists h n seq r, data = h ++ to_be 2 n ++ to_be 2 seq ++ r /\ len h = 5 /\
    in_u 16 n /\ in_u 16 seq.
Proof.
  intros Hok Hlen.
  exists (sub data 0 5), (from_be (sub data 5 2)), (from_be (sub data 7 2)),
    (sub data 9 (len data - 9)).
  pose proof (from_be_range (sub data 5 2) ltac:(eauto with rbytes)) as H5.
  pose proof (from_be_range (sub data 7 2) ltac:(eauto with rbytes)) as H7.
  rewrite len_sub in H5, H7 by lia.
  rewrite !to_from_be, !sub_app_sub, sub_all, len_sub
    by (eauto with rbytes || (rewrite ?len_sub; lia)).
  split; [done|]. split; [done|]. split; [exact H5|exact H7].
Qed.

(** ** Properties *)

(** the parser is total and exact: an input is accepted precisely when, after
    five header bytes, it announces a length of at most 1600 that its remaining
    bytes can supply; the message then holds the announced bytes.  All other
    inputs are rejected with [None], and no input panics. *)
Theorem nidd_parse_exact data (Hok : bytes_ok data) :
  (exists m h pl rest, parse data = Ret (Some m) /\ payload_slice m = Ret pl /\
     data = h ++ to_be 2 (len pl) ++ to_be 2 (h_sequence_number (header m)) ++ pl ++ rest /\
     h = [h_pdu_type (header m); h_qos_priority (header m); h_reliability (header m);
          h_delay_class (header m); h_coverage_enhancement (header m)] /\
     payload_len m = len pl /\ len pl <= 1600) \/
  (parse data = Ret None /\
   (len data < 9 \/ exists h n seq r, data = h ++ to_be 2 n ++ to_be 2 seq ++ r /\ len h = 5 /\
      in_u 16 n /\ (len r < n \/ 1600 < n))).
Proof.
  destruct (decide (len data < 9)) as [Hs|Hs]; [right; split; [by apply nidd_parse_short|by left]|].
  destruct (nidd_split data Hok ltac:(lia)) as (h & n & seq & r & -> & Hh & Hn & Hseq).
  destruct (decide (len r < n)) as [Hr|Hr].
  { right. split; [by apply nidd_parse_truncated|]. right. exists h, n, seq, r. auto. }
  unfold in_u in Hn. assert (Hpl : len (sub r 0 n) = n) by (apply len_sub; lia).
  pose proof (sub_split r n ltac:(lia)) as Hsplit. revert Hsplit Hpl. clear Hok Hs.
  generalize (sub r n (len r - n)) as rest, (sub r 0 n) as pl. intros rest pl -> <-.
  destruct (nidd_parse_eq h pl rest seq Hh Hseq Hn) as (b0 & b1 & b2 & b3 & b4 & -> & Heq).
  rewrite Heq. destruct (1600 <? len pl) eqn:E; breflect.
  { right. split; [done|]. right. eexists _, (len pl), seq, (pl ++ rest). split; [done|].
    split; [done|]. split; [done|]. lia. }
  left. eexists _, _, pl, rest. split; [done|]. unfold payload_slice.
  cbn [header payload payload_len h_sequence_number].
  rewrite slice_Ret, Z.sub_0_r, sub_app_l by (rewrite ?len_app, ?len_fill; lia).
  split_and!; done.
Qed.

Lemma nidd_parse_exact_witness :
  parse [1; 1; 1; 0; 0; 0; 9; 0; 1; 72] = Ret None.
Proof.
  destruct (nidd_parse_exact [1; 1; 1; 0; 0; 0; 9; 0; 1; 72]
    ltac:(apply (bool_decide_unpack _); vm_compute; reflexivity)) as [(m & _ & _ & _ & H & _)|[H _]].
  - vm_compute in H. discriminate H.
  - exact H.
Defined.

(** typed round trip.  A packet built from typed header fields, any sequence
    number and a payload of at most 1600 bytes is parsed back to exactly these:
    every accessor returns the field written, whatever follows the packet. *)
Theorem nidd_roundtrip p q r d c seq pl rest
  (Hseq : in_u 16 seq) (Hpl : len pl <= 1600) :
  exists m, parse (packet p q r d c seq pl ++ rest) = Ret (Some m) /\
    pdu_type m = p /\ (is_control_plane m = true <-> p = ControlPlane) /\
    qos_priority m = q /\ reliability m = r /\ delay_class m = d /\
    coverage_enhancement m = c /\ h_sequence_number (header m) = seq /\
    payload_slice m = Ret pl /\ total_size m = len (packet p q r d c seq pl).
Proof.
  pose proof (len_nonneg pl).
  destruct (nidd_parse_eq [pdu_type_discr p; qos_priority_discr q; reliability_discr r;
    delay_class_discr d; coverage_discr c] pl rest seq) as (b0 & b1 & b2 & b3 & b4 & Hh & Heq);
    [done..|unfold in_u; lia|].
  unfold packet. rewrite <- !app_assoc, Heq. bcase. eexists. split; [done|].
  injection Hh as <- <- <- <- <-.
  unfold pdu_type, is_control_plane, qos_priority, reliability, delay_class,
    coverage_enhancement, payload_slice, total_size.
  cbn [header payload payload_len h_pdu_type h_qos_priority h_reliability h_delay_class
    h_coverage_enhancement h_sequence_number].
  split; [by destruct p|]. split; [by destruct p|]. split; [by destruct q|].
  split; [by destruct r|]. split; [by destruct d|]. split; [by destruct c|]. split; [done|].
  rewrite slice_Ret, Z.sub_0_r, sub_app_l by (rewrite ?len_app, ?len_fill; lia).
  split; [done|]. rewrite !len_app, !len_to_be. unfold len at 2. simpl. lia.
Qed.

Lemma nidd_roundtrip_witness :
  exists m, parse (packet ControlPlane QEmergency Reliable DelaySensitive Level3 513 [1; 2] ++ [0]) =
    Ret (Some m) /\ pdu_type m = ControlPlane /\ payload_slice m = Ret [1; 2].
Proof.
  destruct (nidd_roundtrip ControlPlane QEmergency Reliable DelaySensitive Level3 513 [1; 2] [0])
    as (m & H1 & H2 & _ & _ & _ & _ & _ & _ & H3 & _).
  - unfold in_u. lia.
  - vm_compute. discriminate.
  - exists m. split; [exact H1|]. split; [exact H2|exact H3].
Defined.
