(* ===== verification/Samsara.v ===== *)
(** * Samsara telemetry ([src/src/samsara.rs])

    [version (1)][id length (2)][id][timestamp (8)][latitude (8)][longitude (8)]
    [payload length (4)][payload].  The identifier is UTF-8; the two [f64]
    fields are kept as their 64-bit patterns, since the code only moves them
    between bytes and floats. *)

From S2P Require Import Prelude Utf8.

Module SamsaraMessage.

Record t := mk {
  device_id : bytes;
  timestamp : Z;
  latitude : Z;  (* f64 bits *)
  longitude : Z; (* f64 bits *)
  payload : bytes
}.

Definition parse (data : bytes) : outcome (option t) :=
  if len data <? 31 then Ret None else
  version ← data.[0];
  if negb (version =? 1) then Ret None else
  lb ← read_at data 1 2;
  let device_id_len := from_be lb in
  let header_size := 3 + device_id_len + 24 in
  if len data <? header_size then Ret None else
  idb ← data.[3 ~> 3 + device_id_len];
  match from_utf8 idb with
  | None => Ret None
  | Some device_id =>
      ts ← read_at data (3 + device_id_len) 8;
      lat ← read_at data (3 + device_id_len + 8) 8;
      lon ← read_at data (3 + device_id_len + 16) 8;
      plb ← read_at data (3 + device_id_len + 24) 4;
      let payload_len := from_be plb in
      let payload_start := 3 + device_id_len + 28 in
      if len data <? payload_start + payload_len then Ret None else
      payload ← data.[payload_start ~> payload_start + payload_len];
      Ret (Some (mk device_id (from_be ts) (from_be lat) (from_be lon) payload))
  end.

Definition encode (m : t) : bytes :=
  [1]
  ++ to_be 2 (wrap 16 (len (device_id m))) ++ device_id m
  ++ to_be 8 (timestamp m)
  ++ to_be 8 (latitude m)
  ++ to_be 8 (longitude m)
  ++ to_be 4 (wrap 32 (len (payload m))) ++ payload m.

(** Values whose two lengths fit their wire fields. *)
Definition wf (m : t) : Prop :=
  bytes_ok (device_id m) /\ utf8_valid (device_id m) = true /\ in_u 16 (len (device_id m)) /\
  in_u 64 (timestamp m) /\ in_u 64 (latitude m) /\ in_u 64 (longitude m) /\
  bytes_ok (payload m) /\ in_u 32 (len (payload m)).

End SamsaraMessage.

Import SamsaraMessage.

(** ** Lemmas *)

(** The parser in closed form; the third test is the one the code lacks. *)
Lemma samsara_parse_eq data :
  bytes_ok data ->
  parse data =
    if len data <? 31 then Ret None else
    if negb (from_be (sub data 0 1) =? 1) then Ret None else
    let n := from_be (sub data 1 2) in
    if len data <? 27 + n then Ret None else
    if negb (utf8_valid (sub data 3 n)) then Ret None else
    if len data <? 31 + n then Panic else
    let k := from_be (sub data (27 + n) 4) in
    if len data <? 31 + n + k then Ret None else
    Ret (Some (mk (sub data 3 n) (from_be (sub data (3 + n) 8)) (from_be (sub data (11 + n) 8))
      (from_be (sub data (19 + n) 8)) (sub data (31 + n) k))).
Proof.
  intros Hok. unfold parse. destruct (len data <? 31) eqn:E; [done|]. breflect.
  destruct (sub_step data 0 0 ltac:(lia) ltac:(lia)) as (v & -> & Hv).
  change (1 + 0) with 1 in Hv. rewrite Hv, sub_0. mstep. cbn [from_be reverse rev_append from_le].
  rewrite Z.mul_0_r, Z.add_0_r. destruct (negb (v =? 1)); [done|].
  rewrite (read_at_Ret data 1 2) by lia. mstep. cbv zeta.
  pose proof (from_be_range (sub data 1 2) ltac:(eauto with rbytes)) as Hn.
  rewrite len_sub in Hn by lia. revert Hn. generalize (from_be (sub data 1 2)). intros n Hn.
  unfold in_u in Hn. replace (3 + n + 24) with (27 + n) by lia.
  destruct (len data <? 27 + n) eqn:E2; [done|]. breflect.
  rewrite slice_Ret by lia. mstep. replace (3 + n - 3) with n by lia. unfold from_utf8.
  destruct (utf8_valid (sub data 3 n)); [|done]. cbn [negb].
  rewrite !(read_at_Ret data _ 8) by lia. mstep.
  destruct (len data <? 31 + n) eqn:E3; breflect.
  { rewrite read_at_Panic by lia. done. }
  rewrite (read_at_Ret data _ 4) by lia. mstep.
  replace (3 + n + 28) with (31 + n) by lia.
  pose proof (from_be_range (sub data (27 + n) 4) ltac:(eauto with rbytes)) as Hk.
  rewrite len_sub in Hk by lia. revert Hk. generalize (from_be (sub data (27 + n) 4)). intros k Hk.
  unfold in_u in Hk.
  destruct (len data <? 31 + n + k) eqn:E4; [done|]. breflect.
  rewrite slice_Ret by lia. mstep. replace (31 + n + k - (31 + n)) with k by lia.
  replace (3 + n + 8) with (11 + n) by lia. by replace (3 + n + 16) with (19 + n) by lia.
Qed.

Lemma len_encode m : len (encode m) = 31 + len (device_id m) + len (payload m).
Proof. unfold encode. rewrite !len_app, !len_to_be. change (len [1]) with 1. lia. Qed.

Lemma encode_ok m : wf m -> bytes_ok (encode m).
Proof.
  intros (Hd & _ & _ & _ & _ & _ & Hp & _). unfold encode.
  apply bytes_ok_app; [apply bytes_ok_cons; [unfold in_u; lia|constructor]|].
  eauto 20 with rbytes.
Qed.

(** Reads of an encoded message at the offsets of the parser. *)
Ltac samsara_read :=
  unfold encode; rewrite (wrap_small 16), (wrap_small 32) by done;
  rewrite <- !app_assoc;
  repeat (rewrite sub_app_r by (rewrite ?len_to_be; change (len [1]) with 1; lia));
  rewrite ?len_to_be; change (len [1]) with 1;
  match goal with
  | |- sub _ ?a _ = _ => replace a with 0 by lia
  end; apply sub_app_l; rewrite ?len_to_be; change (len [1]) with 1; lia.

Lemma samsara_fields m rest :
  wf m -> let d := encode m ++ rest in let n := len (device_id m) in
  sub d 0 1 = [1] /\ sub d 1 2 = to_be 2 n /\ sub d 3 n = device_id m /\
  sub d (3 + n) 8 = to_be 8 (timestamp m) /\ sub d (11 + n) 8 = to_be 8 (latitude m) /\
  sub d (19 + n) 8 = to_be 8 (longitude m) /\ sub d (27 + n) 4 = to_be 4 (len (payload m)) /\
  sub d (31 + n) (len (payload m)) = payload m.
Proof.
  intros (_ & _ & Hn & _ & _ & _ & _ & Hk) d n. unfold d, n.
  pose proof (len_nonneg (device_id m)).
  split_and!; samsara_read.
Qed.

Lemma samsara_parse_encode m rest :
  wf m -> bytes_ok rest -> parse (encode m ++ rest) = Ret (Some m).
Proof.
  intros Hwf Hrest. rewrite samsara_parse_eq by (apply bytes_ok_app; [by apply encode_ok|done]).
  destruct (samsara_fields m rest Hwf) as (H0 & H1 & H3 & Ht & Hla & Hlo & Hk & Hp).
  pose proof Hwf as (_ & Hu & Hn & Hts & Hlat & Hlon & _ & Hpl).
  pose proof (len_nonneg rest). pose proof (len_nonneg (payload m)).
  pose proof (len_nonneg (device_id m)).
  assert (Hl : len (encode m ++ rest) = 31 + len (device_id m) + len (payload m) + len rest)
    by (rewrite len_app, len_encode; lia).
  rewrite Hl, H0, H1, (from_to_be_small 2) by done. bcase. cbn [from_be reverse rev_append from_le].
  cbv zeta. rewrite H3, Hu, Hk, (from_to_be_small 4) by done. bcase. cbn [negb]. bcase.
  bcase. bcase. rewrite Hp, Ht, Hla, Hlo, !(from_to_be_small 8) by done. by destruct m.
Qed.

Lemma samsara_parse_inv data m :
  bytes_ok data -> parse data = Ret (Some m) ->
  wf m /\ exists rest, bytes_ok rest /\ data = encode m ++ rest.
Proof.
  intros Hok. rewrite samsara_parse_eq by done.
  destruct (len data <? 31) eqn:E1; [done|].
  destruct (negb (from_be (sub data 0 1) =? 1)) eqn:E2; [done|]. cbv zeta.
  assert (Hbe : forall a w z, z = Z.of_nat w -> 0 <= a -> a + z <= len data ->
    in_u (8 * z) (from_be (sub data a z)) /\ to_be w (from_be (sub data a z)) = sub data a z).
  { intros a w z -> Ha Hw.
    pose proof (from_be_range (sub data a (Z.of_nat w)) ltac:(eauto with rbytes)) as Hr.
    rewrite len_sub in Hr by lia. split; [done|].
    apply to_from_be; [eauto with rbytes|rewrite len_sub; lia]. }
  breflect. destruct (Hbe 1 2%nat 2 eq_refl ltac:(lia) ltac:(lia)) as [Hn Hnb].
  destruct (Hbe 0 1%nat 1 eq_refl ltac:(lia) ltac:(lia)) as [_ H1b].
  rewrite E2 in H1b. revert Hn Hnb. generalize (from_be (sub data 1 2)) as n. intros n Hn Hnb.
  unfold in_u in Hn. change (8 * 2) with 16 in Hn.
  destruct (len data <? 27 + n) eqn:E3; [done|].
  destruct (negb (utf8_valid (sub data 3 n))) eqn:E4; [done|].
  destruct (len data <? 31 + n) eqn:E5; [done|]. breflect.
  destruct (Hbe (27 + n) 4%nat 4 eq_refl ltac:(lia) ltac:(lia)) as [Hk Hkb].
 
  revert Hk Hkb. generalize (from_be (sub data (27 + n) 4)) as k. intros k Hk Hkb.
  unfold in_u in Hk. change (8 * 4) with 32 in Hk.
  destruct (len data <? 31 + n + k) eqn:E6; [done|]. breflect. intros [= <-].
  destruct (Hbe (3 + n) 8%nat 8 eq_refl ltac:(lia) ltac:(lia)) as [Ht Htb].
  destruct (Hbe (11 + n) 8%nat 8 eq_refl ltac:(lia) ltac:(lia)) as [Hla Hlab].
  destruct (Hbe (19 + n) 8%nat 8 eq_refl ltac:(lia) ltac:(lia)) as [Hlo Hlob].
  unfold wf, encode.
  cbn [device_id timestamp latitude longitude payload].
  rewrite !len_sub, (wrap_small 16), (wrap_small 32) by (unfold in_u; lia).
  split; [split_and!; eauto with rbytes; unfold in_u; lia|].
  exists (sub data (31 + n + k) (len data - (31 + n + k))). split; [eauto with rbytes|].
  rewrite Hnb, Htb, Hlab, Hlob, Hkb. change [1] with (to_be 1 1). rewrite H1b.
  replace (11 + n) with (3 + n + 8) by lia. replace (19 + n) with (3 + n + 8 + 8) by lia.
  replace (27 + n) with (3 + n + 8 + 8 + 8) by lia.
  replace (31 + n) with (3 + n + 8 + 8 + 8 + 4) by lia.
  rewrite <- !app_assoc, !sub_app_sub by lia. symmetry. apply sub_all. lia.
Qed.

(** ** Properties *)

(** C28: [parse] accepts exactly the encodings: on byte strings, a message is
    returned if and only if it is well formed and the input is its encoding
    followed by arbitrary bytes.  In particular encoding then parsing is the
    identity on every message whose identifier fits 16 and whose payload fits 32
    length bits. *)
Theorem samsara_parse_encode_iff data m (Hok : bytes_ok data) :
  parse data = Ret (Some m) <-> wf m /\ exists rest, data = encode m ++ rest.
Proof.
  split.
  - intros Hp. destruct (samsara_parse_inv data m Hok Hp) as (Hwf & rest & _ & ->). eauto.
  - intros (Hwf & rest & ->). apply samsara_parse_encode; [done|].
    by apply Forall_app in Hok as [_ ?].
Qed.

Lemma samsara_parse_encode_iff_witness :
  parse (encode (mk [116; 114; 117; 99; 107] 1700000000000 4630826316843712512 0 [1; 2; 3])) =
  Ret (Some (mk [116; 114; 117; 99; 107] 1700000000000 4630826316843712512 0 [1; 2; 3])).
Proof.
  apply samsara_parse_encode_iff.
  - apply (bool_decide_unpack _). vm_compute. reflexivity.
  - split; [|exists []; by rewrite app_nil_r].
    unfold wf. cbn [device_id timestamp latitude longitude payload].
    split_and!; try reflexivity;
      try (unfold in_u, len; simpl; lia);
      apply (bool_decide_unpack _); vm_compute; reflexivity.
Defined.

(** the length guard of [parse] is four bytes short.  It tests for
    [3 + id + 24] bytes but reads [3 + id + 28]: every version-1 input with a
    valid identifier whose length lies in between makes [parse] panic, and these
    are the only inputs that do. *)
Theorem samsara_parse_panics_iff data (Hok : bytes_ok data) :
  parse data = Panic <->
  31 <= len data /\ sub data 0 1 = [1] /\
  utf8_valid (sub data 3 (from_be (sub data 1 2))) = true /\
  27 + from_be (sub data 1 2) <= len data < 31 + from_be (sub data 1 2).
Proof.
  rewrite samsara_parse_eq by done. cbv zeta.
  destruct (len data <? 31) eqn:E1; breflect; [split; [done|lia]|].
  destruct (sub_step data 0 0 ltac:(lia) ltac:(lia)) as (v & _ & Hv).
  change (1 + 0) with 1 in Hv. rewrite sub_0 in Hv. rewrite Hv.
  cbn [from_be reverse rev_append from_le]. rewrite Z.mul_0_r, Z.add_0_r.
  destruct (negb (v =? 1)) eqn:E2; breflect; [split; [done|]; intros (_ & [= ->] & _); done|].
  destruct (len data <? 27 + _) eqn:E3; breflect; [split; [done|lia]|].
  destruct (utf8_valid _) eqn:E4; cbn [negb]; [|split; [done|]; intros (_ & _ & ? & _); done].
  destruct (len data <? 31 + from_be (sub data 1 2)) eqn:E5; breflect.
  - split; [|done]. intros _. subst v. repeat split; lia || done.
  - split; [|lia]. by destruct (len data <? _).
Qed.

Lemma samsara_parse_panics_iff_witness :
  parse ([1; 0; 4; 97; 98; 99; 100] ++ fill 0 24) = Panic.
Proof.
  apply samsara_parse_panics_iff.
  - apply (bool_decide_unpack _). vm_compute. reflexivity.
  - split_and!; vm_compute; (reflexivity || discriminate).
Defined.
