(* ===== verification/Translator.v ===== *)
(** * The translation engine ([src/src/translator.rs])

    The per-protocol decoders, the synchronous translation used by the gateway,
    the asynchronous pipeline, the zero-copy hot path, the buffer pool and the
    pool of translators.  Every decoder may in principle panic (it indexes its
    input), so all of them return an [outcome]; the third-party crates are the
    interfaces of [Externals]. *)

From S2P Require Import Prelude Crc Protocol Externals Utf8 IridiumSbd AstsProtobuf InmarsatC Vsat.
From S2P Require Import Hfvhf Samsara.

Inductive TranslateError := InvalidProtocol | DataTooLarge | CodecError | CompressionError.

#[export] Instance TranslateError_eq_dec : EqDecision TranslateError.
Proof. solve_decision. Defined.

(** [.ok_or(e)] *)
Definition ok_or {A} (m : outcome (option A)) (e : TranslateError)
    : outcome (result A TranslateError) :=
  o ← m; Ret (match o with Some a => Ok a | None => Err e end).

Module Translator.

(** [translate_iridium_to_asts_hot_path]; the buffer and the sequence counter are
    returned as well. *)
Definition translate_iridium_to_asts_hot_path (g : Z) (iridium_data output_buffer : bytes)
    : outcome (result Z TranslateError * bytes * Z) :=
  o ← IridiumSBDMessage.parse iridium_data;
  match o with
  | None => Ret (Err InvalidProtocol, output_buffer, g)
  | Some iridium_msg =>
      '(r, b, g) ← ZeroCopyTranslator.translate g iridium_msg output_buffer;
      Ret (match r with Some n => Ok n | None => Err DataTooLarge end, b, g)
  end.

(** The free function [translate_iridium_to_asts_sync] *)
Definition translate_iridium_to_asts_sync (g : Z) (iridium_data output_buffer : bytes)
    : outcome (result Z TranslateError * bytes * Z) :=
  o ← IridiumSBDMessage.parse iridium_data;
  match o with
  | None => Ret (Err InvalidProtocol, output_buffer, g)
  | Some iridium_msg =>
      '(r, b, g) ← ZeroCopyTranslator.translate g iridium_msg output_buffer;
      Ret (match r with Some n => Ok n | None => Err DataTooLarge end, b, g)
  end.

Definition decode_iridium_sbd (data : bytes) : outcome (result bytes TranslateError) :=
  if len data <? 3 then Ret (Err InvalidProtocol) else
  protocol ← data.[0];
  b1 ← data.[1];
  b2 ← data.[2];
  let length := from_be [b1; b2] in
  if 340 <? length then Ret (Err InvalidProtocol) else
  if len data <? 3 + length then Ret (Err InvalidProtocol) else
  payload ← data.[3 ~> 3 + length];
  Ret (Ok ([protocol] ++ payload)).

Definition decode_rockblock (data : bytes) : outcome (result bytes TranslateError) :=
  decode_iridium_sbd data.

Section decoders.
Context `{CrcCrate, HexCrate, ZstdCrate, NomCrate}.

Definition decode_inmarsat_c (data : bytes) : outcome (result bytes TranslateError) :=
  r ← InmarsatCMessage.parse data;
  match r with
  | Err _ => Ret (Err InvalidProtocol)
  | Ok msg => encoded ← InmarsatCMessage.encode msg; Ret (Ok encoded)
  end.

Definition compress_for_cellular (data : bytes) : outcome (result bytes TranslateError) :=
  msg <-! ok_or (VSATMessage.parse data) InvalidProtocol;
  compressed ← VSATMessage.encode msg;
  Ret (Ok compressed).

Definition codec_translate_to_digital (data : bytes) : outcome (result bytes TranslateError) :=
  msg <-! ok_or (HFVHFMessage.parse data) InvalidProtocol;
  digital ← HFVHFMessage.codec_translate_to_digital msg;
  Ret (Ok digital).

(** [parser(input).map_err(|_| TranslateError::InvalidProtocol)?] *)
Definition or_invalid {A} (o : option A) : outcome (result A TranslateError) :=
  Ret (match o with Some a => Ok a | None => Err InvalidProtocol end).

(** [tuple((be_u8, be_u16))] *)
Definition header_parser (i : bytes) : option (bytes * (Z * Z)) :=
  '(i, version) ← be_uint 1 i;
  '(i, device_id_len) ← be_uint 2 i;
  Some (i, (version, device_id_len)).

(** [tuple((be_u64, be_f64, be_f64, be_u32))]; the floats as bit patterns *)
Definition body_parser (i : bytes) : option (bytes * (Z * Z * Z * Z)) :=
  '(i, timestamp) ← be_uint 8 i;
  '(i, latitude) ← be_uint 8 i;
  '(i, longitude) ← be_uint 8 i;
  '(i, payload_len) ← be_uint 4 i;
  Some (i, (timestamp, latitude, longitude, payload_len)).

Definition decode_samsara (data : bytes) : outcome (result bytes TranslateError) :=
  '(remaining, (version, device_id_len)) <-! or_invalid (header_parser data);
  if negb (version =? 1) then Ret (Err InvalidProtocol) else
  if 1024 <? device_id_len then Ret (Err InvalidProtocol) else
  '(remaining, device_id_bytes) <-! or_invalid (nom_take device_id_len remaining);
  '(remaining, (timestamp, latitude, longitude, payload_len)) <-!
    or_invalid (body_parser remaining);
  device_id <-! or_invalid (from_utf8 device_id_bytes);
  if len remaining <? payload_len then Ret (Err InvalidProtocol) else
  payload ← remaining.[0 ~> payload_len];
  Ret (Ok ([0x07] ++ device_id ++ to_be 8 timestamp ++ to_be 8 latitude ++ to_be 8 longitude
           ++ payload)).

(** The [match message.protocol] of [translate_sync] *)
Definition translated_data (m : Message) : outcome (result bytes TranslateError) :=
  match protocol m with
  | IridiumSBD => decode_iridium_sbd (data m)
  | InmarsatC => decode_inmarsat_c (data m)
  | VSAT => compress_for_cellular (data m)
  | HFVHF => codec_translate_to_digital (data m)
  | RockBLOCK => decode_rockblock (data m)
  | Samsara => decode_samsara (data m)
  | NIDD => Ret (Ok (data m))
  | ASTSpaceMobile => Ret (Ok (data m))
  | LoRaMesh => Ret (Ok (data m))
  end.

Definition translate_sync (now : Z) (m : Message) : outcome (result Message TranslateError) :=
  translated_data <-! translated_data m;
  let translated := message_new now ASTSpaceMobile translated_data (priority m) in
  let translated := with_t_event translated (t_event m) in
  let translated := with_t_system translated (t_system m) in
  Ret (Ok translated).

(** The bodies of [translate_iridium], [translate_inmarsat], [translate_vsat],
    [translate_hfvhf], [translate_rockblock] and [translate_samsara] *)
Definition translate_with (decode : bytes -> outcome (result bytes TranslateError))
    (now : Z) (m : Message) : outcome (result Message TranslateError) :=
  cellular_data <-! decode (data m);
  Ret (Ok (message_new now ASTSpaceMobile cellular_data (priority m))).

(** [translate_message], the asynchronous path *)
Definition translate_message (now : Z) (m : Message) : outcome (result Message TranslateError) :=
  match protocol m with
  | IridiumSBD => translate_with decode_iridium_sbd now m
  | InmarsatC => translate_with decode_inmarsat_c now m
  | VSAT => translate_with compress_for_cellular now m
  | HFVHF => translate_with codec_translate_to_digital now m
  | RockBLOCK => translate_with decode_rockblock now m
  | Samsara => translate_with decode_samsara now m
  | NIDD => Ret (Ok m)
  | ASTSpaceMobile => Ret (Ok m)
  | LoRaMesh => Ret (Ok m)
  end.

(** The task spawned by [Translator::new]: reads the input channel in order and
    forwards what could be translated. *)
Fixpoint translation_task (inputs : list (Z * Message)) : outcome (list Message) :=
  match inputs with
  | [] => Ret []
  | (now, m) :: inputs =>
      r ← translate_message now m;
      out ← translation_task inputs;
      Ret (match r with Ok t => t :: out | Err _ => out end)
  end.

End decoders.
End Translator.

Module BufferPool.

Record t := mk { buffers : list bytes; next_index : Z }.

Definition new (size : Z) : t := mk (fill (fill 0 2048) size) 0.

(** [get_buffer]: the index of the buffer handed out, and the pool afterwards;
    [% 0] panics. *)
Definition get_buffer (p : t) : outcome (Z * t) :=
  if len (buffers p) =? 0 then Panic else
  let index := next_index p mod len (buffers p) in
  Ret (index, mk (buffers p) (wrap 64 (next_index p + 1))).

Definition get_buffer_at (p : t) (index : Z) : outcome Z :=
  if len (buffers p) =? 0 then Panic else Ret (index mod len (buffers p)).

End BufferPool.

Module TranslatorPool.

(** A bounded channel of translators; a translator made by [new_without_task] has
    no state of its own, its number is its identity. *)
Record ProtocolPool := mkPool { capacity : Z; queue : list nat }.

Abbreviation t := (gmap Protocol ProtocolPool).

Definition pooled : list Protocol := [IridiumSBD; InmarsatC; VSAT; HFVHF; RockBLOCK; Samsara].

(** [TranslatorPool::new]: a full channel per protocol. *)
Definition new (pool_size : nat) : t :=
  list_to_map (imap (fun i p => (p, mkPool (Z.of_nat pool_size) (seq (i * pool_size) pool_size)))
                 pooled).

(** [borrow]: the translator, if any, and the pools afterwards. *)
Definition borrow (pools : t) (p : Protocol) : option nat * t :=
  match pools !! p with
  | None => (None, pools)
  | Some pool =>
      match queue pool with
      | [] => (None, pools)
      | x :: q => (Some x, <[p := mkPool (capacity pool) q]> pools)
      end
  end.

(** [return_translator]: [try_send] drops the translator when the channel is full. *)
Definition return_translator (pools : t) (p : Protocol) (x : nat) : t :=
  match pools !! p with
  | None => pools
  | Some pool =>
      if len (queue pool) <? capacity pool
      then <[p := mkPool (capacity pool) (queue pool ++ [x])]> pools
      else pools
  end.

(** The workers: a translator is returned to the protocol it was borrowed for.
    [out] lists the translators in use. *)
Inductive step : t * list (Protocol * nat) -> t * list (Protocol * nat) -> Prop :=
| step_borrow pools out p x pools' :
    borrow pools p = (Some x, pools') -> step (pools, out) (pools', (p, x) :: out)
| step_return pools out1 p x out2 :
    step (pools, out1 ++ (p, x) :: out2) (return_translator pools p x, out1 ++ out2).

(** The translators in use for protocol [p]. *)
Definition in_use (p : Protocol) (out : list (Protocol * nat)) : list nat :=
  omap (fun '(q, x) => if bool_decide (q = p) then Some x else None) out.

(** Nothing is lost: channel plus translators in use are those of the start. *)
Definition conserved (pool_size : nat) (s : t * list (Protocol * nat)) : Prop :=
  (forall p, s.1 !! p = None <-> new pool_size !! p = None) /\
  forall p pool, s.1 !! p = Some pool ->
    capacity pool = Z.of_nat pool_size /\
    exists pool0, new pool_size !! p = Some pool0 /\
      queue pool ++ in_use p s.2 ≡ₚ queue pool0.

End TranslatorPool.

(** ** Lemmas: the decoders *)

Import Translator.

Lemma decode_iridium_accepts p pl rest :
  len pl <= 340 ->
  decode_iridium_sbd (p :: to_be 2 (len pl) ++ pl ++ rest) = Ret (Ok (p :: pl)).
Proof.
  intros Hpl. pose proof (len_nonneg pl). pose proof (len_nonneg rest).
  assert (Hl : from_be (to_be 2 (len pl)) = len pl)
    by (apply from_to_be_small; unfold in_u; lia).
  rewrite to_be_2 in Hl |- *. cbn [app]. unfold decode_iridium_sbd. bcase.
  at_lit. mstep. rewrite Hl. do 2 bcase.
  rewrite slice_Ret by (len_simpl; lia). mstep.
  rewrite !sub_cons by lia. by rewrite sub_app_l by lia.
Qed.

Lemma decode_iridium_rejects p n r :
  in_u 16 n -> (len r < n \/ 340 < n) ->
  decode_iridium_sbd (p :: to_be 2 n ++ r) = Ret (Err InvalidProtocol).
Proof.
  intros Hn Hbad. pose proof (len_nonneg r).
  assert (Hl : from_be (to_be 2 n) = n) by (by apply from_to_be_small).
  rewrite to_be_2 in Hl |- *. cbn [app]. unfold decode_iridium_sbd. bcase.
  at_lit. mstep. rewrite Hl.
  destruct (340 <? n) eqn:E1; [done|]. breflect. by bcase.
Qed.

(** The three shapes of an input of the Iridium parsers. *)
Lemma iridium_cases (P : bytes -> Prop) :
  (forall d, len d < 3 -> P d) ->
  (forall p n r, in_u 16 n -> len r < n \/ 340 < n -> P (p :: to_be 2 n ++ r)) ->
  (forall p pl rest, in_u 8 p -> bytes_ok pl -> bytes_ok rest -> len pl <= 340 ->
     P (p :: to_be 2 (len pl) ++ pl ++ rest)) ->
  forall d, bytes_ok d -> P d.
Proof.
  intros H1 H2 H3 d Hok. destruct (decide (len d < 3)) as [|Hd]; [by apply H1|].
  destruct (iridium_split d Hok ltac:(lia)) as (p & n & r & -> & Hp & Hn & Hr & _).
  destruct (decide (n <= len r /\ n <= 340)) as [[Hnr Hn3]|Hbad]; [|apply H2; [done|lia]].
  unfold in_u in Hn. pose proof (sub_split r n ltac:(lia)) as Hs.
  assert (Hl : len (sub r 0 n) = n) by (apply len_sub; lia).
  rewrite Hs. rewrite <- Hl at 1. apply H3; eauto with rbytes. lia.
Qed.

Lemma decode_iridium_total d :
  bytes_ok d -> exists r, decode_iridium_sbd d = Ret r /\
    (r = Err InvalidProtocol \/ exists o, r = Ok o /\ bytes_ok o).
Proof.
  revert d. apply iridium_cases.
  - intros d Hd. unfold decode_iridium_sbd. bcase. eauto.
  - intros. rewrite decode_iridium_rejects by done. eauto.
  - intros. rewrite decode_iridium_accepts by done. eexists. split; [done|].
    right. eauto with rbytes.
Qed.

Section decoders.
Context `{CrcCrate, HexCrate, ZstdCrate, NomCrate}.
Context `{!CrcLaws, !HexLaws, !ZstdLaws, !NomLaws}.

Lemma decode_inmarsat_total d :
  bytes_ok d -> exists r, decode_inmarsat_c d = Ret r /\
    (r = Err InvalidProtocol \/ exists o, r = Ok o /\ bytes_ok o).
Proof.
  intros Hok. unfold decode_inmarsat_c. rewrite inmarsat_parse_eq by done. mstep. cbv zeta.
  destruct (len d <? 16) eqn:E; [eauto|]. breflect.
  destruct (negb _); [eauto|]. destruct (negb _); [eauto|].
  rewrite (inmarsat_encode_eq _ (sub d 6 4) (sub d 10 4))
    by (apply hex_decode_text; eauto with rbytes).
  rewrite !len_sub by lia. cbn [Z.ltb Z.compare orb InmarsatCMessage.message_number]. mstep.
  eexists. split; [done|]. right. eexists. split; [done|].
  apply wire_bytes_ok; cbn [InmarsatCMessage.payload]; eauto with rbytes.
Qed.

Lemma compress_total d :
  bytes_ok d -> exists r, compress_for_cellular d = Ret r /\
    (r = Err InvalidProtocol \/ exists o, r = Ok o /\ bytes_ok o).
Proof.
  intros Hok. unfold compress_for_cellular, ok_or. rewrite vsat_parse_eq. mstep.
  destruct (len d <? 16) eqn:E; [eauto|]. breflect. mstep.
  pose proof (from_be_range (sub d 0 4) ltac:(eauto with rbytes)) as Hr.
  rewrite len_sub in Hr by lia.
  set (m := VSATMessage.mk _ _ _ _).
  assert (Hwf : VSATMessage.wf m).
  { unfold VSATMessage.wf, m.
    cbn [VSATMessage.packet_id VSATMessage.source_ip VSATMessage.dest_ip VSATMessage.payload].
    split; [exact Hr|]. rewrite !len_sub by lia.
    eauto 10 with rbytes. }
  rewrite vsat_encode_eq by done. mstep. eexists. split; [done|]. right. eexists. split; [done|].
  assert (Hpk : bytes_ok (VSATMessage.packet m)).
  { unfold VSATMessage.packet, m.
    cbn [VSATMessage.packet_id VSATMessage.source_ip VSATMessage.dest_ip VSATMessage.payload].
    eauto 10 with rbytes. }
  destruct (encode_all _) eqn:Ec; [|done]. by apply zstd_bytes in Ec.
Qed.

Lemma digital_total d :
  bytes_ok d -> exists r, codec_translate_to_digital d = Ret r /\
    (r = Err InvalidProtocol \/ exists o, r = Ok o /\ bytes_ok o).
Proof.
  intros Hok. unfold codec_translate_to_digital, ok_or, HFVHFMessage.codec_translate_to_digital.
  destruct (hfvhf_parse_cases d Hok) as [->|(m & w & tail & -> & _ & Hw & -> & _)]; mstep; [eauto|].
  rewrite Hw. mstep. eexists. split; [done|]. right. apply Forall_app in Hok as [? _]. eauto.
Qed.

(** The [nom] pipelines in closed form. *)
Lemma header_parser_eq i :
  header_parser i = if len i <? 3 then None
                    else Some (sub i 3 (len i - 3), (from_be (sub i 0 1), from_be (sub i 1 2))).
Proof.
  unfold header_parser. rewrite (be_uint_eq 1 1) by done.
  destruct (len i <? 1) eqn:E1; breflect; [by bcase|]. cbn [mbind option_bind].
  rewrite (be_uint_eq 2 2), len_sub by (done || lia).
  destruct (len i <? 3) eqn:E2; breflect; bcase; [done|]. cbn [mbind option_bind].
  rewrite !sub_sub by lia. do 2 f_equal. f_equal. lia.
Qed.

Lemma body_parser_eq i :
  body_parser i = if len i <? 28 then None
                  else Some (sub i 28 (len i - 28),
                    (from_be (sub i 0 8), from_be (sub i 8 8), from_be (sub i 16 8),
                     from_be (sub i 24 4))).
Proof.
  pose proof (len_nonneg i).
  unfold body_parser. rewrite (be_uint_eq 8 8) by done.
  destruct (len i <? 8) eqn:E1; breflect; [by bcase|]. cbn [mbind option_bind].
  rewrite (be_uint_eq 8 8), len_sub by (done || lia).
  destruct (len i - 8 <? 8) eqn:E2; breflect; [by bcase|]. cbn [mbind option_bind].
  rewrite (be_uint_eq 8 8), !sub_sub, len_sub by (done || lia).
  destruct (len i - 8 - 8 <? 8) eqn:E3; breflect; [by bcase|]. cbn [mbind option_bind].
  rewrite (be_uint_eq 4 4), !sub_sub, len_sub by (done || lia).
  destruct (len i <? 28) eqn:E4; breflect; bcase; [done|]. cbn [mbind option_bind].
  rewrite !sub_sub by lia. do 2 f_equal. f_equal. lia.
Qed.

Lemma decode_samsara_eq d :
  bytes_ok d ->
  decode_samsara d = Ret (
    if len d <? 3 then Err InvalidProtocol else
    if negb (from_be (sub d 0 1) =? 1) then Err InvalidProtocol else
    let n := from_be (sub d 1 2) in
    if 1024 <? n then Err InvalidProtocol else
    if len d <? 31 + n then Err InvalidProtocol else
    if negb (utf8_valid (sub d 3 n)) then Err InvalidProtocol else
    let k := from_be (sub d (27 + n) 4) in
    if len d <? 31 + n + k then Err InvalidProtocol else
    Ok ([0x07] ++ sub d 3 n ++ sub d (3 + n) 8 ++ sub d (11 + n) 8 ++ sub d (19 + n) 8
        ++ sub d (31 + n) k)).
Proof.
  intros Hok. unfold decode_samsara. rewrite header_parser_eq.
  destruct (len d <? 3) eqn:E1; [done|]. breflect. unfold or_invalid at 1. mstep.
  destruct (negb (from_be (sub d 0 1) =? 1)); [done|]. cbv zeta.
  pose proof (from_be_range (sub d 1 2) ltac:(eauto with rbytes)) as Hn.
  rewrite len_sub in Hn by lia. revert Hn. generalize (from_be (sub d 1 2)). intros n Hn.
  unfold in_u in Hn. destruct (1024 <? n); [done|].
  rewrite nom_take_spec, len_sub by lia.
  destruct (len d - 3 <? n) eqn:E2; breflect; [by bcase|]. unfold or_invalid at 1. mstep.
  rewrite body_parser_eq, !len_sub by (rewrite ?len_sub; lia).
  destruct (len d <? 31 + n) eqn:E3; breflect; bcase; [done|]. unfold or_invalid at 1. mstep.
  rewrite !sub_sub by lia. rewrite Z.add_0_r. unfold from_utf8.
  destruct (utf8_valid (sub d 3 n)); [|done]. cbn [negb]. unfold or_invalid. mstep.
  replace (3 + (n + 24)) with (27 + n) by lia. replace (3 + (n + 28)) with (31 + n) by lia.
  pose proof (from_be_range (sub d (27 + n) 4) ltac:(eauto with rbytes)) as Hk.
  rewrite len_sub in Hk by lia. revert Hk. generalize (from_be (sub d (27 + n) 4)). intros k Hk.
  unfold in_u in Hk.
  rewrite !len_sub by lia.
  destruct (len d <? 31 + n + k) eqn:E4; breflect; bcase; [done|].
  rewrite slice_Ret by (rewrite ?len_sub; lia). mstep.
  rewrite !sub_sub, !to_from_be by (eauto with rbytes || lia || (rewrite len_sub; lia)).
  replace (3 + (n + 0)) with (3 + n) by lia. replace (3 + (n + 8)) with (11 + n) by lia.
  replace (3 + (n + 16)) with (19 + n) by lia.
  rewrite Z.add_0_r, Z.sub_0_r. done.
Qed.

(** What the pipeline emits for a Samsara message. *)
Definition samsara_cellular (m : SamsaraMessage.t) : bytes :=
  [0x07] ++ SamsaraMessage.device_id m ++ to_be 8 (SamsaraMessage.timestamp m)
  ++ to_be 8 (SamsaraMessage.latitude m) ++ to_be 8 (SamsaraMessage.longitude m)
  ++ SamsaraMessage.payload m.

Lemma decode_samsara_total d :
  bytes_ok d -> exists r, decode_samsara d = Ret r /\
    (r = Err InvalidProtocol \/ exists o, r = Ok o /\ bytes_ok o).
Proof.
  intros Hok. rewrite decode_samsara_eq by done. cbv zeta. eexists. split; [done|].
  do 6 (match goal with |- context [if ?b then _ else _] => destruct b end; [by left|]).
  right. eexists. split; [done|]. apply bytes_ok_cons; [unfold in_u; lia|].
  eauto 10 with rbytes.
Qed.

(** Every decoder returns, and fails only with [InvalidProtocol]. *)
Lemma translated_data_total m :
  bytes_ok (data m) -> exists r, translated_data m = Ret r /\
    (r = Err InvalidProtocol \/ exists o, r = Ok o /\ bytes_ok o).
Proof.
  intros Hok. unfold translated_data, decode_rockblock.
  destruct (protocol m); eauto 6 using decode_iridium_total, decode_inmarsat_total,
    compress_total, digital_total, decode_samsara_total.
Qed.

(** Protocols whose data already have the target format. *)
Definition passthrough (p : Protocol) : bool :=
  match p with NIDD | ASTSpaceMobile | LoRaMesh => true | _ => false end.

Lemma translate_message_sync now m :
  passthrough (protocol m) = false ->
  translate_message now m =
    d <-! translated_data m; Ret (Ok (message_new now ASTSpaceMobile d (priority m))).
Proof.
  intros Hp. unfold translate_message, translated_data, translate_with.
  by destruct (protocol m).
Qed.

(** ** Properties *)

(** Every message is rejected or translated, with its stamps. *)
Lemma translate_sync_cases now m (Hok : msg_ok m) (Hnow : in_u 64 now) :
  translate_sync now m = Ret (Err InvalidProtocol) \/
  exists m', translate_sync now m = Ret (Ok m') /\
    protocol m' = ASTSpaceMobile /\ priority m' = priority m /\
    t_event m' = t_event m /\ t_system m' = t_system m /\ timestamp m' = now /\
    size_of m' <= max_message_size ASTSpaceMobile /\ msg_ok m'.
Proof.
  destruct Hok as (Hd & _ & Hte & Hts). unfold translate_sync.
  destruct (translated_data_total m Hd) as (r & -> & [->|(o & -> & Ho)]); [by left|right].
  mstep. eexists. split; [done|]. do 5 (split; [done|]).
  pose proof (message_new_ok now ASTSpaceMobile o (priority m) Hnow Ho) as (Hd' & Ht' & _).
  split; [|done]. unfold size_of, with_t_system, with_t_event. cbn [data].
  apply message_new_size.
Qed.

(** C10: synchronous translation is total and keeps what it must.  For every
    message whose data are bytes, of every protocol, [translate_sync] returns
    without panicking; its only error is [InvalidProtocol]; and a translated
    message is addressed to [ASTSpaceMobile], keeps the priority and both
    temporal stamps of the original, respects the target's size limit and is
    again made of bytes. *)
Theorem translate_sync_total now m (Hok : msg_ok m) (Hnow : in_u 64 now) :
  translate_sync now m = Ret (Err InvalidProtocol) \/
  exists m', translate_sync now m = Ret (Ok m') /\
    protocol m' = ASTSpaceMobile /\ priority m' = priority m /\
    t_event m' = t_event m /\ t_system m' = t_system m /\ timestamp m' = now /\
    size_of m' <= max_message_size ASTSpaceMobile /\ msg_ok m'.
Proof. by apply translate_sync_cases. Qed.

(** the asynchronous path translates the same bytes but stamps them anew.
    For the six protocols that are decoded, [translate_message] fails exactly
    when [translate_sync] does and yields the same data, protocol and priority,
    but its [t_event] and [t_system] are the time of translation, not those of
    the message; the three pass-through protocols come back unchanged, with
    their own protocol tag. *)
Theorem async_sync_differ now m :
  if passthrough (protocol m) then translate_message now m = Ret (Ok m) else
  match translate_sync now m with
  | Ret (Ok s) => exists a, translate_message now m = Ret (Ok a) /\
      s = with_t_system (with_t_event a (t_event m)) (t_system m) /\
      t_event a = now /\ t_system a = now
  | Ret (Err e) => translate_message now m = Ret (Err e)
  | Panic => translate_message now m = Panic
  end.
Proof.
  destruct (passthrough (protocol m)) eqn:Hp.
  - unfold translate_message. by destruct (protocol m).
  - rewrite translate_message_sync by done. unfold translate_sync.
    destruct (translated_data m) as [[d|e]|]; mstep; [|done..]. eauto.
Qed.

(** the inlined Samsara decoder of the translator and [SamsaraMessage::parse]
    accept the same packets, up to the decoder's limit of 1024 identifier bytes,
    and the decoder emits the fields of the parsed message; where [parse] panics
    the decoder reports an error. *)
Theorem samsara_decoders_agree d (Hok : bytes_ok d) :
  decode_samsara d = Ret (
    match SamsaraMessage.parse d with
    | Ret (Some m) => if 1024 <? len (SamsaraMessage.device_id m) then Err InvalidProtocol
                      else Ok (samsara_cellular m)
    | _ => Err InvalidProtocol
    end).
Proof.
  rewrite decode_samsara_eq, samsara_parse_eq by done. cbv zeta. f_equal.
  destruct (len d <? 3) eqn:E1; breflect; [by bcase|].
  pose proof (from_be_range (sub d 1 2) ltac:(eauto with rbytes)) as Hn.
  rewrite len_sub in Hn by lia. revert Hn. generalize (from_be (sub d 1 2)). intros n Hn.
  unfold in_u in Hn.
  destruct (negb (from_be (sub d 0 1) =? 1)); [by destruct (len d <? 31)|].
  destruct (len d <? 31) eqn:E2; breflect; [bcase; by destruct (1024 <? n)|].
  destruct (len d <? 27 + n) eqn:E3; breflect; [bcase; by destruct (1024 <? n)|].
  destruct (len d <? 31 + n) eqn:E4; breflect;
    [by destruct (1024 <? n), (utf8_valid (sub d 3 n))|].
  destruct (utf8_valid (sub d 3 n)); cbn [negb]; [|by destruct (1024 <? n)].
  pose proof (from_be_range (sub d (27 + n) 4) ltac:(eauto with rbytes)) as Hk.
  rewrite len_sub in Hk by lia. revert Hk. generalize (from_be (sub d (27 + n) 4)). intros k Hk.
  destruct (len d <? 31 + n + k); [by destruct (1024 <? n)|].
  cbn [SamsaraMessage.device_id]. rewrite (len_sub d 3 n) by lia.
  destruct (1024 <? n); [done|]. unfold samsara_cellular.
  cbn [SamsaraMessage.device_id SamsaraMessage.timestamp SamsaraMessage.latitude
    SamsaraMessage.longitude SamsaraMessage.payload].
  by rewrite !to_from_be by (eauto with rbytes || (rewrite len_sub; lia)).
Qed.
End decoders.

(** C27: the two Iridium parsers agree: on every byte string, the decoder inlined
    in the translator accepts exactly what [IridiumSBDMessage::parse] accepts and
    emits the protocol byte followed by the parsed payload; neither panics. *)
Theorem iridium_decoders_agree d (Hok : bytes_ok d) :
  match IridiumSBDMessage.parse d with
  | Ret (Some m) => exists pl, IridiumSBDMessage.payload_slice m = Ret pl /\
      decode_iridium_sbd d =
      Ret (Ok (IridiumSBDMessage.h_protocol (IridiumSBDMessage.header m) :: pl))
  | Ret None => decode_iridium_sbd d = Ret (Err InvalidProtocol)
  | Panic => False
  end.
Proof.
  revert d Hok. apply iridium_cases.
  - intros d Hd. unfold IridiumSBDMessage.parse, decode_iridium_sbd. by bcase.
  - intros. rewrite iridium_parse_rejects by done. by apply decode_iridium_rejects.
  - intros. rewrite iridium_parse_accepts by done. eexists.
    split; [by apply parsed_payload_slice|]. by apply decode_iridium_accepts.
Qed.

Lemma iridium_decoders_agree_witness :
  decode_iridium_sbd [1; 0; 2; 72; 101; 0; 0] = Ret (Ok [1; 72; 101]).
Proof.
  pose proof (iridium_decoders_agree [1; 0; 2; 72; 101; 0; 0]
    ltac:(apply (bool_decide_unpack _); vm_compute; reflexivity)) as H.
  destruct (IridiumSBDMessage.parse [1; 0; 2; 72; 101; 0; 0]) as [[m|]|] eqn:E;
    [|vm_compute in E; discriminate E..].
  destruct H as (pl & Hpl & H). rewrite H. vm_compute in E. injection E as <-.
  vm_compute in Hpl. injection Hpl as <-. reflexivity.
Defined.

(** C13: the zero-allocation hot path, end to end.  On every input and buffer,
    [translate_iridium_to_asts_sync] rejects what the parser rejects, leaving
    buffer and counter alone; otherwise the counter advances by one and, if the
    buffer can hold it, the buffer starts with the type byte 1, the counter, the
    payload length and the exact payload of the frame, the rest of the buffer
    untouched.  A buffer of 347 bytes always suffices, and nothing panics. *)
Theorem hot_path_contract g d buffer (Hg : in_u 32 g) (Hok : bytes_ok d) :
  match IridiumSBDMessage.parse d with
  | Ret None => translate_iridium_to_asts_sync g d buffer = Ret (Err InvalidProtocol, buffer, g)
  | Ret (Some m) => exists pl, IridiumSBDMessage.payload_slice m = Ret pl /\ 7 + len pl <= 347 /\
      translate_iridium_to_asts_sync g d buffer =
      Ret (if len buffer <? 7 + len pl then (Err DataTooLarge, buffer)
           else (Ok (7 + len pl),
                 (1 :: to_be 4 g ++ to_be 2 (len pl) ++ pl)
                 ++ sub buffer (7 + len pl) (len buffer - (7 + len pl))),
           wrap 32 (g + 1))
  | Panic => False
  end.
Proof.
  unfold translate_iridium_to_asts_sync. revert d Hok. apply iridium_cases.
  - intros d Hd. assert (Hn : IridiumSBDMessage.parse d = Ret None)
      by (unfold IridiumSBDMessage.parse; by bcase). by rewrite Hn.
  - intros. by rewrite iridium_parse_rejects by done.
  - intros p pl rest Hp Hpl Hrest Hle. rewrite iridium_parse_accepts by done.
    exists pl. split; [by apply parsed_payload_slice|]. split; [lia|]. mstep.
    rewrite translate_is_type_1, (translate_with_type_eq _ _ _ pl)
      by (first [done | lia | by apply parsed_payload_slice | unfold in_u; lia]).
    mstep. unfold translated. by destruct (len buffer <? 7 + len pl).
Qed.

Lemma hot_path_contract_witness :
  translate_iridium_to_asts_sync 5 [1; 0; 2; 72; 101; 0; 0] (fill 0 10) =
  Ret (Ok 9, [1; 0; 0; 0; 5; 0; 2; 72; 101; 0], 6).
Proof.
  pose proof (hot_path_contract 5 [1; 0; 2; 72; 101; 0; 0] (fill 0 10)
    ltac:(unfold in_u; lia)
    ltac:(apply (bool_decide_unpack _); vm_compute; reflexivity)) as H.
  destruct (IridiumSBDMessage.parse [1; 0; 2; 72; 101; 0; 0]) as [[m|]|] eqn:E;
    [|vm_compute in E; discriminate E..].
  destruct H as (pl & Hpl & _ & H). rewrite H. vm_compute in E. injection E as <-.
  vm_compute in Hpl. injection Hpl as <-. vm_compute. reflexivity.
Defined.

Section witnesses.
#[local] Existing Instances crc_ibm_3740 crc_ibm_3740_laws hex_ref hex_ref_laws
  zstd_stored zstd_stored_laws nom_ref nom_ref_laws.

Lemma translate_sync_total_witness :
  exists m', translate_sync 9000
      (mkMessage RockBLOCK [4; 0; 1; 77] SafetyCritical 20 10 20) = Ret (Ok m') /\
    t_event m' = 10 /\ t_system m' = 20.
Proof.
  destruct (translate_sync_total 9000 (mkMessage RockBLOCK [4; 0; 1; 77] SafetyCritical 20 10 20))
    as [H|(m' & H & _ & _ & H1 & H2 & _)].
  - unfold msg_ok. split; [apply (bool_decide_unpack _); vm_compute; reflexivity|].
    unfold in_u. simpl. lia.
  - unfold in_u. lia.
  - vm_compute in H. discriminate H.
  - exists m'. split; [exact H|]. split; [exact H1|exact H2].
Defined.

Lemma async_sync_differ_witness :
  let m := mkMessage IridiumSBD [4; 0; 1; 77] Operational 20 10 20 in
  exists a, translate_message 9000 m = Ret (Ok a) /\ t_event a = 9000.
Proof.
  intros m. pose proof (async_sync_differ 9000 m) as H.
  destruct (translate_sync 9000 m) as [[s|e]|] eqn:E; [|vm_compute in E; discriminate E..].
  destruct H as (a & H1 & _ & H2 & _). exists a. split; [exact H1|exact H2].
Defined.

Lemma samsara_decoders_agree_witness :
  decode_samsara ([1; 0; 1; 65] ++ fill 0 28) = Ret (Ok ([7; 65] ++ fill 0 24)).
Proof.
  rewrite (samsara_decoders_agree ([1; 0; 1; 65] ++ fill 0 28)).
  - vm_compute. reflexivity.
  - apply (bool_decide_unpack _). vm_compute. reflexivity.
Defined.
End witnesses.

(** ** The translator pool *)

Import TranslatorPool.

Lemma in_use_app p a b : in_use p (a ++ b) = in_use p a ++ in_use p b.
Proof. unfold in_use. apply omap_app. Qed.

Lemma in_use_cons_eq p x out : in_use p ((p, x) :: out) = x :: in_use p out.
Proof. unfold in_use. cbn. by rewrite bool_decide_eq_true_2. Qed.

Lemma in_use_cons_ne p q x out : q <> p -> in_use p ((q, x) :: out) = in_use p out.
Proof. intros. unfold in_use. cbn. by rewrite bool_decide_eq_false_2. Qed.

Lemma new_pool_size n p pool :
  TranslatorPool.new n !! p = Some pool -> length (queue pool) = n /\ capacity pool = Z.of_nat n.
Proof.
  unfold TranslatorPool.new. intros H%elem_of_list_to_map_2. simpl in H.
  repeat (apply elem_of_cons in H as [[= -> ->]|H]; [simpl; by rewrite length_seq|]).
  by apply elem_of_nil in H.
Qed.

Lemma conserved_init n : conserved n (TranslatorPool.new n, []).
Proof.
  split; [done|]. cbn [fst snd]. intros p pool Hp. split; [by apply (new_pool_size n p)|].
  exists pool. split; [done|]. by rewrite app_nil_r.
Qed.

(** An update of one channel keeps the other channels' accounts. *)
Lemma conserved_update n pools out out' p pool q' :
  conserved n (pools, out) -> pools !! p = Some pool ->
  (forall q, q <> p -> in_use q out' = in_use q out) ->
  q' ++ in_use p out' ≡ₚ queue pool ++ in_use p out ->
  conserved n (<[p := mkPool (capacity pool) q']> pools, out').
Proof.
  intros [Hdom Hall] Hp Hother Hperm. cbn [fst snd] in *. split; cbn [fst snd].
  - intros q. destruct (decide (p = q)) as [<-|Hne].
    + rewrite lookup_insert_eq. rewrite <- Hdom, Hp. done.
    + by rewrite lookup_insert_ne.
  - intros q pool' Hq. destruct (decide (p = q)) as [<-|Hne].
    + rewrite lookup_insert_eq in Hq. injection Hq as <-. cbn [capacity queue].
      destruct (Hall p pool Hp) as (Hc & pool0 & H0 & Hperm0). split; [done|].
      exists pool0. split; [done|]. by rewrite Hperm.
    + rewrite lookup_insert_ne in Hq by done. rewrite Hother by done. by apply Hall.
Qed.

Lemma conserved_step n s s' :
  (forall p x, (p, x) ∈ s.2 -> is_Some (s.1 !! p)) ->
  conserved n s -> TranslatorPool.step s s' -> conserved n s'.
Proof.
  intros Hout Hc Hstep. destruct Hstep as [pools out p x pools' Hb|pools out1 p x out2].
  - unfold borrow in Hb. destruct (pools !! p) as [pool|] eqn:Hp; [|done].
    destruct (queue pool) as [|y q] eqn:Hq; [done|]. injection Hb as <- <-.
    apply (conserved_update n pools out); [done|done| |].
    + intros q' Hne. by apply in_use_cons_ne.
    + rewrite in_use_cons_eq, Hq. cbn [app]. symmetry. apply Permutation_middle.
  - destruct (Hout p x) as [pool Hp]; [cbn; apply elem_of_app; right; left|].
    cbn [fst snd] in *. unfold return_translator. rewrite Hp.
    pose proof (proj2 Hc p pool Hp) as (Hcap & pool0 & H0 & Hperm).
    cbn [fst snd] in Hperm. rewrite in_use_app, in_use_cons_eq in Hperm.
    apply new_pool_size in H0 as [Hlen _]. apply Permutation_length in Hperm.
    rewrite !length_app in Hperm. cbn [length] in Hperm.
    rewrite (proj2 (Z.ltb_lt _ _)) by (unfold len; lia).
    apply (conserved_update n pools (out1 ++ (p, x) :: out2)); [done|done| |].
    + intros q Hne. by rewrite !in_use_app, in_use_cons_ne.
    + rewrite !in_use_app, in_use_cons_eq, <- app_assoc. cbn [app].
      apply Permutation_app_head. apply Permutation_middle.
Qed.

Lemma out_pooled_step s s' :
  (forall p x, (p, x) ∈ s.2 -> is_Some (s.1 !! p)) -> TranslatorPool.step s s' ->
  (forall p x, (p, x) ∈ s'.2 -> is_Some (s'.1 !! p)).
Proof.
  intros Hout Hstep. destruct Hstep as [pools out p x pools' Hb|pools out1 p x out2];
    cbn [fst snd] in *.
  - unfold borrow in Hb. destruct (pools !! p) as [pool|] eqn:Hp; [|done].
    destruct (queue pool) as [|y q] eqn:Hq; [done|]. injection Hb as <- <-.
    intros q' x'. rewrite elem_of_cons. intros [[= -> ->]|Hin]; rewrite lookup_insert_is_Some'; eauto.
  - intros q' x' Hin. assert (Hq : is_Some (pools !! q')).
    { apply (Hout q' x'). rewrite elem_of_app in Hin |- *. rewrite elem_of_cons. tauto. }
    unfold return_translator. destruct (pools !! p) eqn:Hp; [|done].
    destruct (_ <? _); [|done]. rewrite lookup_insert_is_Some'. by right.
Qed.

(** The states workers can reach from a fresh pool. *)
Definition reachable (n : nat) (s : TranslatorPool.t * list (Protocol * nat)) : Prop :=
  rtc TranslatorPool.step (TranslatorPool.new n, []) s.

Lemma reachable_conserved n s : reachable n s -> conserved n s.
Proof.
  intros Hr.
  enough (conserved n s /\ forall p x, (p, x) ∈ s.2 -> is_Some (s.1 !! p)) by tauto.
  unfold reachable in Hr. revert s Hr.
  apply (rtc_ind_r (fun s => conserved n s /\ forall p x, (p, x) ∈ s.2 -> is_Some (s.1 !! p))).
  - split; [apply conserved_init|]. intros p x H. by apply elem_of_nil in H.
  - intros y z _ Hstep [IH1 IH2]. split; [by eapply conserved_step|by eapply out_pooled_step].
Qed.

(** C29: the pool neither loses nor duplicates translators.  However workers
    interleave borrowing and returning, for each of the six pooled protocols the
    idle translators together with the borrowed ones are exactly the initial
    [pool_size] ones; so [borrow] answers [None] only when all of them are in
    use, and [return_translator] never drops one.  For the protocols without a
    pool (NIDD, AST SpaceMobile, LoRa mesh) [borrow] always answers [None]. *)
Theorem pool_conservation n s p (Hr : reachable n s) :
  match TranslatorPool.new n !! p with
  | None => borrow s.1 p = (None, s.1)
  | Some pool0 => exists pool, s.1 !! p = Some pool /\
      queue pool ++ in_use p s.2 ≡ₚ queue pool0 /\
      ((borrow s.1 p).1 = None <-> length (in_use p s.2) = n) /\
      (forall x, x ∈ in_use p s.2 ->
         return_translator s.1 p x = <[p := mkPool (capacity pool) (queue pool ++ [x])]> s.1)
  end.
Proof.
  apply reachable_conserved in Hr as [Hdom Hall].
  destruct (TranslatorPool.new n !! p) as [pool0|] eqn:H0; cycle 1.
  { apply Hdom in H0. unfold borrow. by rewrite H0. }
  destruct (s.1 !! p) as [pool|] eqn:Hp; [|by apply Hdom in Hp; rewrite Hp in H0].
  destruct (Hall p pool Hp) as (Hcap & pool0' & H0' & Hperm).
  rewrite H0 in H0'. injection H0' as <-.
  apply new_pool_size in H0 as [Hlen _].
  pose proof (Permutation_length Hperm) as Hl. rewrite length_app in Hl.
  exists pool. split; [done|]. split; [done|]. split.
  - unfold borrow. rewrite Hp. destruct (queue pool) eqn:Hq; cbn [fst length] in *; [split; [lia|done]|].
    split; [done|lia].
  - intros x Hx. unfold return_translator. rewrite Hp.
    assert (0 < length (in_use p s.2))%nat by (destruct (in_use p s.2); [by apply elem_of_nil in Hx|simpl; lia]).
    by rewrite (proj2 (Z.ltb_lt _ _)) by (unfold len; lia).
Qed.

(** The only VSAT translator of a pool is in use. *)
Lemma pool_conservation_witness :
  exists pools x, borrow (TranslatorPool.new 1) VSAT = (Some x, pools) /\ (borrow pools VSAT).1 = None.
Proof.
  destruct (borrow (TranslatorPool.new 1) VSAT) as [[x|] pools] eqn:E; [|vm_compute in E; discriminate E].
  exists pools, x. split; [reflexivity|].
  pose proof (pool_conservation 1 (pools, [(VSAT, x)]) VSAT
    (rtc_once _ _ (TranslatorPool.step_borrow _ [] VSAT x pools E))) as H.
  destruct (TranslatorPool.new 1 !! VSAT) as [pool0|] eqn:E0; [|vm_compute in E0; discriminate E0].
  destruct H as (pool & _ & _ & H & _). apply H. reflexivity.
Defined.
