(* ===== verification/Cache.v ===== *)
(** * The translation cache ([src/src/cache.rs])

    A map from (protocol, djb2 hash of the payload) to a translated message with
    its time to live, and the queue of keys in insertion order from which the
    oldest entry is evicted.  Both live behind locks taken in the same order, so
    each operation is atomic; [Instant]s and [Duration]s are integers on the
    monotonic clock.  [HashMap] iterates in an unspecified order: operations that
    iterate take the visiting order as an argument. *)

From S2P Require Import Prelude Protocol Float64.

Module AsyncCache.

Definition CacheKey : Type := Protocol * Z.

Record CacheEntry := mkEntry {
  message : Message;
  e_t_event : Z;
  timestamp : Z;
  ttl : Z
}.

Record t := mk {
  entries : gmap CacheKey CacheEntry;
  eviction_order : list CacheKey;
  max_entries : Z;
  default_ttl : Z
}.

Definition new (max_entries default_ttl : Z) : t := mk ∅ [] max_entries default_ttl.

(** djb2 *)
Definition hash_data (data : bytes) : Z :=
  fold_left (fun h b => wrap 64 (wrap 64 (h * 33) + b)) data 5381.

Definition key_of (p : Protocol) (data : bytes) : CacheKey := (p, hash_data data).

(** [timestamp.elapsed() < ttl] at time [now]; [elapsed] saturates at zero. *)
Definition fresh (now : Z) (e : CacheEntry) : bool := Z.max 0 (now - timestamp e) <? ttl e.

Definition get (c : t) (now : Z) (p : Protocol) (data : bytes) : option Message :=
  e ← entries c !! key_of p data;
  if fresh now e then Some (message e) else None.

(** The body shared by [set] and the loop of [set_batch]. *)
Definition set (c : t) (now : Z) (p : Protocol) (data : bytes) (m : Message) : t :=
  let key := key_of p data in
  let entry := mkEntry m (t_event m) now (default_ttl c) in
  let '(es, order) :=
    if max_entries c <=? Z.of_nat (size (entries c)) then
      match eviction_order c with
      | oldest :: rest => (delete oldest (entries c), rest)
      | [] => (entries c, [])
      end
    else (entries c, eviction_order c) in
  let order := match es !! key with None => order ++ [key] | Some _ => order end in
  mk (<[key := entry]> es) order (max_entries c) (default_ttl c).

(** [get_batch]; each query carries the instant at which it is evaluated. *)
Definition get_batch (c : t) (queries : list (Z * Protocol * bytes)) : list (option Message) :=
  map (fun '(now, p, d) =>
         e ← entries c !! key_of p d;
         if fresh now e then Some (message e) else None) queries.

(** [set_batch]; each element carries the instant at which the loop reaches it. *)
Fixpoint set_batch (c : t) (batch : list (Z * Protocol * bytes * Message)) : t :=
  match batch with
  | [] => c
  | (now, p, d, m) :: batch => set_batch (set c now p d m) batch
  end.

(** [if let Some(pos) = order.iter().position(|k| k == key) { order.remove(pos) }] *)
Fixpoint remove_first (key : CacheKey) (order : list CacheKey) : list CacheKey :=
  match order with
  | [] => []
  | k :: order => if bool_decide (k = key) then order else k :: remove_first key order
  end.

(** [entries.retain(..)], visiting the entries in the order [visit]. *)
Definition retain (should_retain : CacheKey -> CacheEntry -> bool)
    (visit : list (CacheKey * CacheEntry)) (c : t) : t :=
  mk (filter (fun kv => should_retain kv.1 kv.2 = true) (entries c))
     (fold_left (fun order kv =>
        if should_retain kv.1 kv.2 then order else remove_first kv.1 order)
        visit (eviction_order c))
     (max_entries c) (default_ttl c).

Definition invalidate_protocol_time_range (c : t) (visit : list (CacheKey * CacheEntry))
    (p : Protocol) (start_ms end_ms : Z) : t :=
  retain (fun key entry =>
    negb (bool_decide (key.1 = p)) ||
    negb ((start_ms <=? e_t_event entry) && (e_t_event entry <=? end_ms))) visit c.

Definition invalidate_protocol (c : t) (visit : list (CacheKey * CacheEntry)) (p : Protocol) : t :=
  retain (fun key _ => negb (bool_decide (key.1 = p))) visit c.

Definition clear (c : t) : t := mk ∅ [] (max_entries c) (default_ttl c).

Record CacheStats := mkStats { total_entries : Z; valid_entries : Z; s_max_entries : Z }.

Definition stats (c : t) (now : Z) : CacheStats :=
  mkStats (Z.of_nat (size (entries c)))
    (Z.of_nat (size (filter (fun kv => fresh now kv.2 = true) (entries c))))
    (max_entries c).

Definition hit_rate (st : CacheStats) : f64 :=
  if total_entries st =? 0 then f64_of_Z 0
  else f64_div (f64_of_Z (valid_entries st)) (f64_of_Z (total_entries st)).

(** The queue lists the keys of the map, each once, and the map is bounded. *)
Definition inv (c : t) : Prop :=
  NoDup (eviction_order c) /\
  (forall k, k ∈ eviction_order c <-> is_Some (entries c !! k)) /\
  Z.of_nat (size (entries c)) <= Z.max 1 (max_entries c).

(** The operations of a client, one lock acquisition each. *)
Inductive step : t -> t -> Prop :=
| step_set c now p d m : step c (set c now p d m)
| step_set_batch c batch : step c (set_batch c batch)
| step_range c visit p s e :
    visit ≡ₚ map_to_list (entries c) ->
    step c (invalidate_protocol_time_range c visit p s e)
| step_protocol c visit p :
    visit ≡ₚ map_to_list (entries c) -> step c (invalidate_protocol c visit p)
| step_clear c : step c (clear c).

End AsyncCache.

Import AsyncCache.

(** ** Lemmas *)

Lemma size_order c : inv c -> size (entries c) = length (eviction_order c).
Proof.
  intros (Hnd & Hdom & _). rewrite <- size_dom.
  assert (Heq : dom (entries c) = list_to_set (eviction_order c)).
  { apply set_eq. intros k. by rewrite elem_of_dom, elem_of_list_to_set, Hdom. }
  by rewrite Heq, size_list_to_set.
Qed.

Lemma inv_new n ttl : inv (new n ttl).
Proof.
  split; [constructor|]. split; [|cbn; rewrite map_size_empty; lia].
  intros k. cbn. rewrite lookup_empty. split; [by intros ?%elem_of_nil|by intros []].
Qed.

(** The state of [set] between eviction and insertion. *)
Definition evicted (c : t) : t :=
  if max_entries c <=? Z.of_nat (size (entries c)) then
    match eviction_order c with
    | oldest :: rest => mk (delete oldest (entries c)) rest (max_entries c) (default_ttl c)
    | [] => c
    end
  else c.

Lemma set_evicted c now p d m :
  set c now p d m =
  let c' := evicted c in let key := key_of p d in
  mk (<[key := mkEntry m (t_event m) now (default_ttl c)]> (entries c'))
     (match entries c' !! key with None => eviction_order c' ++ [key] | Some _ => eviction_order c' end)
     (max_entries c) (default_ttl c).
Proof.
  unfold set, evicted. destruct (_ <=? _); [|done].
  destruct (eviction_order c) eqn:E; [|done]. cbv zeta. by rewrite E.
Qed.

Lemma evicted_inv c :
  inv c ->
  NoDup (eviction_order (evicted c)) /\
  (forall k, k ∈ eviction_order (evicted c) <-> is_Some (entries (evicted c) !! k)) /\
  Z.of_nat (size (entries (evicted c))) < Z.max 1 (max_entries c).
Proof.
  intros Hinv. pose proof (size_order c Hinv) as Hsz. destruct Hinv as (Hnd & Hdom & Hb).
  unfold evicted. destruct (_ <=? _) eqn:E; breflect; [|split; [done|split; [done|lia]]].
  destruct (eviction_order c) as [|k0 rest] eqn:Ho.
  { cbn in Hsz. rewrite ?Ho. split; [done|]. split; [done|lia]. }
  cbn [eviction_order entries]. apply list.NoDup_cons in Hnd as [Hk0 Hnd].
  assert (H0 : is_Some (entries c !! k0)) by (apply Hdom; left).
  split; [done|]. split.
  - intros k. destruct (decide (k = k0)) as [->|Hne].
    + rewrite lookup_delete_eq. split; [done|by intros []].
    + rewrite lookup_delete_ne by done. rewrite <- Hdom, elem_of_cons. naive_solver.
  - destruct H0 as [e0 He0]. rewrite map_size_delete, He0. cbn in *. lia.
Qed.

Lemma set_inv c now p d m : inv c -> inv (set c now p d m).
Proof.
  intros Hinv. rewrite set_evicted. cbv zeta.
  destruct (evicted_inv c Hinv) as (Hnd & Hdom & Hb).
  set (c' := evicted c) in *. set (key := key_of p d).
  unfold inv. cbn [eviction_order entries max_entries].
  destruct (entries c' !! key) as [e|] eqn:Ek.
  - split; [done|]. split.
    + intros k. rewrite lookup_insert_is_Some', <- Hdom.
      split; [by right|]. intros [<-|]; [|done]. apply Hdom. by rewrite Ek.
    + rewrite map_size_insert_Some by (by rewrite Ek). lia.
  - split.
    + apply list.NoDup_app. split; [done|]. split; [|apply NoDup_singleton].
      intros k Hk ->%list_elem_of_singleton. apply Hdom in Hk. rewrite Ek in Hk. by destruct Hk.
    + split.
      * intros k. rewrite lookup_insert_is_Some', elem_of_app, list_elem_of_singleton, <- Hdom.
        naive_solver.
      * rewrite map_size_insert_None by done. lia.
Qed.

Lemma set_batch_inv c batch : inv c -> inv (set_batch c batch).
Proof.
  revert c. induction batch as [|[[[now p] d] m] batch IH]; intros c Hc; [done|].
  cbn [set_batch]. by apply IH, set_inv.
Qed.

Lemma remove_first_elem k key order :
  NoDup order -> k ∈ remove_first key order <-> k ∈ order /\ k <> key.
Proof.
  induction 1 as [|x order Hx Hnd IH]; cbn [remove_first].
  { split; [by intros ?%elem_of_nil|by intros [?%elem_of_nil _]]. }
  case_bool_decide as Hxk.
  - subst x. rewrite elem_of_cons. split; [|naive_solver].
    intros Hk. split; [by right|]. by intros ->.
  - rewrite !elem_of_cons, IH. naive_solver.
Qed.

Lemma remove_first_NoDup key order : NoDup order -> NoDup (remove_first key order).
Proof.
  induction 1 as [|x order Hx Hnd IH]; cbn [remove_first]; [constructor|].
  case_bool_decide; [done|]. constructor; [|done].
  rewrite remove_first_elem by done. tauto.
Qed.

Section retain.
Context (keep : CacheKey -> CacheEntry -> bool).

Lemma retain_order visit order :
  NoDup order ->
  let order' := fold_left (fun order kv =>
    if keep kv.1 kv.2 then order else remove_first kv.1 order) visit order in
  NoDup order' /\ forall k, k ∈ order' <->
    k ∈ order /\ forall e, (k, e) ∈ visit -> keep k e = true.
Proof.
  cbv zeta. revert order. induction visit as [|[k0 e0] visit IH]; intros order Hnd.
  { split; [done|]. intros k. split; [|tauto]. intros Hk. split; [done|].
    by intros e ?%elem_of_nil. }
  cbn [fold_left fst snd]. destruct (keep k0 e0) eqn:Hk0.
  - destruct (IH order Hnd) as [H1 H2]. split; [done|]. intros k. rewrite H2.
    apply and_iff_compat_l. split; intros H e; [|intros He; apply H; by right].
    rewrite elem_of_cons. intros [[= -> ->]|]; [done|by apply H].
  - destruct (IH (remove_first k0 order) (remove_first_NoDup _ _ Hnd)) as [H1 H2].
    split; [done|]. intros k. rewrite H2, remove_first_elem by done. split.
    + intros [[Ho Hne] H]. split; [done|]. intros e. rewrite elem_of_cons.
      intros [[= -> ->]|]; [done|by apply H].
    + intros [Ho H]. split; [split; [done|]|intros e He; apply H; by right].
      intros ->. specialize (H e0). rewrite H in Hk0; [done|by left].
Qed.

Lemma retain_inv visit c :
  visit ≡ₚ map_to_list (entries c) -> inv c -> inv (retain keep visit c).
Proof.
  intros Hv (Hnd & Hdom & Hb). destruct (retain_order visit (eviction_order c) Hnd) as [H1 H2].
  split; [done|]. cbn [retain eviction_order entries max_entries]. split.
  - intros k. rewrite H2, Hdom. split.
    + intros [[e He] Hkeep]. exists e. apply map_lookup_filter_Some. split; [done|].
      apply Hkeep. rewrite Hv. by apply elem_of_map_to_list.
    + intros [e [He Hk]%map_lookup_filter_Some]. split; [by exists e|].
      intros e' He'. rewrite Hv, elem_of_map_to_list, He in He'. by injection He' as <-.
  - etrans; [|exact Hb]. apply inj_le, map_subseteq_size, map_filter_subseteq.
Qed.

Lemma retain_get visit c now p d :
  get (retain keep visit c) now p d =
  match entries c !! key_of p d with
  | Some e => if keep (key_of p d) e then get c now p d else None
  | None => None
  end.
Proof.
  unfold get. cbn [retain entries]. rewrite map_lookup_filter.
  destruct (entries c !! key_of p d) as [e|]; [|done]. cbn.
  destruct (keep (key_of p d) e); by simplify_option_eq.
Qed.
End retain.

Lemma step_inv c c' : inv c -> step c c' -> inv c'.
Proof.
  intros Hc Hs. destruct Hs; [by apply set_inv|by apply set_batch_inv|by apply retain_inv..|].
  apply (inv_new (max_entries c) (default_ttl c)).
Qed.

Lemma get_set c now now' p d m p' d' :
  get (set c now p d m) now' p' d' =
  if bool_decide (key_of p' d' = key_of p d)
  then if Z.max 0 (now' - now) <? default_ttl c then Some m else None
  else get (evicted c) now' p' d'.
Proof.
  rewrite set_evicted. cbv zeta. unfold get. cbn [entries]. case_bool_decide as Hk.
  - rewrite Hk, lookup_insert_eq. done.
  - by rewrite lookup_insert_ne by congruence.
Qed.

(** The key [set] evicts. *)
Definition victim (c : t) : option CacheKey :=
  if max_entries c <=? Z.of_nat (size (entries c)) then head (eviction_order c) else None.

Lemma get_evicted c now p d :
  get (evicted c) now p d =
  if bool_decide (victim c = Some (key_of p d)) then None else get c now p d.
Proof.
  unfold evicted, victim, get. destruct (_ <=? _).
  - destruct (eviction_order c) as [|k0 rest]; cbn [head entries].
    { by rewrite bool_decide_eq_false_2. }
    case_bool_decide as Hk.
    + injection Hk as ->. by rewrite lookup_delete_eq.
    + by rewrite lookup_delete_ne by congruence.
  - by rewrite bool_decide_eq_false_2.
Qed.

(** A new key is appended; if the cache was full the front of the queue leaves. *)
Lemma set_order_new c now p d m :
  inv c -> 1 <= max_entries c -> key_of p d ∉ eviction_order c ->
  eviction_order (set c now p d m) =
  drop (length (eviction_order c ++ [key_of p d]) - Z.to_nat (max_entries c))
    (eviction_order c ++ [key_of p d]).
Proof.
  intros Hinv Hmax Hk. rewrite set_evicted. cbv zeta. cbn [eviction_order].
  destruct (evicted_inv c Hinv) as (_ & Hdom & _).
  assert (Hsub : forall k, k ∈ eviction_order (evicted c) -> k ∈ eviction_order c).
  { unfold evicted. intros k. destruct (_ <=? _); [|done].
    destruct (eviction_order c) eqn:E; cbn; [by rewrite E|by right]. }
  destruct (entries (evicted c) !! key_of p d) eqn:E.
  { destruct Hk. apply Hsub, Hdom. by rewrite E. }
  pose proof (size_order c Hinv) as Hsz. destruct Hinv as (_ & _ & Hb).
  rewrite length_app. cbn [length]. unfold evicted in *.
  destruct (_ <=? _) eqn:Ec; breflect.
  - destruct (eviction_order c) as [|k0 rest] eqn:Ho; [cbn in Hsz; lia|].
    cbn [eviction_order app length] in *.
    replace (S (length rest) + 1 - Z.to_nat (max_entries c))%nat with 1%nat by lia. done.
  - by replace (length (eviction_order c) + 1 - Z.to_nat (max_entries c))%nat with 0%nat by lia.
Qed.

Definition batch_keys (batch : list (Z * Protocol * bytes * Message)) : list CacheKey :=
  map (fun '(_, p, d, _) => key_of p d) batch.

Lemma set_batch_order c batch :
  inv c -> 1 <= max_entries c -> NoDup (eviction_order c ++ batch_keys batch) ->
  eviction_order (set_batch c batch) =
  drop (length (eviction_order c ++ batch_keys batch) - Z.to_nat (max_entries c))
    (eviction_order c ++ batch_keys batch).
Proof.
  revert c. induction batch as [|[[[now p] d] m] batch IH]; intros c Hinv Hmax Hnd.
  { cbn [set_batch batch_keys map]. rewrite app_nil_r.
    pose proof (size_order c Hinv). destruct Hinv as (_ & _ & Hb).
    by replace (length (eviction_order c) - Z.to_nat (max_entries c))%nat with 0%nat by lia. }
  cbn [set_batch batch_keys map] in *. fold (batch_keys batch) in *.
  assert (Hk : key_of p d ∉ eviction_order c).
  { intros Hin. apply list.NoDup_app in Hnd as (_ & Hd & _). apply (Hd _ Hin). by left. }
  pose proof (set_order_new c now p d m Hinv Hmax Hk) as Ho.
  set (all := eviction_order c ++ [key_of p d]) in Ho.
  assert (Hall : eviction_order c ++ key_of p d :: batch_keys batch = all ++ batch_keys batch)
    by (unfold all; by rewrite <- app_assoc).
  rewrite Hall in Hnd |- *.
  assert (Hmax' : max_entries (set c now p d m) = max_entries c) by (rewrite set_evicted; done).
  rewrite IH; [|by apply set_inv|by rewrite Hmax'|rewrite Ho].
  - rewrite Ho, Hmax'. set (n := Z.to_nat (max_entries c)).
    rewrite <- drop_app_le by lia. rewrite drop_drop. f_equal.
    rewrite length_drop, !length_app. lia.
  - rewrite <- drop_app_le by lia. by apply NoDup_drop_list.
Qed.

Lemma hash_data_app a b : hash_data (a ++ b) =
  fold_left (fun h b => wrap 64 (wrap 64 (h * 33) + b)) b (hash_data a).
Proof. unfold hash_data. apply fold_left_app. Qed.

(** djb2 does not separate [(a + 1, b)] from [(a, b + 33)]. *)
Lemma hash_collision pre suf a b :
  hash_data (pre ++ [a + 1; b] ++ suf) = hash_data (pre ++ [a; b + 33] ++ suf).
Proof.
  rewrite !hash_data_app. cbn [fold_left app]. generalize (hash_data pre). intros h.
  f_equal. unfold wrap.
  rewrite !(Zplus_mod_idemp_l (h * 33)), !Zmult_mod_idemp_l, !Zplus_mod_idemp_l. f_equal. lia.
Qed.

(** ** Properties *)

(** C23: the cache stays consistent and bounded.  After any sequence of stores,
    batch stores, invalidations (in whatever order the map is visited) and
    clears, the eviction queue lists exactly the keys present, each once, and
    there are at most [max(1, max_entries)] of them. *)
Theorem cache_reachable_inv n ttl c (Hr : rtc step (new n ttl) c) :
  max_entries c = n /\ default_ttl c = ttl /\ inv c.
Proof.
  revert c Hr. apply (rtc_ind_r (fun c => max_entries c = n /\ default_ttl c = ttl /\ inv c)).
  - split; [done|]. split; [done|apply inv_new].
  - intros c c' _ Hs (Hm & Ht & Hi). split; [|split; [|by apply (step_inv c)]].
    + destruct Hs as [|c batch| | |]; [by rewrite set_evicted| |done..].
      clear Hi Ht. revert c Hm. induction batch as [|[[[? ?] ?] ?] ? IH]; intros c Hm; [done|].
      apply IH. by rewrite set_evicted.
    + destruct Hs as [|c batch| | |]; [by rewrite set_evicted| |done..].
      clear Hi Hm. revert c Ht. induction batch as [|[[[? ?] ?] ?] ? IH]; intros c Ht; [done|].
      apply IH. by rewrite set_evicted.
Qed.

Definition demo_message (d : bytes) : Message := mkMessage ASTSpaceMobile d Operational 5 3 5.

Lemma cache_reachable_inv_witness :
  inv (set (new 1 100) 0 VSAT [1] (demo_message [9])).
Proof.
  destruct (cache_reachable_inv 1 100 (set (new 1 100) 0 VSAT [1] (demo_message [9])))
    as (_ & _ & H).
  - apply rtc_once. constructor.
  - exact H.
Defined.

(** what a lookup sees after a store.  The stored message is found for its
    payload until its time to live has passed; every other key keeps its
    entry, except that storing into a full cache removes the oldest one. *)
Theorem cache_get_set c now now' p d m p' d' :
  get (set c now p d m) now' p' d' =
  if bool_decide (key_of p' d' = key_of p d)
  then if Z.max 0 (now' - now) <? default_ttl c then Some m else None
  else if bool_decide (victim c = Some (key_of p' d')) then None
  else get c now' p' d'.
Proof. rewrite get_set, get_evicted. done. Qed.

(** eviction is first-in first-out.  Storing any number of entries with
    pairwise different keys into a fresh cache of capacity [n] leaves exactly
    the last [n] of them, queued in insertion order. *)
Theorem cache_keeps_last n ttl batch
  (Hn : 1 <= n) (Hnd : NoDup (batch_keys batch)) :
  eviction_order (set_batch (new n ttl) batch) =
  drop (length (batch_keys batch) - Z.to_nat n) (batch_keys batch) /\
  forall k, is_Some (entries (set_batch (new n ttl) batch) !! k) <->
    k ∈ drop (length (batch_keys batch) - Z.to_nat n) (batch_keys batch).
Proof.
  pose proof (set_batch_order (new n ttl) batch (inv_new n ttl) Hn Hnd) as Ho.
  cbn [new eviction_order max_entries app] in Ho. split; [done|].
  intros k. rewrite <- Ho. symmetry. apply (set_batch_inv _ _ (inv_new n ttl)).
Qed.

Lemma cache_keeps_last_witness :
  eviction_order (set_batch (new 2 100)
    [(0, VSAT, [1], demo_message []); (1, VSAT, [2], demo_message []); (2, VSAT, [3], demo_message [])])
  = [key_of VSAT [2]; key_of VSAT [3]].
Proof.
  destruct (cache_keeps_last 2 100
    [(0, VSAT, [1], demo_message []); (1, VSAT, [2], demo_message []); (2, VSAT, [3], demo_message [])])
    as [H _].
  - lia.
  - apply (bool_decide_unpack _). vm_compute. reflexivity.
  - exact H.
Defined.

(** invalidation removes what it names and nothing else: after
    [invalidate_protocol_time_range] a lookup misses if the entry belongs to the
    protocol and its event time lies in the closed range, and otherwise answers
    as before; [invalidate_protocol] does so for the whole protocol. *)
Theorem cache_invalidation c visit now p start_ms end_ms p' d' :
  get (invalidate_protocol_time_range c visit p start_ms end_ms) now p' d' =
    match entries c !! key_of p' d' with
    | Some e => if bool_decide (p' = p) && ((start_ms <=? e_t_event e) && (e_t_event e <=? end_ms))
                then None else get c now p' d'
    | None => None
    end /\
  get (invalidate_protocol c visit p) now p' d' =
    if bool_decide (p' = p) then None else get c now p' d'.
Proof.
  unfold invalidate_protocol_time_range, invalidate_protocol. rewrite !retain_get.
  cbn [key_of fst]. split.
  - destruct (entries c !! key_of p' d') as [e|]; [|done].
    by destruct (bool_decide (p' = p)), (start_ms <=? e_t_event e), (e_t_event e <=? end_ms).
  - destruct (entries c !! key_of p' d') as [e|] eqn:E; [by destruct (bool_decide (p' = p))|].
    unfold get. rewrite E. by destruct (bool_decide (p' = p)).
Qed.

(** a lookup can return the translation of a different payload.  Keys hold a
    64-bit djb2 hash and lookups do not compare payloads, so after storing a
    translation for [.. a+1, b ..] a fresh lookup for [.. a, b+33 ..] returns
    it. *)
Theorem cache_wrong_hit c now p pre suf a b m (Httl : 0 < default_ttl c) :
  get (set c now p (pre ++ [a + 1; b] ++ suf) m) now p (pre ++ [a; b + 33] ++ suf) = Some m.
Proof.
  rewrite get_set. unfold key_of. rewrite hash_collision, bool_decide_eq_true_2 by done.
  rewrite Z.sub_diag. by bcase.
Qed.

Lemma cache_wrong_hit_witness :
  get (set (new 8 100) 0 VSAT [1; 0] (demo_message [42])) 0 VSAT [0; 33] =
  Some (demo_message [42]).
Proof. apply (cache_wrong_hit (new 8 100) 0 VSAT [] [] 0 0). reflexivity. Defined.
