(* ===== verification/Reliability.v ===== *)
(** * Circuit breaker and retry policy ([src/src/reliability.rs])

    The breaker is four atomics shared by concurrent callers.  [Breaker.step] is
    the interleaving semantics: one rule per atomic access of [call],
    [on_success] and [on_failure], any number of callers.  [Breaker.call] is the
    same code run without interference.  [now] is what
    [Instant::elapsed_since_startup] returns, in milliseconds; durations are in
    nanoseconds.  The retry loop draws the results of its attempts from a
    function; its [f64] back-off is computed with the rounding of the
    conversion written out. *)

From S2P Require Import Prelude.

(** [Instant::elapsed_since_startup], in milliseconds: [STARTUP_TIME] and the
    wall clock. *)
Definition elapsed_since_startup (startup wall : Z) : Z :=
  if startup =? 0 then 0 else Z.max 0 (wall - startup).

(** [init_startup_time] and [ensure_startup_time_initialized]: the new value of
    [STARTUP_TIME], which is zero at first; [wall] is the wall clock. *)
Definition init_startup_time (wall : Z) : Z := wrap 64 (Z.max 0 wall).
Definition ensure_startup_time_initialized (startup wall : Z) : Z :=
  if startup =? 0 then init_startup_time wall else startup.

Module Breaker.

Inductive CircuitState := Closed | Open | HalfOpen.

#[global] Instance CircuitState_eq_dec : EqDecision CircuitState.
Proof. solve_decision. Defined.

(** [CircuitState::X as u32] *)
Definition discr (s : CircuitState) : Z :=
  match s with Closed => 0 | Open => 1 | HalfOpen => 2 end.

Record t := mk {
  state : Z;             (* AtomicU32 *)
  failure_count : Z;     (* AtomicU32 *)
  last_failure_time : Z; (* AtomicU64 *)
  half_open_calls : Z;   (* AtomicU32 *)
  failure_threshold : Z;
  recovery_timeout : Z   (* nanoseconds *)
}.

Definition new (failure_threshold recovery_timeout : Z) : t :=
  mk (discr Closed) 0 0 0 failure_threshold recovery_timeout.

Definition set_state (cb : t) (s : Z) : t :=
  mk s (failure_count cb) (last_failure_time cb) (half_open_calls cb)
    (failure_threshold cb) (recovery_timeout cb).
Definition set_failure_count (cb : t) (n : Z) : t :=
  mk (state cb) n (last_failure_time cb) (half_open_calls cb)
    (failure_threshold cb) (recovery_timeout cb).
Definition set_last_failure (cb : t) (n : Z) : t :=
  mk (state cb) (failure_count cb) n (half_open_calls cb)
    (failure_threshold cb) (recovery_timeout cb).
Definition set_half_open_calls (cb : t) (n : Z) : t :=
  mk (state cb) (failure_count cb) (last_failure_time cb) n
    (failure_threshold cb) (recovery_timeout cb).

(** [CircuitBreaker::state] *)
Definition get_state (cb : t) : CircuitState :=
  match wrap 8 (state cb) with 0 => Closed | 1 => Open | 2 => HalfOpen | _ => Closed end.

Inductive CircuitBreakerError (E : Type) := EOpen | Inner (e : E).
Arguments EOpen {E}.
Arguments Inner {E} _.

(** [Duration::from_millis(now - last_failure) > recovery_timeout] *)
Definition recovered (cb : t) (now last_failure : Z) : bool :=
  recovery_timeout cb <? wrap 64 (now - last_failure) * 1000000.

Definition on_success (cb : t) : t := set_state (set_failure_count cb 0) (discr Closed).

Definition on_failure (cb : t) (now : Z) : t :=
  let count := wrap 32 (failure_count cb + 1) in
  let cb := set_failure_count cb count in
  let cb := set_last_failure cb now in
  if failure_threshold cb <=? count then set_state cb (discr Open) else cb.

(** [call] run alone.  [now] is read when the circuit is open, [now'] when [f]
    fails; [f] is the result of the future, not awaited on a rejection. *)
Definition call {T E} (cb : t) (now now' : Z) (f : result T E)
    : result T (CircuitBreakerError E) * t :=
  let st := wrap 8 (state cb) in
  let proceed (cb : t) :=
    let old := half_open_calls cb in
    let entered := if st =? discr HalfOpen then set_half_open_calls cb (wrap 32 (old + 1)) else cb in
    if (st =? discr HalfOpen) && (0 <? old)
    then (Err EOpen, set_half_open_calls entered (wrap 32 (half_open_calls entered - 1)))
    else
      let leave (cb : t) :=
        if st =? discr HalfOpen
        then set_half_open_calls cb (wrap 32 (half_open_calls cb - 1)) else cb in
      match f with
      | Ok r => (Ok r, leave (on_success entered))
      | Err e => (Err (Inner e), leave (on_failure entered now'))
      end in
  if st =? discr Open
  then if recovered cb now (last_failure_time cb)
       then proceed (set_state cb (discr HalfOpen))
       else (Err EOpen, cb)
  else proceed cb.

(** ** Interleaving *)

(** Where a caller is; [st] is the local variable [state] of [call]. *)
Inductive pc :=
| Start
| CheckOpen                    (* loaded [Open] *)
| ReadClock (last_failure : Z) (* loaded [last_failure_time] *)
| StoreHalf                    (* about to store [HalfOpen] *)
| EnterHalf                    (* loaded [HalfOpen], about to [fetch_add] *)
| Reject                       (* about to undo the [fetch_add] *)
| Running (st : Z)             (* awaiting [f] *)
| Succ1 (st : Z) | Succ2 (st : Z)
| Fail1 (st : Z) | Fail2 (st count : Z) | Fail3 (st count : Z)
| Leave (st : Z)               (* about to [fetch_sub] if [st] is [HalfOpen] *)
| Rejected
| Finished (ok : bool).

(** One atomic access of one caller; [now] is the clock at that moment and [ok]
    the result [f] completes with. *)
Definition caller_step (now : Z) (ok : bool) (cb : t) (p : pc) : option (t * pc) :=
  match p with
  | Start =>
      let st := wrap 8 (state cb) in
      Some (cb, if st =? discr Open then CheckOpen
                else if st =? discr HalfOpen then EnterHalf else Running st)
  | CheckOpen => Some (cb, ReadClock (last_failure_time cb))
  | ReadClock last => Some (cb, if recovered cb now last then StoreHalf else Rejected)
  | StoreHalf => Some (set_state cb (discr HalfOpen), Running (discr Open))
  | EnterHalf =>
      Some (set_half_open_calls cb (wrap 32 (half_open_calls cb + 1)),
            if 0 <? half_open_calls cb then Reject else Running (discr HalfOpen))
  | Reject => Some (set_half_open_calls cb (wrap 32 (half_open_calls cb - 1)), Rejected)
  | Running st => Some (cb, if ok then Succ1 st else Fail1 st)
  | Succ1 st => Some (set_failure_count cb 0, Succ2 st)
  | Succ2 st => Some (set_state cb (discr Closed), Leave st)
  | Fail1 st =>
      let count := wrap 32 (failure_count cb + 1) in
      Some (set_failure_count cb count, Fail2 st count)
  | Fail2 st count => Some (set_last_failure cb now, Fail3 st count)
  | Fail3 st count =>
      Some (if failure_threshold cb <=? count then set_state cb (discr Open) else cb, Leave st)
  | Leave st =>
      Some (if st =? discr HalfOpen
            then set_half_open_calls cb (wrap 32 (half_open_calls cb - 1)) else cb,
            Finished ok)
  | Rejected | Finished _ => None
  end.

(** The call is over. *)
Definition returned (p : pc) : bool :=
  match p with Rejected | Finished _ => true | _ => false end.

(** The breaker and the calls in progress: callers come at any time, and leave after
    their last access. *)
Definition config : Type := t * list pc.

Inductive step : config -> config -> Prop :=
| step_spawn cb ps : step (cb, ps) (cb, ps ++ [Start])
| step_caller now ok cb ps1 p ps2 cb' p' :
    caller_step now ok cb p = Some (cb', p') ->
    step (cb, ps1 ++ p :: ps2) (cb', ps1 ++ p' :: ps2)
| step_return cb ps1 p ps2 :
    returned p = true -> step (cb, ps1 ++ p :: ps2) (cb, ps1 ++ ps2).

(** Callers that own the half-open slot, and callers about to give back a
    [fetch_add] that failed. *)
Definition holds_slot (p : pc) : bool :=
  match p with
  | Running st | Succ1 st | Succ2 st | Fail1 st | Fail2 st _ | Fail3 st _ | Leave st =>
      st =? discr HalfOpen
  | _ => false
  end.
Definition rejecting (p : pc) : bool := match p with Reject => true | _ => false end.

(** Callers that are executing the protected operation or its epilogue. *)
Definition in_flight (p : pc) : bool :=
  match p with
  | Running _ | Succ1 _ | Succ2 _ | Fail1 _ | Fail2 _ _ | Fail3 _ _ | Leave _ => true
  | _ => false
  end.

Fixpoint count (f : pc -> bool) (ps : list pc) : Z :=
  match ps with
  | [] => 0
  | p :: ps => (if f p then 1 else 0) + count f ps
  end.

Definition reachable (threshold timeout : Z) (c : config) : Prop :=
  rtc step (new threshold timeout, []) c.

(** Executions with fewer than [n] calls in progress at any time. *)
Definition step_below (n : Z) (c c' : config) : Prop := step c c' /\ len c'.2 < n.
Definition reachable_below (n threshold timeout : Z) (c : config) : Prop :=
  rtc (step_below n) (new threshold timeout, []) c.

End Breaker.

Module RetryPolicy.

Record t := mk {
  max_attempts : Z;
  base_delay : Z; (* nanoseconds *)
  max_delay : Z
}.

(** [new]; [backoff_factor] is the constant [2.0]. *)
Definition new (max_attempts base_delay : Z) : t :=
  mk max_attempts base_delay (30 * 1000000000).

(** [z as f64] for a non-negative integer: nearest with 53 significant bits, ties
    to even.  The result is an integer. *)
Definition as_f64 (z : Z) : Z :=
  let e := Z.max 0 (Z.log2 z - 52) in
  let q := z / 2 ^ e in
  let r := z mod 2 ^ e in
  let q := if (2 ^ e <? 2 * r) || ((2 * r =? 2 ^ e) && Z.odd q && (0 <? e)) then q + 1 else q in
  q * 2 ^ e.

(** The next delay: [min(from_millis((ms as f64 * 2.0) as u64), max_delay)] *)
Definition next_delay (p : t) (delay : Z) : Z :=
  Z.min (Z.min (as_f64 (delay / 1000000) * 2) (2 ^ 64 - 1) * 1000000) (max_delay p).

(** The loop of [execute]: the result and the delays slept, in order.  [f i] is
    the result of the [i]-th attempt; [fuel] bounds the attempts. *)
Fixpoint execute_loop {T E} (fuel : nat) (p : t) (f : Z -> result T E) (attempt delay : Z)
    : option (result T E * list Z) :=
  match fuel with
  | O => None
  | S fuel =>
      let attempt := wrap 32 (attempt + 1) in
      match f attempt with
      | Ok r => Some (Ok r, [])
      | Err e =>
          if max_attempts p <=? attempt then Some (Err e, [])
          else
            '(r, ds) ← execute_loop fuel p f attempt (next_delay p delay);
            Some (r, delay :: ds)
      end
  end.

Definition execute {T E} (fuel : nat) (p : t) (f : Z -> result T E)
    : option (result T E * list Z) :=
  execute_loop fuel p f 0 (base_delay p).

End RetryPolicy.

(** [HealthChecker]: the time of the last successful check, in milliseconds since
    startup; [0] stands for "never".  [Instant]s are nanoseconds. *)
Module HealthChecker.

Record t := mk { last_check : Z; check_interval : Z }.

Definition new (check_interval : Z) : t := mk 0 check_interval.

(** One round of the loop spawned by [start]. *)
Definition check (h : t) (ok : bool) (now_ms : Z) : t :=
  if ok then mk now_ms (check_interval h) else h.

Definition last_check_time (h : t) (now now_ms : Z) : option Z :=
  if last_check h =? 0 then None
  else Some (now - wrap 64 (now_ms - last_check h) * 1000000).

(** [is_healthy]; [Duration * 2] panics on overflow. *)
Definition is_healthy (h : t) (now now_ms now' : Z) : outcome bool :=
  match last_check_time h now now_ms with
  | Some last =>
      if 2 ^ 64 * 1000000000 <=? 2 * check_interval h then Panic
      else Ret (Z.max 0 (now' - last) <? 2 * check_interval h)
  | None => Ret false
  end.

End HealthChecker.

Import Breaker.

(** ** Lemmas: counting callers *)

Lemma count_app f a b : count f (a ++ b) = count f a + count f b.
Proof. induction a as [|p a IH]; cbn [count app]; [done|]. rewrite IH. lia. Qed.

Lemma count_cons f p ps : count f (p :: ps) = (if f p then 1 else 0) + count f ps.
Proof. done. Qed.

Lemma count_nil f : count f [] = 0.
Proof. done. Qed.

Lemma count_nonneg f ps : 0 <= count f ps.
Proof. induction ps as [|p ps IH]; cbn [count]; [done|]. destruct (f p); lia. Qed.

Lemma count_disjoint ps : count holds_slot ps + count rejecting ps <= len ps.
Proof.
  induction ps as [|p ps IH]; [done|]. rewrite !count_cons, len_cons.
  assert (holds_slot p = false \/ rejecting p = false) as [->| ->]
    by (destruct p; auto); destruct (rejecting p), (holds_slot p); lia.
Qed.

Create Rewrite HintDb counts.
#[export] Hint Rewrite count_app count_cons count_nil : counts.

(** The counter tracks the owner of the slot and the callers backing out. *)
Definition slot_inv (c : config) : Prop :=
  in_u 32 (half_open_calls c.1) /\ len c.2 < 2 ^ 32 /\
  half_open_calls c.1 = count holds_slot c.2 + count rejecting c.2 /\
  count holds_slot c.2 <= 1.

Lemma caller_step_slot now ok cb p cb' p' :
  in_u 32 (half_open_calls cb) -> caller_step now ok cb p = Some (cb', p') ->
  let b2z (b : bool) := if b then 1 else 0 in
  let delta := b2z (holds_slot p') + b2z (rejecting p') - b2z (holds_slot p) - b2z (rejecting p) in
  in_u 32 (half_open_calls cb') /\
  half_open_calls cb' = wrap 32 (half_open_calls cb + delta) /\
  (holds_slot p' = true -> holds_slot p = true \/ half_open_calls cb = 0).
Proof.
  intros Hu Hs. cbv zeta.
  assert (Hwu : forall z, in_u 32 (wrap 32 z)) by (intros; by apply wrap_range).
  assert (Hid : half_open_calls cb = wrap 32 (half_open_calls cb + 0))
    by (rewrite Z.add_0_r; by rewrite wrap_small).
  destruct p; cbn [caller_step] in Hs; simplify_eq; cbn [holds_slot rejecting half_open_calls
    set_half_open_calls set_state set_failure_count set_last_failure].
  - (* Start *)
    destruct (_ =? discr Open) eqn:E1; [|destruct (_ =? discr HalfOpen) eqn:E2];
      cbn [holds_slot rejecting]; rewrite ?E2; auto.
  - auto.
  - destruct (recovered _ _ _); cbn [holds_slot rejecting]; auto.
  - cbn. auto.
  - destruct (0 <? half_open_calls cb) eqn:E; breflect; cbn [holds_slot rejecting];
      (split; [apply Hwu|]); (split; [f_equal; done|]); [done|].
    intros _. right. unfold in_u in Hu. lia.
  - split; [apply Hwu|]. split; [f_equal; done|done].
  - destruct ok; cbn [holds_slot rejecting]; destruct (st =? _); auto.
  - destruct (st =? _); auto.
  - destruct (st =? _); auto.
  - destruct (st =? _); auto.
  - destruct (st =? _); auto.
  - destruct (failure_threshold cb <=? _), (st =? _); cbn; auto.
  - destruct (st =? discr HalfOpen); cbn; auto.
Qed.

Lemma slot_inv_step c c' : slot_inv c -> step_below (2 ^ 32) c c' -> slot_inv c'.
Proof.
  intros (Hu & Hl & H1 & H2) [Hs Hl']. unfold slot_inv in *.
  destruct Hs as [cb ps|now ok cb ps1 p ps2 cb' p' Hs|cb ps1 p ps2 Hp]; cbn [fst snd] in *.
  - autorewrite with counts. cbn [holds_slot rejecting]. split_and!; [done..|lia|lia].
  - destruct (caller_step_slot now ok cb p cb' p' Hu Hs) as (Hu' & Heq & Hslot).
    split; [done|]. split; [done|].
    pose proof (count_disjoint (ps1 ++ p' :: ps2)) as Hd.
    autorewrite with counts in H1, H2, Hd |- *.
    pose proof (count_nonneg holds_slot ps1). pose proof (count_nonneg holds_slot ps2).
    pose proof (count_nonneg rejecting ps1). pose proof (count_nonneg rejecting ps2).
    split.
    + rewrite Heq, wrap_small; [rewrite H1; lia|]. unfold in_u. rewrite H1.
      destruct (holds_slot p), (rejecting p), (holds_slot p'), (rejecting p'); lia.
    + destruct (holds_slot p') eqn:E; [|destruct (holds_slot p), (rejecting p); lia].
      destruct (Hslot eq_refl) as [Hp|Hz]; [rewrite Hp in H2; lia|].
      destruct (holds_slot p), (rejecting p); lia.
  - autorewrite with counts in H1, H2 |- *. destruct p; try done; cbn [holds_slot rejecting] in *;
      (split; [done|]); (split; [done|]); lia.
Qed.

Lemma slot_inv_reachable threshold timeout c :
  reachable_below (2 ^ 32) threshold timeout c -> slot_inv c.
Proof.
  revert c. apply rtc_ind_r; [|intros c c' _ Hs Hi; by apply (slot_inv_step c)].
  split; [unfold in_u; cbn; lia|]. by split.
Qed.

(** ** Lemmas: several callers making the same move *)

Lemma steps_all now ok cb p p' ps1 ps2 n :
  caller_step now ok cb p = Some (cb, p') ->
  rtc step (cb, ps1 ++ replicate n p ++ ps2) (cb, ps1 ++ replicate n p' ++ ps2).
Proof.
  intros Hs. revert ps1. induction n as [|n IH]; intros ps1; [done|].
  cbn [replicate app]. eapply rtc_l; [by apply (step_caller now ok)|].
  specialize (IH (ps1 ++ [p'])). by rewrite <- !app_assoc in IH.
Qed.

Lemma steps_one now ok cb p cb' p' ps1 ps2 :
  caller_step now ok cb p = Some (cb', p') ->
  rtc step (cb, ps1 ++ p :: ps2) (cb', ps1 ++ p' :: ps2).
Proof. intros. apply rtc_once. by apply (step_caller now ok). Qed.

Lemma steps_spawn cb ps n : rtc step (cb, ps) (cb, ps ++ replicate n Start).
Proof.
  revert ps. induction n as [|n IH]; intros ps; [by rewrite app_nil_r|].
  eapply rtc_l; [apply step_spawn|]. specialize (IH (ps ++ [Start])).
  by rewrite <- app_assoc in IH.
Qed.

(** ** Lemmas: the breaker run alone *)

Lemma closed_call_ok {T E} cb now now' (r : T) :
  state cb = discr Closed ->
  call cb now now' (Ok r : result T E) = (Ok r, on_success cb).
Proof. intros Hs. unfold call. by rewrite Hs. Qed.

Lemma closed_call_err {T E} cb now now' (e : E) :
  state cb = discr Closed ->
  call cb now now' (Err e : result T E) = (Err (Inner e), on_failure cb now').
Proof. intros Hs. unfold call. by rewrite Hs. Qed.

Lemma open_call_rejected {T E} cb now now' (f : result T E) :
  state cb = discr Open -> recovered cb now (last_failure_time cb) = false ->
  call cb now now' f = (Err EOpen, cb).
Proof. intros Hs Hr. unfold call. by rewrite Hs, Hr. Qed.

Lemma open_call_probe {T E} cb now now' (f : result T E) :
  state cb = discr Open -> recovered cb now (last_failure_time cb) = true ->
  call cb now now' f =
  match f with
  | Ok r => (Ok r, on_success (set_state cb (discr HalfOpen)))
  | Err e => (Err (Inner e), on_failure (set_state cb (discr HalfOpen)) now')
  end.
Proof. intros Hs Hr. unfold call. rewrite Hs, Hr. cbn. by destruct f. Qed.

(** Consecutive failing calls at the given times. *)
Fixpoint fail_calls (cb : t) (times : list Z) : t :=
  match times with
  | [] => cb
  | now :: times => fail_calls (call cb now now (Err tt : result unit unit)).2 times
  end.

Lemma fail_calls_closed cb times :
  state cb = discr Closed -> 0 <= failure_count cb ->
  failure_count cb + len times < failure_threshold cb -> failure_threshold cb < 2 ^ 32 ->
  exists cb', fail_calls cb times = cb' /\ state cb' = discr Closed /\
    failure_count cb' = failure_count cb + len times /\
    failure_threshold cb' = failure_threshold cb /\ recovery_timeout cb' = recovery_timeout cb.
Proof.
  revert cb. induction times as [|now times IH]; intros cb Hs H0 Hlt Hth.
  { exists cb. rewrite (@len_nil Z). split_and!; try done. lia. }
  rewrite len_cons in Hlt. pose proof (len_nonneg times). cbn [fail_calls].
  rewrite closed_call_err by done. cbn [snd].
  assert (Hw : wrap 32 (failure_count cb + 1) = failure_count cb + 1)
    by (apply wrap_small; unfold in_u; lia).
  assert (Hof : on_failure cb now =
    set_last_failure (set_failure_count cb (failure_count cb + 1)) now).
  { unfold on_failure. rewrite Hw. cbn [failure_threshold set_last_failure set_failure_count].
    by bcase. }
  rewrite Hof. destruct (IH (set_last_failure (set_failure_count cb (failure_count cb + 1)) now))
    as (cb' & -> & Hs' & Hc' & Ht' & Hr'); cbn; [done|lia..|].
  eexists. split; [done|]. cbn in *. rewrite len_cons. split_and!; try done. lia.
Qed.

(** ** Properties *)

(** C11: at most one caller owns the half-open slot.  Callers come and go without
    limit, and their atomic accesses interleave in any way; as long as fewer than
    [2^32] calls are in progress at the same time (the range of the counter), at most
    one of the callers that loaded [HalfOpen] is executing the protected operation,
    the counter is the number of owners plus the number of callers that are about to
    undo their increment, and it is back at zero whenever no call is in progress. *)
Theorem half_open_slot threshold timeout cb ps
  (Hr : reachable_below (2 ^ 32) threshold timeout (cb, ps)) :
  count holds_slot ps <= 1 /\
  half_open_calls cb = count holds_slot ps + count rejecting ps /\
  (ps = [] -> half_open_calls cb = 0).
Proof.
  destruct (slot_inv_reachable _ _ _ Hr) as (_ & _ & H1 & H2). split; [done|]. split; [done|].
  by intros ->.
Qed.

(** Executions written as the caller (by position) that moves, with its clock and the
    result of its operation; [None] is a new caller. *)
Fixpoint schedule (c : config) (l : list (option (nat * Z * bool))) : option config :=
  match l with
  | [] => Some c
  | None :: l => schedule (c.1, c.2 ++ [Start]) l
  | Some (i, now, ok) :: l =>
      match c.2 !! i with
      | Some p =>
          match caller_step now ok c.1 p with
          | Some (cb, p') => schedule (cb, <[i := p']> c.2) l
          | None => schedule (c.1, delete i c.2) l
          end
      | None => None
      end
  end.

Lemma schedule_reaches n c l c' :
  schedule c l = Some c' -> len c.2 + Z.of_nat (length l) < n -> rtc (step_below n) c c'.
Proof.
  revert c. induction l as [|[[[i now] ok]|] l IH]; intros [cb ps] Hs Hn; cbn [schedule fst snd length] in *.
  - by injection Hs as <-.
  - destruct (ps !! i) as [p|] eqn:Hp; [|done]. pose proof (take_drop_middle ps i p Hp) as Hps.
    assert (Hi : (i < length ps)%nat) by (by eapply lookup_lt_Some).
    destruct (caller_step now ok cb p) as [[cb1 p1]|] eqn:Hc.
    + eapply rtc_l; [|apply (IH _ Hs)]; cbn [snd].
      * split; [|cbn [snd]; unfold len in *; rewrite length_insert; lia].
        rewrite insert_take_drop by done. rewrite <- Hps at 1. by apply (step_caller now ok).
      * unfold len in *. rewrite length_insert. lia.
    + assert (Hr : returned p = true) by (by destruct p).
      assert (Hd : length (delete i ps) = (length ps - 1)%nat) by (by rewrite length_delete).
      eapply rtc_l; [|apply (IH _ Hs)]; cbn [snd].
      * split; [|cbn [snd]; unfold len in *; rewrite Hd; lia].
        rewrite delete_take_drop. rewrite <- Hps at 1. by apply step_return.
      * unfold len in *. rewrite Hd. lia.
  - eapply rtc_l; [|apply (IH _ Hs)]; cbn [snd].
    + split; [apply step_spawn|]. cbn [snd]. rewrite len_app. change (len [Start]) with 1. lia.
    + rewrite len_app. change (len [Start]) with 1. lia.
Qed.

(** One caller fails and opens the circuit, leaving at the end; a second one finds it
    open, waits and makes it half open; the third takes the slot, the fourth backs
    out. *)
Definition half_open_schedule : list (option (nat * Z * bool)) :=
  None :: replicate 7 (Some (0%nat, 5, false)) ++
  None :: replicate 4 (Some (0%nat, 6, true)) ++
  [None; None] ++ replicate 2 (Some (1%nat, 6, true)) ++ replicate 2 (Some (2%nat, 6, true)).

Lemma half_open_slot_witness :
  exists cb ps, reachable_below (2 ^ 32) 1 0 (cb, ps) /\ get_state cb = HalfOpen /\
    ps = [Running (discr Open); Running (discr HalfOpen); Reject] /\ half_open_calls cb = 2 /\
    count holds_slot ps <= 1.
Proof.
  assert (E : schedule (new 1 0, []) half_open_schedule =
    Some (mk (discr HalfOpen) 1 5 2 1 0, [Running (discr Open); Running (discr HalfOpen); Reject]))
    by (vm_compute; reflexivity).
  assert (Hr : reachable_below (2 ^ 32) 1 0
    (mk (discr HalfOpen) 1 5 2 1 0, [Running (discr Open); Running (discr HalfOpen); Reject]))
    by (apply (schedule_reaches (2 ^ 32) _ half_open_schedule); [exact E|vm_compute; reflexivity]).
  eexists _, _. split; [exact Hr|]. split; [reflexivity|]. split; [reflexivity|]. split; [reflexivity|].
  exact (proj1 (half_open_slot 1 0 _ _ Hr)).
Defined.

(** yet the probe is not exclusive.  Callers that loaded [Open] before the
    first of them stored [HalfOpen] keep [Open] in their local variable and
    bypass the limit: for every [n], a state is reachable in which the circuit is
    half open and [n] callers run the protected operation at once. *)
Theorem half_open_unlimited n :
  exists cb ps, reachable 1 0 (cb, ps) /\ get_state cb = HalfOpen /\
    count in_flight ps = Z.of_nat (S n).
Proof.
  set (cb1 := mk (discr Open) 1 5 0 1 0). set (cb2 := set_state cb1 (discr HalfOpen)).
  exists cb2, (Finished false :: replicate (S n) (Running (discr Open))).
  split; [|split; [done|]].
  - unfold reachable. etrans; [apply (steps_spawn _ [] 1)|]. cbn [app replicate].
    (* one caller fails and opens the circuit at time 5 *)
    etrans; [by eapply (steps_one 0 true _ Start _ _ [] [])|].
    etrans; [by eapply (steps_one 0 false _ (Running _) _ _ [] [])|].
    etrans; [by eapply (steps_one 0 false _ (Fail1 _) _ _ [] [])|].
    etrans; [by eapply (steps_one 5 false _ (Fail2 _ _) _ _ [] [])|].
    etrans; [by eapply (steps_one 5 false _ (Fail3 _ _) _ _ [] [])|].
    etrans; [by eapply (steps_one 5 false _ (Leave _) _ _ [] [])|].
    change (rtc step (cb1, [Finished false]) (cb2, Finished false :: replicate (S n) (Running (discr Open)))).
    (* [n + 1] callers load [Open] and pass the timeout check at time 6 *)
    etrans; [apply (steps_spawn _ _ (S n))|]. cbn [app].
    rewrite <- (app_nil_r (replicate (S n) Start)).
    etrans; [by apply (steps_all 6 true cb1 Start CheckOpen [Finished false])|].
    etrans; [by apply (steps_all 6 true cb1 CheckOpen (ReadClock 5) [Finished false])|].
    etrans; [by apply (steps_all 6 true cb1 (ReadClock 5) StoreHalf [Finished false])|].
    (* the first store changes the state, the others find it unchanged *)
    cbn [replicate app].
    etrans; [by apply (steps_one 6 true cb1 StoreHalf cb2 (Running (discr Open)) [Finished false])|].
    etrans; [by apply (steps_all 6 true cb2 StoreHalf (Running (discr Open))
      [Finished false; Running (discr Open)])|].
    by rewrite app_nil_r.
  - cbn [count in_flight]. cut (count in_flight (replicate n (Running (discr Open))) = Z.of_nat n);
      [cbn; lia|].
    clear. induction n as [|n IH]; [done|]. cbn [replicate count in_flight]. lia.
Qed.

(** C30: the life cycle of a breaker that is used by one caller at a time.
    Starting closed with no failures, fewer than [failure_threshold] consecutive
    failures leave it closed; the last one of [failure_threshold] opens it; from
    then on every call within the recovery timeout is rejected without any change
    of state; and the first call after it runs the operation, closing the circuit
    and clearing the count on success, opening it again on failure. *)
Theorem breaker_life_cycle th timeout times now1
  (Hth : 1 <= th < 2 ^ 32) (Hlen : len times = th - 1) :
  let cb0 := fail_calls (new th timeout) times in
  let cb1 := (call cb0 now1 now1 (Err tt : result unit unit)).2 in
  get_state cb0 = Closed /\ get_state cb1 = Open /\ last_failure_time cb1 = now1 /\
  (forall now now' (f : result unit unit), wrap 64 (now - now1) * 1000000 <= timeout ->
     call cb1 now now' f = (Err EOpen, cb1)) /\
  (forall now now', timeout < wrap 64 (now - now1) * 1000000 ->
     (exists cb2, call cb1 now now' (Ok tt : result unit unit) = (Ok tt, cb2) /\
        get_state cb2 = Closed /\ failure_count cb2 = 0) /\
     (th + 1 < 2 ^ 32 ->
      exists cb2, call cb1 now now' (Err tt : result unit unit) = (Err (Inner tt), cb2) /\
        get_state cb2 = Open /\ last_failure_time cb2 = now')).
Proof.
  cbv zeta.
  destruct (fail_calls_closed (new th timeout) times) as (cb0 & -> & Hs & Hc & Ht & Hr);
    [done|done|cbn; lia|cbn; lia|]. cbn in Hc, Ht, Hr.
  rewrite closed_call_err by done. cbn [snd].
  assert (Hof : on_failure cb0 now1 =
    set_state (set_last_failure (set_failure_count cb0 th) now1) (discr Open)).
  { unfold on_failure. rewrite (wrap_small 32) by (unfold in_u; lia).
    replace (failure_count cb0 + 1) with th by lia.
    cbn [failure_threshold set_last_failure set_failure_count]. by bcase. }
  rewrite Hof. split; [unfold get_state; by rewrite Hs|]. split; [done|]. split; [done|].
  set (cb1 := set_state _ _).
  assert (Hrec : forall now, recovered cb1 now (last_failure_time cb1) =
    (timeout <? wrap 64 (now - now1) * 1000000)) by (intros; unfold recovered, cb1; cbn; by rewrite Hr).
  split.
  - intros now now' f Hle. apply open_call_rejected; [done|]. rewrite Hrec. by apply Z.ltb_ge.
  - intros now now' Hlt. rewrite !open_call_probe by (rewrite ?Hrec; done || by apply Z.ltb_lt).
    split; [eexists; split; [done|]; done|]. intros Hth1. eexists. split; [done|].
    unfold on_failure, cb1. cbn. rewrite (wrap_small 32) by (unfold in_u; lia).
    rewrite Ht. by bcase.
Qed.

Lemma breaker_life_cycle_witness :
  get_state (fail_calls (new 3 1000000) [10; 20]) = Closed /\
  call (call (fail_calls (new 3 1000000) [10; 20]) 30 30 (Err tt : result unit unit)).2 31 31
    (Ok tt : result unit unit) =
  (Err EOpen, (call (fail_calls (new 3 1000000) [10; 20]) 30 30 (Err tt : result unit unit)).2).
Proof.
  destruct (breaker_life_cycle 3 1000000 [10; 20] 30) as (H1 & _ & _ & H2 & _).
  - lia.
  - reflexivity.
  - split; [exact H1|]. apply H2. vm_compute. discriminate.
Defined.

(** A caller that runs alone. *)
Lemma single_step n ok c p c' p' : caller_step n ok c p = Some (c', p') -> rtc step (c, [p]) (c', [p']).
Proof. intros. by apply (steps_one n ok _ _ _ _ [] []). Qed.

(** The protected operation and its epilogue. *)
Lemma body_steps {T E} now' (f : result T E) c st :
  rtc step (c, [Running st])
    (let leave cb := if st =? discr HalfOpen
       then set_half_open_calls cb (wrap 32 (half_open_calls cb - 1)) else cb in
     match f with
     | Ok _ => (leave (on_success c), [Finished true])
     | Err _ => (leave (on_failure c now'), [Finished false])
     end).
Proof.
  cbv zeta. destruct f as [r|e].
  - do 3 (etrans; [by apply (single_step 0 true)|]). by apply (single_step 0 true).
  - do 2 (etrans; [by apply (single_step 0 false)|]). etrans; [by apply (single_step now' false)|].
    etrans; [by apply (single_step 0 false)|]. by apply (single_step 0 false).
Qed.

(** A breaker whose clock was never initialised stays open for ever (a defect): nothing
    calls [ensure_startup_time_initialized], and while [STARTUP_TIME] is zero every
    reading of the clock is zero, so once the failures reach the threshold no later
    call is let through, whatever the wall clock says.  Once the clock is initialised,
    the breaker that failed at [w0] lets a call through when more than the timeout has
    passed. *)
Theorem uninitialised_breaker_stays_open {T E} th timeout w0 (f : result T E) :
  1 <= th < 2 ^ 32 -> 0 <= timeout ->
  let reading startup w := elapsed_since_startup startup w in
  let opened startup := (call (mk (discr Closed) (th - 1) 0 0 th timeout)
    (reading startup w0) (reading startup w0) (Err tt : result unit unit)).2 in
  (forall w w', call (opened 0) (reading 0 w) (reading 0 w') f = (Err EOpen, opened 0)) /\
  (forall wall w, let s := ensure_startup_time_initialized 0 wall in
     0 < wall <= w0 -> w0 <= w < 2 ^ 64 -> timeout < (w - w0) * 1000000 ->
     (call (opened s) (reading s w) (reading s w) f).1 <> Err EOpen).
Proof.
  intros Hth Hto. cbv zeta. unfold elapsed_since_startup.
  assert (Ho : forall n, (call (mk (discr Closed) (th - 1) 0 0 th timeout) n n (Err tt : result unit unit)).2
    = mk (discr Open) th n 0 th timeout).
  { intros n. unfold call. cbn [state half_open_calls]. change (wrap 8 (discr Closed)) with 0. cbn -[Z.leb wrap].
    unfold on_failure. cbn -[Z.leb wrap Z.add Z.sub]. replace (th - 1 + 1) with th by lia.
    by rewrite wrap_small, Z.leb_refl by (unfold in_u; lia). }
  rewrite Ho. split.
  - intros w w'. change (0 =? 0) with true. cbn iota. unfold call. cbn [state].
    change (wrap 8 (discr Open) =? discr Open) with true. cbn iota. unfold recovered.
    cbn [last_failure_time recovery_timeout]. change (wrap 64 (0 - 0) * 1000000) with 0.
    by rewrite (proj2 (Z.ltb_ge _ _)) by lia.
  - intros wall w Hw Hlt Ht. unfold ensure_startup_time_initialized, init_startup_time.
    change (0 =? 0) with true. cbn iota. rewrite Z.max_r, wrap_small by (unfold in_u; lia).
    rewrite (proj2 (Z.eqb_neq wall 0)), Ho by lia. unfold call. cbn [state].
    change (wrap 8 (discr Open) =? discr Open) with true. cbn iota. unfold recovered.
    cbn [last_failure_time recovery_timeout]. rewrite !Z.max_r by lia.
    replace (w - wall - (w0 - wall)) with (w - w0) by lia. rewrite wrap_small by (unfold in_u; lia).
    rewrite (proj2 (Z.ltb_lt _ _)) by lia. change (wrap 8 (discr Open)) with 1. cbn. by destruct f.
Qed.

Lemma uninitialised_breaker_stays_open_witness :
  (call (mk (discr Open) 5 0 0 5 30000000000) (elapsed_since_startup 0 99999999) 0 (Ok tt : result unit unit)).1
  = Err EOpen.
Proof.
  destruct (uninitialised_breaker_stays_open (T := unit) (E := unit) 5 30000000000 0 (Ok tt)
    ltac:(lia) ltac:(lia)) as [H _].
  exact (f_equal fst (H 99999999 0)).
Defined.

(** the sequential reading refines the interleaved one: the effect and result
    of a call run alone, at any state of the breaker, is an execution of one
    caller's atomic steps. *)
Theorem call_refines_steps {T E} cb now now' (f : result T E) :
  let '(r, cb') := call cb now now' f in
  rtc step (cb, [Start])
    (cb', [match r with Err EOpen => Rejected | Ok _ => Finished true | _ => Finished false end]).
Proof.
  pose proof single_step as Hone. pose proof (body_steps now' f) as Hbody.
  unfold call. cbv zeta.
  destruct (wrap 8 (state cb) =? discr Open) eqn:E1.
  - apply Z.eqb_eq in E1 as Hst. rewrite Hst. cbn [discr Z.eqb Pos.eqb andb].
    assert (Hload : rtc step (cb, [Start]) (cb, [ReadClock (last_failure_time cb)])).
    { etrans; [apply (Hone 0 true cb Start cb CheckOpen); cbn [caller_step]; by rewrite E1|]. by apply (Hone 0 true). }
    destruct (recovered cb now (last_failure_time cb)) eqn:Erec.
    + specialize (Hbody (set_state cb 2) (discr Open)). cbn in Hbody.
      assert (Hpre : rtc step (cb, [Start]) (set_state cb 2, [Running (discr Open)])).
      { etrans; [exact Hload|].
        etrans; [apply (Hone now true cb _ cb StoreHalf); cbn [caller_step]; by rewrite Erec|]. by apply (Hone 0 true). }
      destruct f; (etrans; [exact Hpre|exact Hbody]).
    + etrans; [exact Hload|]. apply (Hone now true). cbn [caller_step]. by rewrite Erec.
  - destruct (wrap 8 (state cb) =? discr HalfOpen) eqn:E2; cbn [andb].
    + assert (Hload : rtc step (cb, [Start]) (cb, [EnterHalf])).
      { apply (Hone 0 true). cbn [caller_step]. by rewrite E1, E2. }
      set (cb1 := set_half_open_calls cb (wrap 32 (half_open_calls cb + 1))).
      destruct (0 <? half_open_calls cb) eqn:E3.
      * etrans; [exact Hload|].
        etrans; [apply (Hone 0 true cb EnterHalf cb1 Reject); cbn [caller_step]; by rewrite E3|]. by apply (Hone 0 true).
      * assert (Hpre : rtc step (cb, [Start]) (cb1, [Running (discr HalfOpen)])).
        { etrans; [exact Hload|]. apply (Hone 0 true). cbn [caller_step]. by rewrite E3. }
        specialize (Hbody cb1 (discr HalfOpen)). cbn [discr Z.eqb Pos.eqb] in Hbody.
        destruct f; (etrans; [exact Hpre|exact Hbody]).
    + assert (Hpre : rtc step (cb, [Start]) (cb, [Running (wrap 8 (state cb))])).
      { apply (Hone 0 true). cbn [caller_step]. by rewrite E1, E2. }
      specialize (Hbody cb (wrap 8 (state cb))). rewrite E2 in Hbody.
      destruct f; (etrans; [exact Hpre|exact Hbody]).
Qed.

(** ** The retry loop *)

Import RetryPolicy.

Lemma as_f64_small z : 0 <= z < 2 ^ 53 -> as_f64 z = z.
Proof.
  intros Hz. assert (He : Z.max 0 (Z.log2 z - 52) = 0).
  { assert (Z.log2 z <= 52); [|lia].
    destruct (decide (z = 0)) as [->|]; [done|].
    apply Z.lt_succ_r, Z.log2_lt_pow2; [lia|]. change (Z.succ 52) with 53. lia. }
  unfold as_f64. rewrite He. change (2 ^ 0) with 1.
  rewrite Z.div_1_r, Z.mod_1_r. change (1 <? 2 * 0) with false. change (2 * 0 =? 1) with false. cbn [andb orb]. lia.
Qed.

(** Large integers stay large. *)
Lemma as_f64_large z : 2 ^ 53 <= z -> 2 ^ 52 <= as_f64 z.
Proof.
  intros Hz. unfold as_f64.
  assert (Hl : 53 <= Z.log2 z) by (change 53 with (Z.log2 (2 ^ 53)); by apply Z.log2_le_mono).
  rewrite Z.max_r by lia. set (e := Z.log2 z - 52).
  assert (He : 2 ^ 52 * 2 ^ e <= z).
  { rewrite <- Z.pow_add_r by lia. replace (52 + e) with (Z.log2 z) by lia. apply Z.log2_spec. lia. }
  assert (Hp : 1 <= 2 ^ e) by (pose proof (Z.pow_pos_nonneg 2 e); lia).
  assert (Hq : 2 ^ 52 <= z / 2 ^ e) by (apply Z.div_le_lower_bound; lia).
  cbv zeta. destruct (_ || _); nia.
Qed.

(** The first delay is the base delay; from then on its whole milliseconds double,
    until the cap of 30 s. *)
Definition backoff (base i : Z) : Z :=
  if i =? 0 then base else Z.min (base / 1000000 * 2 ^ i) 30000 * 1000000.

Lemma next_delay_backoff n base i :
  0 <= base -> 0 <= i -> next_delay (new n base) (backoff base i) = backoff base (i + 1).
Proof.
  intros Hb Hi. unfold next_delay, backoff. cbn [max_delay new].
  rewrite (proj2 (Z.eqb_neq (i + 1) 0)) by lia.
  set (m := base / 1000000). assert (Hm : 0 <= m) by (apply Z.div_pos; lia).
  change (2 ^ 64) with 18446744073709551616. destruct (Z.eqb_spec i 0) as [->|Hne].
  - change (2 ^ (0 + 1)) with 2. fold m. destruct (decide (m < 2 ^ 53)).
    + rewrite as_f64_small by lia. lia.
    + pose proof (as_f64_large m ltac:(lia)) as Hf. change (2 ^ 52) with 4503599627370496 in Hf.
      change (2 ^ 53) with 9007199254740992 in *. lia.
  - rewrite Z.div_mul by lia. rewrite Z.pow_add_r by lia. change (2 ^ 1) with 2.
    assert (0 < 2 ^ i) by lia. assert (0 <= m * 2 ^ i) by nia.
    rewrite as_f64_small by (change (2 ^ 53) with 9007199254740992; lia). lia.
Qed.

(** The loop from attempt [a]. *)
Lemma execute_loop_spec {T E} n base (f : Z -> result T E) fuel a :
  0 <= base -> 0 <= a -> in_u 32 n -> a < Z.max 1 n ->
  Z.of_nat fuel = Z.max 1 n - a ->
  exists k r, a < k <= Z.max 1 n /\ f k = r /\
    (forall i, a < i < k -> exists e, f i = Err e) /\
    ((exists v, r = Ok v) \/ k = Z.max 1 n) /\
    execute_loop fuel (new n base) f a (backoff base a) =
    Some (r, backoff base <$> seqZ a (k - 1 - a)).
Proof.
  intros Hb Ha Hn. unfold in_u in Hn. revert a Ha.
  induction fuel as [|fuel IH]; intros a Ha Hlt Hfuel; [lia|].
  cbn [execute_loop]. rewrite (wrap_small 32) by (unfold in_u; lia).
  destruct (f (a + 1)) as [v|e] eqn:Hf.
  { exists (a + 1), (Ok v). split; [lia|]. split; [done|]. split; [lia|].
    split; [left; by exists v|]. by replace (a + 1 - 1 - a) with 0 by lia. }
  cbn [max_attempts new]. destruct (n <=? a + 1) eqn:E1; breflect.
  { exists (a + 1), (Err e). split; [lia|]. split; [done|]. split; [lia|].
    split; [right; lia|]. by replace (a + 1 - 1 - a) with 0 by lia. }
  fold (new n base). rewrite next_delay_backoff by lia.
  destruct (IH (a + 1) ltac:(lia) ltac:(lia) ltac:(lia)) as (k & r & Hk & Hfk & Hi & Hend & Heq).
  rewrite Heq. cbn [mbind option_bind]. exists k, r. split; [lia|]. split; [done|]. split.
  { intros i Hi'. destruct (decide (i = a + 1)) as [->|]; [by exists e|]. apply Hi. lia. }
  split; [done|]. rewrite (seqZ_cons a (k - 1 - a)) by lia. rewrite fmap_cons.
  replace (Z.succ a) with (a + 1) by lia.
  by replace (Z.pred (k - 1 - a)) with (k - 1 - (a + 1)) by lia.
Qed.

(** C31: the retry loop terminates within its budget and reports faithfully.  With
    [n] allowed attempts (at least one is always made) and any base delay, in
    nanoseconds, [execute] returns after some attempt [k] no later than the last:
    every earlier attempt failed, the result is that of attempt [k], it is a success
    unless [k] was the last attempt.  Between the attempts it first sleeps the base
    delay as it is, above the maximum of 30 s too; each later sleep is the number of
    whole milliseconds in the base delay, doubled once per attempt and at most 30 s,
    so a base delay under a millisecond is slept once and then there is no pause. *)
Theorem retry_returns {T E} n base (f : Z -> result T E) (Hn : in_u 32 n) (Hb : 0 <= base) :
  exists k r, 1 <= k <= Z.max 1 n /\ f k = r /\
    (forall i, 1 <= i < k -> exists e, f i = Err e) /\
    ((exists v, r = Ok v) \/ k = Z.max 1 n) /\
    execute (Z.to_nat (Z.max 1 n)) (new n base) f =
    Some (r, (fun i => if i =? 0 then base
                       else Z.min (base / 1000000 * 2 ^ i) 30000 * 1000000) <$> seqZ 0 (k - 1)).
Proof.
  destruct (execute_loop_spec n base f (Z.to_nat (Z.max 1 n)) 0)
    as (k & r & Hk & Hf & Hi & Hend & Heq); [done|lia|done|lia|lia|].
  exists k, r. split; [lia|]. split; [done|]. split; [intros; apply Hi; lia|].
  split; [done|]. unfold execute. cbn [base_delay new]. fold (new n base).
  by replace (k - 1 - 0) with (k - 1) in Heq by lia.
Qed.

Lemma retry_returns_witness :
  exists r, execute 4 (new 4 (100 * 1000000 + 5)) (fun i => if i <? 4 then Err i else Ok i) =
    Some (r, [100000005; 200000000; 400000000]).
Proof.
  destruct (retry_returns 4 (100 * 1000000 + 5) (fun i => if i <? 4 then Err i else Ok i))
    as (k & r & Hk & Hf & Hi & Hend & Heq).
  - unfold in_u. lia.
  - lia.
  - exists r. assert (Hk4 : k = 4).
    { destruct (decide (k = 4)); [assumption|]. destruct Hend as [[v Hv]|Hend]; [|lia].
      rewrite <- Hf in Hv. destruct (k <? 4) eqn:Ek; [discriminate Hv|]. apply Z.ltb_ge in Ek. lia. }
    subst k. exact Heq.
Defined.
