(* ===== verification/Snapshot.v ===== *)
(** * Uplink snapshots ([src/src/snapshot.rs])

    A map from content-derived identifiers to snapshots of message batches, with
    an insertion-order queue for eviction.  Removals leave their key in the
    queue ("ghosts"); eviction skips them.  [now_ms] is an argument; ages are
    computed in [u64] and wrap.  Operations that iterate over the [HashMap] take
    the visiting order. *)

From stdpp Require Import pretty.
From S2P Require Import Prelude Protocol Float64.

Module SnapshotManager.

Record Snapshot := mkSnapshot {
  id : string;
  messages : list Message;
  s_protocol : Protocol;
  created_at : Z;
  size_bytes : Z;
  device_id : Z
}.

#[export] Instance Snapshot_eq_dec : EqDecision Snapshot.
Proof. solve_decision. Defined.

(** [SnapshotStore] with the two parameters of the manager. *)
Record t := mk {
  store : gmap string Snapshot;
  order : list string;
  max_snapshots : Z;
  snapshot_ttl : Z (* milliseconds *)
}.

Definition new (max_snapshots snapshot_ttl : Z) : t := mk ∅ [] max_snapshots snapshot_ttl.

Definition FNV_OFFSET : Z := 14695981039346656037.
Definition FNV_PRIME : Z := 1099511628211.

(** One byte of FNV-1a. *)
Definition fnv_byte (h b : Z) : Z := wrap 64 (Z.lxor h b * FNV_PRIME).

Definition hash_messages (ms : list Message) (p : Protocol) : Z :=
  let h := fold_left fnv_byte (to_le 8 (protocol_discr p)) FNV_OFFSET in
  fold_left (fun h m => fold_left fnv_byte (data m) h) ms h.

(** [format!("snap_{}_{}", protocol, hash)] *)
Definition generate_snapshot_id (ms : list Message) (p : Protocol) : string :=
  ("snap_" +:+ protocol_display p +:+ "_" +:+ pretty (Z.to_N (hash_messages ms p)))%string.

(** The [while let] loop of [evict_oldest]. *)
Fixpoint evict_oldest (order : list string) (store : gmap string Snapshot)
    : list string * gmap string Snapshot :=
  match order with
  | [] => ([], store)
  | i :: order =>
      match store !! i with
      | Some _ => (order, delete i store)
      | None => evict_oldest order store
      end
  end.

Definition create_snapshot (s : t) (now : Z) (ms : list Message) (p : Protocol) (dev : Z)
    : string * t :=
  let snapshot_id := generate_snapshot_id ms p in
  let size_bytes := wrap 64 (foldr Z.add 0 (map size_of ms)) in
  let snapshot := mkSnapshot snapshot_id ms p now size_bytes dev in
  let '(o, st) :=
    if max_snapshots s <=? Z.of_nat (size (store s)) then evict_oldest (order s) (store s)
    else (order s, store s) in
  (snapshot_id,
   mk (<[snapshot_id := snapshot]> st) (o ++ [snapshot_id]) (max_snapshots s) (snapshot_ttl s)).

Definition create_batch_snapshot := create_snapshot.

(** [(now - s.created_at) < ttl] in [u64] *)
Definition unexpired (s : t) (now : Z) (sn : Snapshot) : bool :=
  wrap 64 (now - created_at sn) <? snapshot_ttl s.

(** The predicate of [drain_for_uplink]. *)
Definition drains (s : t) (now dev since_ms : Z) (sn : Snapshot) : bool :=
  (device_id sn =? dev) && (since_ms <=? created_at sn) && unexpired s now sn.

Definition drain_for_uplink (s : t) (visit : list (string * Snapshot)) (now dev since_ms : Z)
    : list Snapshot * t :=
  (foldr (fun kv r => if drains s now dev since_ms kv.2 then kv.2 :: r else r) [] visit,
   mk (filter (fun kv => drains s now dev since_ms kv.2 = false) (store s))
      (order s) (max_snapshots s) (snapshot_ttl s)).

Definition get_snapshot (s : t) (now : Z) (i : string) : option Snapshot :=
  sn ← store s !! i;
  if snapshot_ttl s <? wrap 64 (now - created_at sn) then None else Some sn.

Definition get_protocol_snapshots (s : t) (visit : list (string * Snapshot)) (now : Z) (p : Protocol)
    : list Snapshot :=
  foldr (fun kv r => if bool_decide (s_protocol kv.2 = p) && unexpired s now kv.2
                     then kv.2 :: r else r) [] visit.

Definition delete_snapshot (s : t) (i : string) : bool * t :=
  (bool_decide (is_Some (store s !! i)),
   mk (delete i (store s)) (order s) (max_snapshots s) (snapshot_ttl s)).

Definition clear_expired (s : t) (now : Z) : t :=
  mk (filter (fun kv => unexpired s now kv.2 = true) (store s))
     (order s) (max_snapshots s) (snapshot_ttl s).

Record SnapshotStats := mkStats {
  total_snapshots : Z;
  valid_snapshots : Z;
  total_size_bytes : Z;
  s_max_snapshots : Z
}.

Definition stats (s : t) (now : Z) : SnapshotStats :=
  mkStats (Z.of_nat (size (store s)))
    (Z.of_nat (size (filter (fun kv => unexpired s now kv.2 = true) (store s))))
    (wrap 64 (foldr Z.add 0 (map (fun kv => size_bytes kv.2) (map_to_list (store s)))))
    (max_snapshots s).

Definition utilization (st : SnapshotStats) : f64 :=
  if s_max_snapshots st =? 0 then f64_of_Z 0
  else f64_div (f64_of_Z (total_snapshots st)) (f64_of_Z (s_max_snapshots st)).

(** Every stored snapshot can be found by eviction, and the store is bounded. *)
Definition inv (s : t) : Prop :=
  (forall i, is_Some (store s !! i) -> i ∈ order s) /\
  Z.of_nat (size (store s)) <= Z.max 1 (max_snapshots s).

Inductive step : t -> t -> Prop :=
| step_create s now ms p dev : step s (create_snapshot s now ms p dev).2
| step_drain s visit now dev since :
    visit ≡ₚ map_to_list (store s) -> step s (drain_for_uplink s visit now dev since).2
| step_delete s i : step s (delete_snapshot s i).2
| step_expire s now : step s (clear_expired s now).

End SnapshotManager.

Import SnapshotManager.

(** ** Lemmas *)

(** Eviction pops ghosts up to the first live key and removes exactly that one. *)
Lemma evict_oldest_spec o st :
  (exists ghosts i rest, o = ghosts ++ i :: rest /\ is_Some (st !! i) /\
     Forall (fun g => st !! g = None) ghosts /\ evict_oldest o st = (rest, delete i st)) \/
  (Forall (fun g => st !! g = None) o /\ evict_oldest o st = ([], st)).
Proof.
  induction o as [|i o IH]; [by right|]. cbn [evict_oldest].
  destruct (st !! i) as [sn|] eqn:E.
  - left. exists [], i, o. rewrite E. split; [done|]. split; [by exists sn|]. split; [constructor|done].
  - destruct IH as [(g & j & rest & -> & Hj & Hg & Heq)|[Hall Heq]].
    + left. exists (i :: g), j, rest. split; [done|]. split; [done|]. split; [by constructor|done].
    + right. split; [by constructor|done].
Qed.

Lemma inv_filter (P : string * Snapshot -> Prop) `{!forall x, Decision (P x)} s :
  inv s -> inv (mk (filter P (store s)) (order s) (max_snapshots s) (snapshot_ttl s)).
Proof.
  intros [Hin Hb]. split; cbn [store order max_snapshots].
  - intros i [sn [Hsn _]%map_lookup_filter_Some]. apply Hin. by exists sn.
  - etrans; [|exact Hb]. apply inj_le, map_subseteq_size, map_filter_subseteq.
Qed.

Lemma evict_inv s :
  inv s ->
  (forall i, is_Some ((evict_oldest (order s) (store s)).2 !! i) ->
     i ∈ (evict_oldest (order s) (store s)).1) /\
  Z.of_nat (size (evict_oldest (order s) (store s)).2) < Z.max 1 (max_snapshots s).
Proof.
  intros [Hin Hb].
  destruct (evict_oldest_spec (order s) (store s)) as [(g & i & rest & Ho & Hi & Hg & ->)|[Hall ->]];
    cbn [fst snd].
  - split.
    + intros j Hj. destruct (decide (j = i)) as [->|Hne];
        [rewrite lookup_delete_eq in Hj; by destruct Hj|].
      rewrite lookup_delete_ne in Hj by done. pose proof (Hin j Hj) as Hjo.
      rewrite Ho, elem_of_app, elem_of_cons in Hjo. destruct Hjo as [Hjg|[->|]]; [|done..].
      rewrite list.Forall_forall in Hg. rewrite (Hg j Hjg) in Hj. by destruct Hj.
    + destruct Hi as [sn Hsn]. rewrite map_size_delete, Hsn.
      assert (size (store s) <> 0%nat); [|lia].
      intros H0%map_size_empty_inv. by rewrite H0, lookup_empty in Hsn.
  - assert (He : store s = ∅).
    { apply map_empty. intros i. destruct (store s !! i) as [sn|] eqn:E; [|done].
      rewrite list.Forall_forall in Hall. rewrite Hall in E; [done|].
      apply Hin. by exists sn. }
    rewrite He, map_size_empty. split; [|lia]. intros i. rewrite lookup_empty. by intros [].
Qed.

Lemma create_inv s now ms p dev : inv s -> inv (create_snapshot s now ms p dev).2.
Proof.
  intros Hinv. unfold create_snapshot.
  assert (Hpre : exists o st,
    (if max_snapshots s <=? Z.of_nat (size (store s)) then evict_oldest (order s) (store s)
     else (order s, store s)) = (o, st) /\
    (forall i, is_Some (st !! i) -> i ∈ o) /\
    Z.of_nat (size st) < Z.max 1 (max_snapshots s)).
  { destruct (_ <=? _) eqn:E; breflect.
    - destruct (evict_oldest _ _) as [o st] eqn:Ee. exists o, st.
      pose proof (evict_inv s Hinv) as [H1 H2]. rewrite Ee in *. done.
    - exists (order s), (store s). destruct Hinv. split; [done|]. split; [done|lia]. }
  destruct Hpre as (o & st & -> & Hin & Hb). cbn [snd]. split; cbn [store order max_snapshots].
  - intros i. rewrite lookup_insert_is_Some', elem_of_app, list_elem_of_singleton.
    intros [<-|Hi]; [by right|left; by apply Hin].
  - rewrite map_size_insert. destruct (st !! _); cbn; lia.
Qed.

Lemma snapshot_step_inv s s' : inv s -> step s s' -> inv s'.
Proof.
  intros Hinv Hs. destruct Hs; [by apply create_inv|by apply inv_filter| |by apply inv_filter].
  destruct Hinv as [Hin Hb]. split; cbn [delete_snapshot snd store order max_snapshots].
  - intros j [sn Hj]. apply lookup_delete_Some in Hj as [_ Hj]. apply Hin. by exists sn.
  - etrans; [|exact Hb]. apply inj_le, map_subseteq_size, delete_subseteq.
Qed.

Lemma elem_drained (f : Snapshot -> bool) visit sn :
  sn ∈ foldr (fun kv r => if f kv.2 then kv.2 :: r else r) [] visit <->
  f sn = true /\ exists i : string, (i, sn) ∈ visit.
Proof.
  induction visit as [|[i x] visit IH]; cbn [foldr snd].
  { split; [by intros ?%elem_of_nil|]. by intros [_ [i ?%elem_of_nil]]. }
  destruct (f x) eqn:E; rewrite ?elem_of_cons, IH; clear IH.
  - split; [intros [->|[H1 [j H2]]]|intros [H1 [j H2]]].
    + split; [done|]. exists i. by left.
    + split; [done|]. exists j. by right.
    + apply elem_of_cons in H2 as [[= -> ->]|H2]; [by left|]. right. eauto.
  - split; intros [H1 [j H2]]; (split; [done|]); exists j; [by right|].
    apply elem_of_cons in H2 as [[= -> ->]|H2]; [congruence|done].
Qed.

(** ** Properties *)

(** the snapshot store stays bounded and evictable.  After any sequence of
    creations, drains, deletions and expirations the store holds at most
    [max(1, max_snapshots)] snapshots, and every stored identifier is still in
    the eviction queue, whatever ghosts surround it. *)
Theorem snapshot_reachable_inv n ttl s (Hr : rtc step (new n ttl) s) : inv s.
Proof.
  revert s Hr. apply rtc_ind_r; [|intros x y _ Hs Hi; by apply (snapshot_step_inv x)].
  split; cbn; [|rewrite map_size_empty; lia]. intros i. rewrite lookup_empty. by intros [].
Qed.

Definition demo_batch (d : bytes) : list Message := [mkMessage IridiumSBD d Operational 0 0 0].

Lemma snapshot_reachable_inv_witness :
  inv (create_snapshot (new 2 100) 5 (demo_batch [1; 2]) IridiumSBD 7).2.
Proof.
  apply (snapshot_reachable_inv 2 100). apply rtc_once. constructor.
Defined.

(** draining for an uplink hands out exactly what it removes.  The result has
    precisely the unexpired snapshots of the device created since the given time
    (whatever order the map is visited in), those and only those leave the store,
    and draining again with the same arguments returns nothing. *)
Theorem drain_exact s visit now dev since
  (Hv : visit ≡ₚ map_to_list (store s)) :
  let '(out, s') := drain_for_uplink s visit now dev since in
  (forall sn, sn ∈ out <-> drains s now dev since sn = true /\ exists i, store s !! i = Some sn) /\
  (forall i sn, store s' !! i = Some sn <->
     store s !! i = Some sn /\ drains s now dev since sn = false) /\
  (forall visit', visit' ≡ₚ map_to_list (store s') ->
     (drain_for_uplink s' visit' now dev since).1 = []).
Proof.
  assert (Hvisit : forall i sn, (i, sn) ∈ visit <-> store s !! i = Some sn)
    by (intros; by rewrite Hv, elem_of_map_to_list).
  unfold drain_for_uplink. cbn [fst store]. split; [|split].
  - intros sn. rewrite elem_drained. apply and_iff_compat_l.
    split; intros [i Hi]; exists i; by apply Hvisit.
  - intros i sn. rewrite map_lookup_filter_Some. done.
  - intros visit' Hv'. match goal with |- ?l = [] => destruct l as [|sn rest] eqn:E; [done|] end.
    assert (Hsn : sn ∈ sn :: rest) by left. rewrite <- E, elem_drained in Hsn.
    destruct Hsn as [Hd [i Hi]]. rewrite Hv', elem_of_map_to_list, map_lookup_filter_Some in Hi.
    destruct Hi as [_ Hi]. cbn in Hi. unfold drains, unexpired in *. cbn [snapshot_ttl] in Hd.
    congruence.
Qed.

Definition demo_store : t := (create_snapshot (new 2 100) 5 (demo_batch [1; 2]) IridiumSBD 7).2.

Lemma drain_exact_witness :
  exists out s',
    drain_for_uplink demo_store (map_to_list (store demo_store)) 50 7 0 = (out, s') /\
    map messages out = [demo_batch [1; 2]] /\
    (drain_for_uplink s' (map_to_list (store s')) 50 7 0).1 = [].
Proof.
  pose proof (drain_exact demo_store (map_to_list (store demo_store)) 50 7 0 (Permutation_refl _)) as H.
  destruct (drain_for_uplink demo_store (map_to_list (store demo_store)) 50 7 0) as [out s'] eqn:E.
  destruct H as (_ & _ & H). exists out, s'. split; [reflexivity|]. split; [|by apply H].
  apply (f_equal fst) in E. cbn [fst] in E |- *. rewrite <- E. vm_compute. reflexivity.
Defined.

(** a deleted snapshot's queue entry outlives it.  Identifiers depend only on
    the content, so re-creating a deleted snapshot queues its identifier a second
    time, behind a ghost of the same name; the next eviction takes the ghost for
    the newest snapshot and removes that one, keeping the older. *)
Theorem ghost_evicts_newest :
  let s1 := (create_snapshot (new 2 1000) 1 (demo_batch [1]) IridiumSBD 7).2 in
  let s2 := (delete_snapshot s1 (generate_snapshot_id (demo_batch [1]) IridiumSBD)).2 in
  let s3 := (create_snapshot s2 2 (demo_batch [2]) IridiumSBD 7).2 in
  let s4 := (create_snapshot s3 3 (demo_batch [1]) IridiumSBD 7).2 in
  let s5 := (create_snapshot s4 4 (demo_batch [3]) IridiumSBD 7).2 in
  get_snapshot s5 5 (generate_snapshot_id (demo_batch [1]) IridiumSBD) = None /\
  is_Some (get_snapshot s5 5 (generate_snapshot_id (demo_batch [2]) IridiumSBD)).
Proof.
  cbv zeta. split; [vm_compute; reflexivity|].
  apply (bool_decide_unpack _). vm_compute. exact I.
Qed.
