(* ===== verification/Bitemporal.v ===== *)
(** * The bi-temporal store ([src/src/bitemporal.rs])

    A bounded queue of messages with two clocks per message: [t_event] (when it
    happened) and [t_system] (when the system learned of it), and queries over
    either. *)

From S2P Require Import Prelude Protocol Float64.

Inductive QueryTime := ValidTime | TransactionTime.

Module BiTemporalQuery.

Record t := mk {
  query_time : QueryTime;
  start_ms : Z;
  end_ms : Z;
  protocol_filter : option Protocol;
  max_spread_ms : option Z
}.

Definition new (qt : QueryTime) (start_ms end_ms : Z) : t := mk qt start_ms end_ms None None.

Definition with_protocol (q : t) (p : Protocol) : t :=
  mk (query_time q) (start_ms q) (end_ms q) (Some p) (max_spread_ms q).

Definition with_max_spread (q : t) (s : Z) : t :=
  mk (query_time q) (start_ms q) (end_ms q) (protocol_filter q) (Some s).

(** [i64::abs] without overflow checks *)
Definition abs_i64 (z : Z) : Z := swrap 64 (Z.abs z).

Definition matches (q : t) (m : Message) : bool :=
  let timestamp := match query_time q with ValidTime => t_event m | TransactionTime => t_system m end in
  if (timestamp <? start_ms q) || (end_ms q <? timestamp) then false else
  if (match protocol_filter q with
      | Some p => negb (bool_decide (protocol m = p))
      | None => false
      end) then false else
  if (match max_spread_ms q with
      | Some max_spread => max_spread <? abs_i64 (spread_ms m)
      | None => false
      end) then false else
  true.

End BiTemporalQuery.

Module BiTemporalStore.

Record t := mk { messages : list Message; max_messages : Z }.

Definition new (max_messages : Z) : t := mk [] max_messages.

Definition store (s : t) (m : Message) : t :=
  let ms := if max_messages s <=? len (messages s) then tail (messages s) else messages s in
  mk (ms ++ [m]) (max_messages s).

(** [store_batch]: the loop under one write lock. *)
Fixpoint store_batch (s : t) (batch : list Message) : t :=
  match batch with
  | [] => s
  | m :: batch =>
      let ms := if max_messages s <=? len (messages s) then tail (messages s) else messages s in
      store_batch (mk (ms ++ [m]) (max_messages s)) batch
  end.

Definition query (s : t) (q : BiTemporalQuery.t) : list Message :=
  List.filter (BiTemporalQuery.matches q) (messages s).

Definition query_valid_time (s : t) (start_ms end_ms : Z) : list Message :=
  query s (BiTemporalQuery.new ValidTime start_ms end_ms).

Definition query_transaction_time (s : t) (start_ms end_ms : Z) : list Message :=
  query s (BiTemporalQuery.new TransactionTime start_ms end_ms).

Definition system_belief_at (s : t) (timestamp_ms : Z) : list Message :=
  List.filter (fun m => t_system m <=? timestamp_ms) (messages s).

Definition actual_state_at (s : t) (timestamp_ms : Z) : list Message :=
  List.filter (fun m => t_event m <=? timestamp_ms) (messages s).

Record SpreadStats := mkStats {
  message_count : Z;
  avg_spread_ms : Z;
  min_spread_ms : Z;
  max_spread_ms : Z;
  total_spread_ms : Z
}.

Definition spread_stats (s : t) (start_ms end_ms : Z) : SpreadStats :=
  let relevant :=
    List.filter (fun m => (start_ms <=? t_system m) && (t_system m <=? end_ms)) (messages s) in
  match map spread_ms relevant with
  | [] => mkStats 0 0 0 0 0
  | sp :: spreads =>
      let total := fold_left (fun a b => swrap 64 (a + b)) (sp :: spreads) 0 in
      mkStats (len relevant)
        (as_i64 (f64_div (f64_of_Z total) (f64_of_Z (len (sp :: spreads)))))
        (fold_left Z.min spreads sp) (fold_left Z.max spreads sp) total
  end.

Definition avg_spread_seconds (st : SpreadStats) : f64 :=
  f64_div (f64_of_Z (avg_spread_ms st)) (f64_of_Z 1000).

Record BiTemporalStats := mkSizes { total_messages : Z; s_max_messages : Z }.

Definition stats (s : t) : BiTemporalStats := mkSizes (len (messages s)) (max_messages s).

(** [utilization], an [f64] *)
Definition utilization (st : BiTemporalStats) : f64 :=
  if s_max_messages st =? 0 then f64_of_Z 0
  else f64_div (f64_of_Z (total_messages st)) (f64_of_Z (s_max_messages st)).

End BiTemporalStore.

Import BiTemporalStore.

(** ** Lemmas *)

(** The last [n] elements. *)
Definition lastn {A} (n : nat) (l : list A) : list A := drop (length l - n) l.

Lemma lastn_all {A} n (l : list A) : (length l <= n)%nat -> lastn n l = l.
Proof. intros. unfold lastn. by replace (length l - n)%nat with 0%nat by lia. Qed.

Lemma store_batch_stores s batch : store_batch s batch = fold_left store batch s.
Proof. revert s. induction batch as [|m b IH]; intros s; [done|]. apply IH. Qed.

Lemma store_lastn s m :
  len (messages s) <= Z.max 1 (max_messages s) ->
  messages (store s m) = lastn (Z.to_nat (Z.max 1 (max_messages s))) (messages s ++ [m]).
Proof.
  intros Hb. unfold store, lastn. cbn [messages]. rewrite length_app. cbn [length].
  unfold len in *. destruct (_ <=? _) eqn:E; breflect.
  - destruct (messages s) as [|m0 ms]; cbn [tail length app] in *.
    + by replace (0 + 1 - Z.to_nat (Z.max 1 (max_messages s)))%nat with 0%nat by lia.
    + by replace (S (length ms) + 1 - Z.to_nat (Z.max 1 (max_messages s)))%nat with 1%nat by lia.
  - by replace (length (messages s) + 1 - Z.to_nat (Z.max 1 (max_messages s)))%nat with 0%nat by lia.
Qed.

Lemma lastn_length {A} n (l : list A) : (length (lastn n l) <= n)%nat.
Proof. unfold lastn. rewrite length_drop. lia. Qed.

Lemma lastn_lastn_app {A} n (a b : list A) : lastn n (lastn n a ++ b) = lastn n (a ++ b).
Proof.
  unfold lastn. rewrite !length_app, length_drop.
  rewrite <- drop_app_le by lia. rewrite drop_drop. f_equal. lia.
Qed.

Lemma store_batch_lastn s batch :
  len (messages s) <= Z.max 1 (max_messages s) ->
  messages (store_batch s batch) =
    lastn (Z.to_nat (Z.max 1 (max_messages s))) (messages s ++ batch) /\
  max_messages (store_batch s batch) = max_messages s.
Proof.
  rewrite store_batch_stores. revert s. induction batch as [|m batch IH]; intros s Hb; cbn [fold_left].
  { rewrite app_nil_r, lastn_all by (unfold len in Hb; lia). done. }
  pose proof (store_lastn s m Hb) as Hs.
  destruct (IH (store s m)) as [H1 H2].
  { rewrite Hs. cbn [max_messages store].
    pose proof (lastn_length (Z.to_nat (Z.max 1 (max_messages s))) (messages s ++ [m])).
    unfold len. lia. }
  rewrite H1, H2, Hs. cbn [max_messages store]. split; [|done].
  by rewrite lastn_lastn_app, <- app_assoc.
Qed.

Lemma matches_iff q m :
  0 <= t_event m < 2 ^ 63 -> 0 <= t_system m < 2 ^ 63 ->
  BiTemporalQuery.matches q m = true <->
  BiTemporalQuery.start_ms q <= match BiTemporalQuery.query_time q with
      ValidTime => t_event m | TransactionTime => t_system m end <= BiTemporalQuery.end_ms q /\
  (forall p, BiTemporalQuery.protocol_filter q = Some p -> protocol m = p) /\
  (forall s, BiTemporalQuery.max_spread_ms q = Some s -> Z.abs (t_system m - t_event m) <= s).
Proof.
  intros He Hs. unfold BiTemporalQuery.matches, BiTemporalQuery.abs_i64.
  rewrite spread_ms_exact by done.
  rewrite (swrap_small 64) by (unfold in_i; change (2 ^ (64 - 1)) with (2 ^ 63); lia).
  set (ts := match BiTemporalQuery.query_time q with ValidTime => _ | _ => _ end). clearbody ts.
  destruct ((ts <? _) || (_ <? ts)) eqn:E1.
  { apply orb_true_iff in E1. split; [done|]. intros [H _]. destruct E1; breflect; lia. }
  breflect.
  destruct (match BiTemporalQuery.protocol_filter q with Some p => _ | None => false end) eqn:E2.
  { destruct (BiTemporalQuery.protocol_filter q) as [p|]; [|done].
    apply negb_true_iff, bool_decide_eq_false in E2. split; [done|]. intros (_ & Hp & _).
    destruct E2. by apply Hp. }
  assert (Hp : forall p, BiTemporalQuery.protocol_filter q = Some p -> protocol m = p).
  { intros p Hp. rewrite Hp in E2. apply negb_false_iff in E2. by apply bool_decide_eq_true in E2. }
  destruct (match BiTemporalQuery.max_spread_ms q with Some w => _ | None => false end) eqn:E3.
  { destruct (BiTemporalQuery.max_spread_ms q) as [w|]; [|done]. breflect.
    split; [done|]. intros (_ & _ & Hw). specialize (Hw w eq_refl). lia. }
  split; [|done]. intros _. split; [lia|]. split; [done|].
  intros w Hw. rewrite Hw in E3. breflect. lia.
Qed.

Lemma fold_min_le l z : fold_left Z.min l z <= z /\ Forall (Z.le (fold_left Z.min l z)) l.
Proof.
  revert z. induction l as [|x l IH]; intros z; cbn [fold_left]; [split; [lia|constructor]|].
  destruct (IH (Z.min z x)) as [H1 H2]. split; [lia|]. constructor; [lia|done].
Qed.

Lemma fold_max_ge l z : z <= fold_left Z.max l z /\ Forall (fun x => x <= fold_left Z.max l z) l.
Proof.
  revert z. induction l as [|x l IH]; intros z; cbn [fold_left]; [split; [lia|constructor]|].
  destruct (IH (Z.max z x)) as [H1 H2]. split; [lia|]. constructor; [lia|done].
Qed.

(** ** Properties *)

(** the store is a sliding window: after storing any batches and single
    messages into a fresh store, in any grouping, it holds exactly the last
    [max(1, max_messages)] messages, in arrival order. *)
Theorem bitemporal_window n batches :
  messages (fold_left store_batch batches (new n)) =
  lastn (Z.to_nat (Z.max 1 n)) (concat batches) /\
  (forall s m, store_batch s [m] = store s m).
Proof.
  split; [|done].
  assert (H : forall s done_, max_messages s = n -> messages s = lastn (Z.to_nat (Z.max 1 n)) done_ ->
    messages (fold_left store_batch batches s) = lastn (Z.to_nat (Z.max 1 n)) (done_ ++ concat batches)).
  { induction batches as [|b bs IH]; intros s dn Hn Hs; cbn [fold_left concat].
    { by rewrite app_nil_r. }
    destruct (store_batch_lastn s b) as [H1 H2].
    { rewrite Hs, Hn. pose proof (lastn_length (Z.to_nat (Z.max 1 n)) dn). unfold len. lia. }
    rewrite (IH _ (dn ++ b)); [by rewrite <- app_assoc|by rewrite H2|].
    by rewrite H1, Hn, Hs, lastn_lastn_app. }
  apply (H (new n) []); done.
Qed.

(** queries return exactly the stored messages that satisfy them, in arrival
    order.  For time stamps below [2^63] ms, matching means: the chosen clock
    lies in the closed range, the protocol is the requested one if any, and the
    distance between the two clocks is at most the requested spread if any; and
    what the system believed at [T] is the transaction-time query up to [T]. *)
Theorem bitemporal_query_exact s q
  (Hts : Forall (fun m => 0 <= t_event m < 2 ^ 63 /\ 0 <= t_system m < 2 ^ 63) (messages s)) :
  (forall m, m ∈ query s q <-> m ∈ messages s /\
     BiTemporalQuery.start_ms q <= match BiTemporalQuery.query_time q with
         ValidTime => t_event m | TransactionTime => t_system m end <= BiTemporalQuery.end_ms q /\
     (forall p, BiTemporalQuery.protocol_filter q = Some p -> protocol m = p) /\
     (forall w, BiTemporalQuery.max_spread_ms q = Some w -> Z.abs (t_system m - t_event m) <= w)) /\
  sublist (query s q) (messages s) /\
  (forall T, system_belief_at s T = query_transaction_time s 0 T) /\
  (forall T, actual_state_at s T = query_valid_time s 0 T).
Proof.
  rewrite list.Forall_forall in Hts. split; [|split; [|split]].
  - intros m. unfold query. rewrite list_elem_of_In, filter_In, <- list_elem_of_In.
    split; intros [Hm Hq]; (split; [done|]); destruct (Hts m Hm); by apply matches_iff.
  - unfold query. clear Hts. induction (messages s) as [|m ms IH]; cbn [List.filter]; [done|].
    destruct (BiTemporalQuery.matches q m); by constructor.
  - intros T. unfold system_belief_at, query_transaction_time, query.
    apply filter_ext_in. intros m Hm. apply list_elem_of_In, Hts in Hm as [_ Hm].
    unfold BiTemporalQuery.matches. cbn. rewrite (proj2 (Z.ltb_ge _ _)) by lia. cbn [orb].
    destruct (t_system m <=? T) eqn:E; breflect; by bcase.
  - intros T. unfold actual_state_at, query_valid_time, query.
    apply filter_ext_in. intros m Hm. apply list_elem_of_In, Hts in Hm as [Hm _].
    unfold BiTemporalQuery.matches. cbn. rewrite (proj2 (Z.ltb_ge _ _)) by lia. cbn [orb].
    destruct (t_event m <=? T) eqn:E; breflect; by bcase.
Qed.

Definition demo_store : BiTemporalStore.t :=
  store (store (new 10) (mkMessage VSAT [1] Operational 20 10 20)) (mkMessage NIDD [2] Operational 90 5 90).

Lemma bitemporal_query_exact_witness :
  mkMessage NIDD [2] Operational 90 5 90 ∈
    query demo_store (BiTemporalQuery.with_protocol (BiTemporalQuery.new ValidTime 0 50) NIDD) /\
  system_belief_at demo_store 50 = query_transaction_time demo_store 0 50.
Proof.
  destruct (bitemporal_query_exact demo_store
    (BiTemporalQuery.with_protocol (BiTemporalQuery.new ValidTime 0 50) NIDD)) as (H1 & _ & H & _).
  - repeat constructor; cbn; lia.
  - split; [|apply H]. apply H1. split; [vm_compute; right; left|]. split; [cbn; lia|].
    split; [intros p [= <-]; reflexivity|intros w Hw; discriminate Hw].
Defined.

(** The spread statistics of a range bracket every spread in it. *)
Lemma spread_stats_bounds s a b m :
  m ∈ messages s -> a <= t_system m <= b ->
  min_spread_ms (spread_stats s a b) <= spread_ms m <= max_spread_ms (spread_stats s a b).
Proof.
  intros Hm Hr. unfold spread_stats.
  set (rel := List.filter _ _).
  assert (Hin : spread_ms m ∈ map spread_ms rel).
  { rewrite list_elem_of_In. apply in_map. unfold rel. rewrite filter_In, <- list_elem_of_In.
    split; [done|]. rewrite !(proj2 (Z.leb_le _ _)) by lia. done. }
  destruct (map spread_ms rel) as [|sp spreads]; [by apply elem_of_nil in Hin|].
  cbn [min_spread_ms max_spread_ms].
  destruct (fold_min_le spreads sp) as [H1 H2]. destruct (fold_max_ge spreads sp) as [H3 H4].
  rewrite list.Forall_forall in H2, H4.
  apply elem_of_cons in Hin as [->|Hin]; [lia|]. specialize (H2 _ Hin). specialize (H4 _ Hin). cbn in *. lia.
Qed.
