(* ===== verification/Batching.v ===== *)
(** * The batchers ([src/src/batcher.rs], [src/src/transmission_batcher.rs])

    Each batcher is a task around one [select!]: a message arrives, the input
    channel closes, or the flush timer fires.  The task's variables are the
    state, an event is one wake-up of the [select!], and [handle] is the body of
    the loop.  Instants are integers; an event carries the instant at which the
    body reads the clock and the one at which it resets [last_flush].  The
    receiving end of the output channel is assumed open, so a [send] appends to
    [outputs]. *)

From S2P Require Import Prelude Protocol.

(** A wake-up of the [select!]. *)
Inductive event :=
| Recv (now now' : Z) (m : Message)
| Closed
| Timer (now' : Z).

(** The messages received before the channel closed. *)
Fixpoint received (evs : list event) : list Message :=
  match evs with
  | [] => []
  | Recv _ _ m :: evs => m :: received evs
  | Closed :: _ => []
  | Timer _ :: evs => received evs
  end.

Record task := mkTask {
  buffer : list Message;
  last_flush : Z;
  outputs : list (list Message);
  closed : bool
}.

Definition start (now : Z) : task := mkTask [] now [] false.

(** [let batch = mem::take(&mut buffer); output_tx.send(batch).await; last_flush = now'] *)
Definition flush (now' : Z) (s : task) : task :=
  mkTask [] now' (outputs s ++ [buffer s]) (closed s).

Definition is_empty {A} (l : list A) : bool := match l with [] => true | _ => false end.

Module AsyncBatcher.

Definition DEFAULT_SPREAD_FLUSH_THRESHOLD_MS : Z := 30000.

Definition should_flush (buffer : list Message) (spread_threshold_ms : Z) : bool :=
  let safety_critical_count :=
    len (List.filter (fun m => bool_decide (priority m = SafetyCritical)) buffer) in
  if 5 <=? safety_critical_count then true
  else existsb (fun m => spread_threshold_ms <? spread_ms m) buffer.

Section task.
Context (max_batch_size batch_timeout spread_threshold_ms : Z).

Definition handle (s : task) (e : event) : task :=
  if closed s then s else
  match e with
  | Recv now now' msg =>
      if is_emergency msg then mkTask (buffer s) (last_flush s) (outputs s ++ [[msg]]) (closed s)
      else
        let s := mkTask (buffer s ++ [msg]) (last_flush s) (outputs s) (closed s) in
        if (max_batch_size <=? len (buffer s))
           || (batch_timeout <=? Z.max 0 (now - last_flush s))
           || should_flush (buffer s) spread_threshold_ms
        then
          if negb (is_empty (buffer s)) then flush now' s
          else mkTask [] now' (outputs s) (closed s)
        else s
  | Closed => mkTask (buffer s) (last_flush s) (outputs s) true
  | Timer now' => if negb (is_empty (buffer s)) then flush now' s else s
  end.

Definition run (t0 : Z) (evs : list event) : task := fold_left handle evs (start t0).

End task.

(** [new]: the default spread threshold. *)
Definition run_default (max_batch_size batch_timeout t0 : Z) (evs : list event) : task :=
  run max_batch_size batch_timeout DEFAULT_SPREAD_FLUSH_THRESHOLD_MS t0 evs.

End AsyncBatcher.

Module TransmissionBatcher.

Section task.
Context (max_batch_size batch_timeout : Z).

Definition handle (s : task) (e : event) : task :=
  if closed s then s else
  match e with
  | Recv now now' msg =>
      let s := mkTask (buffer s ++ [msg]) (last_flush s) (outputs s) (closed s) in
      if (max_batch_size <=? len (buffer s)) || (batch_timeout <=? Z.max 0 (now - last_flush s))
      then flush now' s else s
  | Closed =>
      if negb (is_empty (buffer s))
      then mkTask [] (last_flush s) (outputs s ++ [buffer s]) true
      else mkTask [] (last_flush s) (outputs s) true
  | Timer now' => if negb (is_empty (buffer s)) then flush now' s else s
  end.

Definition run (t0 : Z) (evs : list event) : task := fold_left handle evs (start t0).

End task.
End TransmissionBatcher.

(** ** Lemmas *)

Lemma is_empty_nil {A} (l : list A) : is_empty l = true -> l = [].
Proof. by destruct l. Qed.

Lemma concat_snoc {A} (ls : list (list A)) l : concat (ls ++ [l]) = concat ls ++ l.
Proof. rewrite concat_app. cbn. by rewrite app_nil_r. Qed.

(** The messages received by [evs] when the task has, or has not, stopped. *)
Definition received_from (s : task) (evs : list event) : list Message :=
  if closed s then [] else received evs.

Section async.
Import AsyncBatcher.
Context (mb bt th : Z).

(** Non-emergency messages keep their order. *)
Definition normal (l : list Message) : list Message := List.filter (fun m => negb (is_emergency m)) l.
Definition urgent (l : list Message) : list Message := List.filter is_emergency l.

Lemma normal_app a b : normal (a ++ b) = normal a ++ normal b.
Proof. apply List.filter_app. Qed.
Lemma urgent_app a b : urgent (a ++ b) = urgent a ++ urgent b.
Proof. apply List.filter_app. Qed.

Lemma normal_cons m l : normal (m :: l) = if is_emergency m then normal l else m :: normal l.
Proof. unfold normal. cbn [List.filter]. by destruct (is_emergency m). Qed.
Lemma urgent_cons m l : urgent (m :: l) = if is_emergency m then m :: urgent l else urgent l.
Proof. unfold urgent. cbn [List.filter]. by destruct (is_emergency m). Qed.

(** Sizes and trigger conditions of a task between two events. *)
Definition async_ok (s : task) : Prop :=
  Forall (fun m => is_emergency m = false) (buffer s) /\
  len (buffer s) < Z.max 1 mb /\ should_flush (buffer s) th = false /\
  Forall (fun b => 1 <= len b <= Z.max 1 mb) (outputs s).

Lemma normal_buffer b : Forall (fun m => is_emergency m = false) b -> normal b = b /\ urgent b = [].
Proof.
  induction 1 as [|m b Hm _ [IH1 IH2]]; [done|].
  by rewrite normal_cons, urgent_cons, Hm, IH1, IH2.
Qed.

Lemma async_handle_ok s e : async_ok s -> async_ok (handle mb bt th s e).
Proof.
  intros (Hem & Hlen & Hsf & Hout). unfold handle. destruct (closed s); [done|].
  assert (Hout1 : forall b, 1 <= len b <= Z.max 1 mb ->
    Forall (fun b => 1 <= len b <= Z.max 1 mb) (outputs s ++ [b]))
    by (intros; apply Forall_app; split; [done|by constructor]).
  assert (Hsf0 : should_flush [] th = false) by done.
  destruct e as [now now' msg| |now'].
  - destruct (is_emergency msg) eqn:He.
    { split; [done|]. split; [done|]. split; [done|]. apply Hout1. change (len [msg]) with 1. lia. }
    cbn [buffer last_flush outputs closed].
    assert (Hl : len (buffer s ++ [msg]) = len (buffer s) + 1) by (rewrite len_app; done).
    destruct (_ || _) eqn:Et.
    + assert (Hne : is_empty (buffer s ++ [msg]) = false) by (by destruct (buffer s)).
      rewrite Hne. cbn [negb]. unfold flush, async_ok. cbn [buffer outputs closed]. split; [constructor|].
      change (len (@nil Message)) with 0. split; [lia|]. split; [done|]. apply Hout1.
      pose proof (len_nonneg (buffer s)). lia.
    + breflect. split; [apply Forall_app; split; [done|by constructor]|].
      cbn [buffer outputs]. split; [lia|]. done.
  - done.
  - destruct (is_empty (buffer s)) eqn:Ee; cbn [negb]; [done|]. unfold flush, async_ok.
    cbn [buffer outputs]. change (len (@nil Message)) with 0. split; [constructor|]. split; [lia|].
    split; [done|]. apply Hout1. destruct (buffer s) as [|x b]; [done|].
    rewrite len_cons in *. pose proof (len_nonneg b). lia.
Qed.

(** One event moves messages from the input to the outputs without loss. *)
Lemma async_handle_flow s e evs :
  async_ok s ->
  normal (concat (outputs (handle mb bt th s e))) ++ buffer (handle mb bt th s e)
    ++ normal (received_from (handle mb bt th s e) evs) =
  normal (concat (outputs s)) ++ buffer s ++ normal (received_from s (e :: evs)) /\
  urgent (concat (outputs (handle mb bt th s e))) ++ urgent (received_from (handle mb bt th s e) evs) =
  urgent (concat (outputs s)) ++ urgent (received_from s (e :: evs)).
Proof.
  intros (Hem & _). destruct (normal_buffer _ Hem) as [Hn Hu].
  unfold handle, received_from. destruct (closed s) eqn:Hc; [by rewrite ?Hc|].
  destruct e as [now now' msg| |now']; cbn [received].
  - destruct (is_emergency msg) eqn:He.
    { cbn [buffer outputs closed]. rewrite ?Hc, concat_snoc, normal_app, urgent_app.
      rewrite !normal_cons, !urgent_cons, He, <- !app_assoc. done. }
    assert (Hm : normal [msg] = [msg] /\ urgent [msg] = [])
      by (by rewrite normal_cons, urgent_cons, He).
    rewrite (normal_cons msg (received evs)), (urgent_cons msg (received evs)), He.
    destruct Hm as [Hm1 Hm2]. cbn [buffer last_flush outputs closed].
    destruct (_ || _).
    + assert (Hne : is_empty (buffer s ++ [msg]) = false) by (by destruct (buffer s)).
      rewrite Hne. cbn [negb flush buffer outputs closed]. rewrite ?Hc, concat_snoc.
      rewrite !normal_app, !urgent_app, Hn, Hu, Hm1, Hm2, !app_nil_r, <- !app_assoc. done.
    + cbn [buffer outputs closed]. rewrite ?Hc, <- !app_assoc. done.
  - done.
  - destruct (is_empty (buffer s)); cbn [negb]; [by rewrite ?Hc|].
    cbn [flush buffer outputs closed]. rewrite ?Hc, concat_snoc.
    rewrite normal_app, urgent_app, Hn, Hu, !app_nil_r, <- !app_assoc. done.
Qed.

Lemma async_run_flow s evs :
  async_ok s ->
  let s' := fold_left (handle mb bt th) evs s in
  async_ok s' /\
  normal (concat (outputs s')) ++ buffer s' =
    normal (concat (outputs s)) ++ buffer s ++ normal (received_from s evs) /\
  urgent (concat (outputs s')) = urgent (concat (outputs s)) ++ urgent (received_from s evs).
Proof.
  cbv zeta. revert s. induction evs as [|e evs IH]; intros s Hs; cbn [fold_left].
  { assert (Hr : received_from s [] = []) by (unfold received_from; by destruct (closed s)).
    rewrite Hr, !app_nil_r. done. }
  destruct (IH _ (async_handle_ok s e Hs)) as (H1 & H2 & H3).
  destruct (async_handle_flow s e evs Hs) as [H4 H5].
  split; [done|]. split; [by rewrite H2, H4|by rewrite H3, H5].
Qed.
End async.

Section transmission.
Import TransmissionBatcher.
Context (mb bt : Z).

Definition trans_ok (s : task) : Prop :=
  len (buffer s) < Z.max 1 mb /\ (closed s = true -> buffer s = []) /\
  Forall (fun b => 1 <= len b <= Z.max 1 mb) (outputs s).

Lemma trans_handle s e evs :
  trans_ok s ->
  trans_ok (handle mb bt s e) /\
  concat (outputs (handle mb bt s e)) ++ buffer (handle mb bt s e)
    ++ received_from (handle mb bt s e) evs =
  concat (outputs s) ++ buffer s ++ received_from s (e :: evs).
Proof.
  intros (Hlen & Hcl & Hout). unfold handle, received_from, trans_ok.
  destruct (closed s) eqn:Hc; [rewrite ?Hc; split; [split; [done|by rewrite ?Hc]|done]|].
  assert (Hout1 : forall b, 1 <= len b <= Z.max 1 mb ->
    Forall (fun b => 1 <= len b <= Z.max 1 mb) (outputs s ++ [b]))
    by (intros; apply Forall_app; split; [done|by constructor]).
  assert (Hbuf : is_empty (buffer s) = false -> 1 <= len (buffer s)).
  { destruct (buffer s) as [|x b]; [done|]. intros _. rewrite len_cons. pose proof (len_nonneg b). lia. }
  pose proof (len_nonneg (buffer s)).
  assert (H0 : len (@nil Message) = 0) by done.
  destruct e as [now now' msg| |now']; cbn [received buffer last_flush outputs closed].
  - assert (Hl : len (buffer s ++ [msg]) = len (buffer s) + 1) by (rewrite len_app; done).
    destruct (_ || _) eqn:Et; cbn [flush buffer outputs closed]; rewrite ?Hc.
    + rewrite concat_snoc. split; [|by rewrite <- !app_assoc].
      split; [lia|]. split; [done|]. apply Hout1. lia.
    + breflect. split; [|by rewrite <- !app_assoc].
      split; [lia|]. split; [congruence|done].
  - destruct (is_empty (buffer s)) eqn:Ee; cbn [negb buffer outputs closed].
    + rewrite (is_empty_nil _ Ee). split; [|done]. split; [lia|done].
    + rewrite concat_snoc. split; [|by rewrite <- !app_assoc].
      split; [lia|]. split; [done|]. apply Hout1. specialize (Hbuf eq_refl). lia.
  - destruct (is_empty (buffer s)) eqn:Ee; cbn [negb flush buffer outputs closed]; rewrite ?Hc.
    + split; [|done]. split; [done|]. split; [by rewrite ?Hc|done].
    + rewrite concat_snoc. split; [|by rewrite <- !app_assoc].
      split; [lia|]. split; [done|]. apply Hout1. specialize (Hbuf eq_refl). lia.
Qed.

Lemma trans_run s evs :
  trans_ok s ->
  trans_ok (fold_left (handle mb bt) evs s) /\
  concat (outputs (fold_left (handle mb bt) evs s)) ++ buffer (fold_left (handle mb bt) evs s) =
  concat (outputs s) ++ buffer s ++ received_from s evs.
Proof.
  revert s. induction evs as [|e evs IH]; intros s Hs; cbn [fold_left].
  { assert (Hr : received_from s [] = []) by (unfold received_from; by destruct (closed s)).
    by rewrite Hr, app_nil_r. }
  destruct (trans_handle s e evs Hs) as [H1 H2]. destruct (IH _ H1) as [H3 H4].
  split; [done|]. by rewrite H4, H2.
Qed.
End transmission.

(** ** Properties *)

(** C32: the input batcher, over every sequence of arrivals, timer wake-ups and
    closing: emergency messages leave at once and in order; the other messages
    leave in order, those not yet sent being exactly the buffer; every batch
    holds between one and [max(1, max_batch_size)] messages; and between events
    the buffer is below the size limit, holds fewer than five safety-critical
    messages and none whose spread exceeds the threshold. *)
Theorem async_batcher_flow mb bt th t0 evs :
  let s := AsyncBatcher.run mb bt th t0 evs in
  urgent (concat (outputs s)) = urgent (received evs) /\
  normal (concat (outputs s)) ++ buffer s = normal (received evs) /\
  Forall (fun b => 1 <= len b <= Z.max 1 mb) (outputs s) /\
  len (buffer s) < Z.max 1 mb /\ AsyncBatcher.should_flush (buffer s) th = false.
Proof.
  cbv zeta. unfold AsyncBatcher.run.
  destruct (async_run_flow mb bt th (start t0) evs) as ((_ & H1 & H2 & H3) & H4 & H5).
  { split; [constructor|]. split; [cbn [buffer start]; change (len (@nil Message)) with 0; lia|]. split; [done|constructor]. }
  split; [done|]. split; [done|]. done.
Qed.

(** the transmission batcher loses nothing: after any events the messages sent
    followed by the buffer are the messages received, in order; every batch holds
    between one and [max(1, max_batch_size)] messages; and once the channel is
    closed the buffer is empty, so everything received has been sent. *)
Theorem transmission_batcher_flow mb bt t0 evs :
  let s := TransmissionBatcher.run mb bt t0 evs in
  concat (outputs s) ++ buffer s = received evs /\
  Forall (fun b => 1 <= len b <= Z.max 1 mb) (outputs s) /\
  (if closed s then concat (outputs s) = received evs else len (buffer s) < Z.max 1 mb).
Proof.
  cbv zeta. unfold TransmissionBatcher.run.
  destruct (trans_run mb bt (start t0) evs) as [(H1 & H2 & H3) H4].
  { split; [cbn [buffer start]; change (len (@nil Message)) with 0; lia|]. split; [done|constructor]. }
  split; [done|]. split; [done|].
  destruct (closed _) eqn:E; [|done]. rewrite (H2 eq_refl), app_nil_r in H4. done.
Qed.

(** unlike it, the input batcher drops its buffer when its channel closes: a
    message still buffered at that point is never sent, whatever happens
    afterwards. *)
Theorem async_batcher_drops_on_close mb bt th t0 evs evs' :
  let s := AsyncBatcher.run mb bt th t0 evs in
  outputs (AsyncBatcher.run mb bt th t0 (evs ++ Closed :: evs')) = outputs s /\
  (if closed s then True else
   normal (received (evs ++ Closed :: evs')) = normal (concat (outputs s)) ++ buffer s).
Proof.
  cbv zeta. unfold AsyncBatcher.run.
  assert (Hstuck : forall l s, closed s = true -> fold_left (AsyncBatcher.handle mb bt th) l s = s).
  { induction l as [|e l IH]; intros s Hs; [done|]. cbn [fold_left].
    assert (He : AsyncBatcher.handle mb bt th s e = s) by (unfold AsyncBatcher.handle; by rewrite Hs).
    by rewrite He, IH. }
  rewrite fold_left_app. cbn [fold_left].
  destruct (async_run_flow mb bt th (start t0) (evs ++ [Closed])) as (_ & Hflow & _).
  { split; [constructor|]. split; [cbn [buffer start]; change (len (@nil Message)) with 0; lia|]. split; [done|constructor]. }
  rewrite fold_left_app in Hflow. cbn [fold_left start received_from closed] in Hflow.
  assert (Hrec : forall l, received (l ++ Closed :: evs') = received (l ++ [Closed])).
  { induction l as [|[] l IH]; cbn [app received]; [done|by rewrite IH|done|done]. }
  rewrite Hrec. set (s := fold_left _ evs (start t0)) in *.
  unfold AsyncBatcher.handle at 2. unfold AsyncBatcher.handle in Hflow at 1 2.
  destruct (closed s) eqn:Hc; [by rewrite Hstuck|].
  rewrite Hstuck by done. split; [done|]. symmetry. exact Hflow.
Qed.
