(* ===== verification/Sharding.v ===== *)
(** * The shard manager ([src/src/sharding.rs])

    Shards are bounded channels.  A shard holds the sending end of its channel,
    the manager keeps the receiving ends until workers take them; channels are
    therefore objects of their own here ([chans], by number), shared by the two
    ends.  The counters are [u64] atomics.  Each operation is one atomic step,
    which is how the code uses them from the point of view of the counters and
    channels it touches; [Instant]s are integers. *)

From S2P Require Import Prelude Protocol Float64.

Module ShardManager.

Record MemoryShard := mkShard { tx : Z; last_access : Z; is_deadzone_shard : bool }.

Record t := mk {
  chans : gmap Z (list Message);
  next_chan : Z;
  shards : gmap Z MemoryShard;
  receivers : gmap Z Z;          (* receiving ends kept by the manager *)
  workers : list Z;              (* receiving ends owned by workers *)
  num_shards : Z;
  shard_size : Z;
  deadzone_shard_id : Z;
  spread_shard_id : Z;
  total_regular_messages : Z;
  backpressure_limit : Z;
  round_robin : Z;
  messages_allocated : Z;
  messages_dropped : Z;
  messages_leaked : Z
}.

Inductive ShardError := Full | NotFound | Backpressure | Timeout.

#[export] Instance ShardError_eq_dec : EqDecision ShardError.
Proof. solve_decision. Defined.

Definition with_chans (s : t) (c : gmap Z (list Message)) : t :=
  mk c (next_chan s) (shards s) (receivers s) (workers s) (num_shards s) (shard_size s)
    (deadzone_shard_id s) (spread_shard_id s) (total_regular_messages s) (backpressure_limit s)
    (round_robin s) (messages_allocated s) (messages_dropped s) (messages_leaked s).
Definition with_counters (s : t) (total rr alloc dropped : Z) : t :=
  mk (chans s) (next_chan s) (shards s) (receivers s) (workers s) (num_shards s) (shard_size s)
    (deadzone_shard_id s) (spread_shard_id s) total (backpressure_limit s) rr alloc dropped
    (messages_leaked s).
Definition with_ends (s : t) (sh : gmap Z MemoryShard) (rx : gmap Z Z) (ws : list Z) : t :=
  mk (chans s) (next_chan s) sh rx ws (num_shards s) (shard_size s)
    (deadzone_shard_id s) (spread_shard_id s) (total_regular_messages s) (backpressure_limit s)
    (round_robin s) (messages_allocated s) (messages_dropped s) (messages_leaked s).

(** [MemoryShard::new] and the two insertions that follow it everywhere. *)
Definition install (s : t) (now id : Z) (is_deadzone : bool) : t :=
  mk (<[next_chan s := []]> (chans s)) (next_chan s + 1)
    (<[id := mkShard (next_chan s) now is_deadzone]> (shards s))
    (<[id := next_chan s]> (receivers s)) (workers s) (num_shards s) (shard_size s)
    (deadzone_shard_id s) (spread_shard_id s) (total_regular_messages s) (backpressure_limit s)
    (round_robin s) (messages_allocated s) (messages_dropped s) (messages_leaked s).

(** [ShardManager::new] *)
Definition new (now num_shards shard_size : Z) : t :=
  let regular_shard_count := wrap 64 (num_shards - 1) in
  let backpressure_limit := wrap 64 (wrap 64 (regular_shard_count * shard_size) * 8) / 10 in
  let s := mk ∅ 0 ∅ ∅ [] num_shards shard_size 0 num_shards 0 backpressure_limit 0 0 0 0 in
  let s := install s now 0 true in
  let s := fold_left (fun s i => install s now i false) (seqZ 1 (num_shards - 1)) s in
  install s now num_shards false.

(** Is the receiving end of the channel still held by someone? *)
Definition connected (s : t) (c : Z) : bool :=
  existsb (fun kv => kv.2 =? c) (map_to_list (receivers s)) || existsb (Z.eqb c) (workers s).

(** [MemoryShard::push]: [try_send], every failure reported as [Full]. *)
Definition shard_push (s : t) (sh : MemoryShard) (m : Message) : option t :=
  let q := default [] (chans s !! tx sh) in
  if (len q <? shard_size s) && connected s (tx sh)
  then Some (with_chans s (<[tx sh := q ++ [m]]> (chans s)))
  else None.

(** [select_shard_for_message]; [% 0] panics. *)
Definition select_shard_for_message (s : t) : outcome (Z * t) :=
  let d := wrap 64 (num_shards s - 1) in
  if d =? 0 then Panic else
  let idx := round_robin s mod d in
  Ret (1 + idx,
       with_counters s (total_regular_messages s) (wrap 64 (round_robin s + 1))
         (messages_allocated s) (messages_dropped s)).

Definition count_allocated (s : t) : t :=
  with_counters s (total_regular_messages s) (round_robin s)
    (wrap 64 (messages_allocated s + 1)) (messages_dropped s).
Definition count_dropped (s : t) : t :=
  with_counters s (total_regular_messages s) (round_robin s)
    (messages_allocated s) (wrap 64 (messages_dropped s + 1)).
Definition count_regular (s : t) : t :=
  with_counters s (wrap 64 (total_regular_messages s + 1)) (round_robin s)
    (messages_allocated s) (messages_dropped s).

Definition push (s : t) (m : Message) : outcome (result Z ShardError * t) :=
  if backpressure_limit s <=? total_regular_messages s
  then Ret (Err Backpressure, count_dropped s) else
  '(shard_id, s) ← select_shard_for_message s;
  let s := count_allocated s in
  match shards s !! shard_id with
  | Some sh =>
      match shard_push s sh m with
      | Some s => Ret (Ok shard_id, count_regular s)
      | None => Ret (Err Full, s)
      end
  | None => Ret (Err NotFound, count_dropped s)
  end.

(** The common body of [push_spread] and [push_deadzone]. *)
Definition push_to (s : t) (id : Z) (m : Message) : result Z ShardError * t :=
  let s := count_allocated s in
  match shards s !! id with
  | Some sh =>
      match shard_push s sh m with
      | Some s => (Ok id, s)
      | None => (Err Full, s)
      end
  | None => (Err NotFound, count_dropped s)
  end.

Definition push_spread (s : t) (m : Message) := push_to s (spread_shard_id s) m.
Definition push_deadzone (s : t) (m : Message) := push_to s (deadzone_shard_id s) m.

(** [get_receiver]: the receiving end moves to a worker. *)
Definition get_receiver (s : t) (id : Z) : option Z * t :=
  match receivers s !! id with
  | Some c => (Some c, with_ends s (shards s) (delete id (receivers s)) (workers s ++ [c]))
  | None => (None, s)
  end.

Definition is_regular_shard (s : t) (id : Z) : bool :=
  negb (id =? deadzone_shard_id s) && negb (id =? spread_shard_id s).

Definition drain_shard (s : t) (id : Z) : list Message * t :=
  let '(messages, s) :=
    match receivers s !! id with
    | Some c => (default [] (chans s !! c), with_chans s (<[c := []]> (chans s)))
    | None => ([], s)
    end in
  let s :=
    if is_regular_shard s id && (0 <? len messages)
    then with_counters s (Z.max 0 (total_regular_messages s - len messages)) (round_robin s)
           (messages_allocated s) (messages_dropped s)
    else s in
  (messages, s).

(** [ShardWorker::run]: one [recv] on a channel the worker owns. *)
Definition worker_recv (s : t) (c : Z) : option Message * t :=
  match chans s !! c with
  | Some (m :: q) => (Some m, with_chans s (<[c := q]> (chans s)))
  | _ => (None, s)
  end.

(** One round of [ShardWorker::run_batched]: the first message and up to
    [batch_size - 1] more. *)
Definition worker_recv_batch (s : t) (c batch_size : Z) : list Message * t :=
  match chans s !! c with
  | Some (m :: q) =>
      let k := Z.to_nat (Z.max 1 batch_size) in
      (take k (m :: q), with_chans s (<[c := drop k (m :: q)]> (chans s)))
  | _ => ([], s)
  end.

Definition protocol_to_shard_id (s : t) (p : Protocol) : outcome Z :=
  let hash := protocol_discr p + 1 in
  if num_shards s =? 0 then Panic else Ret (1 + hash mod num_shards s).

Definition create_shard (s : t) (now id : Z) : t :=
  match shards s !! id with Some _ => s | None => install s now id false end.

Definition get_shard (s : t) (now : Z) (p : Protocol) : outcome (Z * t) :=
  id ← protocol_to_shard_id s p;
  Ret (id, match shards s !! id with Some _ => s | None => create_shard s now id end).

Definition evict_idle (s : t) (now idle_threshold : Z) : t :=
  with_ends s
    (filter (fun kv => (kv.1 =? deadzone_shard_id s) || (kv.1 =? spread_shard_id s)
                       || (Z.max 0 (now - last_access kv.2) <? idle_threshold) = true) (shards s))
    (receivers s) (workers s).

Record LeakStats := mkLeak { allocated : Z; dropped : Z; leaked : Z }.
Definition leak_stats (s : t) : LeakStats :=
  mkLeak (messages_allocated s) (messages_dropped s) (messages_leaked s).
Definition leak_rate (l : LeakStats) : f64 :=
  if allocated l =? 0 then f64_of_Z 0 else f64_div (f64_of_Z (leaked l)) (f64_of_Z (allocated l)).

Definition reset_leak_stats (s : t) : t :=
  mk (chans s) (next_chan s) (shards s) (receivers s) (workers s) (num_shards s) (shard_size s)
    (deadzone_shard_id s) (spread_shard_id s) (total_regular_messages s) (backpressure_limit s)
    (round_robin s) 0 0 0.

Record ShardStats := mkStats {
  total_shards : Z;
  active_shards : Z;
  total_messages : Z;
  s_shard_size : Z
}.

(** [MemoryShard::len], through the sending end. *)
Definition shard_len (s : t) (sh : MemoryShard) : Z := len (default [] (chans s !! tx sh)).

Definition stats (s : t) : ShardStats :=
  let lens := map (fun kv => shard_len s kv.2) (map_to_list (shards s)) in
  mkStats (Z.of_nat (size (shards s))) (len (List.filter (fun n => negb (n =? 0)) lens))
    (wrap 64 (foldr Z.add 0 lens)) (shard_size s).

Definition utilization (st : ShardStats) : f64 :=
  if s_shard_size st =? 0 then f64_of_Z 0
  else f64_div (f64_of_Z (total_messages st)) (f64_of_Z (wrap 64 (total_shards st * s_shard_size st))).

(** What the rest of the gateway does with the manager: everything but draining a
    regular shard, whose receiving ends belong to workers. *)
Inductive step : t -> t -> Prop :=
| step_push s m r s' : push s m = Ret (r, s') -> step s s'
| step_spread s m : step s (push_spread s m).2
| step_deadzone s m : step s (push_deadzone s m).2
| step_get_receiver s id : step s (get_receiver s id).2
| step_drain s id : is_regular_shard s id = false -> step s (drain_shard s id).2
| step_recv s c : c ∈ workers s -> step s (worker_recv s c).2
| step_recv_batch s c n : c ∈ workers s -> step s (worker_recv_batch s c n).2
| step_get_shard s now p id s' : get_shard s now p = Ret (id, s') -> step s s'
| step_evict s now d : step s (evict_idle s now d)
| step_reset s : step s (reset_leak_stats s).

End ShardManager.

Import ShardManager.

(** ** Lemmas *)

(** What no step changes, and what only pushes change. *)
Definition frame (s s' : t) : Prop :=
  num_shards s' = num_shards s /\ shard_size s' = shard_size s /\
  deadzone_shard_id s' = deadzone_shard_id s /\ spread_shard_id s' = spread_shard_id s /\
  backpressure_limit s' = backpressure_limit s.

#[export] Instance frame_preorder : PreOrder frame.
Proof.
  split; [by repeat split|]. intros s1 s2 s3 (? & ? & ? & ? & ?) (? & ? & ? & ? & ?).
  repeat split; congruence.
Qed.

Lemma shard_push_eq s sh m s' :
  shard_push s sh m = Some s' ->
  s' = with_chans s (<[tx sh := default [] (chans s !! tx sh) ++ [m]]> (chans s)) /\
  len (default [] (chans s !! tx sh)) < shard_size s.
Proof.
  unfold shard_push. destruct (_ && _) eqn:E; [|done]. breflect. intros [= <-]. done.
Qed.

(** The effect of a step on the channels. *)
Definition chan_step (s s' : t) : Prop :=
  frame s s' /\ next_chan s <= next_chan s' /\
  (forall c, is_Some (chans s' !! c) -> is_Some (chans s !! c) \/ next_chan s <= c < next_chan s' \/
     exists id sh, shards s !! id = Some sh /\ tx sh = c) /\
  (forall c q, c < next_chan s -> chans s !! c = Some q ->
     exists q', chans s' !! c = Some q' /\
       ((exists k, q' = drop k q) \/ (exists m, q' = q ++ [m] /\ len q < shard_size s))).

Lemma chan_step_same s s' :
  frame s s' -> next_chan s' = next_chan s -> chans s' = chans s -> chan_step s s'.
Proof.
  intros Hf Hn Hc. split; [done|]. split; [lia|]. rewrite Hc. split; [auto|].
  intros c q _ Hq. exists q. split; [done|]. left. by exists 0%nat.
Qed.

Lemma chan_step_push s sh id m s0 :
  frame s s0 -> next_chan s0 = next_chan s -> chans s0 = chans s ->
  shards s !! id = Some sh -> len (default [] (chans s !! tx sh)) < shard_size s ->
  chan_step s (with_chans s0 (<[tx sh := default [] (chans s !! tx sh) ++ [m]]> (chans s))).
Proof.
  intros Hf Hn Hc Hsh Hlen. split; [done|]. split; [cbn; lia|]. cbn [chans with_chans]. split.
  - intros c. rewrite lookup_insert_is_Some'. intros [<-|]; [right; right; eauto|by left].
  - intros c q _ Hq. destruct (decide (tx sh = c)) as [<-|Hne].
    + rewrite lookup_insert_eq. eexists. split; [done|]. right. exists m. by rewrite Hq in Hlen |- *.
    + rewrite lookup_insert_ne by done. exists q. split; [done|]. left. by exists 0%nat.
Qed.

Lemma chan_step_take s c0 k s0 :
  frame s s0 -> next_chan s0 = next_chan s -> is_Some (chans s !! c0) ->
  chan_step s (with_chans s0 (<[c0 := drop k (default [] (chans s !! c0))]> (chans s))).
Proof.
  intros Hf Hn Hc0. split; [done|]. split; [cbn; lia|]. cbn [chans with_chans]. split.
  - intros c. rewrite lookup_insert_is_Some'. intros [<-|]; by left.
  - intros c q _ Hq. destruct (decide (c0 = c)) as [<-|Hne].
    + rewrite lookup_insert_eq. eexists. split; [done|]. left. exists k. by rewrite Hq.
    + rewrite lookup_insert_ne by done. exists q. split; [done|]. left. by exists 0%nat.
Qed.

Lemma push_to_chan s id m : chan_step s (push_to s id m).2.
Proof.
  unfold push_to. destruct (shards (count_allocated s) !! id) as [sh|] eqn:E;
    [|by apply chan_step_same].
  destruct (shard_push _ _ _) as [s'|] eqn:Hp; [|by apply chan_step_same].
  apply shard_push_eq in Hp as [-> Hlen]. by apply (chan_step_push s sh id m (count_allocated s)).
Qed.

Lemma push_chan s m r s' : push s m = Ret (r, s') -> chan_step s s'.
Proof.
  unfold push. destruct (_ <=? _); [intros [= <- <-]; by apply chan_step_same|].
  unfold select_shard_for_message. destruct (_ =? _); [done|]. mstep.
  destruct (shards _ !! _) as [sh|] eqn:E; [|intros [= <- <-]; by apply chan_step_same].
  destruct (shard_push _ _ _) as [s1|] eqn:Hp; intros [= <- <-]; [|by apply chan_step_same].
  apply shard_push_eq in Hp as [-> Hlen]. by eapply (chan_step_push s sh).
Qed.

(** Channels are numbered below [next_chan], and every end refers to one. *)
Definition chans_ok (s : t) : Prop :=
  (forall c, is_Some (chans s !! c) <-> 0 <= c < next_chan s) /\ 0 <= next_chan s /\
  (forall id sh, shards s !! id = Some sh -> 0 <= tx sh < next_chan s) /\
  (forall id c, receivers s !! id = Some c -> 0 <= c < next_chan s) /\
  (forall c q, chans s !! c = Some q -> len q <= Z.max 0 (shard_size s)).

Lemma ok_same s s' :
  chans_ok s -> frame s s' -> chans s' = chans s -> next_chan s' = next_chan s ->
  (forall id sh, shards s' !! id = Some sh -> shards s !! id = Some sh) ->
  (forall id c, receivers s' !! id = Some c -> receivers s !! id = Some c) -> chans_ok s'.
Proof.
  intros (H1 & H2 & H3 & H4 & H5) (_ & Hsz & _) Hc Hn Hsh Hrx. unfold chans_ok.
  rewrite Hc, Hn, Hsz. eauto 10.
Qed.

Lemma ok_update s s0 c q :
  chans_ok s -> frame s s0 -> shards s0 = shards s -> receivers s0 = receivers s ->
  next_chan s0 = next_chan s -> 0 <= c < next_chan s -> len q <= Z.max 0 (shard_size s) ->
  chans_ok (with_chans s0 (<[c := q]> (chans s))).
Proof.
  intros (H1 & H2 & H3 & H4 & H5) (_ & Hsz & _) Hsh Hrx Hn Hc Hq.
  unfold chans_ok. cbn [with_chans chans next_chan shards receivers shard_size].
  rewrite Hsh, Hrx, Hn, Hsz. split.
  - intros c'. rewrite lookup_insert_is_Some', H1. split; [intros [<-|]; done|by right].
  - split; [done|]. split; [done|]. split; [done|]. intros c' q'.
    destruct (decide (c = c')) as [<-|]; [rewrite lookup_insert_eq; by intros [= <-]|].
    rewrite lookup_insert_ne by done. apply H5.
Qed.

Lemma ok_install s now id dz : chans_ok s -> chans_ok (install s now id dz).
Proof.
  intros (H1 & H2 & H3 & H4 & H5). unfold chans_ok, install.
  cbn [chans next_chan shards receivers shard_size]. split; [|split; [lia|split; [|split]]].
  - intros c. rewrite lookup_insert_is_Some', H1. lia.
  - intros i sh. destruct (decide (id = i)) as [<-|].
    + rewrite lookup_insert_eq. intros [= <-]. cbn. lia.
    + rewrite lookup_insert_ne by done. intros Hsh. specialize (H3 i sh Hsh). lia.
  - intros i c. destruct (decide (id = i)) as [<-|].
    + rewrite lookup_insert_eq. intros [= <-]. lia.
    + rewrite lookup_insert_ne by done. intros Hc. specialize (H4 i c Hc). lia.
  - intros c q. destruct (decide (next_chan s = c)) as [<-|].
    + rewrite lookup_insert_eq. intros [= <-]. rewrite len_nil. lia.
    + rewrite lookup_insert_ne by done. apply H5.
Qed.

Lemma install_chan s now id dz : chans_ok s -> chan_step s (install s now id dz).
Proof.
  intros (H1 & H2 & _). split; [done|]. unfold install. cbn [chans next_chan]. split; [lia|]. split.
  - intros c. rewrite lookup_insert_is_Some', H1. intros [<-|]; [right; left; lia|by left].
  - intros c q Hlt Hq. rewrite lookup_insert_ne by lia. exists q. split; [done|]. left. by exists 0%nat.
Qed.

Lemma len_drop_le {A} k (l : list A) : len (drop k l) <= len l.
Proof. unfold len. rewrite length_drop. lia. Qed.

Lemma chan_len s c : chans_ok s -> len (default [] (chans s !! c)) <= Z.max 0 (shard_size s).
Proof.
  intros (_ & _ & _ & _ & H5). destruct (chans s !! c) as [q|] eqn:E; cbn; [by apply (H5 c)|].
  rewrite len_nil. lia.
Qed.

(** Appending to the channel of an existing shard. *)
Lemma ok_push s s0 sh id m :
  chans_ok s -> frame s s0 -> shards s0 = shards s -> receivers s0 = receivers s ->
  next_chan s0 = next_chan s -> shards s !! id = Some sh ->
  len (default [] (chans s !! tx sh)) < shard_size s ->
  chans_ok (with_chans s0 (<[tx sh := default [] (chans s !! tx sh) ++ [m]]> (chans s))).
Proof.
  intros Hok Hf Hs Hr Hn Hsh Hlen. apply ok_update; try done.
  - destruct Hok as (_ & _ & H3 & _). by apply (H3 id).
  - rewrite len_app. change (len [m]) with 1. lia.
Qed.

Lemma ok_push_to s id m : chans_ok s -> chans_ok (push_to s id m).2.
Proof.
  intros Hok. unfold push_to. destruct (shards (count_allocated s) !! id) as [sh|] eqn:E;
    [|by apply (ok_same s)].
  destruct (shard_push _ _ _) as [s'|] eqn:Hp; [|by apply (ok_same s)].
  apply shard_push_eq in Hp as [-> Hlen]. by apply (ok_push s (count_allocated s) sh id).
Qed.

Lemma ok_push_regular s m r s' : chans_ok s -> push s m = Ret (r, s') -> chans_ok s'.
Proof.
  intros Hok. unfold push. destruct (_ <=? _); [intros [= <- <-]; by apply (ok_same s)|].
  unfold select_shard_for_message. destruct (_ =? _); [done|]. mstep.
  destruct (shards _ !! _) as [sh|] eqn:E; [|intros [= <- <-]; by apply (ok_same s)].
  destruct (shard_push _ _ _) as [s1|] eqn:Hp; intros [= <- <-]; [|by apply (ok_same s)].
  apply shard_push_eq in Hp as [-> Hlen]. eapply (ok_same (with_chans s _)); try done.
  by eapply (ok_push s s sh).
Qed.

(** Removing the first [k] messages of a channel. *)
Lemma take_step s s0 c k :
  chans_ok s -> frame s s0 -> shards s0 = shards s -> receivers s0 = receivers s ->
  next_chan s0 = next_chan s -> is_Some (chans s !! c) ->
  let s' := with_chans s0 (<[c := drop k (default [] (chans s !! c))]> (chans s)) in
  chans_ok s' /\ chan_step s s'.
Proof.
  intros Hok Hf Hs Hr Hn Hc. split; [|by apply chan_step_take].
  apply ok_update; try done.
  - by apply Hok.
  - etrans; [apply len_drop_le|by apply chan_len].
Qed.

Lemma step_chans s s' : chans_ok s -> step s s' -> chans_ok s' /\ chan_step s s'.
Proof.
  intros Hok Hs. destruct Hs as [s m r s' H|s m|s m|s id|s id Hreg|s c Hc|s c n Hc|s now p id s' H|s now d|s].
  - split; [by apply (ok_push_regular s m r)|by apply (push_chan s m r)].
  - split; [by apply ok_push_to|apply push_to_chan].
  - split; [by apply ok_push_to|apply push_to_chan].
  - unfold get_receiver. destruct (receivers s !! id) as [c|] eqn:E; cbn [snd].
    + split; [|by apply chan_step_same]. apply (ok_same s); try done.
      cbn. intros i c' Hi. by apply lookup_delete_Some in Hi as [_ Hi].
    + split; [done|by apply chan_step_same].
  - unfold drain_shard. destruct (receivers s !! id) as [c|] eqn:E.
    + assert (Hr : forall z, is_regular_shard (with_chans s z) id = false) by done.
      rewrite Hr. cbn [andb snd].
      assert (Hsome : is_Some (chans s !! c)) by (apply Hok; by apply Hok in E).
      destruct (take_step s s c (length (default [] (chans s !! c))) Hok) as [H1 H2]; try done.
      rewrite drop_all in H1, H2. done.
    + rewrite Hreg. cbn [andb snd]. split; [done|by apply chan_step_same].
  - unfold worker_recv. destruct (chans s !! c) as [[|m q]|] eqn:E; cbn [snd].
    1,3: split; [done|by apply chan_step_same].
    destruct (take_step s s c 1 Hok) as [H1 H2]; try done; rewrite E in *; done.
  - unfold worker_recv_batch. destruct (chans s !! c) as [[|m q]|] eqn:E; cbn [snd].
    1,3: split; [done|by apply chan_step_same].
    destruct (take_step s s c (Z.to_nat (Z.max 1 n)) Hok) as [H1 H2]; try done; rewrite E in *; done.
  - unfold get_shard in H. destruct (protocol_to_shard_id s p) as [i|]; [|done].
    injection H as <- <-. unfold create_shard. destruct (shards s !! i) eqn:E.
    + split; [done|by apply chan_step_same].
    + rewrite ?E. split; [by apply ok_install|by apply install_chan].
  - split; [|by apply chan_step_same]. apply (ok_same s); try done.
    cbn. intros i sh Hi. by apply map_lookup_filter_Some in Hi as [Hi _].
  - split; [by apply (ok_same s)|by apply chan_step_same].
Qed.

Lemma ok_new now n size : chans_ok (new now n size).
Proof.
  unfold new. apply ok_install.
  assert (Hfold : forall l s, chans_ok s ->
    chans_ok (fold_left (fun s i => install s now i false) l s)).
  { induction l as [|i l IH]; intros s Hs; [done|]. apply IH. by apply ok_install. }
  apply Hfold, ok_install. split; [|split; [cbn; lia|]]; cbn.
  - intros c. rewrite lookup_empty. split; [by intros []|lia].
  - split; [|split]; intros ? ?; by rewrite lookup_empty.
Qed.

Lemma reachable_ok now n size s : rtc step (new now n size) s -> chans_ok s.
Proof.
  revert s. apply rtc_ind_r; [apply ok_new|]. intros x y _ Hs Hx. by apply (step_chans x).
Qed.

Lemma regular_count_steps s s' :
  step s s' -> backpressure_limit s <= total_regular_messages s ->
  backpressure_limit s' = backpressure_limit s /\
  total_regular_messages s' = total_regular_messages s.
Proof.
  intros Hs Hfull. destruct Hs as [s m r s' H|s m|s m|s id|s id Hreg|s c Hc|s c n Hc|s now p id s' H|s now d|s].
  - unfold push in H. rewrite (proj2 (Z.leb_le _ _)) in H by done. by injection H as <- <-.
  - unfold push_spread, push_to. destruct (shards _ !! _); [|done].
    destruct (shard_push _ _ _) eqn:E; [|done]. by apply shard_push_eq in E as [-> _].
  - unfold push_deadzone, push_to. destruct (shards _ !! _); [|done].
    destruct (shard_push _ _ _) eqn:E; [|done]. by apply shard_push_eq in E as [-> _].
  - unfold get_receiver. by destruct (receivers s !! id).
  - unfold drain_shard. destruct (receivers s !! id) as [c|].
    + assert (Hr : forall z, is_regular_shard (with_chans s z) id = false) by done. by rewrite Hr.
    + by rewrite Hreg.
  - unfold worker_recv. by destruct (chans s !! c) as [[|m q]|].
  - unfold worker_recv_batch. by destruct (chans s !! c) as [[|m q]|].
  - unfold get_shard in H. destruct (protocol_to_shard_id s p) as [i|]; [|done].
    injection H as <- <-. unfold create_shard. by destruct (shards s !! i) eqn:E; rewrite ?E.
  - done.
  - done.
Qed.

(** ** Properties *)

(** C33: shard channels are bounded FIFO queues.  In every state reachable by the
    gateway's use of the manager, no channel holds more than [shard_size]
    messages, and each step leaves every channel as it was, shortened at the
    front, or, if it was not full, extended by one message at the back. *)
Theorem shard_channels_fifo now n size s s'
  (Hr : rtc step (new now n size) s) (Hs : step s s') :
  forall c q, chans s !! c = Some q ->
    len q <= Z.max 0 size /\
    exists q', chans s' !! c = Some q' /\
      ((exists k, q' = drop k q) \/ (exists m, q' = q ++ [m] /\ len q < size)).
Proof.
  pose proof (reachable_ok _ _ _ _ Hr) as Hok.
  assert (Hsize : shard_size s = size).
  { clear Hs. revert s Hr Hok. apply (rtc_ind_r (fun s => chans_ok s -> shard_size s = size)).
    - intros _. unfold new.
      assert (Hfold : forall l x, shard_size (fold_left (fun s i => install s now i false) l x) = shard_size x).
      { induction l as [|i l IH]; intros x; [done|]. cbn [fold_left]. by rewrite IH. }
      cbn. by rewrite Hfold.
    - intros x y Hx Hxy IH _. pose proof (reachable_ok _ _ _ _ Hx) as Hokx.
      destruct (step_chans x y Hokx Hxy) as [_ ((_ & -> & _) & _)]. auto. }
  intros c q Hq. destruct (step_chans s s' Hok Hs) as [_ (_ & _ & _ & Hch)].
  destruct Hok as (H1 & _ & _ & _ & H5). rewrite Hsize in *. split; [by apply (H5 c)|].
  apply Hch; [|done]. apply H1. by exists q.
Qed.

Definition demo_msg : Message := mkMessage IridiumSBD [1] Operational 0 0 0.

Lemma shard_channels_fifo_witness :
  exists q', chans (push_spread (new 0 2 5) demo_msg).2 !! 2 = Some q' /\
    ((exists k, q' = drop k []) \/ (exists m, q' = [] ++ [m] /\ len (@nil Message) < 5)).
Proof.
  destruct (shard_channels_fifo 0 2 5 (new 0 2 5) (push_spread (new 0 2 5) demo_msg).2
    (rtc_refl _ _) (step_spread _ _) 2 []) as [_ H].
  - vm_compute. reflexivity.
  - exact H.
Defined.

(** what [push] does.  With at least two shards, and below the backpressure
    limit, [push] never panics: it tries the regular shard the round-robin
    counter points at (never the deadzone shard 0 nor the spread shard
    [num_shards]), advances that counter, and either appends the message to that
    shard and counts it, or reports [Full] or [NotFound] and leaves the channels
    alone. *)
Theorem push_contract s m
  (Hn : 2 <= num_shards s < 2 ^ 64) (Hlim : total_regular_messages s < backpressure_limit s) :
  let id := 1 + round_robin s mod (num_shards s - 1) in
  1 <= id < num_shards s /\
  exists r s', push s m = Ret (r, s') /\
    round_robin s' = wrap 64 (round_robin s + 1) /\
    match r with
    | Ok i => i = id /\ total_regular_messages s' = wrap 64 (total_regular_messages s + 1) /\
        exists sh, shards s !! id = Some sh /\
          chans s' = <[tx sh := default [] (chans s !! tx sh) ++ [m]]> (chans s)
    | Err e => chans s' = chans s /\ total_regular_messages s' = total_regular_messages s /\
        (e = Full \/ (e = NotFound /\ shards s !! id = None))
    end.
Proof.
  intros id. assert (Hw : wrap 64 (num_shards s - 1) = num_shards s - 1)
    by (apply wrap_small; unfold in_u; lia).
  pose proof (Z.mod_pos_bound (round_robin s) (num_shards s - 1) ltac:(lia)).
  split; [unfold id; lia|].
  unfold push, select_shard_for_message. rewrite Hw.
  rewrite (proj2 (Z.leb_gt _ _)) by done. rewrite (proj2 (Z.eqb_neq _ _)) by lia. mstep. fold id.
  cbn [count_allocated with_counters shards]. destruct (shards s !! id) as [sh|] eqn:E.
  - destruct (shard_push _ sh m) as [s1|] eqn:Hp.
    + apply shard_push_eq in Hp as [-> _]. eexists _, _. split; [done|].
      split; [done|]. split; [done|]. split; [done|]. exists sh. done.
    + eexists _, _. split; [done|]. split; [done|]. split; [done|]. split; [done|]. by left.
  - eexists _, _. split; [done|]. split; [done|]. split; [done|]. split; [done|]. by right.
Qed.

Lemma push_contract_witness :
  exists s', push (new 0 3 5) demo_msg = Ret (Ok 1, s') /\ total_regular_messages s' = 1.
Proof.
  destruct (push_contract (new 0 3 5) demo_msg) as (_ & r & s' & Hp & _ & Hr).
  - vm_compute. split; [discriminate|reflexivity].
  - vm_compute. reflexivity.
  - destruct r as [i|e].
    + destruct Hr as (-> & Ht & _). exists s'. split; [exact Hp|rewrite Ht; reflexivity].
    + exfalso. vm_compute in Hp. injection Hp as ? ?. congruence.
Defined.

(** C34: backpressure never clears.  [total_regular_messages] is decremented only
    by draining a regular shard through the manager, but the receiving ends of
    the regular shards belong to the workers: once the counter has reached the
    limit, whatever the workers consume, every later [push] fails. *)
Theorem backpressure_permanent s s' m
  (Hfull : backpressure_limit s <= total_regular_messages s) (Hr : rtc step s s') :
  push s' m = Ret (Err Backpressure, count_dropped s').
Proof.
  enough (H : backpressure_limit s' <= total_regular_messages s').
  { unfold push. by rewrite (proj2 (Z.leb_le _ _)). }
  induction Hr as [s|s s1 s2 Hs _ IH]; [done|]. apply IH.
  destruct (regular_count_steps s s1 Hs Hfull) as [-> ->]. done.
Qed.

(** Two shards of five messages: the limit is four.  Four messages are pushed and
    consumed by the worker; all channels are empty, yet nothing can be pushed. *)
Definition pushed (s : t) (m : Message) : t :=
  match push s m with Ret (_, s) => s | Panic => s end.

Definition demo_full : t :=
  let s := (get_receiver (new 0 2 5) 1).2 in
  let s := pushed (pushed (pushed (pushed s demo_msg) demo_msg) demo_msg) demo_msg in
  (worker_recv_batch s 1 20).2.

Lemma backpressure_permanent_witness :
  map snd (map_to_list (chans demo_full)) = [[]; []; []] /\
  push demo_full demo_msg = Ret (Err Backpressure, count_dropped demo_full).
Proof.
  split; [vm_compute; reflexivity|].
  apply (backpressure_permanent demo_full).
  - vm_compute. discriminate.
  - apply rtc_refl.
Defined.
