(* ===== verification/ClockReconciliation.v ===== *)
(** * Clock reconciliation ([src/src/clock_reconciliation.rs])

    Per-device clock offsets, a bounded map that evicts the stalest entry, and the
    correction of device time stamps.  [now_ms] is an argument; time stamps are
    cast between [u64] and [i64] and the subtraction wraps.  [register_offset]
    iterates over the [HashMap]: the visiting order is an argument. *)

From S2P Require Import Prelude Float64.

Module ClockReconciler.

Record ClockOffset := mkOffset {
  device_id : Z;
  offset_ms : Z;    (* i64 *)
  last_updated : Z; (* u64 *)
  confidence : f64
}.

Definition new_offset (now device_id offset_ms : Z) (confidence : f64) : ClockOffset :=
  mkOffset device_id offset_ms now confidence.

(** [is_stale]: [max_age] in milliseconds *)
Definition is_stale (now max_age : Z) (o : ClockOffset) : bool :=
  max_age <? wrap 64 (now - last_updated o).

Inductive NetworkTimeSource := ASTS | NTP | GPS | LocalClock.

Record t := mk {
  offsets : gmap Z ClockOffset;
  max_offsets : Z;
  max_age : Z;
  network_time_source : NetworkTimeSource
}.

Definition new (max_offsets max_age : Z) (src : NetworkTimeSource) : t :=
  mk ∅ max_offsets max_age src.

(** [.min_by_key(|(_, o)| o.last_updated)]: the first of the least ones. *)
Fixpoint min_by_last_updated (visit : list (Z * ClockOffset)) : option (Z * ClockOffset) :=
  match visit with
  | [] => None
  | kv :: visit =>
      match min_by_last_updated visit with
      | Some kv' => if last_updated kv'.2 <? last_updated kv.2 then Some kv' else Some kv
      | None => Some kv
      end
  end.

Definition register_offset (c : t) (visit : list (Z * ClockOffset)) (o : ClockOffset) : t :=
  let os :=
    if (max_offsets c <=? Z.of_nat (size (offsets c))) &&
       negb (bool_decide (is_Some (offsets c !! device_id o)))
    then match min_by_last_updated visit with
         | Some (evict_id, _) => delete evict_id (offsets c)
         | None => offsets c
         end
    else offsets c in
  mk (<[device_id o := o]> os) (max_offsets c) (max_age c) (network_time_source c).

Definition get_offset (c : t) (now device_id : Z) : option ClockOffset :=
  o ← offsets c !! device_id;
  if is_stale now (max_age c) o then None else Some o.

(** The correction shared by both [reconcile] functions. *)
Definition corrected (device_timestamp_ms : Z) (o : ClockOffset) : option Z :=
  let network_time_ms := swrap 64 (swrap 64 device_timestamp_ms - offset_ms o) in
  if network_time_ms <? 0 then None else Some (wrap 64 network_time_ms).

Definition reconcile (c : t) (now device_id device_timestamp_ms : Z) : option Z :=
  o ← get_offset c now device_id; corrected device_timestamp_ms o.

Definition reconcile_with_confidence (c : t) (now device_id device_timestamp_ms : Z)
    (min_confidence : f64) : option Z :=
  o ← get_offset c now device_id;
  if f64_ltb (confidence o) min_confidence then None else corrected device_timestamp_ms o.

Definition calculate_offset (device_timestamp_ms network_timestamp_ms : Z) : Z :=
  swrap 64 (swrap 64 device_timestamp_ms - swrap 64 network_timestamp_ms).

(** Every source currently reads the local clock. *)
Definition get_asts_time (now : Z) : Z := now.
Definition get_ntp_time (now : Z) : Z := now.
Definition get_gps_time (now : Z) : Z := now.

Definition get_network_time (c : t) (now : Z) : Z :=
  match network_time_source c with
  | ASTS => get_asts_time now
  | NTP => get_ntp_time now
  | GPS => get_gps_time now
  | LocalClock => now
  end.

Definition update_offsets (c : t) (now : Z) : t :=
  mk (filter (fun kv => is_stale now (max_age c) kv.2 = false) (offsets c))
    (max_offsets c) (max_age c) (network_time_source c).

Record ClockStats := mkStats { total_offsets : Z; stale_offsets : Z; avg_offset_ms : Z }.

(** [stats]; the [i64] sum wraps, the quotient truncates. *)
Definition stats (c : t) (now : Z) : ClockStats :=
  let n := Z.of_nat (size (offsets c)) in
  let sum := swrap 64 (foldr Z.add 0 (map (fun kv => offset_ms kv.2) (map_to_list (offsets c)))) in
  mkStats n
    (Z.of_nat (size (filter (fun kv => is_stale now (max_age c) kv.2 = true) (offsets c))))
    (if n =? 0 then 0 else Z.quot sum n).

(** The map is bounded and each entry sits under its own device. *)
Definition inv (c : t) : Prop :=
  Z.of_nat (size (offsets c)) <= Z.max 1 (max_offsets c) /\
  forall i o, offsets c !! i = Some o -> device_id o = i.

End ClockReconciler.

Import ClockReconciler.

(** ** Lemmas *)

Lemma min_by_spec visit :
  match min_by_last_updated visit with
  | Some kv => kv ∈ visit /\ Forall (fun kv' => last_updated kv.2 <= last_updated kv'.2) visit
  | None => visit = []
  end.
Proof.
  induction visit as [|kv visit IH]; cbn [min_by_last_updated]; [done|].
  destruct (min_by_last_updated visit) as [kv'|].
  - destruct IH as [Hin Hall]. destruct (_ <? _) eqn:E; breflect.
    + split; [by right|]. constructor; [lia|done].
    + split; [by left|]. constructor; [lia|]. eapply Forall_impl; [|exact Hall]. cbn. lia.
  - subst. split; [by left|]. constructor; [lia|constructor].
Qed.

Lemma register_inv c visit o :
  visit ≡ₚ map_to_list (offsets c) -> inv c -> inv (register_offset c visit o).
Proof.
  intros Hv [Hb Hid]. unfold register_offset.
  set (os := if _ && _ then _ else _).
  assert (Hos : forall i x, os !! i = Some x -> offsets c !! i = Some x).
  { intros i x. unfold os. destruct (_ && _); [|done].
    destruct (min_by_last_updated visit) as [[e ?]|]; [|done].
    intros H. by apply lookup_delete_Some in H as [_ H]. }
  assert (Hsz : Z.of_nat (size (<[device_id o := o]> os)) <= Z.max 1 (max_offsets c)).
  { rewrite map_size_insert. destruct (os !! device_id o) as [x|] eqn:E; cbn.
    - etrans; [|exact Hb]. apply inj_le, map_subseteq_size, map_subseteq_spec. exact Hos.
    - unfold os in *. destruct (_ && _) eqn:Ec.
      + breflect. pose proof (min_by_spec visit) as Hm.
        destruct (min_by_last_updated visit) as [[e oe]|].
        * destruct Hm as [Hin _]. rewrite Hv, elem_of_map_to_list in Hin.
          rewrite map_size_delete, Hin. 
          assert (size (offsets c) <> 0%nat)
            by (intros Hz%map_size_empty_inv; by rewrite Hz, lookup_empty in Hin).
          lia.
        * subst visit. apply Permutation_nil in Hv.
          apply map_to_list_empty_iff in Hv. rewrite Hv, map_size_empty. lia.
      + apply andb_false_iff in Ec as [Ec|Ec]; breflect; [lia|].
        apply bool_decide_eq_true in Ec. rewrite E in Ec. by destruct Ec. }
  split; [done|]. cbn [offsets]. intros i x Hi.
  apply lookup_insert_Some in Hi as [[<- <-]|[_ Hi]]; [done|]. apply Hid. by apply Hos.
Qed.

(** Below [2^62] the casts and the subtraction are exact. *)
Lemma corrected_exact ts o :
  0 <= ts < 2 ^ 62 -> - 2 ^ 62 < offset_ms o < 2 ^ 62 ->
  corrected ts o = if ts - offset_ms o <? 0 then None else Some (ts - offset_ms o).
Proof.
  intros Ht Ho. unfold corrected.
  change (2 ^ 62) with 4611686018427387904 in *.
  rewrite (swrap_small 64 ts), (swrap_small 64 (ts - _))
    by (unfold in_i; change (2 ^ (64 - 1)) with 9223372036854775808; lia).
  destruct (_ <? 0) eqn:E; breflect; [done|].
  rewrite wrap_small by (unfold in_u; change (2 ^ 64) with 18446744073709551616; lia). done.
Qed.

(** ** Properties *)

(** measuring and correcting are inverse.  After registering, at time [t0],
    the offset computed from a device time [dev] and the network time [net], a
    device time stamp [dev + d] is corrected to [net + d] as long as the
    measurement is not older than [max_age]; a correction that would be negative,
    and any correction after [max_age], is refused.  Registering keeps the map
    bounded and every entry under its own device. *)
Theorem clock_correction c visit t0 now id dev net d conf
  (Hinv : inv c) (Hv : visit ≡ₚ map_to_list (offsets c))
  (Hr : 0 <= dev < 2 ^ 61 /\ 0 <= net < 2 ^ 61 /\ 0 <= dev + d < 2 ^ 62)
  (Ht : 0 <= t0 <= now) (Hnow : now < 2 ^ 64) :
  let c' := register_offset c visit (new_offset t0 id (calculate_offset dev net) conf) in
  inv c' /\
  reconcile c' now id (dev + d) =
    (if max_age c <? now - t0 then None
     else if net + d <? 0 then None else Some (net + d)).
Proof.
  cbv zeta. change (2 ^ 61) with 2305843009213693952 in *.
  split; [by apply register_inv|].
  assert (Hoff : calculate_offset dev net = dev - net).
  { unfold calculate_offset.
    rewrite (swrap_small 64 dev), (swrap_small 64 net), swrap_small;
      unfold in_i; change (2 ^ (64 - 1)) with 9223372036854775808; lia. }
  unfold reconcile, get_offset. cbn [offsets register_offset device_id new_offset].
  rewrite lookup_insert_eq. cbn [mbind option_bind]. unfold is_stale.
  cbn [last_updated max_age new_offset register_offset]. rewrite wrap_small by (unfold in_u; lia).
  destruct (max_age c <? now - t0); [done|]. cbn [mbind option_bind].
  change (2 ^ 62) with 4611686018427387904 in *.
  rewrite corrected_exact by
    (cbn [offset_ms new_offset]; rewrite ?Hoff; change (2 ^ 62) with 4611686018427387904; lia).
  cbn [offset_ms new_offset]. rewrite Hoff.
  by replace (dev + d - (dev - net)) with (net + d) by lia.
Qed.

Lemma clock_correction_witness :
  reconcile (register_offset (new 2 300000 LocalClock) []
    (new_offset 100 7 (calculate_offset 5000 4000) (f64_of_Z 1))) 200 7 5250 = Some 4250.
Proof.
  destruct (clock_correction (new 2 300000 LocalClock) [] 100 200 7 5000 4000 250 (f64_of_Z 1))
    as [_ H].
  - split; [vm_compute; discriminate|]. intros i o Hi. exfalso. vm_compute in Hi. discriminate Hi.
  - vm_compute. apply perm_nil.
  - lia.
  - lia.
  - lia.
  - exact H.
Defined.
