(* ===== verification/Cadence.v ===== *)
(** * Cadence translation ([src/src/cadence_translation.rs])

    Rules that say how often messages of a kind are forwarded, and the rate
    limiters behind the throttling ones.  Instants and durations are integers in
    nanoseconds; rule rates are [f64]. *)

From Stdlib Require Import SpecFloat.
From S2P Require Import Prelude Protocol Float64.

Definition SEC : Z := 1000000000.

Inductive MessageCadence :=
| OncePerHour | OncePerMinute | OncePerSecond | Every5Seconds | Every10Seconds | Every30Seconds
| Custom (d : Z).

Definition to_duration (c : MessageCadence) : Z :=
  match c with
  | OncePerHour => 3600 * SEC
  | OncePerMinute => 60 * SEC
  | OncePerSecond => 1 * SEC
  | Every5Seconds => 5 * SEC
  | Every10Seconds => 10 * SEC
  | Every30Seconds => 30 * SEC
  | Custom d => d
  end.

Inductive CadenceTransformation :=
| Passthrough
| RateLimit (max_per_second : f64)
| Aggregate (window_ms : Z)
| Duplicate (max_duplicates : Z)
| Throttle (target_interval_ms : Z).

Record CadenceRule := mkRule {
  source_protocol : Protocol;
  source_cadence : MessageCadence;
  target_protocol : Protocol;
  target_cadence : MessageCadence;
  message_type : string;
  transformation : CadenceTransformation
}.

Inductive TranslationAction :=
| ASend | ADrop | ADuplicate (count : Z) | ABuffer (window_ms : Z).

#[export] Instance TranslationAction_eq_dec : EqDecision TranslationAction.
Proof. solve_decision. Defined.

Module RateLimiter.

Record t := mk { last_sent : Z; min_interval : Z; messages_since_last : Z }.

(** [new]: the first message is allowed at once. *)
Definition new (now min_interval : Z) : t := mk (now - min_interval) min_interval 0.

(** [should_send]; [duration_since] saturates at zero. *)
Definition should_send (l : t) (now : Z) : bool * t :=
  if min_interval l <=? Z.max 0 (now - last_sent l)
  then (true, mk now (min_interval l) 0)
  else (false, mk (last_sent l) (min_interval l) (wrap 64 (messages_since_last l + 1))).

End RateLimiter.

(** [Duration::from_secs_f64], in nanoseconds: nearest, ties to even; it panics on
    negative, non-finite and too large arguments. *)
Definition from_secs_f64 (x : f64) : outcome Z :=
  match x with
  | S754_zero _ => Ret 0
  | S754_finite false m e =>
      let ns :=
        if 0 <=? e then Zpos m * 2 ^ e * SEC
        else
          let d := 2 ^ (- e) in
          let q := Zpos m * SEC / d in
          let r := (Zpos m * SEC) mod d in
          if (d <? 2 * r) || ((2 * r =? d) && Z.odd q) then q + 1 else q in
      if ns <? 2 ^ 64 * SEC then Ret ns else Panic
  | _ => Panic
  end.

Module CadenceTranslator.

Record t := mk { rules : list CadenceRule; rate_limiters : gmap string RateLimiter.t }.

Definition new : t := mk [] ∅.

Definition add_rule (c : t) (r : CadenceRule) : t := mk (rules c ++ [r]) (rate_limiters c).

Definition default_iridium_to_asts_rules : list CadenceRule :=
  [ mkRule IridiumSBD OncePerHour ASTSpaceMobile Every5Seconds "heartbeat" (Duplicate 720);
    mkRule IridiumSBD OncePerMinute ASTSpaceMobile Every10Seconds "location" (Throttle 10000);
    mkRule IridiumSBD OncePerMinute ASTSpaceMobile OncePerSecond "telemetry" (Duplicate 60);
    mkRule IridiumSBD OncePerMinute ASTSpaceMobile OncePerMinute "emergency" Passthrough ].

(** [.iter().find(|r| ..)] *)
Definition find_rule (c : t) (mt : string) (p : Protocol) : option CadenceRule :=
  find (fun r => bool_decide (message_type r = mt) && bool_decide (source_protocol r = p)) (rules c).

(** [rate_limiters.entry(key).or_insert_with(..).should_send()] *)
Definition limit (c : t) (now : Z) (key : string) (fresh : outcome RateLimiter.t)
    : outcome (TranslationAction * t) :=
  limiter ← (match rate_limiters c !! key with Some l => Ret l | None => fresh end);
  let '(ok, l) := RateLimiter.should_send limiter now in
  Ret (if ok then ASend else ADrop, mk (rules c) (<[key := l]> (rate_limiters c))).

(** [translate_message].  [created] is the instant at which a new limiter is made
    and [now] the one at which it is asked. *)
Definition translate_message (c : t) (created now : Z) (mt : string) (p : Protocol) (pr : Priority)
    : outcome (TranslationAction * t) :=
  if bool_decide (pr = Emergency) then Ret (ASend, c) else
  match find_rule c mt p with
  | None => Ret (ASend, c)
  | Some rule =>
      let key := (message_type rule +:+ ":" +:+ protocol_display p)%string in
      match transformation rule with
      | Passthrough => Ret (ASend, c)
      | RateLimit max_per_second =>
          limit c now key
            (d ← from_secs_f64 (f64_div (f64_of_Z 1) max_per_second);
             Ret (RateLimiter.new created d))
      | Aggregate window_ms => Ret (ABuffer window_ms, c)
      | Duplicate max_duplicates => Ret (ADuplicate max_duplicates, c)
      | Throttle target_interval_ms =>
          limit c now key (Ret (RateLimiter.new created (target_interval_ms * 1000000)))
      end
  end.

Definition get_target_cadence (c : t) (mt : string) (p : Protocol) : option MessageCadence :=
  target_cadence <$> find_rule c mt p.

(** The gateway's translator: all default rules, in order. *)
Definition with_defaults : t := fold_left add_rule default_iridium_to_asts_rules new.

Record CadenceStats := mkStats { total_rules : Z; active_rate_limiters : Z }.

Definition stats (c : t) : CadenceStats :=
  mkStats (len (rules c)) (Z.of_nat (size (rate_limiters c))).

End CadenceTranslator.

Import CadenceTranslator.

(** ** Lemmas *)

(** The instants at which a limiter lets messages through. *)
Fixpoint sent_at (l : RateLimiter.t) (times : list Z) : list Z :=
  match times with
  | [] => []
  | now :: times =>
      let '(ok, l) := RateLimiter.should_send l now in
      if ok then now :: sent_at l times else sent_at l times
  end.

(** Consecutive elements at least [d] apart. *)
Fixpoint spaced (d prev : Z) (l : list Z) : Prop :=
  match l with
  | [] => True
  | x :: l => d <= x - prev /\ spaced d x l
  end.

Lemma sent_at_spaced l times :
  0 < RateLimiter.min_interval l ->
  spaced (RateLimiter.min_interval l) (RateLimiter.last_sent l) (sent_at l times).
Proof.
  revert l. induction times as [|now times IH]; intros l Hd; cbn [sent_at]; [done|].
  unfold RateLimiter.should_send. destruct (_ <=? _) eqn:E; breflect.
  - split; [lia|]. apply (IH (RateLimiter.mk now (RateLimiter.min_interval l) 0)). done.
  - apply (IH (RateLimiter.mk (RateLimiter.last_sent l) (RateLimiter.min_interval l) _)). done.
Qed.

(** Running a throttling rule over a sequence of arrivals. *)
Fixpoint throttle_run (c : CadenceTranslator.t) (mt : string) (p : Protocol) (times : list Z)
    : outcome (list Z) :=
  match times with
  | [] => Ret []
  | now :: times =>
      '(a, c) ← translate_message c now now mt p Operational;
      rest ← throttle_run c mt p times;
      Ret (if bool_decide (a = ASend) then now :: rest else rest)
  end.

Lemma find_rule_rules c c' mt p : rules c' = rules c -> find_rule c' mt p = find_rule c mt p.
Proof. intros H. unfold find_rule. by rewrite H. Qed.

Lemma throttle_run_known c mt p r ms l times :
  find_rule c mt p = Some r -> transformation r = Throttle ms ->
  rate_limiters c !! (message_type r +:+ ":" +:+ protocol_display p)%string = Some l ->
  throttle_run c mt p times = Ret (sent_at l times).
Proof.
  intros Hf Ht. revert c l Hf. induction times as [|now times IH]; intros c l Hf Hl; [done|].
  cbn [throttle_run sent_at]. unfold translate_message. rewrite bool_decide_eq_false_2, Hf, Ht by done.
  unfold limit. rewrite Hl. mstep. destruct (RateLimiter.should_send l now) as [ok l'] eqn:E. mstep.
  rewrite (IH _ l') by (first [by rewrite (find_rule_rules c) | cbn; by rewrite lookup_insert_eq]).
  mstep. by destruct ok.
Qed.

(** ** Properties *)

(** throttling keeps its promise.  Over any arrivals of a kind that a
    [Throttle] rule governs and that has not been seen before, the first one is
    forwarded, and forwarded messages are at least the target interval apart. *)
Theorem throttle_spacing c mt p r ms t0 times
  (Hf : find_rule c mt p = Some r) (Ht : transformation r = Throttle ms) (Hms : 0 < ms)
  (Hnew : rate_limiters c !! (message_type r +:+ ":" +:+ protocol_display p)%string = None) :
  exists sent, throttle_run c mt p (t0 :: times) = Ret (t0 :: sent) /\
    spaced (ms * 1000000) t0 sent.
Proof.
  cbn [throttle_run]. unfold translate_message. rewrite bool_decide_eq_false_2, Hf, Ht by done.
  unfold limit. rewrite Hnew. mstep. unfold RateLimiter.should_send, RateLimiter.new.
  cbn [RateLimiter.min_interval RateLimiter.last_sent]. bcase. mstep.
  set (l := RateLimiter.mk t0 (ms * 1000000) 0).
  rewrite (throttle_run_known _ mt p r ms l)
    by (first [by rewrite (find_rule_rules c) | done | cbn; by rewrite lookup_insert_eq]).
  mstep. eexists. split; [done|]. apply (sent_at_spaced l). cbn. lia.
Qed.

Lemma throttle_spacing_witness :
  exists sent, throttle_run with_defaults "location" IridiumSBD
      [0; 4000000000; 10000000000; 15000000000; 20000000000] = Ret (0 :: sent) /\
    spaced 10000000000 0 sent.
Proof.
  destruct (throttle_spacing with_defaults "location" IridiumSBD
    (mkRule IridiumSBD OncePerMinute ASTSpaceMobile Every10Seconds "location" (Throttle 10000))
    10000 0 [4000000000; 10000000000; 15000000000; 20000000000]) as (sent & H1 & H2).
  - vm_compute. reflexivity.
  - reflexivity.
  - lia.
  - vm_compute. reflexivity.
  - exists sent. split; [exact H1|exact H2].
Defined.
