(* ===== verification/Metrics.v ===== *)
(** * Counters ([src/src/metrics.rs])

    [u64] atomics updated with [fetch_add]; the nine per-protocol counters are a
    function of the protocol.  The snapshot computes its averages in integer and
    [f64] arithmetic. *)

From S2P Require Import Prelude Protocol Float64.

Module Metrics.

Record t := mk {
  messages_translated : Z;
  messages_batched : Z;
  cache_hits : Z;
  cache_misses : Z;
  errors : Z;
  total_latency_ms : Z;
  latency_samples : Z;
  spread_sharded_messages : Z;
  transmission_batches_sent : Z;
  transmission_batch_messages : Z;
  protocol_messages : Protocol -> Z
}.

Definition new : t := mk 0 0 0 0 0 0 0 0 0 0 (fun _ => 0).

Definition add (a b : Z) : Z := wrap 64 (a + b).

Definition increment_translated (m : t) : t :=
  mk (add (messages_translated m) 1) (messages_batched m) (cache_hits m) (cache_misses m) (errors m)
    (total_latency_ms m) (latency_samples m) (spread_sharded_messages m)
    (transmission_batches_sent m) (transmission_batch_messages m) (protocol_messages m).

Definition increment_batched (m : t) (count : Z) : t :=
  mk (messages_translated m) (add (messages_batched m) count) (cache_hits m) (cache_misses m) (errors m)
    (total_latency_ms m) (latency_samples m) (spread_sharded_messages m)
    (transmission_batches_sent m) (transmission_batch_messages m) (protocol_messages m).

Definition record_cache_hit (m : t) : t :=
  mk (messages_translated m) (messages_batched m) (add (cache_hits m) 1) (cache_misses m) (errors m)
    (total_latency_ms m) (latency_samples m) (spread_sharded_messages m)
    (transmission_batches_sent m) (transmission_batch_messages m) (protocol_messages m).

Definition record_cache_miss (m : t) : t :=
  mk (messages_translated m) (messages_batched m) (cache_hits m) (add (cache_misses m) 1) (errors m)
    (total_latency_ms m) (latency_samples m) (spread_sharded_messages m)
    (transmission_batches_sent m) (transmission_batch_messages m) (protocol_messages m).

Definition record_error (m : t) : t :=
  mk (messages_translated m) (messages_batched m) (cache_hits m) (cache_misses m) (add (errors m) 1)
    (total_latency_ms m) (latency_samples m) (spread_sharded_messages m)
    (transmission_batches_sent m) (transmission_batch_messages m) (protocol_messages m).

Definition record_spread_shard (m : t) : t :=
  mk (messages_translated m) (messages_batched m) (cache_hits m) (cache_misses m) (errors m)
    (total_latency_ms m) (latency_samples m) (add (spread_sharded_messages m) 1)
    (transmission_batches_sent m) (transmission_batch_messages m) (protocol_messages m).

Definition record_transmission_batch (m : t) (message_count : Z) : t :=
  mk (messages_translated m) (messages_batched m) (cache_hits m) (cache_misses m) (errors m)
    (total_latency_ms m) (latency_samples m) (spread_sharded_messages m)
    (add (transmission_batches_sent m) 1) (add (transmission_batch_messages m) message_count)
    (protocol_messages m).

Definition record_latency (m : t) (latency_ms : Z) : t :=
  mk (messages_translated m) (messages_batched m) (cache_hits m) (cache_misses m) (errors m)
    (add (total_latency_ms m) (wrap 64 latency_ms)) (add (latency_samples m) 1)
    (spread_sharded_messages m)
    (transmission_batches_sent m) (transmission_batch_messages m) (protocol_messages m).

Definition record_protocol (m : t) (p : Protocol) : t :=
  mk (messages_translated m) (messages_batched m) (cache_hits m) (cache_misses m) (errors m)
    (total_latency_ms m) (latency_samples m) (spread_sharded_messages m)
    (transmission_batches_sent m) (transmission_batch_messages m)
    (fun q => if bool_decide (q = p) then add (protocol_messages m q) 1 else protocol_messages m q).

(** The computed fields of [snapshot]. *)
Definition avg_latency_ms (m : t) : Z :=
  if latency_samples m =? 0 then 0 else total_latency_ms m / latency_samples m.

Definition cache_hit_rate (m : t) : f64 :=
  let total := add (cache_hits m) (cache_misses m) in
  if 0 <? total then f64_mul (f64_div (f64_of_Z (cache_hits m)) (f64_of_Z total)) (f64_of_Z 100)
  else f64_of_Z 0.

Definition avg_transmission_batch_size (m : t) : f64 :=
  if 0 <? transmission_batches_sent m
  then f64_div (f64_of_Z (transmission_batch_messages m)) (f64_of_Z (transmission_batches_sent m))
  else f64_of_Z 0.

(** [MetricsSnapshot]; the counters it copies as they are, are read from [m]. *)
Record MetricsSnapshot := mkSnapshot {
  s_counters : t;
  s_cache_hit_rate : f64;
  s_avg_latency_ms : Z;
  s_avg_transmission_batch_size : f64
}.

Definition snapshot (m : t) : MetricsSnapshot :=
  mkSnapshot m (cache_hit_rate m) (avg_latency_ms m) (avg_transmission_batch_size m).

Definition uptime_percentage (errors total_requests : Z) : f64 :=
  if total_requests =? 0 then f64_of_Z 100 else
  f64_mul (f64_div (f64_of_Z (wrap 64 (total_requests - errors))) (f64_of_Z total_requests))
    (f64_of_Z 100).

End Metrics.
