(* ===== verification/Sensors.v ===== *)
(** * Serial sensor readers ([src/src/sensor/rs232.rs], [src/src/sensor/rs485.rs])

    The frame parsers of the two readers, the order in which the RS-232 reader
    tries them, the loops that deliver messages, and the half-duplex RS-485 port with
    its direction pin.  What a read or write of the serial port returns is an
    argument; the clock read by [Message::new] is [now]. *)

From S2P Require Import Prelude Crc Protocol Text Io System.

(** The bit loop of [compute_crc16] and of both [compute_modbus_crc]. *)
Definition crc16_a001 (data : bytes) : Z :=
  fold_left (fun crc byte =>
    Nat.iter 8 (fun crc =>
      if negb (Z.land crc 0x0001 =? 0) then Z.lxor (Z.shiftr crc 1) 0xA001 else Z.shiftr crc 1)
      (Z.lxor crc byte)) data 0xFFFF.

(** Every parser ends with this message. *)
Definition sensor_message (now : Z) (message_data : bytes) : Message :=
  message_new now IridiumSBD message_data Operational.

(** What a read of a serial port gives: bytes and the clock at that time, none, a
    timeout, or another error with its text. *)
Inductive reading := Got (now : Z) (frame : bytes) | Nothing | TimedOut | Failed (e : string).

Module Rs232.

Definition RS232_UART : bytes := lit "/dev/ttyAMA1".
Definition RS232_BAUD : Z := 9600.

Inductive Rs232Error :=
| SerialInit (e : string) | SerialRead (e : string) | InvalidFrame | CrcMismatch.

Definition compute_crc16 (data : bytes) : Z := crc16_a001 data.
Definition compute_modbus_crc (data : bytes) : Z := crc16_a001 data.

Definition parse_carrier_micro_link (now : Z) (data : bytes) : outcome (result Message Rs232Error) :=
  if len data <? 5 then Ret (Err InvalidFrame) else
  header ← data.[0 ~> 2];
  if negb (bool_decide (header = [67; 77])) then Ret (Err InvalidFrame) else
  lb ← read_at data 2 2;
  let length := from_be lb in
  if len data <? 5 + length + 2 then Ret (Err InvalidFrame) else
  frame_type ← data.[4];
  payload ← data.[5 ~> 5 + length];
  cb ← read_at data (5 + length) 2;
  let crc := from_be cb in
  covered ← data.[0 ~> 5 + length];
  if negb (compute_crc16 covered =? crc) then Ret (Err CrcMismatch) else
  Ret (Ok (sensor_message now (frame_type :: payload))).

Definition parse_thermo_king (now : Z) (data : bytes) : outcome (result Message Rs232Error) :=
  if len data <? 5 then Ret (Err InvalidFrame) else
  stx ← data.[0];
  etx ← data.[len data - 2];
  if negb (stx =? 0x02) || negb (etx =? 0x03) then Ret (Err InvalidFrame) else
  addr ← data.[1];
  cmd ← data.[2];
  payload ← data.[3 ~> len data - 2];
  crc ← data.[len data - 1];
  covered ← data.[1 ~> len data - 1];
  if negb (fold_left Z.lxor covered 0 =? crc) then Ret (Err CrcMismatch) else
  Ret (Ok (sensor_message now (addr :: cmd :: payload))).

Definition parse_modbus_rtu (now : Z) (data : bytes) : outcome (result Message Rs232Error) :=
  if len data <? 4 then Ret (Err InvalidFrame) else
  addr ← data.[0];
  func ← data.[1];
  payload ← data.[2 ~> len data - 2];
  cb ← read_at data (len data - 2) 2;
  let crc := from_le cb in
  covered ← data.[0 ~> len data - 2];
  if negb (compute_modbus_crc covered =? crc) then Ret (Err CrcMismatch) else
  Ret (Ok (sensor_message now (addr :: func :: payload))).

(** What [start] makes of [n > 0] bytes: the first parser that accepts wins;
    [None] is the warning about an unknown frame. *)
Definition receive (now : Z) (frame : bytes) : outcome (option Message) :=
  r1 ← parse_carrier_micro_link now frame;
  match r1 with Ok msg => Ret (Some msg) | Err _ =>
  r2 ← parse_thermo_king now frame;
  match r2 with Ok msg => Ret (Some msg) | Err _ =>
  r3 ← parse_modbus_rtu now frame;
  match r3 with Ok msg => Ret (Some msg) | Err _ => Ret None end end end.

(** [opened]: the outcome of opening the port. *)
Definition new (opened : result unit string) : result unit Rs232Error :=
  match opened with Ok _ => Ok tt | Err e => Err (SerialInit e) end.

(** The loop of [start] over its readings: the messages sent, and the error that ended
    it, if one did. *)
Fixpoint start (rs : list reading) : outcome (list Message * option Rs232Error) :=
  match rs with
  | [] => Ret ([], None)
  | Got now frame :: rs =>
      m ← receive now frame;
      '(l, e) ← start rs;
      Ret (option_list m ++ l, e)
  | Nothing :: rs | TimedOut :: rs => start rs
  | Failed e :: _ => Ret ([], Some (SerialRead e))
  end.

End Rs232.

Module Rs485.

Inductive Rs485Error :=
| SerialInit (e : string) | SerialRead (e : string) | SerialWrite (e : string)
| GpioInit (e : string) | InvalidFrame | CrcMismatch.

(** The direction pin ([true]: transmit) and what was written to the port. *)
Record t := mk { de_re : bool; written : list bytes }.

Definition RS485_UART : bytes := lit "/dev/ttyAMA1".
Definition RS485_BAUD : Z := 9600.
Definition RS485_DE_RE_PIN : Z := 5.

(** The port ([opened]: the outcome of opening it), the pin, and receive mode.  The text
    of a pin error is not modelled. *)
Definition new `{GpioCrate} (opened : result unit string) : io (list Z) Rs485Error t :=
  match opened with
  | Err e => io_fail (SerialInit e)
  | Ok _ =>
      io_bind (gpio_open (GpioInit "GPIO")) (fun _ =>
      io_bind (gpio_take RS485_DE_RE_PIN (GpioInit "GPIO")) (fun _ =>
      io_ret (mk false [])))
  end.

Definition compute_modbus_crc (data : bytes) : Z := crc16_a001 data.

Definition parse_modbus_rtu (now : Z) (data : bytes) : outcome (result Message Rs485Error) :=
  if len data <? 4 then Ret (Err InvalidFrame) else
  addr ← data.[0];
  func ← data.[1];
  payload ← data.[2 ~> len data - 2];
  cb ← read_at data (len data - 2) 2;
  let crc := from_le cb in
  covered ← data.[0 ~> len data - 2];
  if negb (compute_modbus_crc covered =? crc) then Ret (Err CrcMismatch) else
  Ret (Ok (sensor_message now (addr :: func :: payload))).

(** The frame [send_modbus_request] builds. *)
Definition request_frame (addr func : Z) (data : bytes) : bytes :=
  let frame := [addr; func] ++ data in
  frame ++ to_le 2 (compute_modbus_crc frame).

(** [io] is the result of [write_all]; on an error the [?] leaves before the pin
    is set back. *)
Definition send_modbus_request (r : t) (addr func : Z) (data : bytes) (io : result unit string)
    : result unit Rs485Error * t :=
  let frame := request_frame addr func data in
  match io with
  | Err e => (Err (SerialWrite e), mk true (written r))
  | Ok _ => (Ok tt, mk false (written r ++ [frame]))
  end.

(** One round of [start] that reads [n > 0] bytes: the message, if any. *)
Definition receive (r : t) (now : Z) (frame : bytes) : outcome (option Message * t) :=
  m ← parse_modbus_rtu now frame;
  Ret (match m with Ok msg => Some msg | Err _ => None end, mk false (written r)).

(** The loop of [start]: the messages sent, the error that ended it, and the port. *)
Fixpoint start (r : t) (rs : list reading) : outcome (list Message * option Rs485Error * t) :=
  let r := mk false (written r) in
  match rs with
  | [] => Ret ([], None, r)
  | Got now frame :: rs =>
      '(m, r) ← receive r now frame;
      '(l, e, r) ← start r rs;
      Ret (option_list m ++ l, e, r)
  | Nothing :: rs | TimedOut :: rs => start r rs
  | Failed e :: _ => Ret ([], Some (SerialRead e), r)
  end.

End Rs485.

(** ** Lemmas *)

Lemma crc16_a001_lsb data : crc16_a001 data = lsb_crc 0xA001 0xFFFF data.
Proof. done. Qed.

Lemma crc16_a001_range data : bytes_ok data -> in_u 16 (crc16_a001 data).
Proof. intros. rewrite crc16_a001_lsb. apply lsb_crc_range; [lia|by unfold in_u; lia..|done]. Qed.

Lemma crc16_a001_one pre suf x y :
  bytes_ok pre -> bytes_ok suf -> in_u 8 x -> in_u 8 y ->
  crc16_a001 (pre ++ x :: suf) = crc16_a001 (pre ++ y :: suf) -> x = y.
Proof. intros. apply (lsb_crc_one 16 0xA001 ltac:(lia) ltac:(unfold in_u; lia) eq_refl 0xFFFF pre suf); try done. Qed.

(** Both Modbus parsers on a frame split into covered bytes and trailer. *)
Lemma modbus_split now b0 b1 pl tr :
  len tr = 2 ->
  Rs485.parse_modbus_rtu now (b0 :: b1 :: pl ++ tr) =
  Ret (if crc16_a001 (b0 :: b1 :: pl) =? from_le tr
       then Ok (sensor_message now (b0 :: b1 :: pl)) else Err Rs485.CrcMismatch).
Proof.
  intros Htr. unfold Rs485.parse_modbus_rtu.
  assert (Hlen : len (b0 :: b1 :: pl ++ tr) = len pl + 4) by len_solve.
  pose proof (len_nonneg pl). rewrite Hlen.
  destruct (len pl + 4 <? 4) eqn:E; breflect; [lia|]. clear E.
  rewrite at_cons_0, at_cons_pos by lia. mstep. change (1 - 1) with 0. rewrite at_cons_0. mstep.
  rewrite (slice_Ret _ 2), (slice_Ret _ 0) by lia. mstep.
  rewrite read_at_Ret by lia. mstep.
  assert (H1 : sub (b0 :: b1 :: pl ++ tr) 2 (len pl + 4 - 2 - 2) = pl)
    by (apply (sub_mid [b0; b1] pl tr); len_solve).
  assert (H2 : sub (b0 :: b1 :: pl ++ tr) (len pl + 4 - 2) 2 = tr).
  { rewrite <- (app_nil_r tr) at 1. apply (sub_mid (b0 :: b1 :: pl) tr []); len_solve. }
  assert (H3 : sub (b0 :: b1 :: pl ++ tr) 0 (len pl + 4 - 2 - 0) = b0 :: b1 :: pl)
    by (apply (sub_app_l (b0 :: b1 :: pl) tr); len_solve).
  rewrite H1, H2, H3.
  unfold Rs485.compute_modbus_crc. by destruct (_ =? _).
Qed.

(** The RS-232 reader's copy of the parser differs in its error type only. *)
Lemma modbus_same now data :
  Rs232.parse_modbus_rtu now data =
  (r ← Rs485.parse_modbus_rtu now data;
   Ret (match r with
        | Ok m => Ok m
        | Err Rs485.InvalidFrame => Err Rs232.InvalidFrame
        | Err _ => Err Rs232.CrcMismatch
        end)).
Proof.
  unfold Rs232.parse_modbus_rtu, Rs485.parse_modbus_rtu, Rs232.compute_modbus_crc, Rs485.compute_modbus_crc.
  destruct (len data <? 4); [done|].
  destruct (data.[0]); [mstep|done]. destruct (data.[1]); [mstep|done].
  destruct (slice data 2 _); [mstep|done]. destruct (read_at _ _ _); [mstep|done].
  destruct (slice data 0 _); [mstep|done]. by destruct (negb _).
Qed.

Lemma request_bytes addr func d :
  in_u 8 addr -> in_u 8 func -> bytes_ok d -> bytes_ok (addr :: func :: d).
Proof. intros. by apply bytes_ok_cons; [|apply bytes_ok_cons]. Qed.

Lemma request_parses now addr func d :
  in_u 8 addr -> in_u 8 func -> bytes_ok d ->
  Rs485.parse_modbus_rtu now (Rs485.request_frame addr func d) =
  Ret (Ok (sensor_message now (addr :: func :: d))).
Proof.
  intros Ha Hf Hd. unfold Rs485.request_frame. cbn [app].
  rewrite modbus_split by len_solve. unfold Rs485.compute_modbus_crc.
  rewrite from_to_le. change (8 * Z.of_nat 2) with 16.
  rewrite wrap_small by (by apply crc16_a001_range, request_bytes). by rewrite Z.eqb_refl.
Qed.

(** A byte changed in the covered part, or in the trailer. *)
Lemma request_covered_error now addr func d i x y :
  in_u 8 addr -> in_u 8 func -> bytes_ok d ->
  (addr :: func :: d) !! i = Some x -> in_u 8 y -> y <> x ->
  Rs485.parse_modbus_rtu now (<[i := y]> (addr :: func :: d) ++ to_le 2 (crc16_a001 (addr :: func :: d))) =
  Ret (Err Rs485.CrcMismatch).
Proof.
  intros Ha Hf Hd Hx Hy Hne. pose proof (request_bytes addr func d Ha Hf Hd) as Hok.
  pose proof (crc16_a001_range _ Hok) as Hr.
  apply list_elem_of_split_length in Hx as (pre & suf & Hs & ->). rewrite Hs in *.
  assert (Hne' : crc16_a001 (pre ++ y :: suf) <> crc16_a001 (pre ++ x :: suf)).
  { apply Forall_app in Hok as [Hpre Hxs]. inversion_clear Hxs. intros E. by apply crc16_a001_one in E. }
  rewrite insert_app_r_alt, Nat.sub_diag by done. cbn [list_insert insert].
  assert (Hl : exists b0 b1 pl, pre ++ y :: suf = b0 :: b1 :: pl).
  { destruct pre as [|p0 [|p1 pre]]; [destruct suf|..]; cbn in Hs |- *; eauto; simplify_eq. }
  destruct Hl as (b0 & b1 & pl & Hl). rewrite Hl in *. cbn [app].
  rewrite modbus_split by len_solve. rewrite from_to_le. change (8 * Z.of_nat 2) with 16.
  rewrite wrap_small by done. by rewrite (proj2 (Z.eqb_neq _ _)).
Qed.

Lemma request_trailer_error now addr func d tr :
  in_u 8 addr -> in_u 8 func -> bytes_ok d -> bytes_ok tr -> len tr = 2 ->
  tr <> to_le 2 (crc16_a001 (addr :: func :: d)) ->
  Rs485.parse_modbus_rtu now ((addr :: func :: d) ++ tr) = Ret (Err Rs485.CrcMismatch).
Proof.
  intros Ha Hf Hd Htr Hl Hne. cbn [app]. rewrite modbus_split by done.
  rewrite (proj2 (Z.eqb_neq _ _)); [done|]. intros E. apply Hne. rewrite E.
  replace 2%nat with (length tr) by (unfold len in Hl; lia). by rewrite to_from_le.
Qed.

(** The wire formats of the two RS-232 binary protocols. *)
Definition carrier_covered (ty : Z) (pl : bytes) : bytes := [67; 77] ++ to_be 2 (len pl) ++ ty :: pl.
Definition carrier_frame (ty : Z) (pl : bytes) : bytes :=
  carrier_covered ty pl ++ to_be 2 (crc16_a001 (carrier_covered ty pl)).
Definition thermo_covered (addr cmd : Z) (pl : bytes) : bytes := addr :: cmd :: pl ++ [3].
Definition thermo_frame (addr cmd : Z) (pl : bytes) : bytes :=
  2 :: thermo_covered addr cmd pl ++ [fold_left Z.lxor (thermo_covered addr cmd pl) 0].

Lemma len_carrier_covered ty pl : len (carrier_covered ty pl) = 5 + len pl.
Proof. unfold carrier_covered. len_solve. Qed.

Lemma carrier_covered_ok ty pl : in_u 8 ty -> bytes_ok pl -> bytes_ok (carrier_covered ty pl).
Proof.
  intros. unfold carrier_covered. apply bytes_ok_app; [by repeat constructor|].
  apply bytes_ok_app; [apply to_be_ok|by apply bytes_ok_cons].
Qed.

Lemma carrier_parses now ty pl rest :
  in_u 8 ty -> bytes_ok pl -> len pl < 2 ^ 16 ->
  Rs232.parse_carrier_micro_link now (carrier_frame ty pl ++ rest) =
  Ret (Ok (sensor_message now (ty :: pl))).
Proof.
  intros Hty Hpl Hlen. pose proof (len_nonneg pl). pose proof (len_nonneg rest).
  pose proof (len_carrier_covered ty pl) as Hc.
  pose proof (carrier_covered_ok ty pl Hty Hpl) as Hok.
  unfold carrier_frame. rewrite <- app_assoc.
  set (cov := carrier_covered ty pl) in *. set (tr := to_be 2 (crc16_a001 cov)).
  assert (Htr : len tr = 2) by (unfold tr; len_solve).
  unfold Rs232.parse_carrier_micro_link.
  assert (Hd : len (cov ++ tr ++ rest) = 7 + len pl + len rest) by len_solve. rewrite Hd.
  destruct (_ <? 5) eqn:E; breflect; [lia|]. clear E.
  rewrite slice_Ret by lia. mstep. rewrite sub_app_in by lia.
  change (sub cov 0 (2 - 0)) with [67; 77]. rewrite bool_decide_eq_true_2 by done. cbn [negb].
  rewrite read_at_Ret by lia. mstep. rewrite sub_app_in by lia.
  assert (Hlb : sub cov 2 2 = to_be 2 (len pl)) by (apply (sub_mid [67; 77]); len_solve).
  rewrite Hlb, from_to_be. change (8 * Z.of_nat 2) with 16. rewrite wrap_small by (split; lia).
  destruct (_ <? _) eqn:E; breflect; [lia|]. clear E.
  assert (Hat : at_ (cov ++ tr ++ rest) 4 = Ret ty).
  { rewrite at_app_l by lia. unfold cov, carrier_covered. rewrite !at_app_r by len_solve.
    autorewrite with lens. apply at_cons_0. }
  rewrite Hat. mstep. rewrite (slice_Ret _ 5) by lia. mstep. rewrite sub_app_in by lia.
  replace (5 + len pl - 5) with (len pl) by lia.
  assert (Hp : sub cov 5 (len pl) = pl).
  { unfold cov, carrier_covered. rewrite !sub_app_r by len_solve. autorewrite with lens.
    rewrite sub_cons by len_solve. apply sub_all. done. }
  rewrite Hp, read_at_Ret by lia. mstep. rewrite (sub_mid cov tr rest) by lia.
  rewrite (slice_Ret _ 0) by lia. mstep. rewrite sub_app_l by lia.
  unfold tr. rewrite from_to_be. change (8 * Z.of_nat 2) with 16.
  rewrite wrap_small by (by apply crc16_a001_range). unfold Rs232.compute_crc16.
  by rewrite Z.eqb_refl.
Qed.

Lemma carrier_rejects now b data :
  b <> 67 -> Rs232.parse_carrier_micro_link now (b :: data) = Ret (Err Rs232.InvalidFrame).
Proof.
  intros Hb. unfold Rs232.parse_carrier_micro_link. destruct (_ <? 5) eqn:E; breflect; [done|].
  rewrite slice_Ret by lia. mstep. rewrite bool_decide_eq_false_2; [done|].
  unfold sub. change (Z.to_nat (2 - 0)) with 2%nat. cbn. by intros [= ].
Qed.

Lemma thermo_parses now addr cmd pl :
  Rs232.parse_thermo_king now (thermo_frame addr cmd pl) =
  Ret (Ok (sensor_message now (addr :: cmd :: pl))).
Proof.
  unfold Rs232.parse_thermo_king, thermo_frame, thermo_covered.
  set (x := fold_left _ _ _). cbn [app]. rewrite <- app_assoc. cbn [app].
  set (d := 2 :: addr :: cmd :: pl ++ [3; x]).
  assert (Hd : len d = 5 + len pl) by (unfold d; len_solve). pose proof (len_nonneg pl).
  rewrite Hd. destruct (_ <? 5) eqn:E; breflect; [lia|]. clear E.
  assert (H0 : at_ d 0 = Ret 2) by done. assert (H1 : at_ d 1 = Ret addr) by done.
  assert (H2 : at_ d 2 = Ret cmd) by done.
  assert (Hs : d = (2 :: addr :: cmd :: pl) ++ [3; x]) by done.
  assert (He : at_ d (5 + len pl - 2) = Ret 3).
  { rewrite Hs, at_app_r by len_solve. autorewrite with lens. by replace (_ - _) with 0 by lia. }
  assert (Hx : at_ d (5 + len pl - 1) = Ret x).
  { rewrite Hs, at_app_r by len_solve. autorewrite with lens. by replace (_ - _) with 1 by lia. }
  rewrite H0. mstep. rewrite He. mstep. cbn [Z.eqb Pos.eqb negb orb].
  rewrite H1. mstep. rewrite H2. mstep. rewrite slice_Ret by lia. mstep. rewrite Hx. mstep.
  rewrite slice_Ret by lia. mstep.
  assert (Hp : sub d 3 (5 + len pl - 2 - 3) = pl)
    by (apply (sub_mid [2; addr; cmd] pl [3; x]); len_solve).
  assert (Hc : sub d 1 (5 + len pl - 1 - 1) = addr :: cmd :: pl ++ [3]).
  { replace d with ([2] ++ (addr :: cmd :: pl ++ [3]) ++ [x]) by (cbn; by rewrite <- app_assoc).
    apply sub_mid; len_solve. }
  rewrite Hp, Hc. unfold x. by rewrite Z.eqb_refl.
Qed.

Lemma thermo_rejects now b data :
  b <> 2 -> Rs232.parse_thermo_king now (b :: data) = Ret (Err Rs232.InvalidFrame).
Proof.
  intros Hb. unfold Rs232.parse_thermo_king. destruct (_ <? 5) eqn:E; breflect; [done|].
  rewrite at_cons_0. mstep. destruct (at_Ret (b :: data) (len (b :: data) - 2)) as (e & -> & _); [lia|].
  mstep. by rewrite (proj2 (Z.eqb_neq b 2)).
Qed.

(** No parser panics. *)
Lemma carrier_total now data : bytes_ok data -> exists r, Rs232.parse_carrier_micro_link now data = Ret r.
Proof.
  intros Hok. unfold Rs232.parse_carrier_micro_link. destruct (_ <? 5) eqn:E; breflect; [eauto|].
  rewrite slice_Ret by lia. mstep. destruct (negb _); [eauto|].
  rewrite read_at_Ret by lia. mstep.
  pose proof (from_be_range (sub data 2 2) ltac:(eauto with rbytes)) as Hr.
  destruct (_ <? _) eqn:E2; breflect; [eauto|]. unfold in_u in Hr.
  destruct (at_Ret data 4) as (? & -> & _); [lia|]. mstep.
  rewrite slice_Ret by lia. mstep. rewrite read_at_Ret by lia. mstep. rewrite slice_Ret by lia. mstep.
  destruct (negb _); eauto.
Qed.

Lemma thermo_total now data : exists r, Rs232.parse_thermo_king now data = Ret r.
Proof.
  unfold Rs232.parse_thermo_king. destruct (_ <? 5) eqn:E; breflect; [eauto|].
  destruct (at_Ret data 0) as (? & -> & _); [lia|]. mstep.
  destruct (at_Ret data (len data - 2)) as (? & -> & _); [lia|]. mstep.
  destruct (negb _ || negb _); [eauto|].
  destruct (at_Ret data 1) as (? & -> & _); [lia|]. mstep.
  destruct (at_Ret data 2) as (? & -> & _); [lia|]. mstep.
  rewrite slice_Ret by lia. mstep.
  destruct (at_Ret data (len data - 1)) as (? & -> & _); [lia|]. mstep.
  rewrite slice_Ret by lia. mstep. destruct (negb _); eauto.
Qed.

Lemma modbus_total now data : exists r, Rs485.parse_modbus_rtu now data = Ret r.
Proof.
  unfold Rs485.parse_modbus_rtu. destruct (_ <? 4) eqn:E; breflect; [eauto|].
  destruct (at_Ret data 0) as (? & -> & _); [lia|]. mstep.
  destruct (at_Ret data 1) as (? & -> & _); [lia|]. mstep.
  rewrite slice_Ret by lia. mstep. rewrite read_at_Ret by lia. mstep.
  rewrite slice_Ret by lia. mstep. destruct (negb _); eauto.
Qed.

Lemma receive_total now data : bytes_ok data -> exists o, Rs232.receive now data = Ret o.
Proof.
  intros Hok. unfold Rs232.receive. destruct (carrier_total now data Hok) as [[m|e] ->]; mstep; [eauto|].
  destruct (thermo_total now data) as [[m|e'] ->]; mstep; [eauto|].
  rewrite modbus_same. destruct (modbus_total now data) as [[m|e''] ->]; mstep; [eauto|].
  destruct e''; eauto.
Qed.

(** Every parser that accepts builds a [sensor_message]. *)
Ltac parser_inv :=
  repeat match goal with
  | H : _ ≫= _ = Ret _ |- _ => apply bind_Ret in H as (? & _ & H)
  | H : (if ?b then _ else _) = Ret _ |- _ => destruct b
  end; try done; inv_ret; eauto.

Lemma carrier_message now data m :
  Rs232.parse_carrier_micro_link now data = Ret (Ok m) -> exists d, m = sensor_message now d.
Proof. unfold Rs232.parse_carrier_micro_link. intros. parser_inv. Qed.
Lemma thermo_message now data m :
  Rs232.parse_thermo_king now data = Ret (Ok m) -> exists d, m = sensor_message now d.
Proof. unfold Rs232.parse_thermo_king. intros. parser_inv. Qed.
Lemma modbus_message now data m :
  Rs485.parse_modbus_rtu now data = Ret (Ok m) -> exists d, m = sensor_message now d.
Proof. unfold Rs485.parse_modbus_rtu. intros. parser_inv. Qed.

Lemma receive_message now data m :
  Rs232.receive now data = Ret (Some m) -> exists d, m = sensor_message now d.
Proof.
  unfold Rs232.receive. intros Hr. apply bind_Ret in Hr as ([m1|e1] & H1 & Hr).
  { inv_ret. by eapply carrier_message. }
  apply bind_Ret in Hr as ([m2|e2] & H2 & Hr); [inv_ret; by eapply thermo_message|].
  rewrite modbus_same in Hr. destruct (Rs485.parse_modbus_rtu now data) as [[m3|e3]|] eqn:E; cbn in Hr.
  - injection Hr as ->. by eapply modbus_message.
  - by destruct e3.
  - done.
Qed.

(** ** The loops *)

Definition readings_ok : list reading -> Prop :=
  Forall (fun r => match r with Got _ frame => bytes_ok frame | _ => True end).

(** The frames read before the first error of the port. *)
Fixpoint frames (rs : list reading) : list (Z * bytes) :=
  match rs with
  | [] => []
  | Got now frame :: rs => (now, frame) :: frames rs
  | Nothing :: rs | TimedOut :: rs => frames rs
  | Failed _ :: _ => []
  end.
Definition failure (rs : list reading) : option string :=
  head (omap (fun r => match r with Failed e => Some e | _ => None end) rs).

(** The message made of a frame, if the parsers accept it. *)
Definition delivered_232 (x : Z * bytes) : option Message :=
  match Rs232.receive x.1 x.2 with Ret o => o | Panic => None end.
Definition delivered_485 (x : Z * bytes) : option Message :=
  match Rs485.parse_modbus_rtu x.1 x.2 with Ret (Ok m) => Some m | _ => None end.

Lemma rs232_operational rs l e :
  Rs232.start rs = Ret (l, e) -> Forall (fun m => priority m = Operational) l.
Proof.
  revert l. induction rs as [|x rs IH]; intros l Hs; [by injection Hs as <- <-|].
  destruct x as [now f| | |t]; cbn [Rs232.start] in Hs; [|by apply IH..|by injection Hs as <- <-].
  apply bind_Ret in Hs as (o & Ho & Hs). apply bind_Ret in Hs as ([l1 e1] & H1 & Hs). injection Hs as <- <-.
  apply Forall_app_2; [|by apply IH]. destruct o as [m|]; [|done].
  apply receive_message in Ho as [d ->]. by repeat constructor.
Qed.

Lemma rs485_operational r rs l e r' :
  Rs485.start r rs = Ret (l, e, r') -> Forall (fun m => priority m = Operational) l.
Proof.
  revert r l. induction rs as [|x rs IH]; intros r l Hs; [by injection Hs as <- <- <-|].
  destruct x as [now f| | |t]; cbn [Rs485.start] in Hs; [|by eapply IH..|by injection Hs as <- <- <-].
  apply bind_Ret in Hs as ([o r1] & Ho & Hs). apply bind_Ret in Hs as ([[l1 e1] r2] & H1 & Hs).
  injection Hs as <- <- <-. apply Forall_app_2; [|by eapply IH].
  unfold Rs485.receive in Ho. apply bind_Ret in Ho as (m & Hm & Ho). injection Ho as <- <-.
  destruct m as [m|]; [|done]. apply modbus_message in Hm as [d ->]. by repeat constructor.
Qed.

(** ** Properties *)

(** C35: The reader loops lose nothing they understand.  Whatever the ports give, neither
    loop panics; each sends exactly the messages of the frames its parsers accept, in
    order, up to the first error of the port, which it returns; all of them are
    operational messages; and the RS-485 port is left in receive mode. *)
Theorem serial_loops r rs (Hok : readings_ok rs) :
  Rs232.start rs = Ret (omap delivered_232 (frames rs), Rs232.SerialRead <$> failure rs) /\
  Rs485.start r rs = Ret (omap delivered_485 (frames rs), Rs485.SerialRead <$> failure rs,
                          Rs485.mk false (Rs485.written r)) /\
  Forall (fun m => priority m = Operational)
    (omap delivered_232 (frames rs) ++ omap delivered_485 (frames rs)).
Proof.
  assert (E1 : Rs232.start rs = Ret (omap delivered_232 (frames rs), Rs232.SerialRead <$> failure rs)).
  { induction Hok as [|x rs Hx _ IH]; [done|].
    destruct x as [now f| | |e]; cbn [Rs232.start frames]; [|exact IH..|done].
    destruct (receive_total now f Hx) as [o Ho]. rewrite Ho. mstep. rewrite IH. mstep.
    unfold failure. cbn. unfold delivered_232 at 2. cbn. rewrite Ho. by destruct o. }
  assert (E2 : Rs485.start r rs = Ret (omap delivered_485 (frames rs), Rs485.SerialRead <$> failure rs,
                                       Rs485.mk false (Rs485.written r))).
  { clear. revert r. induction rs as [|x rs IH]; intros r; [done|].
    destruct x as [now f| | |e]; cbn [Rs485.start frames];
      [|exact (IH (Rs485.mk false (Rs485.written r)))..|done].
    unfold Rs485.receive. destruct (modbus_total now f) as [o Ho]. rewrite Ho. mstep. rewrite IH. mstep.
    unfold failure. cbn. unfold delivered_485 at 2. cbn. rewrite Ho. by destruct o. }
  split_and!; [done..|]. apply Forall_app_2; [by eapply rs232_operational|by eapply rs485_operational].
Qed.

Lemma serial_loops_witness :
  Rs485.start (Rs485.mk true []) [TimedOut; Got 7 [1; 3; 0; 0; 0; 10; 0xC5; 0xCD]; Failed "gone"; Nothing]
  = Ret ([mkMessage IridiumSBD [1; 3; 0; 0; 0; 10] Operational 7 7 7], Some (Rs485.SerialRead "gone"),
         Rs485.mk false []).
Proof.
  apply (serial_loops (Rs485.mk true [])
    [TimedOut; Got 7 [1; 3; 0; 0; 0; 10; 0xC5; 0xCD]; Failed "gone"; Nothing]).
  unfold readings_ok, bytes_ok. repeat constructor; compute_done.
Defined.

(** a Modbus exchange.  A request that was written returns the port to receive
    mode, and the frame on the wire is understood by both readers as address,
    function and data (cut to 340 bytes); replacing any single byte of the frame,
    checksum included, makes both report a checksum mismatch.  When the write
    fails, the direction pin stays in transmit mode. *)
Theorem modbus_exchange r now addr func d
  (Ha : in_u 8 addr) (Hf : in_u 8 func) (Hd : bytes_ok d) :
  let frame := Rs485.request_frame addr func d in
  Rs485.send_modbus_request r addr func d (Ok tt) =
    (Ok tt, Rs485.mk false (Rs485.written r ++ [frame])) /\
  Rs485.parse_modbus_rtu now frame = Ret (Ok (sensor_message now (addr :: func :: d))) /\
  Rs232.parse_modbus_rtu now frame = Ret (Ok (sensor_message now (addr :: func :: d))) /\
  (forall i x y, frame !! i = Some x -> in_u 8 y -> y <> x ->
     Rs485.parse_modbus_rtu now (<[i := y]> frame) = Ret (Err Rs485.CrcMismatch) /\
     Rs232.parse_modbus_rtu now (<[i := y]> frame) = Ret (Err Rs232.CrcMismatch)) /\
  (forall e, Rs485.de_re (Rs485.send_modbus_request r addr func d (Err e)).2 = true).
Proof.
  intros frame. split; [done|]. rewrite !modbus_same. unfold frame at 1 2.
  rewrite request_parses by done. do 2 (split; [done|]). split; [|done].
  intros i x y Hx Hy Hne. rewrite modbus_same.
  enough (Rs485.parse_modbus_rtu now (<[i:=y]> frame) = Ret (Err Rs485.CrcMismatch)) as -> by done.
  change frame with ((addr :: func :: d) ++ to_le 2 (crc16_a001 (addr :: func :: d))) in *.
  destruct (decide (i < length (addr :: func :: d))%nat) as [Hi|Hi].
  - rewrite insert_app_l by done. rewrite lookup_app_l in Hx by done. by eapply request_covered_error.
  - rewrite insert_app_r_alt by lia. rewrite lookup_app_r in Hx by lia.
    set (j := (i - length (addr :: func :: d))%nat) in *.
    apply request_trailer_error; try done.
    + apply Forall_insert; [apply to_le_ok|done].
    + unfold len. by rewrite length_insert.
    + intros E. apply (f_equal (lookup j)) in E.
      rewrite list_lookup_insert_eq in E by (by eapply lookup_lt_Some). congruence.
Qed.

Lemma modbus_exchange_witness :
  Rs485.parse_modbus_rtu 7 (Rs485.request_frame 1 3 [0; 0; 0; 10]) =
    Ret (Ok (mkMessage IridiumSBD [1; 3; 0; 0; 0; 10] Operational 7 7 7)) /\
  Rs485.request_frame 1 3 [0; 0; 0; 10] = [1; 3; 0; 0; 0; 10; 0xC5; 0xCD].
Proof.
  destruct (modbus_exchange (Rs485.mk false []) 7 1 3 [0; 0; 0; 10]) as (_ & H & _).
  - unfold in_u. lia.
  - unfold in_u. lia.
  - apply (bool_decide_unpack _). vm_compute. reflexivity.
  - split; [exact H|vm_compute; reflexivity].
Defined.

(** the RS-232 reader.  No input makes it panic; a Carrier Micro-Link frame,
    whatever follows it, is delivered as type and payload; a Thermo King frame
    whose address is anything, as address, command and data; and a Modbus frame
    is delivered as such if its address is neither 0x02 nor 0x43, the first bytes
    of the other two formats. *)
Theorem rs232_receive now :
  (forall data, bytes_ok data -> exists o, Rs232.receive now data = Ret o) /\
  (forall ty pl rest, in_u 8 ty -> bytes_ok pl -> len pl < 2 ^ 16 ->
     Rs232.receive now (carrier_frame ty pl ++ rest) = Ret (Some (sensor_message now (ty :: pl)))) /\
  (forall addr cmd pl,
     Rs232.receive now (thermo_frame addr cmd pl) =
     Ret (Some (sensor_message now (addr :: cmd :: pl)))) /\
  (forall addr func d, in_u 8 addr -> in_u 8 func -> bytes_ok d -> addr <> 0x02 -> addr <> 0x43 ->
     Rs232.receive now (Rs485.request_frame addr func d) =
     Ret (Some (sensor_message now (addr :: func :: d)))).
Proof.
  split; [apply receive_total|]. unfold Rs232.receive. split; [|split].
  - intros. rewrite carrier_parses by done. done.
  - intros addr cmd pl. pose proof (carrier_rejects now 2 (thermo_covered addr cmd pl ++
      [fold_left Z.lxor (thermo_covered addr cmd pl) 0]) ltac:(done)) as Hr.
    change (2 :: _) with (thermo_frame addr cmd pl) in Hr. rewrite Hr. mstep. by rewrite thermo_parses.
  - intros addr func d Ha Hf Hd H2 H67. 
    set (tl := func :: d ++ to_le 2 (crc16_a001 (addr :: func :: d))).
    pose proof (carrier_rejects now addr tl H67) as Hr1. pose proof (thermo_rejects now addr tl H2) as Hr2.
    change (addr :: tl) with (Rs485.request_frame addr func d) in Hr1, Hr2.
    rewrite Hr1. mstep. rewrite Hr2. mstep. by rewrite modbus_same, request_parses.
Qed.
