(* ===== verification/Lora.v ===== *)
(** * The LoRa mesh aggregator ([src/src/lora/mesh.rs], [src/src/lora/node_registry.rs])

    Decoding and authentication of sensor frames and the registry of nodes.  The
    task that gets its frames from the radio is in [Mesh].  HMAC-SHA256 is a
    parameter.  Two behaviours of the asynchronous runtime matter and are
    modelled: [blocking_lock] panics inside an asynchronous task (the argument
    [in_task]), and calling an [async fn] without awaiting it does nothing. *)

From S2P Require Import Prelude Protocol.

(** [Hmac<Sha256>]: the 32-byte code of a text under a key. *)
Class HmacCrate := hmac_sha256 : bytes -> bytes -> bytes.
Class HmacLaws `{HmacCrate} : Prop := {
  hmac_len : forall key text, len (hmac_sha256 key text) = 32
}.

Module NodeRegistry.

Record LoRaNode := mkNode {
  node_id : Z;
  session_key : bytes; (* [u8; 16] *)
  last_seen : Z;
  sensor_type : string
}.

Record t := mk { nodes : gmap Z LoRaNode }.

Definition new : t := mk ∅.

Definition register (r : t) (node : LoRaNode) : t := mk (<[node_id node := node]> (nodes r)).

(** [get_node] takes the lock with [blocking_lock]. *)
Definition get_node (in_task : bool) (r : t) (id : Z) : outcome (option LoRaNode) :=
  if in_task then Panic else Ret (nodes r !! id).

(** [update_last_seen], awaited at time [now]. *)
Definition update_last_seen (r : t) (now id : Z) : t :=
  match nodes r !! id with
  | Some n => mk (<[id := mkNode (node_id n) (session_key n) now (sensor_type n)]> (nodes r))
  | None => r
  end.

Definition remove (r : t) (id : Z) : t := mk (delete id (nodes r)).

Definition get_all (r : t) : list LoRaNode := snd <$> map_to_list (nodes r).

(** [now - n.last_seen > 3_600_000] in [u64] *)
Definition get_stale (r : t) (now : Z) : list LoRaNode :=
  List.filter (fun n => 3600000 <? wrap 64 (now - last_seen n)) (get_all r).

Definition count (r : t) : Z := Z.of_nat (size (nodes r)).

End NodeRegistry.

Module LoRaMesh.

Inductive MeshError := InvalidFrame | UnknownNode | MicMismatch.

Section ops.
Context `{HmacCrate}.

Definition verify_mic (data mic key : bytes) : outcome bool :=
  let result := hmac_sha256 key data in
  head ← result.[0 ~> 4];
  Ret (bool_decide (head = mic)).

(** [decode_sensor_frame].  The call of [update_last_seen] is not awaited, so it
    leaves the registry as it was. *)
Definition decode_sensor_frame (in_task : bool) (now : Z) (data : bytes) (registry : NodeRegistry.t)
    : outcome (result Message MeshError) :=
  if len data <? 12 then Ret (Err InvalidFrame) else
  idb ← read_at data 0 4;
  let node_id := from_be idb in
  sb ← read_at data 4 2;
  let seq := from_be sb in
  payload_type ← data.[6];
  payload ← data.[7 ~> len data - 4];
  mic ← slice_from data (len data - 4);
  node ← NodeRegistry.get_node in_task registry node_id;
  match node with
  | None => Ret (Err UnknownNode)
  | Some node =>
      covered ← data.[0 ~> len data - 4];
      ok ← verify_mic covered mic (NodeRegistry.session_key node);
      if negb ok then Ret (Err MicMismatch) else
      let message_data := to_be 4 node_id ++ to_be 2 seq ++ [payload_type] ++ payload in
      Ret (Ok (message_new now LoRaMesh message_data Operational))
  end.

(** The body of the task spawned by [start] for a received frame: what it sends. *)
Definition on_frame (now : Z) (data : bytes) (registry : NodeRegistry.t) : outcome (option Message) :=
  r ← decode_sensor_frame true now data registry;
  Ret (match r with Ok message => Some message | Err _ => None end).

End ops.

(** The acknowledgement handed to the radio. *)
Definition ack_packet (node_id seq : Z) : bytes := to_be 4 node_id ++ to_be 2 seq.

End LoRaMesh.

Import LoRaMesh.

(** ** Lemmas *)

(** The message repeats the covered bytes of the frame. *)
Lemma mesh_message_data data x :
  bytes_ok data -> 11 <= len data -> at_ data 6 = Ret x ->
  to_be 4 (from_be (sub data 0 4)) ++ to_be 2 (from_be (sub data 4 2)) ++ [x]
    ++ sub data 7 (len data - 4 - 7) = sub data 0 (len data - 4).
Proof.
  intros Hok Hlen Hx.
  rewrite !to_from_be by (eauto with rbytes || (rewrite len_sub; lia)).
  destruct (sub_step data 6 (len data - 4 - 7)) as (y & Hy & Hs); [lia..|].
  assert (x = y) as -> by congruence.
  change ([y] ++ ?l) with (y :: l). change 7 with (6 + 1) at 1. rewrite <- Hs.
  replace (1 + (len data - 4 - 7)) with (len data - 10) by lia.
  change 6 with (4 + 2) at 1. rewrite sub_app_sub by lia. change 4 with (0 + 4) at 2.
  rewrite sub_app_sub by lia. f_equal. lia.
Qed.

(** The size guard of [Message::new] at the limit of the mesh. *)
Lemma mesh_message now body :
  message_new now LoRaMesh body Operational =
  mkMessage LoRaMesh (sub body 0 (Z.min 250 (len body))) Operational now now now.
Proof.
  unfold message_new. change (max_message_size LoRaMesh) with 250. pose proof (len_nonneg body).
  destruct (250 <? len body) eqn:E; breflect; [by rewrite Z.min_l by lia|].
  rewrite Z.min_r by lia. by rewrite sub_all.
Qed.

(** ** Properties *)

Section mesh.
Context `{HmacCrate, !HmacLaws}.

(** C37: mesh frames.  Called outside a task, the decoder never panics and delivers
    exactly the frames of at least 12 bytes of a registered node whose last four
    bytes are the truncated HMAC of the rest under that node's key; the message
    carries that rest up to its 250th byte: all of it for frames of at most 254
    bytes, while the 255 bytes the radio can receive lose their last one, which the
    code covers, without an error.  Inside the task that [start] spawns, every
    frame of at least 12 bytes panics at the registry's [blocking_lock]. *)
Theorem mesh_decode registry now data (Hok : bytes_ok data) :
  let body := sub data 0 (len data - 4) in
  decode_sensor_frame false now data registry = Ret (
    if len data <? 12 then Err InvalidFrame else
    match NodeRegistry.nodes registry !! from_be (sub data 0 4) with
    | None => Err UnknownNode
    | Some node =>
        if bool_decide (sub data (len data - 4) 4 =
                        sub (hmac_sha256 (NodeRegistry.session_key node) body) 0 4)
        then Ok (mkMessage LoRaMesh (sub body 0 (Z.min 250 (len body))) Operational now now now)
        else Err MicMismatch
    end) /\
  (12 <= len data <= 254 -> sub body 0 (Z.min 250 (len body)) = body) /\
  on_frame now data registry = (if len data <? 12 then Ret None else Panic).
Proof.
  intros body.
  assert (Hcut : 12 <= len data <= 254 -> sub body 0 (Z.min 250 (len body)) = body).
  { intros Hl. assert (len body = len data - 4) by (unfold body; rewrite len_sub; lia).
    rewrite Z.min_r by lia. by apply sub_all. }
  unfold on_frame, decode_sensor_frame.
  destruct (len data <? 12) eqn:E; breflect; [done|].
  rewrite !read_at_Ret by lia. mstep. destruct (at_Ret data 6) as (x & Hx & _); [lia|].
  rewrite Hx. mstep. rewrite (slice_Ret data 7) by lia. mstep.
  rewrite slice_from_Ret by lia. mstep. split; [|done]. clear Hcut.
  cbn [NodeRegistry.get_node]. mstep. destruct (NodeRegistry.nodes registry !! _) as [node|]; [|done].
  rewrite slice_Ret by lia. mstep. unfold verify_mic.
  rewrite slice_Ret by (rewrite ?hmac_len; lia). mstep.
  replace (len data - 4 - 0) with (len data - 4) by lia. fold body.
  replace (len data - (len data - 4)) with 4 by lia. change (4 - 0) with 4.
  rewrite (mesh_message_data data x) by (done || lia). fold body.
  rewrite (bool_decide_ext (sub (hmac_sha256 _ _) 0 4 = _) (sub data (len data - 4) 4 =
    sub (hmac_sha256 (NodeRegistry.session_key node) body) 0 4)) by (split; by symmetry).
  by rewrite mesh_message; destruct (bool_decide _).
Qed.
End mesh.

(** A code that repeats the key, for the witness. *)
Definition hmac_demo : HmacCrate := fun key _ => take 32 (key ++ fill 0 32).

Lemma hmac_demo_laws : @HmacLaws hmac_demo.
Proof.
  constructor. intros key text. unfold hmac_sha256, hmac_demo, len, fill.
  rewrite length_take, length_app, length_replicate. lia.
Qed.

Section witnesses.
#[local] Existing Instances hmac_demo hmac_demo_laws.

Lemma mesh_decode_witness :
  decode_sensor_frame false 5 [0; 0; 0; 9; 0; 1; 3; 42; 1; 2; 3; 4]
    (NodeRegistry.register NodeRegistry.new (NodeRegistry.mkNode 9 (seqZ 1 16) 0 "temp")) =
  Ret (Ok (mkMessage LoRaMesh [0; 0; 0; 9; 0; 1; 3; 42] Operational 5 5 5)).
Proof.
  destruct (mesh_decode
    (NodeRegistry.register NodeRegistry.new (NodeRegistry.mkNode 9 (seqZ 1 16) 0 "temp"))
    5 [0; 0; 0; 9; 0; 1; 3; 42; 1; 2; 3; 4]) as (H & _).
  - apply (bool_decide_unpack _). vm_compute. reflexivity.
  - rewrite H. vm_compute. reflexivity.
Defined.
End witnesses.
