(* ===== verification/Gateway.v ===== *)
(** * The gateway ([src/src/gateway.rs])

    The composition of all components: what happens to a message from
    [Gateway::send] to the uplink.  Each handler of the source is one definition
    on the gateway's state; the handlers of concurrent tasks are run one at a
    time.  Everything a handler reads from outside (clocks, the outcome of HTTP
    requests) is in the argument [env], one value per reading.  The uplink is the
    list [posts] of request bodies that left the gateway, [pings] the telemetry
    pings; the queues towards the two batchers are [batcher_in] and
    [transmission_in]. *)

From Stdlib Require Import SpecFloat.
From S2P Require Import Prelude Crc Protocol Externals Utf8 AstsProtobuf Translator Cache.
From S2P Require Import Reliability Snapshot Float64 Bitemporal Sharding ClockReconciliation.
From S2P Require Import Cadence Metrics.

Module Ewma.

(** The literal [0.05], and [3.0]. *)
Definition EWMA_ALPHA : f64 := f64_div (f64_of_Z 5) (f64_of_Z 100).
Definition EWMA_SIGMA : f64 := f64_of_Z 3.

Record t := mk { spread : f64; abs_dev : f64; initialized : bool }.

Definition new : t := mk (f64_of_Z 0) (f64_of_Z 0) false.

Definition update (e : t) (spread_ms : Z) : t :=
  let s := f64_of_Z spread_ms in
  if negb (initialized e) then mk s (SFabs s) true else
  let prev := spread e in
  let one_minus := f64_sub (f64_of_Z 1) EWMA_ALPHA in
  mk (f64_add (f64_mul EWMA_ALPHA s) (f64_mul one_minus prev))
     (f64_add (f64_mul EWMA_ALPHA (SFabs (f64_sub s prev))) (f64_mul one_minus (abs_dev e)))
     (initialized e).

Definition adaptive_threshold_ms (e : t) (protocol_base_ms : Z) : Z :=
  if negb (initialized e) then protocol_base_ms else
  let adaptive := as_i64 (f64_add (spread e) (f64_mul EWMA_SIGMA (abs_dev e))) in
  Z.max protocol_base_ms adaptive.

End Ewma.

Module Gateway.

(** The JSON object sent for one message. *)
Record Body := mkBody {
  b_protocol : string;
  b_data : bytes;       (* hexadecimal text *)
  b_priority : Z;
  b_t_event : Z;
  b_t_system : Z
}.

(** The two endpoints: [/messages] and [/messages/batch]. *)
Inductive Request := PostMessage (b : Body) | PostBatch (bs : list Body).

Definition priority_val (p : Priority) : Z :=
  match p with Emergency => 0 | SafetyCritical => 1 | Operational => 2 | Diagnostic => 3 end.

Definition body `{HexEncodeCrate} (m : Message) : Body :=
  mkBody (protocol_display (protocol m)) (hex_encode (data m)) (priority_val (priority m))
    (t_event m) (t_system m).

(** The JSON object of a telemetry ping. *)
Record Ping := mkPing {
  p_protocol : string;
  p_t_event : Z;
  p_t_system : Z;
  p_cache_hit_rate : f64;
  p_avg_latency_ms : Z;
  p_errors : Z
}.

Record t := mk {
  translator_pool : TranslatorPool.t;
  batcher_in : list Message;
  cache : AsyncCache.t;
  circuit_breaker : Breaker.t;
  metrics : Metrics.t;
  shard_manager : ShardManager.t;
  snapshot_manager : SnapshotManager.t;
  bitemporal_store : BiTemporalStore.t;
  cadence_translator : CadenceTranslator.t;
  clock_reconciler : ClockReconciler.t;
  ewma_state : gmap Protocol Ewma.t;
  asts_credentials : bool;  (* present? *)
  telemetry : bool;         (* enabled, with an endpoint *)
  transmission_in : list Message;
  posts : list Request;
  pings : list Ping
}.

(** Readings of the outside world; the [nat] is the position of the message in
    the batch, or of the request. *)
Record env := mkEnv {
  reconcile_ms : nat -> Z;       (* wall clock *)
  snapshot_ms : Z;
  translate_ms : nat -> Z;
  cache_at : nat -> Z;           (* monotonic clock *)
  lookup_at : nat -> Z;
  cadence_at : nat -> Z * Z;
  breaker_ms : nat -> Z * Z;     (* ms since startup: on entry, on failure *)
  http : nat -> result unit string;
  latency_ms : Z
}.

(** Component updates. *)
Definition set_pool (g : t) x := mk x (batcher_in g) (cache g) (circuit_breaker g) (metrics g)
  (shard_manager g) (snapshot_manager g) (bitemporal_store g) (cadence_translator g)
  (clock_reconciler g) (ewma_state g) (asts_credentials g) (telemetry g) (transmission_in g)
  (posts g) (pings g).
Definition set_batcher (g : t) x := mk (translator_pool g) x (cache g) (circuit_breaker g) (metrics g)
  (shard_manager g) (snapshot_manager g) (bitemporal_store g) (cadence_translator g)
  (clock_reconciler g) (ewma_state g) (asts_credentials g) (telemetry g) (transmission_in g)
  (posts g) (pings g).
Definition set_cache (g : t) x := mk (translator_pool g) (batcher_in g) x (circuit_breaker g) (metrics g)
  (shard_manager g) (snapshot_manager g) (bitemporal_store g) (cadence_translator g)
  (clock_reconciler g) (ewma_state g) (asts_credentials g) (telemetry g) (transmission_in g)
  (posts g) (pings g).
Definition set_metrics (g : t) x := mk (translator_pool g) (batcher_in g) (cache g) (circuit_breaker g) x
  (shard_manager g) (snapshot_manager g) (bitemporal_store g) (cadence_translator g)
  (clock_reconciler g) (ewma_state g) (asts_credentials g) (telemetry g) (transmission_in g)
  (posts g) (pings g).
Definition set_shards (g : t) x := mk (translator_pool g) (batcher_in g) (cache g) (circuit_breaker g)
  (metrics g) x (snapshot_manager g) (bitemporal_store g) (cadence_translator g)
  (clock_reconciler g) (ewma_state g) (asts_credentials g) (telemetry g) (transmission_in g)
  (posts g) (pings g).
Definition set_snapshots (g : t) x := mk (translator_pool g) (batcher_in g) (cache g) (circuit_breaker g)
  (metrics g) (shard_manager g) x (bitemporal_store g) (cadence_translator g)
  (clock_reconciler g) (ewma_state g) (asts_credentials g) (telemetry g) (transmission_in g)
  (posts g) (pings g).
Definition set_store (g : t) x := mk (translator_pool g) (batcher_in g) (cache g) (circuit_breaker g)
  (metrics g) (shard_manager g) (snapshot_manager g) x (cadence_translator g)
  (clock_reconciler g) (ewma_state g) (asts_credentials g) (telemetry g) (transmission_in g)
  (posts g) (pings g).
Definition set_routing (g : t) ct ew := mk (translator_pool g) (batcher_in g) (cache g) (circuit_breaker g)
  (metrics g) (shard_manager g) (snapshot_manager g) (bitemporal_store g) ct
  (clock_reconciler g) ew (asts_credentials g) (telemetry g) (transmission_in g)
  (posts g) (pings g).
Definition set_uplink (g : t) cb ps pg tx := mk (translator_pool g) (batcher_in g) (cache g) cb
  (metrics g) (shard_manager g) (snapshot_manager g) (bitemporal_store g) (cadence_translator g)
  (clock_reconciler g) (ewma_state g) (asts_credentials g) (telemetry g) tx ps pg.

(** [Gateway::new]: eight shards of 1000, seven of them given to workers. *)
Definition new (now cache_ttl : Z) (credentials telemetry : bool) : t :=
  let shards := ShardManager.new now 8 1000 in
  let shards := fold_left (fun s i => (ShardManager.get_receiver s i).2) (seqZ 1 7) shards in
  mk (TranslatorPool.new 8) [] (AsyncCache.new 1000 cache_ttl)
    (Breaker.new 5 (30 * 1000000000)) Metrics.new shards
    (SnapshotManager.new 100 300000) (BiTemporalStore.new 10000)
    CadenceTranslator.with_defaults (ClockReconciler.new 1000 300000 ClockReconciler.LocalClock)
    ∅ credentials telemetry [] [] [].

(** [djb2_hash] *)
Definition djb2_hash (data : bytes) : Z :=
  fold_left (fun h b => wrap 64 (wrap 64 (h * 33) + b)) data 5381.

(** The reconciliation of one message. *)
Definition reconciled (g : t) (now : Z) (m : Message) : Message :=
  match ClockReconciler.reconcile (clock_reconciler g) now (djb2_hash (data m)) (t_event m) with
  | Some corrected => with_t_event m corrected
  | None => m
  end.

(** The request and its book-keeping, common to [send_to_asts] and
    [send_batch_to_asts]; [i] is the number of the request. *)
Definition post (g : t) (ev : env) (i : nat) (request : Request) : t :=
  if asts_credentials g then
    let '(r, cb) := Breaker.call (circuit_breaker g) (breaker_ms ev i).1 (breaker_ms ev i).2 (http ev i) in
    match r with
    | Ok _ => set_uplink (set_metrics g (Metrics.record_protocol (metrics g) ASTSpaceMobile)) cb
                (posts g ++ [request]) (pings g) (transmission_in g)
    | Err Breaker.EOpen => set_uplink (set_metrics g (Metrics.record_error (metrics g))) cb
                (posts g) (pings g) (transmission_in g)
    | Err (Breaker.Inner _) => set_uplink (set_metrics g (Metrics.record_error (metrics g))) cb
                (posts g ++ [request]) (pings g) (transmission_in g)
    end
  else g.

Definition send_telemetry_ping (g : t) (m : Message) : t :=
  if telemetry g then
    let snapshot := Metrics.snapshot (metrics g) in
    let p := mkPing (protocol_display (protocol m)) (t_event m) (t_system m)
               (Metrics.s_cache_hit_rate snapshot) (Metrics.s_avg_latency_ms snapshot)
               (Metrics.errors (Metrics.s_counters snapshot)) in
    set_uplink g (circuit_breaker g) (posts g) (pings g ++ [p]) (transmission_in g)
  else g.

Section crates.
Context `{CrcCrate, HexCrate, HexEncodeCrate, ZstdCrate, NomCrate}.

Definition send_to_asts (g : t) (ev : env) (i : nat) (m : Message) : t :=
  send_telemetry_ping (post g ev i (PostMessage (body m))) m.

Definition send_batch_to_asts (g : t) (ev : env) (messages : list Message) : t :=
  match messages with
  | [] => g
  | first :: _ =>
      let g := set_metrics g (Metrics.record_transmission_batch (metrics g) (len messages)) in
      send_telemetry_ping (post g ev 0 (PostBatch (map body messages))) first
  end.

Definition process_emergency (g : t) (ev : env) (message : Message) : outcome t :=
  let device_id := djb2_hash (data message) in
  let message := reconciled g (reconcile_ms ev 0) message in
  let g := set_store g (BiTemporalStore.store (bitemporal_store g) message) in
  let g := set_metrics g (Metrics.record_protocol (metrics g) (protocol message)) in
  let g := set_shards g (ShardManager.push_deadzone (shard_manager g) message).2 in
  let g := set_snapshots g (SnapshotManager.create_snapshot (snapshot_manager g) (snapshot_ms ev)
             [message] (protocol message) device_id).2 in
  r ← Translator.translate_sync (translate_ms ev 0) message;
  let g :=
    match r with
    | Ok translated =>
        let g := set_cache g (AsyncCache.set (cache g) (cache_at ev 0) (protocol message)
                                (data message) translated) in
        send_to_asts g ev 0 translated
    | Err _ => set_metrics g (Metrics.record_error (metrics g))
    end in
  Ret (set_metrics g (Metrics.record_latency (metrics g) (latency_ms ev))).

(** Step 3 of [process_incoming_batch] for one message: EWMA, then the spread
    test, then the cadence rules.  Returns the two partitions it adds to. *)
Definition route (ev : env) (i : nat) (ct : CadenceTranslator.t) (ew : gmap Protocol Ewma.t) (msg : Message)
    : outcome (list Message * list Message * CadenceTranslator.t * gmap Protocol Ewma.t) :=
  let e := Ewma.update (default Ewma.new (ew !! protocol msg)) (spread_ms msg) in
  let ew := <[protocol msg := e]> ew in
  let threshold := Ewma.adaptive_threshold_ms e (spread_burst_threshold_ms (protocol msg)) in
  if threshold <? spread_ms msg then Ret ([msg], [], ct, ew) else
  if bool_decide (protocol msg = IridiumSBD) && negb (bool_decide (priority msg = Emergency)) then
    '(action, ct) ← CadenceTranslator.translate_message ct (cadence_at ev i).1 (cadence_at ev i).2
                      "telemetry" IridiumSBD (priority msg);
    Ret (match action with
         | ADrop => ([], [], ct, ew)
         | ADuplicate count => ([], fill msg count, ct, ew)
         | ASend => ([], [msg], ct, ew)
         | ABuffer _ => ([], [msg], ct, ew)
         end)
  else Ret ([], [msg], ct, ew).

Fixpoint route_all (ev : env) (i : nat) (ct : CadenceTranslator.t) (ew : gmap Protocol Ewma.t)
    (msgs : list Message)
    : outcome (list Message * list Message * CadenceTranslator.t * gmap Protocol Ewma.t) :=
  match msgs with
  | [] => Ret ([], [], ct, ew)
  | msg :: msgs =>
      '(s, n, ct, ew) ← route ev i ct ew msg;
      '(spread, normal, ct, ew) ← route_all ev (S i) ct ew msgs;
      Ret (s ++ spread, n ++ normal, ct, ew)
  end.

(** The loop that routes spread messages to their shard. *)
Definition push_spread_all (g : t) (msgs : list Message) : t :=
  fold_left (fun g msg =>
    let g := set_metrics g (Metrics.record_spread_shard (metrics g)) in
    set_shards g (ShardManager.push_spread (shard_manager g) msg).2) msgs g.

(** Step 5: cache hits are emitted, misses pushed to a shard. *)
Fixpoint emit_or_push (g : t) (ev : env) (i : nat) (l : list (Message * option Message)) : outcome t :=
  match l with
  | [] => Ret g
  | (_, Some translated) :: l =>
      let g := set_metrics g (Metrics.record_cache_hit (metrics g)) in
      emit_or_push (send_to_asts g ev i translated) ev (S i) l
  | (msg, None) :: l =>
      let g := set_metrics g (Metrics.record_cache_miss (metrics g)) in
      '(r, sm) ← ShardManager.push (shard_manager g) msg;
      let g := set_shards g sm in
      let g := match r with Ok _ => g | Err _ => set_metrics g (Metrics.record_error (metrics g)) end in
      emit_or_push g ev (S i) l
  end.

Definition process_incoming_batch (g : t) (ev : env) (batch : list Message) : outcome t :=
  match batch with
  | [] => Ret g
  | _ =>
      let rec := imap (fun i m => reconciled g (reconcile_ms ev i) m) batch in
      let g := set_metrics g (fold_left (fun mt m => Metrics.record_protocol mt (protocol m)) rec (metrics g)) in
      let g := set_store g (BiTemporalStore.store_batch (bitemporal_store g) rec) in
      '(spread, normal, ct, ew) ← route_all ev 0 (cadence_translator g) (ewma_state g) rec;
      let g := set_routing g ct ew in
      let g := push_spread_all g spread in
      match normal with
      | [] => Ret g
      | _ =>
          let cache_results :=
            AsyncCache.get_batch (cache g) (imap (fun i m => (lookup_at ev i, protocol m, data m)) normal) in
          emit_or_push g ev 0 (zip normal cache_results)
      end
  end.

(** The translation loop of [process_translated_batch]: a pooled translator if
    there is one, the gateway's own otherwise. *)
Fixpoint translate_pooled (g : t) (ev : env) (i : nat) (msgs : list Message)
    : outcome (list (Message * Message) * t) :=
  match msgs with
  | [] => Ret ([], g)
  | msg :: msgs =>
      let '(tr, pool) := TranslatorPool.borrow (translator_pool g) (protocol msg) in
      let g := set_pool g pool in
      r ← Translator.translate_sync (translate_ms ev i) msg;
      let g := match r with Ok _ => g | Err _ => set_metrics g (Metrics.record_error (metrics g)) end in
      let g := match tr with
               | Some x => set_pool g (TranslatorPool.return_translator (translator_pool g) (protocol msg) x)
               | None => g
               end in
      '(pairs, g) ← translate_pooled g ev (S i) msgs;
      Ret (match r with Ok translated => (msg, translated) :: pairs | Err _ => pairs end, g)
  end.

(** What both drains do with their pairs: cache, snapshot, transmission queue. *)
Definition emit_pairs (g : t) (ev : env) (pairs : list (Message * Message)) : t :=
  match pairs with
  | [] => g
  | (orig, _) :: _ =>
      let g := set_cache g (AsyncCache.set_batch (cache g)
                 (imap (fun i '(o, t) => (cache_at ev i, protocol o, data o, t)) pairs)) in
      let translated := map snd pairs in
      let g := set_snapshots g (SnapshotManager.create_batch_snapshot (snapshot_manager g)
                 (snapshot_ms ev) translated ASTSpaceMobile (djb2_hash (data orig))).2 in
      set_uplink g (circuit_breaker g) (posts g) (pings g) (transmission_in g ++ translated)
  end.

Definition process_translated_batch (g : t) (ev : env) (messages : list Message) : outcome t :=
  match messages with
  | [] => Ret g
  | _ =>
      '(pairs, g) ← translate_pooled g ev 0 messages;
      match pairs with
      | [] => Ret g
      | _ =>
          let g := emit_pairs g ev pairs in
          Ret (set_metrics g (Metrics.record_latency (metrics g) (latency_ms ev)))
      end
  end.

(** The translation loop of [drain_spread_shard_once]. *)
Fixpoint translate_all (g : t) (ev : env) (i : nat) (msgs : list Message)
    : outcome (list (Message * Message) * t) :=
  match msgs with
  | [] => Ret ([], g)
  | msg :: msgs =>
      r ← Translator.translate_sync (translate_ms ev i) msg;
      let g := match r with Ok _ => g | Err _ => set_metrics g (Metrics.record_error (metrics g)) end in
      '(pairs, g) ← translate_all g ev (S i) msgs;
      Ret (match r with Ok translated => (msg, translated) :: pairs | Err _ => pairs end, g)
  end.

Definition drain_spread_shard_once (g : t) (ev : env) : outcome t :=
  let '(messages, sm) := ShardManager.drain_shard (shard_manager g)
                           (ShardManager.spread_shard_id (shard_manager g)) in
  let g := set_shards g sm in
  match messages with
  | [] => Ret g
  | _ =>
      '(pairs, g) ← translate_all g ev 0 messages;
      let g := emit_pairs g ev pairs in
      Ret (set_metrics g (fold_left (fun m _ => Metrics.increment_translated m) pairs (metrics g)))
  end.

Definition send (g : t) (ev : env) (message : Message) : outcome t :=
  let g := set_metrics g (Metrics.increment_translated (metrics g)) in
  if is_emergency message then process_emergency g ev message
  else Ret (set_batcher g (batcher_in g ++ [message])).

End crates.

Definition health_check (g : t) : bool :=
  bool_decide (Breaker.get_state (circuit_breaker g) = Breaker.Closed).

(** Accessors that delegate to the bi-temporal store. *)
Definition query_valid_time (g : t) := BiTemporalStore.query_valid_time (bitemporal_store g).
Definition query_transaction_time (g : t) := BiTemporalStore.query_transaction_time (bitemporal_store g).
Definition gw_spread_stats (g : t) := BiTemporalStore.spread_stats (bitemporal_store g).
Definition system_belief_at (g : t) := BiTemporalStore.system_belief_at (bitemporal_store g).
Definition actual_state_at (g : t) := BiTemporalStore.actual_state_at (bitemporal_store g).

Definition set_config (g : t) (credentials tele : bool) : t :=
  mk (translator_pool g) (batcher_in g) (cache g) (circuit_breaker g)
  (metrics g) (shard_manager g) (snapshot_manager g) (bitemporal_store g) (cadence_translator g)
  (clock_reconciler g) (ewma_state g) credentials tele (transmission_in g) (posts g) (pings g).
Definition update_asts_credentials (g : t) : t := set_config g true (telemetry g).
Definition update_telemetry_config (g : t) (enabled endpoint : bool) : t :=
  set_config g (asts_credentials g) (enabled && endpoint).

End Gateway.

Import Gateway.

(** ** Lemmas: routing *)

(** What the cadence rules of the gateway make of a message that is not diverted. *)
Definition expand (m : Message) : list Message :=
  if bool_decide (protocol m = IridiumSBD) && negb (bool_decide (priority m = Emergency))
  then fill m 60 else [m].

(** The messages at the flagged positions, and the expansion of the others. *)
Fixpoint diverted (flags : list bool) (msgs : list Message) : list Message :=
  match flags, msgs with
  | b :: flags, m :: msgs => (if b then [m] else []) ++ diverted flags msgs
  | _, _ => []
  end.
Fixpoint forwarded (flags : list bool) (msgs : list Message) : list Message :=
  match flags, msgs with
  | b :: flags, m :: msgs => (if b then [] else expand m) ++ forwarded flags msgs
  | _, _ => []
  end.

Lemma threshold_ge_base e base : base <= Ewma.adaptive_threshold_ms e base.
Proof. unfold Ewma.adaptive_threshold_ms. destruct (negb _); lia. Qed.

Lemma telemetry_rule created now pr :
  pr <> Emergency ->
  CadenceTranslator.translate_message CadenceTranslator.with_defaults created now
    "telemetry" IridiumSBD pr = Ret (ADuplicate 60, CadenceTranslator.with_defaults).
Proof.
  intros Hpr. unfold CadenceTranslator.translate_message.
  by rewrite bool_decide_eq_false_2.
Qed.

(** The average of a protocol's spreads after the messages [ms]. *)
Definition average (ew : gmap Protocol Ewma.t) (ms : list Message) (p : Protocol) : Ewma.t :=
  fold_left Ewma.update (map spread_ms (List.filter (fun m => bool_decide (protocol m = p)) ms))
    (default Ewma.new (ew !! p)).

(** Is the spread of a message that arrives after [before] above the threshold that its
    protocol's average gives, the message itself included? *)
Definition late (ew : gmap Protocol Ewma.t) (before : list Message) (m : Message) : bool :=
  Ewma.adaptive_threshold_ms (average ew (before ++ [m]) (protocol m))
    (spread_burst_threshold_ms (protocol m)) <? spread_ms m.
Definition late_flags (ew : gmap Protocol Ewma.t) (ms : list Message) : list bool :=
  imap (fun i m => late ew (take i ms) m) ms.

(** The averages after the messages [ms]. *)
Definition averages (ew ew' : gmap Protocol Ewma.t) (ms : list Message) : Prop :=
  forall p, ew' !! p = if existsb (fun m => bool_decide (protocol m = p)) ms
                       then Some (average ew ms p) else ew !! p.

(** The averages after one message. *)
Definition averaged (ew : gmap Protocol Ewma.t) (m : Message) : gmap Protocol Ewma.t :=
  <[protocol m := average ew [m] (protocol m)]> ew.

Lemma average_cons ew m ms p : average (averaged ew m) ms p = average ew (m :: ms) p.
Proof.
  unfold averaged. set (a := average ew [m] _). unfold average at 1 2. cbn [List.filter].
  case_bool_decide as Hp; [|by rewrite lookup_insert_ne]. subst p. rewrite lookup_insert_eq.
  unfold a, average. cbn [List.filter]. by rewrite bool_decide_eq_true_2.
Qed.

Lemma late_cons ew m before x : late (averaged ew m) before x = late ew (m :: before) x.
Proof. unfold late. by rewrite average_cons. Qed.

Lemma existsb_filter {A} (f : A -> bool) l : existsb f l = false -> List.filter f l = [].
Proof.
  induction l as [|x l IH]; cbn [existsb List.filter]; [done|]. intros [Hx Hl]%orb_false_iff.
  rewrite Hx. auto.
Qed.

Lemma averages_cons ew ew' m ms : averages (averaged ew m) ew' ms -> averages ew ew' (m :: ms).
Proof.
  intros Ha p. rewrite (Ha p). cbn [existsb].
  destruct (existsb _ ms) eqn:E; [by rewrite orb_true_r, average_cons|]. rewrite orb_false_r.
  unfold averaged. case_bool_decide as Hp; [|by rewrite lookup_insert_ne].
  subst p. rewrite lookup_insert_eq. unfold average. cbn [List.filter].
  rewrite bool_decide_eq_true_2 by done. cbn [map fold_left]. by rewrite (existsb_filter _ ms E).
Qed.

(** One message: the flag is the comparison with the adaptive threshold. *)
Lemma route_spec ev i ew msg :
  let b := late ew [] msg in
  route ev i CadenceTranslator.with_defaults ew msg =
    Ret ((if b then [msg] else []), (if b then [] else expand msg),
         CadenceTranslator.with_defaults, averaged ew msg).
Proof.
  cbv zeta. unfold route, late, averaged, average. cbn [List.filter app].
  rewrite (bool_decide_eq_true_2 (protocol msg = protocol msg)) by done. cbn [map fold_left].
  set (e := Ewma.update (default Ewma.new (ew !! protocol msg)) (spread_ms msg)). clearbody e.
  destruct (_ <? spread_ms msg); [done|]. unfold expand.
  destruct (bool_decide (protocol msg = IridiumSBD)) eqn:Ep; [|done].
  destruct (bool_decide (priority msg = Emergency)) eqn:Eq; [done|].
  cbn [andb negb]. apply bool_decide_eq_false in Eq. by rewrite telemetry_rule.
Qed.

Lemma late_flags_cons ew m ms : late_flags ew (m :: ms) = late ew [] m :: late_flags (averaged ew m) ms.
Proof.
  unfold late_flags. cbn [imap take]. f_equal. apply imap_ext. intros i x _. unfold compose. cbn [take].
  by rewrite late_cons.
Qed.

(** A whole batch. *)
Lemma route_all_spec ev i ew msgs :
  exists ew', averages ew ew' msgs /\
    route_all ev i CadenceTranslator.with_defaults ew msgs =
    Ret (diverted (late_flags ew msgs) msgs, forwarded (late_flags ew msgs) msgs,
         CadenceTranslator.with_defaults, ew').
Proof.
  revert i ew. induction msgs as [|m msgs IH]; intros i ew; [by exists ew|].
  destruct (IH (S i) (averaged ew m)) as (ew' & Ha & E). exists ew'.
  split; [by apply averages_cons|]. rewrite late_flags_cons. cbn [route_all diverted forwarded].
  rewrite route_spec. mstep. rewrite E. by mstep.
Qed.

Lemma late_flags_length ew ms : length (late_flags ew ms) = length ms.
Proof. apply length_imap. Qed.

(** Only messages above their protocol's own threshold are late. *)
Lemma late_above ew before m :
  late ew before m = true -> spread_burst_threshold_ms (protocol m) < spread_ms m.
Proof.
  unfold late. intros E. breflect. pose proof (threshold_ge_base
    (average ew (before ++ [m]) (protocol m)) (spread_burst_threshold_ms (protocol m))). lia.
Qed.

(** ** Lemmas: the frame of the uplink and of the shard pushes *)

(** The parts of the gateway that emitting does not touch. *)
Definition same_core (g g' : t) : Prop :=
  bitemporal_store g' = bitemporal_store g /\ batcher_in g' = batcher_in g /\
  transmission_in g' = transmission_in g /\ snapshot_manager g' = snapshot_manager g /\
  cadence_translator g' = cadence_translator g /\ cache g' = cache g /\
  ShardManager.num_shards (shard_manager g') = ShardManager.num_shards (shard_manager g).

#[export] Instance same_core_preorder : PreOrder same_core.
Proof.
  split; [by repeat split|]. intros g1 g2 g3 (? & ? & ? & ? & ? & ? & ?) (? & ? & ? & ? & ? & ? & ?).
  repeat split; congruence.
Qed.

Lemma post_core g ev i r : same_core g (post g ev i r) /\ shard_manager (post g ev i r) = shard_manager g.
Proof.
  unfold post. destruct (asts_credentials g); [|by repeat split].
  destruct (Breaker.call _ _ _ _) as [[u|[|e]] cb]; by repeat split.
Qed.

Lemma send_to_asts_core `{HexEncodeCrate} g ev i m :
  same_core g (send_to_asts g ev i m) /\ shard_manager (send_to_asts g ev i m) = shard_manager g.
Proof.
  unfold send_to_asts, send_telemetry_ping. destruct (post_core g ev i (PostMessage (body m))) as [H1 H2].
  destruct (telemetry _); [|done]. split; [|done]. etrans; [exact H1|by repeat split].
Qed.

Lemma push_spread_num s m :
  ShardManager.num_shards (ShardManager.push_spread s m).2 = ShardManager.num_shards s.
Proof. by destruct (push_to_chan s (ShardManager.spread_shard_id s) m) as ((? & _) & _). Qed.

Lemma push_spread_all_core g msgs : same_core g (push_spread_all g msgs).
Proof.
  unfold push_spread_all. revert g. induction msgs as [|m msgs IH]; intros g; [done|].
  cbn [fold_left]. etrans; [|apply IH]. split_and!; try done. apply push_spread_num.
Qed.

Lemma push_spread_all_shards g msgs :
  shard_manager (push_spread_all g msgs) =
  fold_left (fun s m => (ShardManager.push_spread s m).2) msgs (shard_manager g).
Proof.
  unfold push_spread_all. revert g. induction msgs as [|m msgs IH]; intros g; [done|].
  cbn [fold_left]. by rewrite IH.
Qed.

(** With at least two shards, pushing never panics. *)
Lemma push_total s m :
  2 <= ShardManager.num_shards s < 2 ^ 64 ->
  exists r s', ShardManager.push s m = Ret (r, s') /\
    ShardManager.num_shards s' = ShardManager.num_shards s.
Proof.
  intros Hn. destruct (ShardManager.push s m) as [[r s']|] eqn:E.
  - exists r, s'. split; [done|]. by destruct (push_chan s m r s' E) as ((? & _) & _).
  - exfalso. revert E. unfold ShardManager.push, ShardManager.select_shard_for_message.
    destruct (_ <=? _); [done|]. rewrite wrap_small by (unfold in_u; lia).
    rewrite (proj2 (Z.eqb_neq _ _)) by lia. mstep.
    destruct (ShardManager.shards _ !! _); [|done]. by destruct (ShardManager.shard_push _ _ _).
Qed.

Lemma emit_or_push_total `{HexEncodeCrate} g ev i l :
  2 <= ShardManager.num_shards (shard_manager g) < 2 ^ 64 ->
  exists g', emit_or_push g ev i l = Ret g' /\ same_core g g'.
Proof.
  revert g i. induction l as [|[msg [tr|]] l IH]; intros g i Hn; cbn [emit_or_push].
  - by exists g.
  - set (g1 := set_metrics g _). destruct (send_to_asts_core g1 ev i tr) as [Hc Hs].
    destruct (IH (send_to_asts g1 ev i tr) (S i)) as (g' & Hg' & Hc'); [by rewrite Hs|].
    exists g'. split; [done|]. etrans; [|exact Hc']. etrans; [|exact Hc]. by repeat split.
  - set (g1 := set_metrics g _). destruct (push_total (shard_manager g1) msg Hn) as (r & s' & -> & Hs').
    mstep. set (g2 := match r with Ok _ => _ | Err _ => _ end).
    assert (H2 : same_core g g2) by (unfold g2; destruct r; repeat split; exact Hs').
    destruct (IH g2 (S i)) as (g' & Hg' & Hc').
    { destruct H2 as (_ & _ & _ & _ & _ & _ & ->). done. }
    exists g'. split; [done|]. by etrans.
Qed.

(** What the lookups find: the messages that were found, translated, and the others. *)
Definition hits (found : list (Message * option Message)) : list Message := omap snd found.
Definition missed (found : list (Message * option Message)) : list Message :=
  map fst (List.filter (fun p => bool_decide (p.2 = None)) found).

(** The shards after a push, accepted or not. *)
Definition pushed (s : ShardManager.t) (m : Message) : ShardManager.t :=
  match ShardManager.push s m with Ret (_, s') => s' | Panic => s end.

Lemma lookups_found ev c msgs :
  zip msgs (AsyncCache.get_batch c (imap (fun i m => (lookup_at ev i, protocol m, data m)) msgs)) =
  imap (fun i m => (m, AsyncCache.get c (lookup_at ev i) (protocol m) (data m))) msgs.
Proof.
  apply list_eq. intros i. unfold AsyncCache.get_batch.
  rewrite lookup_zip_with, list_lookup_fmap, !list_lookup_imap.
  by destruct (msgs !! i) as [m|].
Qed.

Lemma diverted_late ew ms :
  Forall (fun m => spread_burst_threshold_ms (protocol m) < spread_ms m) (diverted (late_flags ew ms) ms).
Proof.
  revert ew. induction ms as [|m ms IH]; intros ew; [constructor|].
  rewrite late_flags_cons. cbn [diverted]. apply Forall_app_2; [|done].
  destruct (late ew [] m) eqn:E; [|constructor]. constructor; [by apply late_above in E|constructor].
Qed.

Lemma push_spread_all_uplink g msgs :
  ewma_state (push_spread_all g msgs) = ewma_state g /\ posts (push_spread_all g msgs) = posts g.
Proof.
  revert g. unfold push_spread_all. induction msgs as [|m msgs IH]; intros g; [done|].
  cbn [fold_left]. match goal with |- context [fold_left _ msgs ?g1] => by destruct (IH g1) as [-> ->] end.
Qed.

(** ** Lemmas: translation and emission *)

Lemma reconciled_same g now m :
  protocol (reconciled g now m) = protocol m /\ data (reconciled g now m) = data m /\
  priority (reconciled g now m) = priority m /\ t_system (reconciled g now m) = t_system m.
Proof. unfold reconciled. by destruct (ClockReconciler.reconcile _ _ _ _). Qed.

Lemma reconciled_ok g now m : msg_ok m -> msg_ok (reconciled g now m).
Proof.
  intros Hok. unfold reconciled. destruct (ClockReconciler.reconcile _ _ _ _) as [x|] eqn:E; [|done].
  destruct Hok as (Hd & Ht & _ & Hs). unfold ClockReconciler.reconcile in E.
  destruct (ClockReconciler.get_offset _ _ _) as [o|]; [|done]. cbn [mbind option_bind] in E.
  unfold ClockReconciler.corrected in E. destruct (_ <? 0); [done|]. injection E as <-.
  repeat split; try apply Hd; try apply Ht; try apply Hs; apply wrap_range; lia.
Qed.

(** A request through a closed breaker leaves the gateway. *)
Lemma send_to_asts_posts `{HexEncodeCrate} g ev i m :
  asts_credentials g = true -> Breaker.state (circuit_breaker g) = Breaker.discr Breaker.Closed ->
  posts (send_to_asts g ev i m) = posts g ++ [PostMessage (body m)].
Proof.
  intros Hc Hb. unfold send_to_asts, send_telemetry_ping, post. rewrite Hc.
  destruct (http ev i) as [u|e];
    [rewrite closed_call_ok by done|rewrite closed_call_err by done]; by destruct (telemetry _).
Qed.

Lemma send_to_asts_ewma `{HexEncodeCrate} g ev i m : ewma_state (send_to_asts g ev i m) = ewma_state g.
Proof.
  unfold send_to_asts, send_telemetry_ping, post. destruct (asts_credentials g); [|by destruct (telemetry g)].
  destruct (Breaker.call _ _ _ _) as [[u|[|e]] cb]; by destruct (telemetry _).
Qed.

(** Any request leaves at most once. *)
Lemma send_to_asts_cases `{HexEncodeCrate} g ev i m :
  posts (send_to_asts g ev i m) = posts g \/
  posts (send_to_asts g ev i m) = posts g ++ [PostMessage (body m)].
Proof.
  unfold send_to_asts, send_telemetry_ping, post. destruct (asts_credentials g); [|destruct (telemetry g); by left].
  destruct (Breaker.call _ _ _ _) as [[u|[|e]] cb]; destruct (telemetry _); (by left) || (by right).
Qed.

(** Without credentials, or with an open breaker, it does not. *)
Lemma send_to_asts_withheld `{HexEncodeCrate} g ev i m :
  asts_credentials g = false \/
  Breaker.state (circuit_breaker g) = Breaker.discr Breaker.Open /\
  Breaker.recovered (circuit_breaker g) (breaker_ms ev i).1
    (Breaker.last_failure_time (circuit_breaker g)) = false ->
  posts (send_to_asts g ev i m) = posts g.
Proof.
  intros Hw. unfold send_to_asts, send_telemetry_ping, post.
  destruct (asts_credentials g); [|by destruct (telemetry g)].
  destruct Hw as [?|[Ho Hr]]; [done|]. rewrite open_call_rejected by done. by destruct (telemetry _).
Qed.

(** The uplink works: credentials, a closed breaker, requests that succeed. *)
Definition live (g : t) : Prop :=
  asts_credentials g = true /\ Breaker.state (circuit_breaker g) = Breaker.discr Breaker.Closed.
Definition http_ok (ev : env) : Prop := forall i, http ev i = Ok tt.

Lemma post_live g ev i r :
  live g -> http_ok ev -> live (post g ev i r) /\ posts (post g ev i r) = posts g ++ [r].
Proof.
  intros [Hc Hb] Hh. unfold post. rewrite Hc, (Hh i), closed_call_ok by done. cbn [posts].
  split; [|done]. split; [done|]. cbn. done.
Qed.

Lemma ping_live g m : live g -> live (send_telemetry_ping g m) /\ posts (send_telemetry_ping g m) = posts g.
Proof. unfold send_telemetry_ping. by destruct (telemetry g). Qed.

Lemma send_live `{HexEncodeCrate} g ev i x :
  live g -> http_ok ev ->
  live (send_to_asts g ev i x) /\ posts (send_to_asts g ev i x) = posts g ++ [PostMessage (body x)].
Proof.
  intros Hg Hh. unfold send_to_asts. destruct (post_live g ev i (PostMessage (body x)) Hg Hh) as [J1 J2].
  destruct (ping_live _ x J1) as [J3 J4]. by rewrite J4.
Qed.

Lemma push_spread_all_live g msgs : live g -> live (push_spread_all g msgs).
Proof.
  revert g. unfold push_spread_all. induction msgs as [|m msgs IH]; intros g Hg; [done|].
  cbn [fold_left]. by apply IH.
Qed.

(** What the second half of [process_incoming_batch] does. *)
Lemma emit_or_push_effect `{HexEncodeCrate} g ev i found :
  2 <= ShardManager.num_shards (shard_manager g) < 2 ^ 64 ->
  exists g' ps, emit_or_push g ev i found = Ret g' /\ same_core g g' /\
    ewma_state g' = ewma_state g /\ shard_manager g' = fold_left pushed (missed found) (shard_manager g) /\
    posts g' = posts g ++ ps /\ ps `sublist_of` map (fun x => PostMessage (body x)) (hits found) /\
    (live g -> http_ok ev -> ps = map (fun x => PostMessage (body x)) (hits found)).
Proof.
  revert g i. induction found as [|[msg [tr|]] found IH]; intros g i Hn; cbn [emit_or_push].
  - exists g, []. by rewrite app_nil_r.
  - set (g1 := set_metrics g _). destruct (send_to_asts_core g1 ev i tr) as [Hc Hs].
    destruct (IH (send_to_asts g1 ev i tr) (S i)) as (g' & ps & E & Hc' & Ee & Es & Ep & Hps & Hl);
      [by rewrite Hs|].
    assert (Ew : ewma_state (send_to_asts g1 ev i tr) = ewma_state g) by exact (send_to_asts_ewma g1 ev i tr).
    exists g'. rewrite Ee, Es, Hs, Ew, Ep. change (hits ((msg, Some tr) :: found)) with (tr :: hits found).
    destruct (send_to_asts_cases g1 ev i tr) as [J|J]; rewrite J.
    + exists ps.
      split_and!; try done; [by etrans; [|exact Hc']; etrans; [|exact Hc]; repeat split|by apply sublist_cons|].
      intros Hlive Hh. destruct (send_live g1 ev i tr Hlive Hh) as [_ K]. rewrite J in K.
      apply (f_equal length) in K. rewrite length_app in K. cbn in K. lia.
    + exists (PostMessage (body tr) :: ps). rewrite <- app_assoc.
      split_and!; try done; [by etrans; [|exact Hc']; etrans; [|exact Hc]; repeat split|by apply sublist_skip|].
      intros Hlive Hh. destruct (send_live g1 ev i tr Hlive Hh) as [K _]. cbn [map]. by rewrite (Hl K Hh).
  - set (g1 := set_metrics g _). destruct (push_total (shard_manager g1) msg Hn) as (r & s' & Epush & Hs').
    rewrite Epush. mstep. set (g2 := match r with Ok _ => _ | Err _ => _ end).
    assert (H2 : same_core g g2) by (unfold g2; destruct r; repeat split; exact Hs').
    assert (F2 : (ewma_state g2, shard_manager g2, posts g2) = (ewma_state g, s', posts g))
      by (unfold g2; by destruct r). injection F2 as F2 F3 F4.
    destruct (IH g2 (S i)) as (g' & ps & E & Hc' & Ee & Es & Ep & Hps & Hl);
      [destruct H2 as (_ & _ & _ & _ & _ & _ & ->); done|].
    exists g', ps. rewrite Ee, Es, Ep, F2, F3, F4. split_and!; try done; [by etrans| |].
    + change (missed ((msg, None) :: found)) with (msg :: missed found). cbn [fold_left]. unfold pushed at 3.
      change (shard_manager g1) with (shard_manager g) in Epush. by rewrite Epush.
    + intros Hlive. apply Hl. unfold g2. by destruct r.
Qed.

(** Draining the spread shard takes all of its channel and nothing else. *)
Lemma drain_spread_shard s c q :
  ShardManager.receivers s !! ShardManager.spread_shard_id s = Some c ->
  ShardManager.chans s !! c = Some q ->
  ShardManager.drain_shard s (ShardManager.spread_shard_id s) =
  (q, ShardManager.with_chans s (<[c := []]> (ShardManager.chans s))).
Proof.
  intros Hrx Hq. unfold ShardManager.drain_shard. rewrite Hrx, Hq. unfold ShardManager.is_regular_shard.
  cbn [ShardManager.with_chans ShardManager.spread_shard_id]. by rewrite Z.eqb_refl, andb_false_r.
Qed.

Section crates.
Context `{CrcCrate, HexCrate, HexEncodeCrate, ZstdCrate, NomCrate}.
Context `{!CrcLaws, !HexLaws, !ZstdLaws, !NomLaws}.

(** What is left of a translation when errors are dropped. *)
Definition translation (now : Z) (m : Message) : list Message :=
  match Translator.translate_sync now m with Ret (Ok t) => [t] | _ => [] end.

(** The successful translations of a batch, with their originals. *)
Fixpoint translations (ev : env) (i : nat) (msgs : list Message) : list (Message * Message) :=
  match msgs with
  | [] => []
  | m :: msgs => map (pair m) (translation (translate_ms ev i) m) ++ translations ev (S i) msgs
  end.

(** The parts of the gateway that translating does not touch. *)
Definition same_pipeline (g g' : t) : Prop :=
  transmission_in g' = transmission_in g /\ posts g' = posts g /\ cache g' = cache g /\
  snapshot_manager g' = snapshot_manager g /\ shard_manager g' = shard_manager g.

Lemma translate_pooled_spec g ev i msgs :
  Forall msg_ok msgs -> (forall j, in_u 64 (translate_ms ev j)) ->
  exists g', translate_pooled g ev i msgs = Ret (translations ev i msgs, g') /\ same_pipeline g g'.
Proof.
  intros Hok Hnow. revert g i. induction Hok as [|m msgs Hm _ IH]; intros g i.
  { exists g. by repeat split. }
  cbn [translate_pooled translations]. destruct (TranslatorPool.borrow _ _) as [tr pool].
  unfold translation.
  destruct (translate_sync_cases (translate_ms ev i) m Hm (Hnow i)) as [->|(m' & -> & _)]; mstep;
    match goal with |- context [translate_pooled ?g1 ev (S i) msgs] =>
      destruct (IH g1 (S i)) as (g' & -> & Hg'); mstep; exists g'; split; [done|];
      destruct Hg' as (? & ? & ? & ? & ?); by destruct tr; repeat split
    end.
Qed.

Lemma translate_all_spec g ev i msgs :
  Forall msg_ok msgs -> (forall j, in_u 64 (translate_ms ev j)) ->
  exists g', translate_all g ev i msgs = Ret (translations ev i msgs, g') /\ same_pipeline g g'.
Proof.
  intros Hok Hnow. revert g i. induction Hok as [|m msgs Hm _ IH]; intros g i.
  { exists g. by repeat split. }
  cbn [translate_all translations]. unfold translation.
  destruct (translate_sync_cases (translate_ms ev i) m Hm (Hnow i)) as [->|(m' & -> & _)]; mstep;
    match goal with |- context [translate_all ?g1 ev (S i) msgs] =>
      destruct (IH g1 (S i)) as (g' & -> & Hg'); mstep; exists g'; split; [done|];
      destruct Hg' as (? & ? & ? & ? & ?); by repeat split
    end.
Qed.

Lemma emit_pairs_transmission g ev pairs :
  transmission_in (emit_pairs g ev pairs) = transmission_in g ++ map snd pairs /\
  posts (emit_pairs g ev pairs) = posts g.
Proof. destruct pairs as [|[o t] pairs]; [by rewrite app_nil_r|done]. Qed.

(** ** Properties: from the shards to the uplink *)

(** C5: the emergency path.  Whatever the state of the uplink, sending an emergency
    message returns without going through either batcher: the message, with its event
    time corrected for clock drift, is stored, pushed to the deadzone shard and put in
    a snapshot.  If its translation fails, the error is counted and nothing is sent.
    Otherwise the translation is cached, and the request it makes carries priority 0,
    the corrected event time and the system time of the message; at most that one
    request leaves the gateway: none without credentials or while the breaker is open
    and its timeout has not passed, exactly one with credentials and a closed
    breaker. *)
Theorem emergency_path g ev m
  (He : is_emergency m = true) (Hok : msg_ok m) (Hnow : in_u 64 (translate_ms ev 0)) :
  let m1 := reconciled g (reconcile_ms ev 0) m in
  let cb := circuit_breaker g in
  exists g', send g ev m = Ret g' /\
    batcher_in g' = batcher_in g /\ transmission_in g' = transmission_in g /\
    bitemporal_store g' = BiTemporalStore.store (bitemporal_store g) m1 /\
    shard_manager g' = (ShardManager.push_deadzone (shard_manager g) m1).2 /\
    snapshot_manager g' = (SnapshotManager.create_snapshot (snapshot_manager g) (snapshot_ms ev)
                             [m1] (protocol m) (djb2_hash (data m))).2 /\
    match Translator.translate_sync (translate_ms ev 0) m1 with
    | Ret (Ok t) =>
        cache g' = AsyncCache.set (cache g) (cache_at ev 0) (protocol m) (data m) t /\
        b_priority (body t) = 0 /\ b_t_event (body t) = t_event m1 /\ b_t_system (body t) = t_system m /\
        (posts g' = posts g \/ posts g' = posts g ++ [PostMessage (body t)]) /\
        (asts_credentials g = false -> posts g' = posts g) /\
        (Breaker.state cb = Breaker.discr Breaker.Open ->
         Breaker.recovered cb (breaker_ms ev 0).1 (Breaker.last_failure_time cb) = false ->
         posts g' = posts g) /\
        (asts_credentials g = true -> Breaker.state cb = Breaker.discr Breaker.Closed ->
         posts g' = posts g ++ [PostMessage (body t)])
    | Ret (Err _) => posts g' = posts g /\ cache g' = cache g /\
        Metrics.errors (metrics g') = wrap 64 (Metrics.errors (metrics g) + 1)
    | Panic => False
    end.
Proof.
  intros m1 cb. unfold send. rewrite He. unfold process_emergency.
  destruct (reconciled_same g (reconcile_ms ev 0) m) as (Hpc & Hda & Hpr & Hts).
  change (reconciled (set_metrics g _) (reconcile_ms ev 0) m) with m1.
  fold m1 in Hpc, Hda, Hpr, Hts.
  assert (Hp0 : priority m1 = Emergency).
  { rewrite Hpr. unfold is_emergency in He. by apply bool_decide_eq_true in He. }
  destruct (translate_sync_cases (translate_ms ev 0) m1) as [Ht|(t & Ht & _ & Hp & Hev & Hsys & _)];
    [by apply reconciled_ok|done| |]; rewrite Ht; mstep; eexists; (split; [done|]).
  - by repeat split; rewrite <- ?Hpc.
  - match goal with |- context [send_to_asts ?g0 ev 0 t] => set (g1 := g0) end.
    destruct (send_to_asts_core g1 ev 0 t) as [(E1 & E2 & E3 & E4 & _ & E6 & _) E7].
    cbn [batcher_in transmission_in bitemporal_store shard_manager snapshot_manager cache posts set_metrics].
    rewrite E1, E2, E3, E4, E6, E7, <- Hpc. do 5 (split; [done|]). split; [by rewrite <- Hda|].
    cbn [body b_priority b_t_event b_t_system]. rewrite Hp, Hp0, Hev, Hsys, Hts. do 3 (split; [done|]).
    split_and!; [by apply (send_to_asts_cases g1)| | |].
    + intros Hc. by apply (send_to_asts_withheld g1); left.
    + intros Ho Hr. by apply (send_to_asts_withheld g1); right.
    + by apply (send_to_asts_posts g1).
Qed.

(** What [emit_pairs] caches. *)
Definition cached (ev : env) (pairs : list (Message * Message)) (c : AsyncCache.t) : AsyncCache.t :=
  AsyncCache.set_batch c (imap (fun i '(o, t) => (cache_at ev i, protocol o, data o, t)) pairs).

Lemma emit_pairs_cache g ev pairs :
  cache (emit_pairs g ev pairs) = cached ev pairs (cache g) /\
  shard_manager (emit_pairs g ev pairs) = shard_manager g.
Proof. by destruct pairs as [|[o t] pairs]. Qed.

(** C7: translation of shard batches.  Any batch [msgs] taken from a regular shard,
    and the content [q] of the spread shard when it is drained, are processed without
    panicking: their successful translations, and nothing else, are appended in order
    to the queue of the transmission batcher and cached under their originals, and
    nothing is posted directly.  A worker's batch leaves the shards alone; draining
    empties the channel of the spread shard and changes nothing else of them. *)
Theorem translated_batches g ev msgs c q
  (Hok : Forall msg_ok (msgs ++ q)) (Hnow : forall j, in_u 64 (translate_ms ev j))
  (Hrx : ShardManager.receivers (shard_manager g) !! ShardManager.spread_shard_id (shard_manager g) = Some c)
  (Hq : ShardManager.chans (shard_manager g) !! c = Some q) :
  (exists g', process_translated_batch g ev msgs = Ret g' /\
     transmission_in g' = transmission_in g ++ map snd (translations ev 0 msgs) /\
     cache g' = cached ev (translations ev 0 msgs) (cache g) /\ posts g' = posts g /\
     shard_manager g' = shard_manager g) /\
  (exists g', drain_spread_shard_once g ev = Ret g' /\
     transmission_in g' = transmission_in g ++ map snd (translations ev 0 q) /\
     cache g' = cached ev (translations ev 0 q) (cache g) /\ posts g' = posts g /\
     shard_manager g' = ShardManager.with_chans (shard_manager g)
                          (<[c := []]> (ShardManager.chans (shard_manager g)))).
Proof.
  apply Forall_app in Hok as [Hms Hqs]. split.
  - unfold process_translated_batch. destruct msgs as [|m0 msgs].
    { exists g. cbn. by rewrite app_nil_r. }
    destruct (translate_pooled_spec g ev 0 _ Hms Hnow) as (g1 & -> & E1 & E2 & E3 & _ & E5). mstep.
    destruct (translations ev 0 (m0 :: msgs)) as [|pr prs].
    + exists g1. cbn [map]. by rewrite app_nil_r.
    + eexists. split; [done|]. destruct (emit_pairs_transmission g1 ev (pr :: prs)) as [Ht Hp].
      destruct (emit_pairs_cache g1 ev (pr :: prs)) as [Hca Hsh].
      cbn [set_metrics transmission_in posts shard_manager cache].
      by rewrite Ht, Hp, Hca, Hsh, E1, E2, E3.
  - unfold drain_spread_shard_once. rewrite (drain_spread_shard _ _ _ Hrx Hq).
    set (sm := ShardManager.with_chans _ _). destruct q as [|m0 q].
    { eexists. split; [done|]. cbn. by rewrite app_nil_r. }
    destruct (translate_all_spec (set_shards g sm) ev 0 _ Hqs Hnow) as (g1 & -> & E1 & E2 & E3 & _ & E5).
    mstep. eexists. split; [done|].
    destruct (emit_pairs_transmission g1 ev (translations ev 0 (m0 :: q))) as [Ht Hp].
    destruct (emit_pairs_cache g1 ev (translations ev 0 (m0 :: q))) as [Hca Hsh].
    cbn [set_metrics transmission_in posts shard_manager cache].
    by rewrite Ht, Hp, Hca, Hsh, E1, E2, E3, E5.
Qed.
End crates.

(** ** Properties: routing *)

(** C6: routing of an incoming batch.  With the gateway's own cadence rules every
    batch is processed without panicking.  All its messages, corrected for clock
    drift, are stored, and each updates the average spread of its protocol.  A message
    is pushed to the spread shard, in order, exactly when its spread is above the
    adaptive threshold of that average at that point, which is never below the
    protocol's own.  Every other message goes on to a cache lookup, once, or 60 times
    if it is a non-emergency IridiumSBD message (the "telemetry" rule duplicates, it
    does not limit): the misses are pushed to the shards in order, and the hits, and
    nothing else, are posted in order, all of them when the uplink works. *)
Theorem incoming_routing `{HexEncodeCrate} g ev batch
  (Hct : cadence_translator g = CadenceTranslator.with_defaults)
  (Hn : 2 <= ShardManager.num_shards (shard_manager g) < 2 ^ 64) :
  let rec := imap (fun i m => reconciled g (reconcile_ms ev i) m) batch in
  let flags := imap (fun i m => late (ewma_state g) (take i rec) m) rec in
  let found := imap (fun i m => (m, AsyncCache.get (cache g) (lookup_at ev i) (protocol m) (data m)))
                 (forwarded flags rec) in
  exists g' ps, process_incoming_batch g ev batch = Ret g' /\
    bitemporal_store g' = BiTemporalStore.store_batch (bitemporal_store g) rec /\
    averages (ewma_state g) (ewma_state g') rec /\
    Forall (fun m => spread_burst_threshold_ms (protocol m) < spread_ms m) (diverted flags rec) /\
    shard_manager g' = fold_left pushed (missed found)
      (fold_left (fun s m => (ShardManager.push_spread s m).2) (diverted flags rec) (shard_manager g)) /\
    posts g' = posts g ++ ps /\ ps `sublist_of` map (fun x => PostMessage (body x)) (hits found) /\
    (live g -> http_ok ev -> ps = map (fun x => PostMessage (body x)) (hits found)) /\
    batcher_in g' = batcher_in g /\ transmission_in g' = transmission_in g /\ cache g' = cache g /\
    cadence_translator g' = CadenceTranslator.with_defaults.
Proof.
  intros rec flags found. destruct batch as [|m0 batch].
  { exists g, []. by rewrite app_nil_r. }
  destruct (route_all_spec ev 0 (ewma_state g) rec) as (ew & Ha & Hr).
  change (late_flags (ewma_state g) rec) with flags in Hr.
  unfold process_incoming_batch. fold rec.
  cbn [set_metrics set_store cadence_translator ewma_state bitemporal_store].
  rewrite Hct, Hr. mstep. set (g1 := set_routing _ _ _).
  pose proof (push_spread_all_core g1 (diverted flags rec)) as Hsp.
  pose proof (push_spread_all_shards g1 (diverted flags rec)) as Hsh.
  destruct (push_spread_all_uplink g1 (diverted flags rec)) as [Hew Hup].
  set (g2 := push_spread_all g1 (diverted flags rec)) in *.
  assert (Ec : cache g2 = cache g) by (by destruct Hsp as (_ & _ & _ & _ & _ & -> & _)).
  rewrite Ec, lookups_found. fold found.
  destruct (emit_or_push_effect g2 ev 0 found) as (g' & ps & Hg' & Hcore & Ee & Es & Ep & Hps & Hall).
  { destruct Hsp as (_ & _ & _ & _ & _ & _ & ->). done. }
  exists g', ps. pose proof (transitivity Hsp Hcore) as (K1 & K2 & K3 & _ & K5 & K6 & _).
  split; [destruct (forwarded flags rec); [by cbn in Hg'; rewrite <- Hg'|done]|].
  rewrite K1, K2, K3, K5, K6, Ee, Hew, Es, Hsh, Ep, (Hup : posts g2 = posts g).
  split_and!; try done; [by apply diverted_late|].
  intros Hl Hh. apply Hall; [|done]. by apply push_spread_all_live.
Qed.

(** A gateway with credentials and an environment in which every request succeeds. *)
Definition demo_gateway : t := new 0 (60 * 1000000000) true false.
Definition demo_env : env :=
  mkEnv (fun _ => 100) 100 (fun _ => 100) (fun _ => 0) (fun _ => 0) (fun _ => (0, 0))
    (fun _ => (0, 0)) (fun _ => Ok tt) 1.

Section witnesses.
#[local] Existing Instances crc_ibm_3740 crc_ibm_3740_laws hex_ref hex_ref_laws hex_encode_ref
  zstd_stored zstd_stored_laws nom_ref nom_ref_laws.

(** An IridiumSBD message, and two VSAT messages of which the second is late. *)
Definition demo_batch : list Message :=
  [mkMessage IridiumSBD [1; 0; 0] Operational 5 5 5; mkMessage VSAT [2] Operational 10 10 10;
   mkMessage VSAT [3] Operational 90000 10 90000].

Lemma incoming_routing_witness :
  exists g', process_incoming_batch demo_gateway demo_env demo_batch = Ret g' /\
    ShardManager.chans (shard_manager g') !! 8 = Some [mkMessage VSAT [3] Operational 90000 10 90000] /\
    len (default [] (ShardManager.chans (shard_manager g') !! 1)) = 9.
Proof.
  destruct (incoming_routing demo_gateway demo_env demo_batch)
    as (g' & ps & H & _ & _ & _ & Hs & _).
  - reflexivity.
  - vm_compute. split; [discriminate|reflexivity].
  - exists g'. split; [exact H|]. rewrite Hs. split; vm_compute; reflexivity.
Defined.

Lemma emergency_path_witness :
  exists g', send demo_gateway demo_env (mkMessage RockBLOCK [4; 0; 1; 77] Emergency 20 10 20) = Ret g' /\
    posts g' = [PostMessage (body (mkMessage ASTSpaceMobile [4; 77] Emergency 100 10 20))].
Proof.
  destruct (emergency_path demo_gateway demo_env (mkMessage RockBLOCK [4; 0; 1; 77] Emergency 20 10 20))
    as (g' & H & _ & _ & _ & _ & _ & Ht).
  - reflexivity.
  - apply (bool_decide_unpack _). vm_compute. reflexivity.
  - unfold in_u. simpl. lia.
  - exists g'. split; [exact H|].
    destruct (Translator.translate_sync _ _) as [[t|e]|] eqn:E; [|vm_compute in E; discriminate E..].
    vm_compute in E. injection E as <-. destruct Ht as (_ & _ & _ & _ & _ & _ & _ & Hpost).
    exact (Hpost eq_refl eq_refl).
Defined.

(** A gateway whose spread shard holds two late messages, one of them malformed. *)
Definition demo_spread : t :=
  push_spread_all demo_gateway
    [mkMessage Samsara [1] Operational 90000 10 90000; mkMessage NIDD [9] Operational 90000 10 90000].

Lemma translated_batches_witness :
  exists g1 g2,
    process_translated_batch demo_spread demo_env [mkMessage NIDD [5] Operational 7 8 9] = Ret g1 /\
    transmission_in g1 = [mkMessage ASTSpaceMobile [5] Operational 100 8 9] /\
    drain_spread_shard_once demo_spread demo_env = Ret g2 /\
    transmission_in g2 = [mkMessage ASTSpaceMobile [9] Operational 100 10 90000] /\
    ShardManager.chans (shard_manager g2) !! 8 = Some [].
Proof.
  destruct (translated_batches demo_spread demo_env [mkMessage NIDD [5] Operational 7 8 9] 8
    [mkMessage Samsara [1] Operational 90000 10 90000; mkMessage NIDD [9] Operational 90000 10 90000])
    as [(g1 & H1 & Ht1 & _) (g2 & H2 & Ht2 & _ & _ & Hs)].
  - apply (bool_decide_unpack _). vm_compute. reflexivity.
  - intros j. unfold in_u. simpl. lia.
  - vm_compute. reflexivity.
  - vm_compute. reflexivity.
  - exists g1, g2. split; [exact H1|]. split; [rewrite Ht1; vm_compute; reflexivity|]. split; [exact H2|].
    split; [rewrite Ht2; vm_compute; reflexivity|]. rewrite Hs. apply lookup_insert_eq.
Defined.

(** a cache hit sends the stamps of another message.  The cache key is the
    protocol and the bytes, so a NIDD message with the bytes of an earlier one,
    but its own priority and event time, is uplinked with the earlier message's
    priority and times. *)
Theorem stale_cache_hit :
  let m1 := mkMessage NIDD [7; 8] Diagnostic 10 10 20 in
  let m2 := mkMessage NIDD [7; 8] SafetyCritical 5000 5000 5010 in
  exists g1 g2,
    process_translated_batch demo_gateway demo_env [m1] = Ret g1 /\
    process_incoming_batch g1 demo_env [m2] = Ret g2 /\
    posts g1 = [] /\
    posts g2 = [PostMessage (body (mkMessage ASTSpaceMobile [7; 8] Diagnostic 100 10 20))].
Proof.
  intros m1 m2.
  assert (H : match process_translated_batch demo_gateway demo_env [m1] with
    | Ret g1 =>
        match process_incoming_batch g1 demo_env [m2] with
        | Ret g2 => Some (posts g1, posts g2)
        | Panic => None
        end
    | Panic => None
    end = Some ([], [PostMessage (body (mkMessage ASTSpaceMobile [7; 8] Diagnostic 100 10 20))]))
    by (vm_compute; reflexivity).
  destruct (process_translated_batch _ _ _) as [g1|]; [|discriminate].
  destruct (process_incoming_batch _ _ _) as [g2|] eqn:E; [|discriminate].
  injection H as H1 H2. eauto 6.
Qed.
End witnesses.
