(* ===== verification/Pipeline.v ===== *)
(** * The running gateway ([src/src/gateway.rs], [Gateway::new])

    [Gateway::new] does not only build a gateway, it spawns the tasks that move
    messages through it: the input batcher and its consumer, seven shard workers,
    the drainer of the spread shard, the transmission batcher and its consumer.
    Here the gateway, the two batcher tasks and the log of what was handed to
    [Gateway::send] are one state, an [action] is one turn of one task (or a call
    of the public interface), and [perform] is the body of that turn; a task with
    nothing to do waits, which leaves the state as it is.  An execution is a list
    of actions in any order: the theorems hold for every interleaving of turns.
    The input channels of the batchers are bounded in the code and unbounded
    here: a sender that would wait there is a sender scheduled later. *)

From S2P Require Import Prelude Crc Protocol Externals Utf8 AstsProtobuf Translator Cache.
From S2P Require Import Reliability Snapshot Bitemporal Batching Sharding ClockReconciliation.
From S2P Require Import Cadence Metrics Gateway.

Import Gateway.Gateway.

Module Pipeline.

Record t := mk {
  gw : Gateway.t;
  tin : task;             (* the task of the input batcher *)
  tout : task;            (* the task of the transmission batcher *)
  sent : list Message     (* every message given to [Gateway::send] *)
}.

(** [AsyncBatcher::new(10, 25ms, ..)] and [TransmissionBatcher::new(20, 50ms, ..)]. *)
Definition batcher_handle : task -> event -> task :=
  AsyncBatcher.handle 10 (25 * 1000000) AsyncBatcher.DEFAULT_SPREAD_FLUSH_THRESHOLD_MS.
Definition transmission_handle : task -> event -> task :=
  TransmissionBatcher.handle 20 (50 * 1000000).

Definition start (now cache_ttl : Z) (credentials telemetry : bool) : t :=
  mk (Gateway.new now cache_ttl credentials telemetry) (Batching.start now) (Batching.start now) [].

(** [rx.recv()] on the output of a batcher: the first batch, and the task without it. *)
Definition recv_batch (s : task) : option (list Message * task) :=
  match outputs s with
  | [] => None
  | b :: bs => Some (b, mkTask (buffer s) (last_flush s) bs (closed s))
  end.

Inductive action :=
| Send (ev : env) (m : Message)
| BatcherRecv (now now' : Z)
| BatcherTimer (now' : Z)
| Incoming (ev : env)
| Worker (ev : env) (c : Z)
| SpreadDrain (ev : env)
| TransmissionRecv (now now' : Z)
| TransmissionTimer (now' : Z)
| Uplink (ev : env)
| UpdateCredentials
| UpdateTelemetry (enabled endpoint : bool).

Section crates.
Context `{CrcCrate, HexCrate, HexEncodeCrate, ZstdCrate, NomCrate}.

Definition perform (s : t) (a : action) : outcome t :=
  match a with
  | Send ev m =>
      g ← Gateway.send (gw s) ev m;
      Ret (mk g (tin s) (tout s) (sent s ++ [m]))
  | BatcherRecv now now' =>
      match batcher_in (gw s) with
      | [] => Ret s
      | m :: rest => Ret (mk (set_batcher (gw s) rest) (batcher_handle (tin s) (Recv now now' m))
                             (tout s) (sent s))
      end
  | BatcherTimer now' => Ret (mk (gw s) (batcher_handle (tin s) (Timer now')) (tout s) (sent s))
  | Incoming ev =>
      match recv_batch (tin s) with
      | None => Ret s
      | Some (batch, rx) =>
          g ← Gateway.process_incoming_batch (gw s) ev batch;
          Ret (mk g rx (tout s) (sent s))
      end
  | Worker ev c =>
      if bool_decide (c ∈ ShardManager.workers (shard_manager (gw s))) then
        let '(messages, sm) := ShardManager.worker_recv_batch (shard_manager (gw s)) c 20 in
        g ← Gateway.process_translated_batch (set_shards (gw s) sm) ev messages;
        Ret (mk g (tin s) (tout s) (sent s))
      else Ret s
  | SpreadDrain ev =>
      g ← Gateway.drain_spread_shard_once (gw s) ev;
      Ret (mk g (tin s) (tout s) (sent s))
  | TransmissionRecv now now' =>
      match transmission_in (gw s) with
      | [] => Ret s
      | m :: rest =>
          Ret (mk (set_uplink (gw s) (circuit_breaker (gw s)) (posts (gw s)) (pings (gw s)) rest)
                  (tin s) (transmission_handle (tout s) (Recv now now' m)) (sent s))
      end
  | TransmissionTimer now' =>
      Ret (mk (gw s) (tin s) (transmission_handle (tout s) (Timer now')) (sent s))
  | Uplink ev =>
      match recv_batch (tout s) with
      | None => Ret s
      | Some (batch, rx) => Ret (mk (Gateway.send_batch_to_asts (gw s) ev batch) (tin s) rx (sent s))
      end
  | UpdateCredentials => Ret (mk (update_asts_credentials (gw s)) (tin s) (tout s) (sent s))
  | UpdateTelemetry enabled endpoint =>
      Ret (mk (update_telemetry_config (gw s) enabled endpoint) (tin s) (tout s) (sent s))
  end.

Fixpoint run (s : t) (acts : list action) : outcome t :=
  match acts with
  | [] => Ret s
  | a :: acts => s ← perform s a; run s acts
  end.

End crates.
End Pipeline.

Import Pipeline.

Ltac shards_cbn :=
  cbn [ShardManager.with_chans ShardManager.with_counters ShardManager.count_allocated
       ShardManager.count_regular ShardManager.count_dropped ShardManager.chans ShardManager.shards].

(** ** Specification: where a message may come from *)

(** The messages a batcher task holds, in order. *)
Definition held (s : task) : list Message := concat (outputs s) ++ buffer s.

(** A batcher task whose input is open and whose batches are not empty. *)
Definition task_ok (s : task) : Prop :=
  closed s = false /\ Forall (fun b : list Message => b <> []) (outputs s).

Definition routine (m : Message) : Prop := is_emergency m = false.

(** What the translators see: a message that was sent. *)
Definition derived (log : list Message) (y : Message) : Prop := msg_ok y /\ y ∈ log.

Section spec.
Context `{CrcCrate, HexCrate, HexEncodeCrate, ZstdCrate, NomCrate}.

(** What may be uplinked: a translation of such a message. *)
Definition translated (log : list Message) (x : Message) : Prop :=
  exists y now, in_u 64 now /\ derived log y /\ Translator.translate_sync now y = Ret (Ok x).

Definition request_ok (log : list Message) (r : Request) : Prop :=
  match r with
  | PostMessage b => exists x, b = body x /\ translated log x
  | PostBatch bs => Forall (fun b => exists x, b = body x /\ translated log x /\ routine x) bs
  end.

(** Channel 0 belongs to the deadzone shard; the others never hold an emergency. *)
Definition chans_inv (log : list Message) (cs : gmap Z (list Message)) : Prop :=
  forall c q, cs !! c = Some q -> Forall (fun m => derived log m /\ (c <> 0 -> routine m)) q.

(** The ends of the shard channels, which nothing moves once the tasks run. *)
Definition static (s : ShardManager.t) : Prop :=
  ShardManager.num_shards s = 8 /\ ShardManager.deadzone_shard_id s = 0 /\
  ShardManager.spread_shard_id s = 8 /\ ShardManager.receivers s !! 8 = Some 8 /\
  (ShardManager.shard_size s = 1000 /\ ShardManager.connected s 0 = true /\
   is_Some (ShardManager.shards s !! 0)) /\
  (forall id sh, ShardManager.shards s !! id = Some sh -> ShardManager.tx sh = id) /\
  ShardManager.workers s = seqZ 1 7.

(** The deadzone channel: the first 1000 emergencies, nothing ever taken. *)
Definition deadzone (s : ShardManager.t) : list Message := default [] (ShardManager.chans s !! 0).

Definition cache_inv (log : list Message) (c : AsyncCache.t) : Prop :=
  map_Forall (fun _ e => translated log (AsyncCache.message e)) (AsyncCache.entries c).

Record gw_inv (log : list Message) (g : Gateway.t) : Prop := {
  gi_clock : ClockReconciler.offsets (clock_reconciler g) = ∅;
  gi_cadence : cadence_translator g = CadenceTranslator.with_defaults;
  gi_static : static (shard_manager g);
  gi_batcher : Forall (fun m => m ∈ log /\ routine m) (batcher_in g);
  gi_chans : chans_inv log (ShardManager.chans (shard_manager g));
  gi_cache : cache_inv log (cache g);
  gi_transmission : Forall (fun x => translated log x /\ routine x) (transmission_in g);
  gi_posts : Forall (request_ok log) (posts g)
}.

Record inv (s : t) : Prop := {
  i_log : Forall msg_ok (sent s);
  i_gw : gw_inv (sent s) (gw s);
  i_tin : Forall (fun m => m ∈ sent s /\ routine m) (held (tin s));
  i_tout : Forall (fun x => translated (sent s) x /\ routine x) (held (tout s));
  i_deadzone : deadzone (shard_manager (gw s)) = take 1000 (urgent (sent s));
  i_tasks : task_ok (tin s) /\ task_ok (tout s)
}.

(** The clock of an environment is a [u64]; a sent message has the Rust types. *)
Definition env_ok (ev : env) : Prop := forall j, in_u 64 (translate_ms ev j).

Definition action_ok (a : action) : Prop :=
  match a with
  | Send ev m => env_ok ev /\ msg_ok m
  | Incoming ev | Worker ev _ | SpreadDrain ev | Uplink ev => env_ok ev
  | _ => True
  end.

(** The messages an execution sends. *)
Fixpoint sends (acts : list action) : list Message :=
  match acts with
  | [] => []
  | Send _ m :: acts => m :: sends acts
  | _ :: acts => sends acts
  end.

(** ** Lemmas: the log only grows *)

Lemma derived_mono log log' y : log ⊆ log' -> derived log y -> derived log' y.
Proof. intros Hl [Hy Hm]. split; [done|auto]. Qed.

Lemma translated_mono log log' x : log ⊆ log' -> translated log x -> translated log' x.
Proof. intros Hl (y & now & Hn & Hy & E). exists y, now. split; [done|].
  split; [by apply (derived_mono log)|done]. Qed.

Lemma request_mono log log' r : log ⊆ log' -> request_ok log r -> request_ok log' r.
Proof.
  intros Hl. destruct r as [b|bs]; cbn [request_ok].
  - intros (x & -> & Hx). exists x. split; [done|]. by apply (translated_mono log).
  - intros Hb. eapply list.Forall_impl; [exact Hb|]. intros b (x & -> & Hx & Hr).
    exists x. split; [done|]. split; [by apply (translated_mono log)|done].
Qed.

Lemma gw_inv_mono log log' g : log ⊆ log' -> gw_inv log g -> gw_inv log' g.
Proof.
  intros Hl [I0 I1 I2 I3 I4 I5 I6 I7]. split; [done|done|done|..].
  - eapply list.Forall_impl; [exact I3|]. intros m [? ?]. auto.
  - intros c q Hq. eapply list.Forall_impl; [by apply (I4 c)|]. intros m [? ?].
    split; [by apply (derived_mono log)|done].
  - intros k e He. eapply translated_mono; [done|]. by apply (I5 k).
  - eapply list.Forall_impl; [exact I6|]. intros x [? ?]. split; [by apply (translated_mono log)|done].
  - eapply list.Forall_impl; [exact I7|]. intros r. by apply request_mono.
Qed.

(** ** Lemmas: the shard channels *)


Lemma chans_append log cs c m :
  chans_inv log cs -> derived log m -> (c <> 0 -> routine m) ->
  chans_inv log (<[c := default [] (cs !! c) ++ [m]]> cs).
Proof.
  intros Hcs Hm Hr c' q. destruct (decide (c = c')) as [<-|Hne].
  - rewrite lookup_insert_eq. intros [= <-]. apply Forall_app_2; [|by constructor].
    destruct (cs !! c) as [q|] eqn:E; [by apply (Hcs c)|constructor].
  - rewrite lookup_insert_ne by done. apply Hcs.
Qed.

Lemma chans_drop log cs c q k :
  chans_inv log cs -> cs !! c = Some q -> chans_inv log (<[c := drop k q]> cs).
Proof.
  intros Hcs Hq c' q'. destruct (decide (c = c')) as [<-|Hne].
  - rewrite lookup_insert_eq. intros [= <-]. apply Forall_drop, (Hcs c _ Hq).
  - rewrite lookup_insert_ne by done. apply Hcs.
Qed.

Definition shards_inv (log : list Message) (s : ShardManager.t) : Prop :=
  static s /\ chans_inv log (ShardManager.chans s).

Lemma push_shards log s m :
  shards_inv log s -> derived log m -> routine m ->
  exists r s', ShardManager.push s m = Ret (r, s') /\ shards_inv log s' /\ deadzone s' = deadzone s.
Proof.
  intros [Hst Hcs] Hm Hr. pose proof Hst as (Hn & _ & _ & _ & _ & Htx & _).
  unfold ShardManager.push, ShardManager.select_shard_for_message.
  destruct (_ <=? _); [by eexists _, _|]. rewrite Hn. change (wrap 64 (8 - 1)) with 7.
  change (7 =? 0) with false. mstep. shards_cbn.
  pose proof (Z.mod_pos_bound (ShardManager.round_robin s) 7 ltac:(lia)) as Hid.
  destruct (ShardManager.shards s !! _) as [sh|] eqn:E; [|by eexists _, _].
  destruct (ShardManager.shard_push _ sh m) as [s1|] eqn:Hp; [|by eexists _, _].
  apply shard_push_eq in Hp as [-> _]. apply Htx in E. eexists _, _. split; [done|].
  split; [split; [done|by apply chans_append]|]. unfold deadzone.
  shards_cbn.
  by rewrite lookup_insert_ne by lia.
Qed.

Lemma push_to_shards log s id m :
  shards_inv log s -> derived log m -> (id <> 0 -> routine m) ->
  shards_inv log (ShardManager.push_to s id m).2 /\
  deadzone (ShardManager.push_to s id m).2 =
    if (id =? 0) && (len (deadzone s) <? 1000) then deadzone s ++ [m] else deadzone s.
Proof.
  intros [Hst Hcs] Hm Hr. pose proof Hst as (_ & _ & _ & _ & (Hsz & Hcon & [sh0 Hsh]) & Htx & _).
  unfold ShardManager.push_to. shards_cbn. destruct (decide (id = 0)) as [->|Hid].
  - rewrite Hsh. apply Htx in Hsh as E0. unfold ShardManager.shard_push. rewrite E0. shards_cbn.
    fold (deadzone s).
    change (ShardManager.shard_size _) with (ShardManager.shard_size s). rewrite Hsz.
    change (ShardManager.connected _ 0) with (ShardManager.connected s 0). rewrite Hcon, andb_true_r.
    cbn [Z.eqb andb]. destruct (len (deadzone s) <? 1000); cbn [snd]; [|done].
    split; [split; [done|by apply chans_append]|]. unfold deadzone at 1. shards_cbn.
    by rewrite lookup_insert_eq.
  - rewrite (proj2 (Z.eqb_neq id 0)) by done. cbn [andb].
    destruct (ShardManager.shards s !! id) as [sh|] eqn:E; [|done].
    destruct (ShardManager.shard_push _ sh m) as [s1|] eqn:Hp; [|done].
    apply shard_push_eq in Hp as [-> _]. apply Htx in E. rewrite E. cbn [snd].
    split; [split; [done|by apply chans_append]|]. unfold deadzone. shards_cbn.
    by rewrite lookup_insert_ne.
Qed.

(** A worker's or the drainer's taking from a channel other than the deadzone's. *)
Lemma take_shards log s c q k :
  shards_inv log s -> c <> 0 -> ShardManager.chans s !! c = Some q ->
  let s' := ShardManager.with_chans s (<[c := drop k q]> (ShardManager.chans s)) in
  shards_inv log s' /\ deadzone s' = deadzone s.
Proof.
  intros [Hst Hcs] Hc Hq. split; [split; [done|by apply chans_drop]|].
  unfold deadzone. shards_cbn. by rewrite lookup_insert_ne.
Qed.

Lemma worker_shards log s c :
  shards_inv log s -> c ∈ ShardManager.workers s ->
  let '(ms, s') := ShardManager.worker_recv_batch s c 20 in
  shards_inv log s' /\ deadzone s' = deadzone s /\
  Forall (fun m => derived log m /\ routine m) ms.
Proof.
  intros Hs Hc. unfold ShardManager.worker_recv_batch.
  assert (Hc0 : c <> 0).
  { destruct Hs as [(_ & _ & _ & _ & _ & _ & Hw) _]. rewrite Hw in Hc. apply elem_of_seqZ in Hc. lia. }
  destruct (ShardManager.chans s !! c) as [[|m q]|] eqn:E;
    [split; [exact Hs|by split]| |split; [exact Hs|by split]].
  destruct (take_shards log s c (m :: q) (Z.to_nat (Z.max 1 20)) Hs Hc0 E) as [J1 J2].
  split; [done|]. split; [done|]. apply Forall_take. destruct Hs as [_ Hcs].
  eapply list.Forall_impl; [by apply (Hcs c)|]. intros x [? ?]. auto.
Qed.

Lemma drain_shards log s :
  shards_inv log s ->
  let '(ms, s') := ShardManager.drain_shard s (ShardManager.spread_shard_id s) in
  shards_inv log s' /\ deadzone s' = deadzone s /\
  Forall (fun m => derived log m /\ routine m) ms.
Proof.
  intros Hs. pose proof Hs as [Hst Hcs].
  pose proof Hst as (_ & Hdz & Hsp & Hrx & _). unfold ShardManager.drain_shard.
  rewrite Hsp, Hrx. unfold ShardManager.is_regular_shard.
  cbn [ShardManager.with_chans ShardManager.spread_shard_id]. rewrite Hsp. cbn [Z.eqb Pos.eqb negb].
  rewrite andb_false_r. cbn [andb].
  split; [|split].
  - split; [exact Hst|]. intros c q. shards_cbn. destruct (decide (8 = c)) as [<-|].
    + rewrite lookup_insert_eq. intros [= <-]. constructor.
    + rewrite lookup_insert_ne by done. apply Hcs.
  - unfold deadzone. shards_cbn. by rewrite lookup_insert_ne.
  - destruct (ShardManager.chans s !! 8) as [q|] eqn:E; [|constructor].
    eapply list.Forall_impl; [by apply (Hcs 8)|]. intros x [? Hx]. split; [done|]. by apply Hx.
Qed.

(** ** Lemmas: the uplink *)

Lemma gw_inv_core log g g' :
  gw_inv log g -> same_core g g' -> clock_reconciler g' = clock_reconciler g ->
  shards_inv log (shard_manager g') ->
  Forall (request_ok log) (posts g') -> gw_inv log g'.
Proof.
  intros [I0 I1 I2 I3 I4 I5 I6 I7] (_ & E2 & E3 & _ & E5 & E6 & _) E0 [Hst Hcs] Hp.
  split; rewrite ?E0, ?E2, ?E3, ?E5, ?E6; done.
Qed.

Lemma gw_shards log g : gw_inv log g -> shards_inv log (shard_manager g).
Proof. by intros []. Qed.

Lemma post_posts g ev i r : posts (post g ev i r) = posts g \/ posts (post g ev i r) = posts g ++ [r].
Proof.
  unfold post. destruct (asts_credentials g); [|by left].
  destruct (Breaker.call _ _ _ _) as [[u|[|e]] cb]; auto.
Qed.

Lemma post_clock g ev i r : clock_reconciler (post g ev i r) = clock_reconciler g.
Proof.
  unfold post. destruct (asts_credentials g); [|done].
  by destruct (Breaker.call _ _ _ _) as [[u|[|e]] cb].
Qed.

Lemma post_inv log g ev i r : gw_inv log g -> request_ok log r -> gw_inv log (post g ev i r).
Proof.
  intros Hg Hr. destruct (post_core g ev i r) as [Hc Hs].
  apply (gw_inv_core log g); [done|done|apply post_clock|rewrite Hs; by apply gw_shards|]. pose proof (gi_posts _ _ Hg).
  destruct (post_posts g ev i r) as [->| ->]; [done|]. apply Forall_app_2; [done|by constructor].
Qed.

Lemma ping_inv log g m : gw_inv log g -> gw_inv log (send_telemetry_ping g m).
Proof. intros []. unfold send_telemetry_ping. by destruct (telemetry g). Qed.

Lemma send_to_asts_inv log g ev i x :
  gw_inv log g -> translated log x -> gw_inv log (send_to_asts g ev i x).
Proof. intros Hg Hx. apply ping_inv, post_inv; [done|]. by exists x. Qed.

Lemma set_metrics_inv log g mt : gw_inv log g -> gw_inv log (set_metrics g mt).
Proof. by intros []. Qed.

Lemma send_batch_inv log g ev batch :
  gw_inv log g -> Forall (fun x => translated log x /\ routine x) batch ->
  let g' := send_batch_to_asts g ev batch in
  gw_inv log g' /\ same_core g g' /\ shard_manager g' = shard_manager g.
Proof.
  intros Hg Hb. unfold send_batch_to_asts. destruct batch as [|x batch]; [done|].
  set (g1 := set_metrics g _). destruct (post_core g1 ev 0 (PostBatch (map body (x :: batch)))) as [Hc Hs].
  split; [|split].
  - apply ping_inv, post_inv; [by apply set_metrics_inv|]. cbn [request_ok].
    apply Forall_fmap. eapply list.Forall_impl; [exact Hb|]. intros y [? ?]. by exists y.
  - etrans; [etrans; [|exact Hc]; by repeat split|]. unfold send_telemetry_ping.
    by destruct (telemetry _); repeat split.
  - unfold send_telemetry_ping. by destruct (telemetry _).
Qed.

(** ** Lemmas: the cache *)

Lemma set_cache_inv log c now p d x :
  cache_inv log c -> translated log x -> cache_inv log (AsyncCache.set c now p d x).
Proof.
  intros Hc Hx. rewrite set_evicted. cbv zeta. unfold cache_inv. cbn [AsyncCache.entries].
  apply map_Forall_insert_2; [done|]. unfold evicted. destruct (_ <=? _); [|done].
  destruct (AsyncCache.eviction_order c); [done|]. by apply map_Forall_delete.
Qed.

Lemma set_batch_cache_inv log c batch :
  cache_inv log c -> Forall (fun e => translated log e.2) batch ->
  cache_inv log (AsyncCache.set_batch c batch).
Proof.
  intros Hc Hb. revert c Hc. induction Hb as [|[[[now p] d] x] batch Hx _ IH]; intros c Hc; [done|].
  cbn [AsyncCache.set_batch]. by apply IH, set_cache_inv.
Qed.

Lemma get_batch_inv log c queries :
  cache_inv log c ->
  Forall (fun o => match o with Some x => translated log x | None => True end)
    (AsyncCache.get_batch c queries).
Proof.
  intros Hc. apply Forall_fmap, Forall_true. intros [[now p] d]. cbn.
  destruct (AsyncCache.entries c !! _) as [e|] eqn:E; cbn; [|done].
  destruct (AsyncCache.fresh now e); [|done]. by apply (Hc _ _ E).
Qed.

(** ** Lemmas: incoming batches *)

Lemma diverted_sub flags msgs : diverted flags msgs ⊆ msgs.
Proof.
  revert flags. induction msgs as [|m msgs IH]; intros [|[] flags]; cbn [diverted app]; try set_solver.
Qed.

Lemma forwarded_sub flags msgs : forwarded flags msgs ⊆ msgs.
Proof.
  revert flags. induction msgs as [|m msgs IH]; intros [|[] flags]; cbn [forwarded app]; try set_solver.
  assert (He : expand m ⊆ [m]); [|specialize (IH flags); set_solver].
  unfold expand. destruct (_ && _); [|done]. intros x [-> _]%elem_of_replicate. set_solver.
Qed.

Lemma Forall_included {A} (P : A -> Prop) (l k : list A) : l ⊆ k -> Forall P k -> Forall P l.
Proof. rewrite !list.Forall_forall. auto. Qed.

(** No offset is ever registered, so no clock is ever corrected. *)
Lemma reconciled_id g now m :
  ClockReconciler.offsets (clock_reconciler g) = ∅ -> reconciled g now m = m.
Proof.
  intros Hc. unfold reconciled, ClockReconciler.reconcile, ClockReconciler.get_offset.
  by rewrite Hc, lookup_empty.
Qed.

Lemma push_spread_all_inv log g msgs :
  gw_inv log g -> Forall (fun m => derived log m /\ routine m) msgs ->
  gw_inv log (push_spread_all g msgs) /\
  deadzone (shard_manager (push_spread_all g msgs)) = deadzone (shard_manager g).
Proof.
  intros Hg Hm. revert g Hg. unfold push_spread_all.
  induction Hm as [|m msgs [Hd Hr] _ IH]; intros g Hg; [done|]. cbn [fold_left].
  set (g1 := set_metrics g _).
  destruct (push_to_shards log (shard_manager g1) (ShardManager.spread_shard_id (shard_manager g1)) m)
    as [J1 J2]; [by apply gw_shards, set_metrics_inv|done|done|].
  destruct (IH (set_shards g1 (ShardManager.push_spread (shard_manager g1) m).2)) as [J3 J4].
  - destruct Hg, J1. by split.
  - split; [done|]. rewrite J4. cbn [set_shards shard_manager]. unfold ShardManager.push_spread.
    rewrite J2. destruct (gi_static _ _ Hg) as (_ & _ & E8 & _).
    cbn [g1 set_metrics shard_manager]. by rewrite E8.
Qed.

Lemma emit_or_push_inv log g ev i l :
  gw_inv log g ->
  Forall (fun p => (derived log p.1 /\ routine p.1) /\
                   match p.2 with Some x => translated log x | None => True end) l ->
  exists g', emit_or_push g ev i l = Ret g' /\ gw_inv log g' /\
    deadzone (shard_manager g') = deadzone (shard_manager g).
Proof.
  intros Hg Hl. revert g i Hg. induction Hl as [|[msg o] l [[Hd Hr] Ho] _ IH]; intros g i Hg;
    cbn [emit_or_push]; [by exists g|]. cbn [fst snd] in *. destruct o as [x|].
  - set (g1 := set_metrics g _). destruct (send_to_asts_core g1 ev i x) as [_ Hs].
    destruct (IH (send_to_asts g1 ev i x) (S i)) as (g' & E & Hg' & Hz).
    { by apply send_to_asts_inv; [apply set_metrics_inv|]. }
    exists g'. split; [done|]. split; [done|]. by rewrite Hz, Hs.
  - set (g1 := set_metrics g _).
    destruct (push_shards log (shard_manager g1) msg) as (r & s' & -> & [J1 J2] & J3);
      [by apply gw_shards, set_metrics_inv|done|done|]. mstep.
    set (g2 := match r with Ok _ => _ | Err _ => _ end).
    assert (E2 : shard_manager g2 = s') by (by unfold g2; destruct r).
    destruct (IH g2 (S i)) as (g' & E & Hg' & Hz).
    { unfold g2. destruct Hg, r; by split. }
    exists g'. split; [done|]. split; [done|]. by rewrite Hz, E2, J3.
Qed.

(** The effect of a handler on the input side. *)
Definition keeps (g g' : Gateway.t) : Prop :=
  batcher_in g' = batcher_in g /\ deadzone (shard_manager g') = deadzone (shard_manager g).

Lemma imap_id {A} (f : nat -> A -> A) (l : list A) : (forall i x, f i x = x) -> imap f l = l.
Proof.
  revert f. induction l as [|x l IH]; intros f Hf; [done|]. rewrite imap_cons, Hf.
  f_equal. apply IH. intros i y. apply Hf.
Qed.

(** The cache lookups of a list of messages. *)
Definition lookups (ev : env) (g : Gateway.t) (l : list Message) : list (Message * option Message) :=
  zip l (AsyncCache.get_batch (cache g) (imap (fun i m => (lookup_at ev i, protocol m, data m)) l)).

(** The two halves of [process_incoming_batch]: what is diverted goes to the spread
    shard, what is forwarded to the cache and the workers. *)
Lemma incoming_split log g ev batch :
  gw_inv log g -> batch <> [] ->
  exists flags g1, length flags = length batch /\ gw_inv log g1 /\
    (batcher_in g1, transmission_in g1, cache g1, shard_manager g1, posts g1, asts_credentials g1,
     circuit_breaker g1) =
    (batcher_in g, transmission_in g, cache g, shard_manager g, posts g, asts_credentials g,
     circuit_breaker g) /\
    process_incoming_batch g ev batch =
      let g2 := push_spread_all g1 (diverted flags batch) in
      emit_or_push g2 ev 0 (lookups ev g2 (forwarded flags batch)).
Proof.
  intros Hg Hne. destruct batch as [|m0 batch0] eqn:Eb; [done|]. rewrite <- Eb.
  unfold process_incoming_batch. rewrite Eb, <- Eb.
  rewrite imap_id by (intros; apply reconciled_id, Hg).
  destruct (route_all_spec ev 0 (ewma_state g) batch) as (ew & _ & Hroute).
  pose proof (late_flags_length (ewma_state g) batch) as Hl. set (flags := late_flags _ _) in *.
  cbn [set_metrics set_store cadence_translator ewma_state]. rewrite (gi_cadence _ _ Hg), Hroute. mstep.
  match goal with |- context [push_spread_all ?x _] => exists flags, x end.
  split; [done|]. split; [by destruct Hg|]. split; [done|].
  unfold lookups. by destruct (forwarded flags batch).
Qed.

Lemma incoming_inv log g ev batch :
  Forall msg_ok log -> gw_inv log g -> Forall (fun m => m ∈ log /\ routine m) batch ->
  exists g', process_incoming_batch g ev batch = Ret g' /\ gw_inv log g' /\ keeps g g' /\
    transmission_in g' = transmission_in g.
Proof.
  intros Hlog Hg Hb. destruct (decide (batch = [])) as [->|Hne]; [by exists g|].
  assert (Hrec : Forall (fun m => derived log m /\ routine m) batch).
  { eapply list.Forall_impl; [exact Hb|]. intros m [Hm Hr]. split; [|done]. split; [|done].
    by apply (proj1 (list.Forall_forall _ _) Hlog). }
  destruct (incoming_split log g ev batch Hg Hne) as (flags & g1 & _ & Hg1 & [= E1 E2 E3 E4 _ _ _] & ->).
  cbv zeta. destruct (push_spread_all_inv log g1 (diverted flags batch) Hg1) as [Hg2 Hz2];
    [by apply (Forall_included _ _ batch), Hrec; apply diverted_sub|].
  pose proof (push_spread_all_core g1 (diverted flags batch)) as Hc2.
  set (g2 := push_spread_all g1 _) in *.
  destruct (emit_or_push_total g2 ev 0 (lookups ev g2 (forwarded flags batch))) as (g' & E & Hc').
  { destruct (gi_static _ _ Hg2) as [-> _]. lia. }
  destruct (emit_or_push_inv log g2 ev 0 (lookups ev g2 (forwarded flags batch))) as (g'' & E' & Hg' & Hz');
    [done| |].
  { apply list.Forall_forall. intros [m o] Hmo. cbn [fst snd]. unfold lookups in Hmo.
    pose proof (elem_of_zip_l _ _ _ _ Hmo) as Hm. pose proof (elem_of_zip_r _ _ _ _ Hmo) as Ho.
    split; [apply (proj1 (list.Forall_forall _ _) Hrec), (forwarded_sub flags), Hm|].
    by apply (proj1 (list.Forall_forall _ _) (get_batch_inv log (cache g2) _ (gi_cache _ _ Hg2))) in Ho. }
  rewrite E in E'. injection E' as <-. exists g'. split; [done|].
  split; [done|]. pose proof (transitivity Hc2 Hc') as (_ & K2 & K3 & _).
  split; [split; [by rewrite K2, E1|by rewrite Hz', Hz2, E4]|by rewrite K3, E2].
Qed.

(** ** Lemmas: translated batches *)

Section laws.
Context `{!CrcLaws, !HexLaws, !ZstdLaws, !NomLaws}.

Lemma translate_routine log now y x :
  derived log y -> in_u 64 now -> Translator.translate_sync now y = Ret (Ok x) ->
  is_emergency x = is_emergency y.
Proof.
  intros [Hy _] Hnow E.
  destruct (translate_sync_cases now y Hy Hnow) as [E'|(x' & E' & _ & Hp & _)]; rewrite E in E'; [done|].
  injection E' as <-. unfold is_emergency. by rewrite Hp.
Qed.

Lemma translations_inv log ev i msgs :
  env_ok ev -> Forall (fun m => derived log m /\ routine m) msgs ->
  Forall (fun p => translated log p.2 /\ routine p.2) (translations ev i msgs).
Proof.
  intros Hev Hm. revert i. induction Hm as [|m msgs [Hd Hr] _ IH]; intros i; cbn [translations];
    [constructor|]. apply Forall_app_2; [|apply IH]. unfold translation.
  destruct (Translator.translate_sync _ m) as [[x|e]|] eqn:E; [|constructor..].
  constructor; [|constructor]. cbn [snd]. split; [exists m, (translate_ms ev i); split; [apply Hev|done]|].
  unfold routine. by rewrite (translate_routine log _ _ _ Hd (Hev i) E).
Qed.

Lemma translations_length ev i msgs : len (translations ev i msgs) <= len msgs.
Proof.
  revert i. induction msgs as [|m msgs IH]; intros i; cbn [translations]; [done|].
  rewrite len_app, len_cons. specialize (IH (S i)).
  assert (len (map (pair m) (translation (translate_ms ev i) m)) <= 1); [|lia].
  unfold translation. by destruct (Translator.translate_sync _ m) as [[x|e]|].
Qed.

Lemma emit_pairs_length g ev pairs :
  len (transmission_in (emit_pairs g ev pairs)) = len (transmission_in g) + len pairs.
Proof. destruct (emit_pairs_transmission g ev pairs) as [-> _]. rewrite len_app. unfold len. by rewrite length_map. Qed.

Lemma emit_pairs_inv log g ev pairs :
  gw_inv log g -> Forall (fun p => translated log p.2 /\ routine p.2) pairs ->
  gw_inv log (emit_pairs g ev pairs) /\ batcher_in (emit_pairs g ev pairs) = batcher_in g /\
  shard_manager (emit_pairs g ev pairs) = shard_manager g.
Proof.
  intros Hg Hp. unfold emit_pairs. destruct pairs as [|[o x] pairs]; [done|]. split; [|done].
  destruct Hg as [I0 I1 I2 I3 I4 I5 I6 I7]. split; try done.
  - apply set_batch_cache_inv; [done|]. apply list.Forall_forall. intros e He.
    apply elem_of_lookup_imap in He as (i & [o' x'] & -> & Hx). apply list_elem_of_lookup_2 in Hx.
    by apply (proj1 (list.Forall_forall _ _) Hp) in Hx as [? _].
  - apply Forall_app_2; [done|]. by apply Forall_fmap.
Qed.

(** A part of the gateway that translating leaves alone is all the invariant needs. *)
Lemma same_pipeline_inv log g g' :
  gw_inv log g -> same_pipeline g g' -> batcher_in g' = batcher_in g ->
  cadence_translator g' = cadence_translator g /\ clock_reconciler g' = clock_reconciler g ->
  gw_inv log g'.
Proof.
  intros [I0 I1 I2 I3 I4 I5 I6 I7] (E1 & E2 & E3 & _ & E5) E6 [E7 E8].
  split; rewrite ?E1, ?E2, ?E3, ?E5, ?E6, ?E7, ?E8; done.
Qed.

Lemma translate_pooled_frame g ev i msgs pairs g' :
  translate_pooled g ev i msgs = Ret (pairs, g') ->
  batcher_in g' = batcher_in g /\ cadence_translator g' = cadence_translator g /\
  clock_reconciler g' = clock_reconciler g.
Proof.
  revert g i pairs g'. induction msgs as [|m msgs IH]; intros g i pairs g'; cbn [translate_pooled].
  { by intros [= <- <-]. }
  destruct (TranslatorPool.borrow _ _) as [tr pool].
  destruct (Translator.translate_sync _ m) as [r|]; mstep; [|done].
  match goal with |- context [translate_pooled ?g1 ev (S i) msgs] =>
    destruct (translate_pooled g1 ev (S i) msgs) as [[ps g2]|] eqn:E; mstep; [|done] end.
  intros [= _ <-]. apply IH in E as (-> & -> & ->). by destruct tr, r.
Qed.

Lemma translate_all_frame g ev i msgs pairs g' :
  translate_all g ev i msgs = Ret (pairs, g') ->
  batcher_in g' = batcher_in g /\ cadence_translator g' = cadence_translator g /\
  clock_reconciler g' = clock_reconciler g.
Proof.
  revert g i pairs g'. induction msgs as [|m msgs IH]; intros g i pairs g'; cbn [translate_all].
  { by intros [= <- <-]. }
  destruct (Translator.translate_sync _ m) as [r|]; mstep; [|done].
  match goal with |- context [translate_all ?g1 ev (S i) msgs] =>
    destruct (translate_all g1 ev (S i) msgs) as [[ps g2]|] eqn:E; mstep; [|done] end.
  intros [= _ <-]. apply IH in E as (-> & -> & ->). by destruct r.
Qed.

Lemma derived_ok log msgs :
  Forall (fun m => derived log m /\ routine m) msgs -> Forall msg_ok msgs.
Proof. intros Hm. eapply list.Forall_impl; [exact Hm|]. by intros m [[? _] _]. Qed.

Lemma translated_batch_inv log g ev msgs :
  env_ok ev -> gw_inv log g -> Forall (fun m => derived log m /\ routine m) msgs ->
  exists g', process_translated_batch g ev msgs = Ret g' /\ gw_inv log g' /\
    batcher_in g' = batcher_in g /\ shard_manager g' = shard_manager g /\
    len (transmission_in g') <= len (transmission_in g) + len msgs.
Proof.
  intros Hev Hg Hm. unfold process_translated_batch.
  destruct msgs as [|m0 msgs]; [exists g; do 4 (split; [done|]); rewrite len_nil; lia|].
  destruct (translate_pooled_spec g ev 0 _ (derived_ok _ _ Hm) Hev) as (g1 & E & Hs).
  destruct (translate_pooled_frame _ _ _ _ _ _ E) as [Eb Ec]. rewrite E. mstep.
  pose proof (translations_inv log ev 0 _ Hev Hm) as Hp.
  pose proof (translations_length ev 0 (m0 :: msgs)) as Hl.
  pose proof (same_pipeline_inv _ _ _ Hg Hs Eb Ec) as Hg1. destruct Hs as (Et & _ & _ & _ & Es).
  destruct (translations ev 0 (m0 :: msgs)) as [|pr prs].
  { exists g1. do 4 (split; [done|]). rewrite Et. pose proof (len_nonneg (m0 :: msgs)). lia. }
  destruct (emit_pairs_inv log g1 ev (pr :: prs) Hg1 Hp) as (J1 & J2 & J3).
  eexists. split; [done|]. split; [by apply set_metrics_inv|].
  cbn [set_metrics batcher_in shard_manager transmission_in].
  rewrite J2, J3, Eb, Es, emit_pairs_length, Et. split; [done|]. split; [done|lia].
Qed.

Lemma drain_spread_inv log g ev :
  env_ok ev -> gw_inv log g ->
  exists g', drain_spread_shard_once g ev = Ret g' /\ gw_inv log g' /\
    batcher_in g' = batcher_in g /\
    let '(ms, sm) := ShardManager.drain_shard (shard_manager g)
                       (ShardManager.spread_shard_id (shard_manager g)) in
    shard_manager g' = sm /\ len (transmission_in g') <= len (transmission_in g) + len ms.
Proof.
  intros Hev Hg. unfold drain_spread_shard_once.
  pose proof (drain_shards log _ (gw_shards _ _ Hg)) as Hd.
  destruct (ShardManager.drain_shard _ _) as [ms sm]. destruct Hd as ([J1 J2] & _ & Hm). cbn [snd].
  assert (Hg0 : gw_inv log (set_shards g sm)) by (by destruct Hg; split).
  destruct ms as [|m0 ms]; [eexists; do 4 (split; [done|]); cbn; rewrite len_nil; lia|].
  destruct (translate_all_spec (set_shards g sm) ev 0 _ (derived_ok _ _ Hm) Hev) as (g1 & E & Hs).
  destruct (translate_all_frame _ _ _ _ _ _ E) as [Eb Ec]. rewrite E. mstep.
  pose proof (translations_length ev 0 (m0 :: ms)) as Hl.
  pose proof (same_pipeline_inv _ _ _ Hg0 Hs Eb Ec) as Hg1. destruct Hs as (Et & _ & _ & _ & Es).
  destruct (emit_pairs_inv log g1 ev _ Hg1 (translations_inv log ev 0 _ Hev Hm)) as (K1 & K2 & K3).
  eexists. split; [done|]. split; [by apply set_metrics_inv|].
  cbn [set_metrics batcher_in shard_manager transmission_in].
  rewrite K2, K3, Eb, Es, emit_pairs_length, Et. split; [done|]. split; [done|].
  cbn [set_shards transmission_in]. lia.
Qed.

(** ** Lemmas: the emergency path *)

Lemma emergency_inv log g ev m :
  env_ok ev -> gw_inv log g -> m ∈ log -> msg_ok m ->
  exists g', process_emergency g ev m = Ret g' /\ gw_inv log g' /\ batcher_in g' = batcher_in g /\
    deadzone (shard_manager g') =
      if len (deadzone (shard_manager g)) <? 1000 then deadzone (shard_manager g) ++ [m]
      else deadzone (shard_manager g).
Proof.
  intros Hev Hg Hm Hok. unfold process_emergency. rewrite reconciled_id by apply Hg.
  assert (Hd : derived log m) by done. pose proof (gi_static _ _ Hg) as (_ & E0 & _).
  destruct (push_to_shards log (shard_manager g) (ShardManager.deadzone_shard_id (shard_manager g)) m)
    as [[J1 J2] J3]; [by apply gw_shards|done|by rewrite E0|]. rewrite E0 in J3. cbn [Z.eqb andb] in J3.
  set (g1 := set_snapshots _ _).
  assert (Hg1 : gw_inv log g1) by (by destruct Hg; split).
  destruct (translate_sync_cases (translate_ms ev 0) m) as [E|(x & E & _)];
    [done|apply Hev| |]; rewrite E; mstep; eexists; (split; [done|]).
  - split; [by do 2 apply set_metrics_inv|]. split; [done|]. rewrite <- J3, <- E0. done.
  - set (g2 := set_cache g1 _).
    assert (Hx : translated log x) by (exists m, (translate_ms ev 0); split; [apply Hev|done]).
    assert (Hg2 : gw_inv log g2).
    { destruct Hg1 as [K0 K1 K2 K3 K4 K5 K6 K7]. split; try done. by apply set_cache_inv. }
    destruct (send_to_asts_core g2 ev 0 x) as [(_ & E2 & _) E4].
    split; [by apply set_metrics_inv, send_to_asts_inv|].
    cbn [set_metrics batcher_in shard_manager]. rewrite E2, E4. split; [done|]. rewrite <- J3, <- E0. done.
Qed.

(** ** Lemmas: the two batcher tasks *)

Lemma held_flush now' s : held (flush now' s) = held s.
Proof. unfold held, flush. cbn [outputs buffer]. by rewrite concat_snoc, app_nil_r. Qed.

Lemma flush_ok now' s : task_ok s -> buffer s <> [] -> task_ok (flush now' s).
Proof. intros [Hc Ho] Hb. split; [done|]. apply Forall_app_2; [done|by constructor]. Qed.

(** What either batcher does with a message: it joins the buffer, or leaves with it. *)
Lemma joined s m s' now' :
  let s1 := mkTask (buffer s ++ [m]) (last_flush s) (outputs s) (closed s) in
  task_ok s -> s' = flush now' s1 \/ s' = s1 ->
  task_ok s' /\ held s' = held s ++ [m] /\ len (buffer s') <= len (buffer s) + 1.
Proof.
  intros s1 Hs Hs'.
  assert (Hh : held s1 = held s ++ [m]) by (unfold held; cbn [s1 outputs buffer]; by rewrite app_assoc).
  assert (Hb : buffer s1 <> []) by (cbn [s1 buffer]; by destruct (buffer s)).
  assert (Hl : len (buffer s1) = len (buffer s) + 1) by (cbn [s1 buffer]; by rewrite len_app).
  destruct Hs' as [-> | ->].
  - rewrite held_flush. split; [by apply flush_ok|]. split; [done|]. cbn [flush buffer].
    rewrite len_nil. pose proof (len_nonneg (buffer s)). lia.
  - split; [exact Hs|]. split; [done|lia].
Qed.

Lemma batcher_recv s now now' m :
  task_ok s -> routine m ->
  let s' := batcher_handle s (Recv now now' m) in
  task_ok s' /\ held s' = held s ++ [m] /\ len (buffer s') <= len (buffer s) + 1.
Proof.
  intros Hs Hm s'. apply (joined s m _ now'); [done|]. unfold s', batcher_handle, AsyncBatcher.handle.
  destruct Hs as [-> _]. rewrite Hm. cbn [buffer last_flush outputs closed]. destruct (_ || _); [|by right].
  assert (He : is_empty (buffer s ++ [m]) = false) by (by destruct (buffer s)). rewrite He. by left.
Qed.

Lemma transmission_recv s now now' m :
  task_ok s ->
  let s' := transmission_handle s (Recv now now' m) in
  task_ok s' /\ held s' = held s ++ [m] /\ len (buffer s') <= len (buffer s) + 1.
Proof.
  intros Hs s'. apply (joined s m _ now'); [done|]. unfold s', transmission_handle, TransmissionBatcher.handle.
  destruct Hs as [-> _]. cbn [buffer last_flush outputs closed]. destruct (_ || _); [by left|by right].
Qed.

(** Both flush timers. *)
Lemma timer_flushes s now' :
  task_ok s ->
  let s' := if negb (is_empty (buffer s)) then flush now' s else s in
  task_ok s' /\ held s' = held s /\ buffer s' = [].
Proof.
  intros Hs. destruct (is_empty (buffer s)) eqn:E; cbn [negb].
  - by apply is_empty_nil in E.
  - rewrite held_flush. split; [|done]. apply flush_ok; [done|]. by destruct (buffer s).
Qed.

Lemma batcher_timer s now' :
  task_ok s ->
  let s' := batcher_handle s (Timer now') in task_ok s' /\ held s' = held s /\ buffer s' = [].
Proof.
  intros Hs. unfold batcher_handle, AsyncBatcher.handle. pose proof Hs as [-> _]. by apply timer_flushes.
Qed.

Lemma transmission_timer s now' :
  task_ok s ->
  let s' := transmission_handle s (Timer now') in task_ok s' /\ held s' = held s /\ buffer s' = [].
Proof.
  intros Hs. unfold transmission_handle, TransmissionBatcher.handle. pose proof Hs as [-> _].
  by apply timer_flushes.
Qed.

Lemma recv_batch_held s batch rx :
  task_ok s -> recv_batch s = Some (batch, rx) ->
  task_ok rx /\ held s = batch ++ held rx /\ buffer rx = buffer s /\ batch <> [].
Proof.
  intros [Hc Ho]. unfold recv_batch, held, task_ok. destruct (outputs s) as [|b bs]; [done|].
  intros [= <- <-]. cbn [outputs buffer closed concat]. apply Forall_cons_1 in Ho as [? ?].
  by rewrite app_assoc.
Qed.

(** ** Lemmas: every turn of every task *)

Lemma sub_snoc (l : list Message) m : l ⊆ l ++ [m].
Proof. set_solver. Qed.

Lemma take_snoc (l : list Message) m :
  (if len (take 1000 l) <? 1000 then take 1000 l ++ [m] else take 1000 l) = take 1000 (l ++ [m]).
Proof.
  unfold len. rewrite length_take. destruct (_ <? _) eqn:E; breflect.
  - rewrite !take_ge; rewrite ?length_app; cbn [length]; try done; lia.
  - rewrite take_app_le; [done|lia].
Qed.

Lemma send_step s ev m :
  inv s -> env_ok ev -> msg_ok m ->
  exists g', Gateway.send (gw s) ev m = Ret g' /\ gw_inv (sent s ++ [m]) g' /\
    deadzone (shard_manager g') = take 1000 (urgent (sent s ++ [m])).
Proof.
  intros Hs Hev Hm. unfold Gateway.send.
  assert (Hg : gw_inv (sent s ++ [m]) (set_metrics (gw s) (Metrics.increment_translated (metrics (gw s)))))
    by (apply set_metrics_inv, (gw_inv_mono (sent s)), Hs; apply sub_snoc).
  pose proof (i_deadzone _ Hs) as Hz. rewrite urgent_app, urgent_cons.
  destruct (is_emergency m) eqn:He.
  - destruct (emergency_inv _ _ ev m Hev Hg) as (g' & E & Hg' & _ & Hz'); [set_solver|done|].
    exists g'. split; [done|]. split; [done|]. rewrite Hz'. cbn [set_metrics shard_manager].
    rewrite Hz. apply take_snoc.
  - eexists. split; [done|]. split; [|by rewrite app_nil_r].
    destruct Hg as [I0 I1 I2 I3 I4 I5 I6 I7]. split; try done.
    apply Forall_app_2; [done|]. constructor; [|constructor]. split; [set_solver|done].
Qed.

Definition sent_by (a : action) : list Message := match a with Send _ m => [m] | _ => [] end.

(** A turn returns and keeps the invariant. *)
Definition good_turn (s : t) (a : action) : Prop :=
  exists s', perform s a = Ret s' /\ inv s' /\ sent s' = sent s ++ sent_by a.

(** Turns that replace the gateway or a batcher task. *)
Lemma good_gateway s a g' :
  inv s -> perform s a = Ret (mk g' (tin s) (tout s) (sent s)) -> sent_by a = [] ->
  gw_inv (sent s) g' -> deadzone (shard_manager g') = deadzone (shard_manager (gw s)) ->
  good_turn s a.
Proof.
  intros Hs E Ha Hg Hz. eexists. split; [exact E|]. cbn [sent]. rewrite Ha, app_nil_r. split; [|done].
  destruct Hs as [???? Hdz ?]. by split; [..|cbn [gw sent]; rewrite Hz|].
Qed.

Lemma good_idle s a : inv s -> perform s a = Ret s -> sent_by a = [] -> good_turn s a.
Proof. intros Hs E Ha. exists s. by rewrite Ha, app_nil_r. Qed.

Lemma good_tin s a g' tin' :
  inv s -> perform s a = Ret (mk g' tin' (tout s) (sent s)) -> sent_by a = [] ->
  gw_inv (sent s) g' -> deadzone (shard_manager g') = deadzone (shard_manager (gw s)) ->
  Forall (fun m => m ∈ sent s /\ routine m) (held tin') -> task_ok tin' -> good_turn s a.
Proof.
  intros Hs E Ha Hg Hz Hh Hc. eexists. split; [exact E|]. cbn [sent]. rewrite Ha, app_nil_r.
  split; [|done]. destruct Hs as [???? Hdz [_ ?]]. by split; [..|cbn [gw sent]; rewrite Hz|].
Qed.

Lemma good_tout s a g' tout' :
  inv s -> perform s a = Ret (mk g' (tin s) tout' (sent s)) -> sent_by a = [] ->
  gw_inv (sent s) g' -> deadzone (shard_manager g') = deadzone (shard_manager (gw s)) ->
  Forall (fun x => translated (sent s) x /\ routine x) (held tout') -> task_ok tout' ->
  good_turn s a.
Proof.
  intros Hs E Ha Hg Hz Hh Hc. eexists. split; [exact E|]. cbn [sent]. rewrite Ha, app_nil_r.
  split; [|done]. destruct Hs as [???? Hdz [? _]]. by split; [..|cbn [gw sent]; rewrite Hz|].
Qed.

Lemma good_send s ev m : inv s -> env_ok ev -> msg_ok m -> good_turn s (Send ev m).
Proof.
  intros Hs Hev Hm. destruct (send_step s ev m Hs Hev Hm) as (g' & E & Hg' & Hz).
  unfold good_turn. cbn [perform]. rewrite E. mstep. eexists. split; [done|]. split; [|done].
  destruct Hs as [Hlog Hg Hin Hout _ Hc]. split; cbn [sent gw tin tout]; try done.
  - apply Forall_app_2; [done|by constructor].
  - eapply list.Forall_impl; [exact Hin|]. intros x [? ?]. split; [set_solver|done].
  - eapply list.Forall_impl; [exact Hout|]. intros x [? ?].
    split; [apply (translated_mono (sent s)); [apply sub_snoc|done]|done].
Qed.

Lemma good_batcher_recv s now now' : inv s -> good_turn s (BatcherRecv now now').
Proof.
  intros Hs. pose proof Hs as [_ Hg Hin _ _ [Hc _]]. destruct (batcher_in (gw s)) as [|m rest] eqn:E.
  { apply good_idle; [done|cbn [perform]; by rewrite E|done]. }
  pose proof (gi_batcher _ _ Hg) as Hb. rewrite E in Hb. apply Forall_cons_1 in Hb as [[Hm Hr] Hb].
  destruct (batcher_recv (tin s) now now' m Hc Hr) as (Ec & Eh & _).
  eapply good_tin; [done|cbn [perform]; by rewrite E|done|by destruct Hg; split|done| |done].
  rewrite Eh. apply Forall_app_2; [done|by constructor].
Qed.

Lemma good_transmission_recv s now now' : inv s -> good_turn s (TransmissionRecv now now').
Proof.
  intros Hs. pose proof Hs as [_ Hg _ Hout _ [_ Hc]]. destruct (transmission_in (gw s)) as [|m rest] eqn:E.
  { apply good_idle; [done|cbn [perform]; by rewrite E|done]. }
  pose proof (gi_transmission _ _ Hg) as Hb. rewrite E in Hb. apply Forall_cons_1 in Hb as [Hm Hb].
  destruct (transmission_recv (tout s) now now' m Hc) as (Ec & Eh & _).
  eapply good_tout; [done|cbn [perform]; by rewrite E|done|by destruct Hg; split|done| |done].
  rewrite Eh. apply Forall_app_2; [done|by constructor].
Qed.

Lemma good_incoming s ev : inv s -> good_turn s (Incoming ev).
Proof.
  intros Hs. pose proof Hs as [Hlog Hg Hin _ _ [Hc _]].
  destruct (recv_batch (tin s)) as [[batch rx]|] eqn:E;
    [|apply good_idle; [done|cbn [perform]; by rewrite E|done]].
  pose proof (recv_batch_held _ _ _ Hc E) as (Ec & Eh & _). rewrite Eh in Hin.
  apply Forall_app in Hin as [Hb Hrx].
  destruct (incoming_inv _ _ ev batch Hlog Hg Hb) as (g' & E' & Hg' & [_ Hz] & _).
  apply (good_tin s _ g' rx); try done. cbn [perform]. rewrite E, E'. by mstep.
Qed.

Lemma good_uplink s ev : inv s -> good_turn s (Uplink ev).
Proof.
  intros Hs. pose proof Hs as [_ Hg _ Hout _ [_ Hc]].
  destruct (recv_batch (tout s)) as [[batch rx]|] eqn:E;
    [|apply good_idle; [done|cbn [perform]; by rewrite E|done]].
  pose proof (recv_batch_held _ _ _ Hc E) as (Ec & Eh & _). rewrite Eh in Hout.
  apply Forall_app in Hout as [Hb Hrx]. destruct (send_batch_inv _ _ ev batch Hg Hb) as (Hg' & _ & Es).
  apply (good_tout s _ (send_batch_to_asts (gw s) ev batch) rx); try done;
    [cbn [perform]; by rewrite E|by rewrite Es].
Qed.

Lemma good_worker s ev c : inv s -> env_ok ev -> good_turn s (Worker ev c).
Proof.
  intros Hs Hev. pose proof Hs as [_ Hg _ _ _ _].
  destruct (decide (c ∈ ShardManager.workers (shard_manager (gw s)))) as [Hc|Hc];
    [|apply good_idle; [done|cbn [perform]; by rewrite bool_decide_eq_false_2|done]].
  pose proof (worker_shards _ _ c (gw_shards _ _ Hg) Hc) as Hw.
  destruct (ShardManager.worker_recv_batch _ c 20) as [ms sm] eqn:E. destruct Hw as ([J1 J2] & Hz & Hms).
  destruct (translated_batch_inv (sent s) (set_shards (gw s) sm) ev ms) as (g' & E' & Hg' & _ & Es & _);
    [done|by destruct Hg; split|done|].
  apply (good_gateway s _ g'); try done.
  - cbn [perform]. rewrite bool_decide_eq_true_2 by done. rewrite E, E'. by mstep.
  - rewrite Es. cbn [set_shards shard_manager]. by rewrite Hz.
Qed.

Lemma good_drain s ev : inv s -> env_ok ev -> good_turn s (SpreadDrain ev).
Proof.
  intros Hs Hev. pose proof Hs as [_ Hg _ _ _ _].
  destruct (drain_spread_inv _ _ ev Hev Hg) as (g' & E & Hg' & _ & Es).
  apply (good_gateway s _ g'); try done; [cbn [perform]; rewrite E; by mstep|].
  pose proof (drain_shards _ _ (gw_shards _ _ Hg)) as Hd.
  destruct (ShardManager.drain_shard _ _) as [ms sm], Es as [-> _]. by destruct Hd as (_ & -> & _).
Qed.

Lemma perform_inv s a : inv s -> action_ok a -> good_turn s a.
Proof.
  intros Hs Ha. pose proof Hs as [_ Hg Hin Hout _ [Hci Hco]].
  destruct a as [ev m|now now'|now'|ev|ev c|ev|now now'|now'|ev| |en ep]; cbn [action_ok] in Ha.
  - destruct Ha. by apply good_send.
  - by apply good_batcher_recv.
  - destruct (batcher_timer (tin s) now' Hci) as (Ec & Eh & _).
    eapply good_tin; [done|done|done|done|done|by rewrite Eh|done].
  - by apply good_incoming.
  - by apply good_worker.
  - by apply good_drain.
  - by apply good_transmission_recv.
  - destruct (transmission_timer (tout s) now' Hco) as (Ec & Eh & _).
    eapply good_tout; [done|done|done|done|done|by rewrite Eh|done].
  - by apply good_uplink.
  - eapply good_gateway; [done|done|done|by destruct Hg|done].
  - eapply good_gateway; [done|done|done|by destruct Hg|done].
Qed.

Lemma run_inv s acts :
  inv s -> Forall action_ok acts ->
  exists s', run s acts = Ret s' /\ inv s' /\ sent s' = sent s ++ sends acts.
Proof.
  intros Hs Ha. revert s Hs. induction Ha as [|a acts Ha _ IH]; intros s Hs; cbn [run].
  { exists s. cbn [sends]. by rewrite app_nil_r. }
  destruct (perform_inv s a Hs Ha) as (s1 & -> & Hs1 & E1). mstep.
  destruct (IH s1 Hs1) as (s' & -> & Hs' & E'). exists s'. do 2 (split; [done|]).
  rewrite E', E1, <- app_assoc. by destruct a.
Qed.

Lemma start_shards now cache_ttl credentials telemetry :
  shards_inv [] (shard_manager (Gateway.new now cache_ttl credentials telemetry)).
Proof.
  set (sm := shard_manager _).
  assert (Htx : map_Forall (fun id sh => ShardManager.tx sh = id) (ShardManager.shards sm))
    by (apply (bool_decide_unpack _); vm_compute; reflexivity).
  assert (Hq : map_Forall (fun _ q => q = []) (ShardManager.chans sm))
    by (apply (bool_decide_unpack _); vm_compute; reflexivity).
  split; [split_and!; try (vm_compute; reflexivity); [by eexists|exact Htx]|].
  intros c q E. by rewrite (Hq c q E).
Qed.

Lemma start_inv now cache_ttl credentials telemetry : inv (start now cache_ttl credentials telemetry).
Proof.
  split; [constructor| |constructor|constructor|vm_compute; reflexivity|by repeat constructor].
  destruct (start_shards now cache_ttl credentials telemetry). split; done || apply Forall_nil_2 || apply map_Forall_empty.
Qed.


(** ** Properties *)

Definition bodies (r : Request) : list Body :=
  match r with PostMessage b => [b] | PostBatch bs => bs end.

(** What the uplink may say: the translation of a sent message. *)
Definition authentic (log : list Message) (b : Body) : Prop :=
  exists m now x, m ∈ log /\ Translator.translate_sync now m = Ret (Ok x) /\
    b = mkBody (protocol_display ASTSpaceMobile) (hex_encode (data x)) (priority_val (priority m))
          (t_event m) (t_system m).

Lemma translated_authentic log x : translated log x -> authentic log (body x).
Proof.
  intros (m & now & Hn & [Hok Hm] & E).
  destruct (translate_sync_cases now m Hok Hn) as [E'|(x' & E' & Hpr & Hp & He & Hs & _)];
    rewrite E in E'; [done|]. injection E' as <-.
  exists m, now, x. split; [done|]. split; [done|]. unfold body. by rewrite Hpr, Hp, He, Hs.
Qed.

(** C1: end to end, the gateway never panics and never makes anything up.  For
    every interleaving of the public calls and of the turns of all its tasks,
    with any clock readings and any outcome of the HTTP requests, the execution
    returns, and every body that was posted carries the translated data of one
    message that was handed to [send], together with the priority, event time and
    system time of that same message, addressed to [ASTSpaceMobile]. *)
Theorem uplink_authentic now cache_ttl credentials telemetry acts (Ha : Forall action_ok acts) :
  exists s, run (start now cache_ttl credentials telemetry) acts = Ret s /\ sent s = sends acts /\
    Forall (fun r => Forall (authentic (sends acts)) (bodies r)) (posts (gw s)).
Proof.
  destruct (run_inv _ acts (start_inv now cache_ttl credentials telemetry) Ha) as (s & Hr & Hs & Hlog).
  exists s. split; [done|]. split; [done|]. pose proof (gi_posts _ _ (i_gw _ Hs)) as Hp.
  rewrite Hlog in Hp. cbn [start sent app] in Hp. eapply list.Forall_impl; [exact Hp|].
  intros [b|bs] Hb; cbn [bodies request_ok] in *.
  - destruct Hb as (x & -> & Hx). constructor; [by apply translated_authentic|constructor].
  - eapply list.Forall_impl; [exact Hb|]. intros b (x & -> & Hx & _). by apply translated_authentic.
Qed.

(** C4: emergencies and batches do not mix.  In every interleaving no emergency
    message ever waits in the input batcher, in a worker's shard, in the spread
    shard or in the transmission batcher, hence no batch request carries
    priority 0; and the deadzone shard is exactly the list of the first 1000
    emergencies sent, in order: no task ever takes from it, so from then on
    emergencies are no longer recorded there. *)
Theorem emergencies_bypass now cache_ttl credentials telemetry acts (Ha : Forall action_ok acts) :
  exists s, run (start now cache_ttl credentials telemetry) acts = Ret s /\
    Forall routine (batcher_in (gw s) ++ held (tin s) ++ transmission_in (gw s) ++ held (tout s)) /\
    (forall c q, c <> 0 -> ShardManager.chans (shard_manager (gw s)) !! c = Some q -> Forall routine q) /\
    (forall bs b, PostBatch bs ∈ posts (gw s) -> b ∈ bs -> b_priority b <> 0) /\
    deadzone (shard_manager (gw s)) = take 1000 (List.filter is_emergency (sends acts)).
Proof.
  destruct (run_inv _ acts (start_inv now cache_ttl credentials telemetry) Ha) as (s & Hr & Hs & Hlog).
  exists s. split; [done|]. destruct Hs as [_ [_ _ _ Hb Hc _ Ht Hp] Hi Ho Hz _].
  split; [|split; [|split]].
  - rewrite !Forall_app. split_and!; (eapply list.Forall_impl; [eassumption|]); by intros x [_ Hx].
  - intros c q Hne Hq. eapply list.Forall_impl; [by apply (Hc c)|]. intros m [_ Hm]. auto.
  - intros bs b Hin Hbs. apply (proj1 (list.Forall_forall _ _) Hp) in Hin. cbn [request_ok] in Hin.
    apply (proj1 (list.Forall_forall _ _) Hin) in Hbs as (x & -> & _ & Hx).
    unfold routine, is_emergency in Hx. apply bool_decide_eq_false in Hx.
    cbn [body b_priority]. by destruct (priority x).
  - by rewrite Hz, Hlog.
Qed.

(** no clock is ever corrected: the reconciler of the gateway is private, nothing
    registers an offset with it, and in every state the running gateway reaches
    the reconciliation step returns each message as it came. *)
Theorem reconciliation_is_identity now cache_ttl credentials telemetry acts
  (Ha : Forall action_ok acts) :
  exists s, run (start now cache_ttl credentials telemetry) acts = Ret s /\
    forall now' m, reconciled (gw s) now' m = m.
Proof.
  destruct (run_inv _ acts (start_inv now cache_ttl credentials telemetry) Ha) as (s & Hr & Hs & _).
  exists s. split; [done|]. intros now' m. by apply reconciled_id, (gi_clock _ _ (i_gw _ Hs)).
Qed.
End laws.
End spec.

Section witnesses.
#[local] Existing Instances crc_ibm_3740 crc_ibm_3740_laws hex_ref hex_ref_laws hex_encode_ref
  zstd_stored zstd_stored_laws nom_ref nom_ref_laws.

(** One message through all tasks, and an emergency past them. *)
Definition demo_acts : list action :=
  [Send demo_env (mkMessage NIDD [7; 8] Operational 5 5 5);
   Send demo_env (mkMessage RockBLOCK [4; 0; 1; 77] Emergency 20 10 20);
   BatcherRecv 0 0; BatcherTimer 0; Incoming demo_env; Worker demo_env 1;
   TransmissionRecv 0 0; TransmissionTimer 0; Uplink demo_env].

Lemma demo_acts_ok : Forall action_ok demo_acts.
Proof.
  repeat constructor; try done; try (apply (bool_decide_unpack _); vm_compute; reflexivity);
    try (intros j; unfold in_u; simpl; lia).
Defined.

Lemma uplink_authentic_witness :
  exists s, run (start 0 1000 true false) demo_acts = Ret s /\
    posts (gw s) = [PostMessage (body (mkMessage ASTSpaceMobile [4; 77] Emergency 100 10 20));
                    PostBatch [body (mkMessage ASTSpaceMobile [7; 8] Operational 100 5 5)]] /\
    Forall (fun r => Forall (authentic (sends demo_acts)) (bodies r)) (posts (gw s)).
Proof.
  destruct (uplink_authentic 0 1000 true false demo_acts demo_acts_ok) as (s & Hr & _ & Hp).
  exists s. split; [exact Hr|]. split; [|exact Hp].
  assert (E : match run (start 0 1000 true false) demo_acts with Ret s => posts (gw s) | Panic => [] end =
    [PostMessage (body (mkMessage ASTSpaceMobile [4; 77] Emergency 100 10 20));
     PostBatch [body (mkMessage ASTSpaceMobile [7; 8] Operational 100 5 5)]]) by (vm_compute; reflexivity).
  rewrite Hr in E. exact E.
Defined.

Lemma emergencies_bypass_witness :
  exists s, run (start 0 1000 true false) demo_acts = Ret s /\
    deadzone (shard_manager (gw s)) = [mkMessage RockBLOCK [4; 0; 1; 77] Emergency 20 10 20].
Proof.
  destruct (emergencies_bypass 0 1000 true false demo_acts demo_acts_ok) as (s & Hr & _ & _ & _ & Hz).
  exists s. split; [exact Hr|]. rewrite Hz. vm_compute. reflexivity.
Defined.

Lemma reconciliation_is_identity_witness :
  exists s, run (start 0 1000 true false) demo_acts = Ret s /\
    reconciled (gw s) 100 (mkMessage NIDD [1] Operational 5 6 7) = mkMessage NIDD [1] Operational 5 6 7.
Proof.
  destruct (reconciliation_is_identity 0 1000 true false demo_acts demo_acts_ok) as (s & Hr & Hm).
  exists s. split; [exact Hr|]. apply Hm.
Defined.
End witnesses.
