(* ===== verification/Quiescence.v ===== *)
(** * Quiescence of the running gateway ([src/src/gateway.rs], [Gateway::new])

    Whatever has been sent, the tasks of the gateway can only do a bounded amount
    of work: [work] is a weight of everything that waits in a queue, and every
    turn that finds something to do makes it smaller, in spite of the cadence
    rules that turn one message into sixty.  A gateway that is not given new
    messages therefore empties every queue a task consumes. *)

From S2P Require Import Prelude Crc Protocol Externals Utf8 AstsProtobuf Translator Cache.
From S2P Require Import Reliability Snapshot Bitemporal Batching Sharding ClockReconciliation.
From S2P Require Import Cadence Metrics Gateway Pipeline.

Import Gateway.Gateway.
Import Pipeline.Pipeline.

Section work.
Context `{CrcCrate, HexCrate, HexEncodeCrate, ZstdCrate, NomCrate}.
Context `{!CrcLaws, !HexLaws, !ZstdLaws, !NomLaws}.

(** ** Work: a measure that every turn with something to do decreases *)

(** The messages in the channels that some task consumes (1 to 8, not the deadzone's). *)
Definition load_of (cs : gmap Z (list Message)) (l : list Z) : Z :=
  foldr (fun c n => len (default [] (cs !! c)) + n) 0 l.
Definition load (s : ShardManager.t) : Z := load_of (ShardManager.chans s) (seqZ 1 8).

(** Weights: a message that leaves the input batcher may become 60. *)
Definition work (s : t) : Z :=
  243 * len (batcher_in (gw s)) + (241 * len (held (tin s)) + len (buffer (tin s))) +
  4 * load (shard_manager (gw s)) + 3 * len (transmission_in (gw s)) +
  (len (held (tout s)) + len (buffer (tout s))).

(** Does the turn find something to do? *)
Definition enabled (s : t) (a : action) : bool :=
  match a with
  | BatcherRecv _ _ => negb (is_empty (batcher_in (gw s)))
  | BatcherTimer _ => negb (is_empty (buffer (tin s)))
  | Incoming _ => negb (is_empty (outputs (tin s)))
  | Worker _ c =>
      bool_decide (c ∈ ShardManager.workers (shard_manager (gw s))) &&
      negb (is_empty (default [] (ShardManager.chans (shard_manager (gw s)) !! c)))
  | SpreadDrain _ => negb (is_empty (default [] (ShardManager.chans (shard_manager (gw s)) !! 8)))
  | TransmissionRecv _ _ => negb (is_empty (transmission_in (gw s)))
  | TransmissionTimer _ => negb (is_empty (buffer (tout s)))
  | Uplink _ => negb (is_empty (outputs (tout s)))
  | Send _ _ | UpdateCredentials | UpdateTelemetry _ _ => false
  end.

Lemma load_of_nonneg cs l : 0 <= load_of cs l.
Proof. induction l as [|c l IH]; cbn [load_of foldr]; [lia|]. pose proof (len_nonneg (default [] (cs !! c))).
  unfold load_of in IH. lia. Qed.

Lemma load_of_other cs c q l : ~ (c ∈ l) -> load_of (<[c := q]> cs) l = load_of cs l.
Proof.
  induction l as [|x l IH]; intros Hc; cbn [load_of foldr]; [done|].
  apply not_elem_of_cons in Hc as [Hx Hl]. rewrite lookup_insert_ne by done. unfold load_of in IH. by rewrite IH.
Qed.

Lemma load_of_insert cs c q l :
  NoDup l -> c ∈ l -> load_of (<[c := q]> cs) l = load_of cs l + len q - len (default [] (cs !! c)).
Proof.
  induction 1 as [|x l Hx Hl IH]; intros Hc; [by apply not_elem_of_nil in Hc|].
  cbn [load_of foldr]. destruct (decide (c = x)) as [->|Hne].
  - rewrite lookup_insert_eq. pose proof (load_of_other cs x q l Hx) as E. unfold load_of in E. rewrite E.
    change (default [] (Some q)) with q. lia.
  - rewrite lookup_insert_ne by done. apply elem_of_cons in Hc as [?|Hc]; [done|]. unfold load_of in IH.
    rewrite (IH Hc). lia.
Qed.

Lemma load_insert s c q :
  load (ShardManager.with_chans s (<[c := q]> (ShardManager.chans s))) =
  load s + (if bool_decide (c ∈ seqZ 1 8)
            then len q - len (default [] (ShardManager.chans s !! c)) else 0).
Proof.
  unfold load. shards_cbn. case_bool_decide as Hc.
  - rewrite load_of_insert; [lia|apply NoDup_seqZ|done].
  - rewrite load_of_other by done. lia.
Qed.

(** Appending one message to one channel. *)
Lemma load_append cs c m :
  load_of (<[c := default [] (cs !! c) ++ [m]]> cs) (seqZ 1 8) <= load_of cs (seqZ 1 8) + 1.
Proof.
  destruct (decide (c ∈ seqZ 1 8)).
  - rewrite load_of_insert by (done || apply NoDup_seqZ). rewrite len_app. change (len [m]) with 1. lia.
  - rewrite load_of_other by done. lia.
Qed.

Lemma load_push s m r s' : ShardManager.push s m = Ret (r, s') -> load s' <= load s + 1.
Proof.
  unfold ShardManager.push, ShardManager.select_shard_for_message.
  destruct (_ <=? _); [intros [= _ <-]; unfold load; shards_cbn; lia|].
  destruct (_ =? _); [done|]. mstep. destruct (ShardManager.shards _ !! _) as [sh|];
    [|intros [= _ <-]; unfold load; shards_cbn; lia].
  destruct (ShardManager.shard_push _ sh m) as [s1|] eqn:Hp; intros [= _ <-];
    [|unfold load; shards_cbn; lia].
  apply shard_push_eq in Hp as [-> _]. unfold load. shards_cbn. apply load_append.
Qed.

Lemma load_push_to s id m : load (ShardManager.push_to s id m).2 <= load s + 1.
Proof.
  unfold ShardManager.push_to. destruct (ShardManager.shards _ !! _) as [sh|];
    [|cbn [snd]; unfold load; shards_cbn; lia].
  destruct (ShardManager.shard_push _ sh m) as [s1|] eqn:Hp; cbn [snd]; [|unfold load; shards_cbn; lia].
  apply shard_push_eq in Hp as [-> _]. unfold load. shards_cbn. apply load_append.
Qed.

Lemma load_spread_all g msgs :
  load (shard_manager (push_spread_all g msgs)) <= load (shard_manager g) + len msgs.
Proof.
  rewrite push_spread_all_shards. generalize (shard_manager g) as sm.
  induction msgs as [|m msgs IH]; intros sm; cbn [fold_left]; [rewrite (@len_nil Message); lia|].
  etrans; [apply IH|]. rewrite len_cons.
  pose proof (load_push_to sm (ShardManager.spread_shard_id sm) m). unfold ShardManager.push_spread. lia.
Qed.

Lemma load_emit g ev i l g' :
  emit_or_push g ev i l = Ret g' -> load (shard_manager g') <= load (shard_manager g) + len l.
Proof.
  revert g i. induction l as [|[msg [x|]] l IH]; intros g i; cbn [emit_or_push]; rewrite ?len_cons.
  - intros [= <-]. rewrite len_nil. lia.
  - intros E. apply IH in E. set (g1 := set_metrics g _) in *.
    destruct (send_to_asts_core g1 ev i x) as [_ Es]. rewrite Es in E. cbn [g1 set_metrics shard_manager] in E. lia.
  - destruct (ShardManager.push _ msg) as [[r sm]|] eqn:Ep; mstep; [|done]. intros E. apply IH in E.
    apply load_push in Ep. cbn [set_metrics shard_manager] in Ep.
    destruct r; cbn [set_metrics set_shards shard_manager] in E; lia.
Qed.

Lemma routed_length flags msgs :
  len (diverted flags msgs) + len (forwarded flags msgs) <= 60 * len msgs.
Proof.
  revert flags. induction msgs as [|m msgs IH]; intros [|b flags]; cbn [diverted forwarded];
    rewrite ?len_cons; [done|done|change (len (@nil Message)) with 0; pose proof (len_nonneg msgs); lia|].
  rewrite !len_app. specialize (IH flags).
  assert (len (expand m) <= 60) by (unfold expand; destruct (_ && _); [by rewrite len_fill|done]).
  destruct b; [change (len [m]) with 1|]; change (len (@nil Message)) with 0; lia.
Qed.

Lemma len_zip_le {A B} (l : list A) (k : list B) : len (zip l k) <= len l.
Proof. unfold len. rewrite length_zip_with. lia. Qed.

Lemma incoming_load log g ev batch g' :
  gw_inv log g -> process_incoming_batch g ev batch = Ret g' ->
  load (shard_manager g') <= load (shard_manager g) + 60 * len batch.
Proof.
  intros Hg. destruct (decide (batch = [])) as [->|Hne]; [intros [= <-]; rewrite (@len_nil Message); lia|].
  destruct (incoming_split log g ev batch Hg Hne) as (flags & g1 & _ & _ & [= _ _ _ E4 _ _ _] & ->).
  cbv zeta. intros E. apply load_emit in E.
  pose proof (load_spread_all g1 (diverted flags batch)) as Hs. rewrite E4 in Hs.
  pose proof (routed_length flags batch).
  pose proof (len_zip_le (forwarded flags batch) (AsyncCache.get_batch
    (cache (push_spread_all g1 (diverted flags batch)))
    (imap (fun i m => (lookup_at ev i, protocol m, data m)) (forwarded flags batch)))).
  unfold lookups in E. lia.
Qed.

Lemma len_positive {A} (l : list A) : negb (is_empty l) = true -> 1 <= len l.
Proof. destruct l as [|x l]; [done|]. rewrite len_cons. pose proof (len_nonneg l). lia. Qed.

(** What a worker or the drainer takes, leaves the load. *)
Lemma worker_load s c :
  static s -> c ∈ ShardManager.workers s ->
  negb (is_empty (default [] (ShardManager.chans s !! c))) = true ->
  let '(ms, s') := ShardManager.worker_recv_batch s c 20 in
  1 <= len ms /\ load s' = load s - len ms.
Proof.
  intros (_ & _ & _ & _ & _ & _ & Hw) Hc He. rewrite Hw, elem_of_seqZ in Hc. unfold ShardManager.worker_recv_batch.
  destruct (ShardManager.chans s !! c) as [q|] eqn:Eq; [|done]. destruct q as [|m q]; [done|].
  rewrite load_insert, Eq, bool_decide_eq_true_2 by (apply elem_of_seqZ; lia).
  change (default [] (Some (m :: q))) with (m :: q). change (Z.to_nat (Z.max 1 20)) with (S 19).
  unfold len. rewrite length_drop, length_take. cbn [length]. lia.
Qed.

Lemma drain_load s :
  static s -> negb (is_empty (default [] (ShardManager.chans s !! 8))) = true ->
  let '(ms, s') := ShardManager.drain_shard s (ShardManager.spread_shard_id s) in
  1 <= len ms /\ load s' = load s - len ms.
Proof.
  intros (_ & _ & Hsp & Hrx & _) He. unfold ShardManager.drain_shard. rewrite Hsp, Hrx.
  unfold ShardManager.is_regular_shard. cbn [ShardManager.with_chans ShardManager.spread_shard_id].
  rewrite Hsp, andb_false_r. cbn [andb]. split; [by apply len_positive|].
  rewrite load_insert, bool_decide_eq_true_2 by (apply elem_of_seqZ; lia). rewrite (@len_nil Message). lia.
Qed.

Lemma work_nonneg s : 0 <= work s.
Proof.
  unfold work, load. pose proof (load_of_nonneg (ShardManager.chans (shard_manager (gw s))) (seqZ 1 8)).
  repeat match goal with |- context [len ?l] => lazymatch goal with
    | _ : 0 <= len l |- _ => fail | _ => pose proof (len_nonneg l) end end. lia.
Qed.

(** Turns of the two batcher tasks. *)
Lemma batcher_turn_decreases s a s' :
  inv s -> enabled s a = true -> perform s a = Ret s' ->
  match a with
  | BatcherRecv _ _ | BatcherTimer _ | TransmissionRecv _ _ | TransmissionTimer _ => work s' < work s
  | _ => True
  end.
Proof.
  intros [_ Hg _ _ _ [Hi Ho]] He Hp. unfold work.
  destruct a as [| now now'|now'| | | |now now'|now'| | | ]; try done; cbn [enabled perform] in *.
  - destruct (batcher_in (gw s)) as [|m rest] eqn:E; [done|]. injection Hp as <-.
    pose proof (gi_batcher _ _ Hg) as Hb. rewrite E in Hb. apply Forall_cons_1 in Hb as [[_ Hr] _].
    destruct (batcher_recv (tin s) now now' m Hi Hr) as (_ & Eh & Hl).
    cbn [gw tin tout set_batcher batcher_in transmission_in shard_manager].
    rewrite Eh, len_app, !len_cons, (@len_nil Message). lia.
  - injection Hp as <-. destruct (batcher_timer (tin s) now' Hi) as (_ & Eh & Eb).
    cbn [gw tin tout]. rewrite Eh, Eb, (@len_nil Message). apply len_positive in He. lia.
  - destruct (transmission_in (gw s)) as [|m rest] eqn:E; [done|]. injection Hp as <-.
    destruct (transmission_recv (tout s) now now' m Ho) as (_ & Eh & Hl).
    cbn [gw tin tout set_uplink batcher_in transmission_in shard_manager].
    rewrite Eh, len_app, !len_cons, (@len_nil Message). lia.
  - injection Hp as <-. destruct (transmission_timer (tout s) now' Ho) as (_ & Eh & Eb).
    cbn [gw tin tout]. rewrite Eh, Eb, (@len_nil Message). apply len_positive in He. lia.
Qed.

(** Turns of the consumers of the two batchers. *)
Lemma consumer_turn_decreases s a s' :
  inv s -> enabled s a = true -> perform s a = Ret s' ->
  match a with Incoming _ | Uplink _ => work s' < work s | _ => True end.
Proof.
  intros [Hlog Hg Hin Hout _ [Hi Ho]] He Hp. unfold work.
  destruct a as [| | |ev| | | | |ev| | ]; try done; cbn [enabled perform] in *.
  - destruct (recv_batch (tin s)) as [[batch rx]|] eqn:E;
      [|unfold recv_batch in E; by destruct (outputs (tin s))].
    destruct (recv_batch_held _ _ _ Hi E) as (_ & Eh & Eb & Hne). rewrite Eh in Hin |- *.
    apply Forall_app in Hin as [Hb _].
    destruct (incoming_inv _ _ ev batch Hlog Hg Hb) as (g' & E' & _ & [Ebi _] & Et).
    pose proof (incoming_load _ _ _ _ _ Hg E') as Hl. rewrite E' in Hp.
    injection Hp as <-. cbn [gw tin tout]. rewrite Ebi, Et, Eb, len_app.
    assert (1 <= len batch) by (apply len_positive; by destruct batch). lia.
  - destruct (recv_batch (tout s)) as [[batch rx]|] eqn:E;
      [|unfold recv_batch in E; by destruct (outputs (tout s))].
    destruct (recv_batch_held _ _ _ Ho E) as (_ & Eh & Eb & Hne). rewrite Eh in Hout |- *.
    apply Forall_app in Hout as [Hb _].
    destruct (send_batch_inv _ _ ev batch Hg Hb) as (_ & (_ & Ebi & Et & _) & Es).
    injection Hp as <-. cbn [gw tin tout]. rewrite Ebi, Et, Es, Eb, len_app.
    assert (1 <= len batch) by (apply len_positive; by destruct batch). lia.
Qed.

(** Turns of the shard workers and of the drainer. *)
Lemma shard_turn_decreases s a s' :
  inv s -> action_ok a -> enabled s a = true -> perform s a = Ret s' ->
  match a with Worker _ _ | SpreadDrain _ => work s' < work s | _ => True end.
Proof.
  intros [_ Hg _ _ _ _] Ha He Hp. unfold work.
  destruct a as [| | | |ev c|ev| | | | | ]; try done; cbn [enabled perform action_ok] in *.
  - apply andb_true_iff in He as [Hc He]. rewrite Hc in Hp. apply bool_decide_eq_true in Hc.
    pose proof (worker_shards _ _ c (gw_shards _ _ Hg) Hc) as Hw.
    pose proof (worker_load _ c (gi_static _ _ Hg) Hc He) as Hl.
    destruct (ShardManager.worker_recv_batch _ c 20) as [ms sm]. destruct Hw as ([J1 J2] & _ & Hms).
    destruct (translated_batch_inv (sent s) (set_shards (gw s) sm) ev ms) as (g' & E & _ & Eb & Es & Ht);
      [done|by destruct Hg; split|done|]. rewrite E in Hp. injection Hp as <-. cbn [gw tin tout].
    rewrite Eb, Es. cbn [set_shards batcher_in shard_manager transmission_in] in *. lia.
  - destruct (drain_spread_inv _ _ ev Ha Hg) as (g' & E & _ & Eb & Es).
    pose proof (drain_load _ (gi_static _ _ Hg) He) as Hl.
    destruct (ShardManager.drain_shard _ _) as [ms sm]. destruct Es as [Es Ht].
    rewrite E in Hp. injection Hp as <-. cbn [gw tin tout]. rewrite Eb, Es. lia.
Qed.

Lemma turn_decreases s a s' :
  inv s -> action_ok a -> enabled s a = true -> perform s a = Ret s' -> work s' < work s.
Proof.
  intros Hs Ha He Hp. pose proof (batcher_turn_decreases s a s' Hs He Hp).
  pose proof (consumer_turn_decreases s a s' Hs He Hp).
  pose proof (shard_turn_decreases s a s' Hs Ha He Hp). by destruct a.
Qed.

(** ** Quiescence *)

(** A schedule in which every turn finds something to do. *)
Inductive effective : t -> list action -> t -> Prop :=
| effective_nil s : effective s [] s
| effective_cons s a s1 turns s' :
    enabled s a = true -> perform s a = Ret s1 -> effective s1 turns s' -> effective s (a :: turns) s'.

(** Every queue that a task consumes is empty. *)
Definition quiescent (s : t) : Prop :=
  batcher_in (gw s) = [] /\ held (tin s) = [] /\
  (forall c, c ∈ seqZ 1 8 -> default [] (ShardManager.chans (shard_manager (gw s)) !! c) = []) /\
  transmission_in (gw s) = [] /\ held (tout s) = [].

(** One turn of each task. *)
Definition turns_of (ev : env) : list action :=
  [BatcherRecv 0 0; BatcherTimer 0; Incoming ev] ++ map (Worker ev) (seqZ 1 7) ++
  [SpreadDrain ev; TransmissionRecv 0 0; TransmissionTimer 0; Uplink ev].

Lemma effective_bound s turns s' :
  inv s -> Forall action_ok turns -> effective s turns s' ->
  Z.of_nat (length turns) + work s' <= work s.
Proof.
  intros Hs Ht He. induction He as [s|s a s1 turns s' Hen Hp _ IH]; cbn [length]; [lia|].
  apply Forall_cons_1 in Ht as [Ha Ht]. pose proof (turn_decreases s a s1 Hs Ha Hen Hp).
  destruct (perform_inv s a Hs Ha) as (s2 & E & Hs2 & _). rewrite Hp in E. injection E as <-.
  specialize (IH Hs2 Ht). lia.
Qed.

Lemma turns_ok ev : env_ok ev -> Forall action_ok (turns_of ev).
Proof.
  intros Hev. apply list.Forall_forall. unfold turns_of. intros a Ha.
  apply elem_of_app in Ha as [Ha|Ha]; [|apply elem_of_app in Ha as [Ha|Ha]].
  2: by apply list_elem_of_fmap in Ha as (c & -> & _).
  all: by repeat (apply elem_of_cons in Ha as [->|Ha]; [done|]); apply not_elem_of_nil in Ha.
Qed.

Lemma held_empty s : is_empty (outputs s) = true -> is_empty (buffer s) = true -> held s = [].
Proof. intros Ho Hb. unfold held. by rewrite (is_empty_nil _ Ho), (is_empty_nil _ Hb). Qed.

(** If none of these turns has anything to do, everything is empty. *)
Lemma idle_quiescent ev s :
  inv s -> Forall (fun a => enabled s a = false) (turns_of ev) -> quiescent s.
Proof.
  intros [_ Hg _ _ _ [Hi Ho]] Ht. unfold turns_of in Ht.
  apply Forall_app in Ht as [Ht1 Ht]. apply Forall_app in Ht as [Htw Ht2].
  rewrite !list.Forall_cons in Ht1. rewrite !list.Forall_cons in Ht2.
  destruct Ht1 as (E1 & E2 & E3 & _), Ht2 as (E4 & E5 & E6 & E7 & _). cbn [enabled] in *.
  apply negb_false_iff in E1, E2, E3, E4, E5, E6, E7.
  split; [by apply is_empty_nil|]. split; [by apply held_empty|].
  split; [|split; [by apply is_empty_nil|by apply held_empty]].
  intros c Hc%elem_of_seqZ. apply is_empty_nil. destruct (decide (c = 8)) as [->|Hne]; [done|].
  rewrite Forall_fmap, list.Forall_forall in Htw. specialize (Htw c). cbn [compose enabled] in Htw.
  destruct (gi_static _ _ Hg) as (_ & _ & _ & _ & _ & _ & Hw). rewrite Hw in Htw.
  rewrite bool_decide_eq_true_2 in Htw by (apply elem_of_seqZ; lia).
  apply negb_false_iff, Htw, elem_of_seqZ. lia.
Qed.

(** While something is enabled, take it. *)
Lemma drains ev s :
  env_ok ev -> inv s ->
  exists turns s', turns ⊆ turns_of ev /\ effective s turns s' /\ quiescent s'.
Proof.
  intros Hev. assert (Hn : 0 <= work s) by apply work_nonneg.
  remember (Z.to_nat (work s)) as n eqn:En. revert s Hn En. induction n as [n IH] using lt_wf_ind.
  intros s Hn En Hs. destruct (List.find (enabled s) (turns_of ev)) as [a|] eqn:Ef.
  - apply List.find_some in Ef as [Hin Hen]. apply list_elem_of_In in Hin.
    pose proof (proj1 (list.Forall_forall _ _) (turns_ok ev Hev) a Hin) as Ha.
    destruct (perform_inv s a Hs Ha) as (s1 & Hp & Hs1 & _).
    pose proof (turn_decreases s a s1 Hs Ha Hen Hp) as Hd. pose proof (work_nonneg s1).
    destruct (IH (Z.to_nat (work s1)) ltac:(lia) s1) as (turns & s' & Ht & He & Hq); [done..|].
    exists (a :: turns), s'. split; [set_solver|]. split; [by apply (effective_cons s a s1)|done].
  - exists [], s. split; [set_solver|]. split; [constructor|]. apply (idle_quiescent ev); [done|].
    apply list.Forall_forall. intros a Ha. by apply (List.find_none _ _ Ef), list_elem_of_In.
Qed.

(** ** Property *)

(** C3: the gateway quiesces.  From every state the running gateway can reach, with
    no further messages sent: whatever the order in which tasks take turns, at
    most [work s] turns find something to do, and there is such an order after
    which every queue a task consumes is empty (the input channel and buffer,
    the seven worker shards, the spread shard, the transmission channel and
    buffer); nothing is left waiting for a turn that never comes. *)
Theorem gateway_quiesces now cache_ttl credentials telemetry acts ev
  (Ha : Forall action_ok acts) (Hev : env_ok ev) :
  exists s, run (start now cache_ttl credentials telemetry) acts = Ret s /\
    (forall turns s', Forall action_ok turns -> effective s turns s' ->
       Z.of_nat (length turns) <= work s) /\
    exists turns s', Forall action_ok turns /\ effective s turns s' /\ quiescent s'.
Proof.
  destruct (run_inv _ acts (start_inv now cache_ttl credentials telemetry) Ha) as (s & Hr & Hs & _).
  exists s. split; [done|]. split.
  - intros turns s' Ht He. pose proof (effective_bound s turns s' Hs Ht He). pose proof (work_nonneg s'). lia.
  - destruct (drains ev s Hev Hs) as (turns & s' & Ht & He & Hq). exists turns, s'.
    split; [|done]. by apply (Forall_included _ _ (turns_of ev)), turns_ok.
Qed.
End work.

Section witnesses.
#[local] Existing Instances crc_ibm_3740 crc_ibm_3740_laws hex_ref hex_ref_laws hex_encode_ref
  zstd_stored zstd_stored_laws nom_ref nom_ref_laws.

Lemma gateway_quiesces_witness :
  exists s, run (start 0 1000 true false)
      [Send demo_env (mkMessage NIDD [7; 8] Operational 5 5 5)] = Ret s /\ work s = 243 /\
    exists turns s', effective s turns s' /\ quiescent s'.
Proof.
  destruct (gateway_quiesces 0 1000 true false
    [Send demo_env (mkMessage NIDD [7; 8] Operational 5 5 5)] demo_env) as (s & Hr & _ & turns & s' & _ & He & Hq).
  - constructor; [|constructor]. split; [intros j; unfold in_u; simpl; lia|].
    apply (bool_decide_unpack _). vm_compute. reflexivity.
  - intros j. unfold in_u. simpl. lia.
  - exists s. split; [exact Hr|]. split; [|exists turns, s'; split; [exact He|exact Hq]].
    assert (E : match run (start 0 1000 true false)
                  [Send demo_env (mkMessage NIDD [7; 8] Operational 5 5 5)] with
                | Ret s => work s | Panic => 0 end = 243) by (vm_compute; reflexivity).
    rewrite Hr in E. exact E.
Defined.
End witnesses.
