(* ===== verification/Delivery.v ===== *)
(** * Delivery through the running gateway ([src/src/gateway.rs])

    [Quiescence] shows that the queues empty; this file shows that they empty
    towards the uplink.  The gateway may drop messages: its shards are bounded and
    the backpressure counter only grows.  As long as the messages sent cost no more
    pushes than that counter admits, and the uplink works, nothing is dropped in any
    interleaving: once the tasks have nothing left to do, each message whose bytes
    can be translated has been posted, or, after a cache hit, the translation of a
    message with the same cache key has. *)

From S2P Require Import Prelude Crc Protocol Externals Utf8 AstsProtobuf Translator Cache.
From S2P Require Import Reliability Snapshot Bitemporal Batching Sharding ClockReconciliation.
From S2P Require Import Cadence Metrics Gateway Pipeline Quiescence.

Import Gateway.Gateway.
Import Pipeline.Pipeline.

(** ** Specification *)

(** What the cache distinguishes. *)
Definition key (m : Message) : AsyncCache.CacheKey := AsyncCache.key_of (protocol m) (data m).

(** The pushes a list of messages may cost: 60 for an IridiumSBD message, else one. *)
Definition cost (l : list Message) : Z := foldr (fun m n => len (expand m) + n) 0 l.

Definition chan (s : ShardManager.t) (c : Z) : list Message := default [] (ShardManager.chans s !! c).

(** After [n] pushes, all accepted: the counters, the ends, and how full the
    channels of the workers can be. *)
Record room (s : ShardManager.t) (n : Z) : Prop := {
  rm_counter : ShardManager.round_robin s = n /\ ShardManager.total_regular_messages s = n;
  rm_limits : ShardManager.backpressure_limit s = 5600 /\ ShardManager.shard_size s = 1000 /\
    ShardManager.num_shards s = 8 /\ ShardManager.spread_shard_id s = 8;
  rm_ends : forall c, 1 <= c <= 8 ->
    ShardManager.connected s c = true /\ is_Some (ShardManager.chans s !! c) /\
    exists sh, ShardManager.shards s !! c = Some sh /\ ShardManager.tx sh = c;
  rm_full : forall c, 1 <= c <= 7 -> len (chan s c) <= (n + 7 - c) / 7
}.

(** A message waits in a channel that some task consumes. *)
Definition in_chans (s : ShardManager.t) (m : Message) : Prop :=
  exists c, 1 <= c <= 8 /\ m ∈ chan s c.

(** ** Lemmas: pushing with room *)

Definition appended (s : ShardManager.t) (c : Z) (m : Message) : gmap Z (list Message) :=
  <[c := chan s c ++ [m]]> (ShardManager.chans s).

Lemma chan_appended s s' c m c' :
  ShardManager.chans s' = appended s c m -> chan s' c' = if c =? c' then chan s c ++ [m] else chan s c'.
Proof.
  intros E. unfold chan at 1. rewrite E. unfold appended. destruct (Z.eqb_spec c c') as [->|Hne].
  - by rewrite lookup_insert_eq.
  - by rewrite lookup_insert_ne.
Qed.

Lemma in_chans_appended s s' c m m' :
  ShardManager.chans s' = appended s c m -> in_chans s m' -> in_chans s' m'.
Proof.
  intros E (c' & Hc & Hm). exists c'. split; [done|]. rewrite (chan_appended s s' c m c' E).
  destruct (Z.eqb_spec c c') as [->|]; [|done]. apply elem_of_app. by left.
Qed.

Lemma in_chans_new s s' c m :
  1 <= c <= 8 -> ShardManager.chans s' = appended s c m -> in_chans s' m.
Proof.
  intros Hc E. exists c. split; [done|]. rewrite (chan_appended s s' c m c E), Z.eqb_refl.
  apply elem_of_app. right. by left.
Qed.

(** The push counter after one more push, for the channel that gets it and for the others. *)
Lemma quota_next n : 0 <= n ->
  (n + 7 - (1 + n mod 7)) / 7 + 1 = (n + 1 + 7 - (1 + n mod 7)) / 7.
Proof. intros. pose proof (Z.mod_pos_bound n 7). Z.div_mod_to_equations. lia. Qed.

Lemma quota_mono n c : (n + 7 - c) / 7 <= (n + 1 + 7 - c) / 7.
Proof. apply Z.div_le_mono; lia. Qed.

(** Appending to channel [c], with the counters of the result. *)
Lemma room_appended s s' n n' c m :
  room s n -> ShardManager.chans s' = appended s c m ->
  ShardManager.shards s' = ShardManager.shards s -> ShardManager.receivers s' = ShardManager.receivers s ->
  ShardManager.workers s' = ShardManager.workers s -> frame s s' ->
  ShardManager.round_robin s' = n' -> ShardManager.total_regular_messages s' = n' ->
  (forall c', 1 <= c' <= 7 -> (n + 7 - c') / 7 + (if c =? c' then 1 else 0) <= (n' + 7 - c') / 7) ->
  room s' n'.
Proof.
  intros [R1 R2 R3 R4] E Esh Erx Ews (F1 & F2 & _ & F4 & F5) Er Et Hq. split.
  - done.
  - by rewrite F1, F2, F4, F5.
  - intros c' Hc'. destruct (R3 c' Hc') as (J1 & J2 & J3). rewrite Esh. split; [|split; [|done]].
    + unfold ShardManager.connected in *. by rewrite Erx, Ews.
    + rewrite E. unfold appended. apply lookup_insert_is_Some'. by right.
  - intros c' Hc'. rewrite (chan_appended s s' c m c' E). specialize (R4 c' Hc'). specialize (Hq c' Hc').
    destruct (Z.eqb_spec c c') as [->|]; [rewrite len_app; change (len [m]) with 1|]; lia.
Qed.

Lemma push_room s n m :
  room s n -> 0 <= n < 5600 ->
  exists c s', 1 <= c <= 7 /\ ShardManager.push s m = Ret (Ok c, s') /\ room s' (n + 1) /\
    ShardManager.chans s' = appended s c m.
Proof.
  intros Hroom Hn. pose proof Hroom as [[Er Et] (El & Es & En & _) He Hf].
  set (c := 1 + n mod 7). assert (Hc : 1 <= c <= 7) by (pose proof (Z.mod_pos_bound n 7); unfold c; lia).
  destruct (He c) as (Hcon & _ & sh & Hsh & Htx); [lia|].
  assert (Hlen : len (chan s c) < 1000).
  { pose proof (Hf c Hc). assert ((n + 7 - c) / 7 <= 801) by (apply Z.div_le_upper_bound; lia). lia. }
  eexists c, _. split; [done|]. unfold ShardManager.push, ShardManager.select_shard_for_message.
  rewrite El, Et, En, Er. rewrite (proj2 (Z.leb_gt _ _)) by lia. change (wrap 64 (8 - 1)) with 7.
  change (7 =? 0) with false. mstep. fold c. shards_cbn. rewrite Hsh.
  unfold ShardManager.shard_push. rewrite Htx. shards_cbn. fold (chan s c).
  change (ShardManager.shard_size _) with (ShardManager.shard_size s). rewrite Es.
  change (ShardManager.connected _ c) with (ShardManager.connected s c). rewrite Hcon.
  rewrite (proj2 (Z.ltb_lt _ _)) by done. cbn [andb]. split; [done|]. split; [|done].
  apply (room_appended s _ n (n + 1) c m); try done.
  - cbn. apply wrap_small. unfold in_u. lia.
  - cbn. apply wrap_small. unfold in_u. lia.
  - intros c' Hc'. destruct (Z.eqb_spec c c') as [<-|]; [unfold c; rewrite quota_next by lia; lia|].
    pose proof (quota_mono n c'). lia.
Qed.

Lemma push_spread_room s n m :
  room s n -> len (chan s 8) < 1000 ->
  room (ShardManager.push_spread s m).2 n /\
  ShardManager.chans (ShardManager.push_spread s m).2 = appended s 8 m.
Proof.
  intros Hroom Hlen. pose proof Hroom as [[Er Et] (El & Es & En & E8) He Hf].
  destruct (He 8) as (Hcon & _ & sh & Hsh & Htx); [lia|].
  unfold ShardManager.push_spread, ShardManager.push_to. rewrite E8. shards_cbn. rewrite Hsh.
  unfold ShardManager.shard_push. rewrite Htx. shards_cbn. fold (chan s 8).
  change (ShardManager.shard_size _) with (ShardManager.shard_size s). rewrite Es.
  change (ShardManager.connected _ 8) with (ShardManager.connected s 8). rewrite Hcon.
  rewrite (proj2 (Z.ltb_lt _ _)) by done. cbn [andb snd]. split; [|done].
  apply (room_appended s _ n n 8 m); try done. intros c' Hc'.
  destruct (Z.eqb_spec 8 c'); lia.
Qed.

Section delivery.
Context `{CrcCrate, HexCrate, HexEncodeCrate, ZstdCrate, NomCrate}.

(** A translation of a sent message with the cache key [k]. *)
Definition from_key (log : list Message) (k : AsyncCache.CacheKey) (x : Message) : Prop :=
  exists y now, y ∈ log /\ key y = k /\ Translator.translate_sync now y = Ret (Ok x).

Definition posted (log : list Message) (g : Gateway.t) (k : AsyncCache.CacheKey) : Prop :=
  exists r x, r ∈ posts g /\ body x ∈ bodies r /\ from_key log k x.

(** The bytes of the message can be translated; the clock plays no part in it. *)
Definition translatable (m : Message) : Prop :=
  exists d, Translator.translated_data m = Ret (Ok d).

Definition cache_keys (log : list Message) (c : AsyncCache.t) : Prop :=
  map_Forall (fun k e => from_key log k (AsyncCache.message e)) (AsyncCache.entries c).

(** ** Lemmas: the uplink *)

Lemma translatable_now m now : translatable m -> exists x, Translator.translate_sync now m = Ret (Ok x).
Proof. intros [d E]. unfold Translator.translate_sync. rewrite E. mstep. by eexists. Qed.

Lemma from_key_mono log log' k x : log ⊆ log' -> from_key log k x -> from_key log' k x.
Proof. intros Hl (y & now & Hy & E). exists y, now. auto. Qed.

Lemma from_key_self log now m x :
  m ∈ log -> Translator.translate_sync now m = Ret (Ok x) -> from_key log (key m) x.
Proof. intros Hm E. by exists m, now. Qed.

Lemma posted_more log g g' k ps : posts g' = posts g ++ ps -> posted log g k -> posted log g' k.
Proof.
  intros E (r & x & Hr & Hb). exists r, x. rewrite E. split; [|done]. apply elem_of_app. by left.
Qed.

Lemma posted_message log g g' x k :
  posts g' = posts g ++ [PostMessage (body x)] -> from_key log k x -> posted log g' k.
Proof.
  intros E Hx. exists (PostMessage (body x)), x. rewrite E. cbn [bodies].
  split; [apply elem_of_app; right; by left|]. split; [by left|done].
Qed.

Lemma cache_keys_set log c now p d x :
  cache_keys log c -> from_key log (AsyncCache.key_of p d) x ->
  cache_keys log (AsyncCache.set c now p d x).
Proof.
  intros Hc Hx. rewrite set_evicted. cbv zeta. unfold cache_keys. cbn [AsyncCache.entries].
  apply map_Forall_insert_2; [done|]. unfold evicted. destruct (_ <=? _); [|done].
  destruct (AsyncCache.eviction_order c); [done|]. by apply map_Forall_delete.
Qed.

Lemma cache_keys_set_batch log c batch :
  cache_keys log c -> Forall (fun e => from_key log (AsyncCache.key_of e.1.1.2 e.1.2) e.2) batch ->
  cache_keys log (AsyncCache.set_batch c batch).
Proof.
  intros Hc Hb. revert c Hc. induction Hb as [|[[[now p] d] x] batch Hx _ IH]; intros c Hc; [done|].
  cbn [AsyncCache.set_batch]. by apply IH, cache_keys_set.
Qed.

(** ** Lemmas: an incoming batch *)

(** What the second half of [process_incoming_batch] does when there is room. *)
Lemma emit_delivers log g ev i l n :
  live g -> http_ok ev -> room (shard_manager g) n -> 0 <= n -> n + len l <= 5600 ->
  Forall (fun p => match p.2 with Some x => from_key log (key p.1) x | None => True end) l ->
  exists g' n', emit_or_push g ev i l = Ret g' /\ live g' /\ room (shard_manager g') n' /\
    n <= n' <= n + len l /\ chan (shard_manager g') 8 = chan (shard_manager g) 8 /\
    (forall m, in_chans (shard_manager g) m -> in_chans (shard_manager g') m) /\
    (exists ps, posts g' = posts g ++ ps) /\
    Forall (fun p => in_chans (shard_manager g') p.1 \/ posted log g' (key p.1)) l.
Proof.
  intros Hg Hh Hr Hn Hlen Hl. revert g i n Hg Hr Hn Hlen.
  induction Hl as [|[m o] l Ho _ IH]; intros g i n Hg Hr Hn Hlen; cbn [emit_or_push].
  { exists g, n. rewrite len_nil. split_and!; try done; try lia. exists []. by rewrite app_nil_r. }
  rewrite len_cons in Hlen |- *. pose proof (len_nonneg l). cbn [fst snd] in *. destruct o as [x|].
  - set (g1 := set_metrics g _). assert (Hg1 : live g1) by done.
    destruct (send_live g1 ev i x Hg1 Hh) as [J1 J2]. destruct (send_to_asts_core g1 ev i x) as [_ Es].
    destruct (IH (send_to_asts g1 ev i x) (S i) n) as (g' & n' & E & K1 & K2 & K3 & K4 & K5 & [ps K6] & K7);
      [done|by rewrite Es|done|lia|].
    exists g', n'. rewrite Es in K4, K5. rewrite J2 in K6. split_and!; try done; try lia.
    + exists ([PostMessage (body x)] ++ ps). by rewrite K6, <- app_assoc.
    + constructor; [|done]. right. cbn [fst].
      eapply posted_more; [exact (eq_trans K6 (eq_sym (f_equal (.++ ps) J2)))|]. by eapply posted_message.
  - set (g1 := set_metrics g _).
    destruct (push_room (shard_manager g1) n m) as (c & s' & Hc & -> & Hr' & Ech); [done|lia|]. mstep.
    destruct (IH (set_shards g1 s') (S i) (n + 1)) as (g' & n' & E & K1 & K2 & K3 & K4 & K5 & K6 & K7);
      [done|done|lia|lia|].
    exists g', n'. cbn [set_shards shard_manager] in K4, K5.
    rewrite (chan_appended _ _ _ _ 8 Ech), (proj2 (Z.eqb_neq c 8)) in K4 by lia.
    split_and!; try done; try lia.
    + intros m' Hm'. apply K5. by apply (in_chans_appended _ _ _ _ _ Ech).
    + constructor; [|done]. left. apply K5. apply (in_chans_new (shard_manager g1) s' c m); [lia|done].
Qed.

Lemma spread_delivers g msgs n :
  room (shard_manager g) n -> len (chan (shard_manager g) 8) + len msgs <= 1000 ->
  let g' := push_spread_all g msgs in
  room (shard_manager g') n /\
  len (chan (shard_manager g') 8) = len (chan (shard_manager g) 8) + len msgs /\
  (forall m, in_chans (shard_manager g) m -> in_chans (shard_manager g') m) /\
  Forall (in_chans (shard_manager g')) msgs.
Proof.
  intros Hr Hl. cbv zeta. rewrite push_spread_all_shards. revert Hr Hl. generalize (shard_manager g) as sm.
  induction msgs as [|m msgs IH]; intros sm Hr Hl; cbn [fold_left].
  { rewrite (@len_nil Message). split_and!; try done; try lia. }
  rewrite len_cons in Hl |- *. pose proof (len_nonneg msgs).
  destruct (push_spread_room sm n m Hr) as [J1 Ech]; [lia|].
  assert (E8 : len (chan (ShardManager.push_spread sm m).2 8) = len (chan sm 8) + 1)
    by (rewrite (chan_appended _ _ _ _ 8 Ech), Z.eqb_refl, len_app; done).
  destruct (IH _ J1) as (K1 & K2 & K3 & K4); [lia|]. split_and!; try done; try lia.
  - intros m' Hm'. apply K3. by apply (in_chans_appended _ _ _ _ _ Ech).
  - constructor; [|done]. apply K3. apply (in_chans_new sm _ 8 m); [lia|done].
Qed.

Lemma expand_self m : m ∈ expand m.
Proof.
  unfold expand. destruct (_ && _); [|by left]. apply elem_of_replicate. split; [done|by compute].
Qed.

Lemma routed_all flags msgs m :
  length flags = length msgs -> m ∈ msgs -> m ∈ diverted flags msgs \/ m ∈ forwarded flags msgs.
Proof.
  revert flags. induction msgs as [|m' msgs IH]; intros [|b flags] Hl Hm; try done;
    [by apply not_elem_of_nil in Hm|]. cbn [diverted forwarded]. rewrite !elem_of_app.
  apply elem_of_cons in Hm as [->|Hm].
  - destruct b; [left; left; by left|right; left; apply expand_self].
  - injection Hl as Hl. destruct (IH flags Hl Hm); auto.
Qed.

Lemma cost_cons m l : cost (m :: l) = len (expand m) + cost l.
Proof. done. Qed.
Lemma cost_app a b : cost (a ++ b) = cost a + cost b.
Proof. induction a as [|m a IH]; [done|]. cbn [app]. rewrite !cost_cons, IH. lia. Qed.
Lemma cost_nonneg l : 0 <= cost l.
Proof. induction l as [|m l IH]; [done|]. rewrite cost_cons. pose proof (len_nonneg (expand m)). lia. Qed.

Lemma routed_cost flags msgs :
  len (diverted flags msgs) <= len msgs /\ len (forwarded flags msgs) <= cost msgs.
Proof.
  revert flags. induction msgs as [|m msgs IH]; intros [|b flags]; cbn [diverted forwarded];
    rewrite ?len_cons, ?cost_cons; try done.
  - pose proof (len_nonneg msgs). pose proof (cost_nonneg msgs). pose proof (len_nonneg (expand m)).
    change (len (@nil Message)) with 0. lia.
  - rewrite !len_app. destruct (IH flags). pose proof (len_nonneg (expand m)).
    destruct b; [change (len [m]) with 1|]; change (len (@nil Message)) with 0; lia.
Qed.

(** What the cache answers is the translation of a message with the same key. *)
Lemma lookups_from_key log g ev l :
  cache_keys log (cache g) ->
  Forall (fun p => match p.2 with Some x => from_key log (key p.1) x | None => True end) (lookups ev g l).
Proof.
  intros Hc. unfold lookups. apply Forall_lookup_2. intros i [m o] E. cbn [fst snd].
  apply lookup_zip_with_Some in E as (m' & o' & [= <- <-] & Em & Eo).
  unfold AsyncCache.get_batch in Eo. rewrite list_lookup_fmap, list_lookup_imap, Em in Eo. cbn in Eo.
  injection Eo as <-. fold (key m). destruct (AsyncCache.entries (cache g) !! key m) as [e|] eqn:Ee; cbn; [|done].
  destruct (AsyncCache.fresh _ e); [|done]. by apply (Hc _ _ Ee).
Qed.

(** What a gateway has taken charge of: waiting in a channel, or posted. *)
Definition in_charge (log : list Message) (g : Gateway.t) (m : Message) : Prop :=
  in_chans (shard_manager g) m \/ posted log g (key m).

Lemma spread_all_live g msgs :
  live g -> live (push_spread_all g msgs) /\ posts (push_spread_all g msgs) = posts g.
Proof. intros Hg. split; [by apply push_spread_all_live|apply push_spread_all_uplink]. Qed.

Lemma lookups_fst ev g l : (lookups ev g l).*1 = l.
Proof.
  unfold lookups. apply fst_zip. unfold AsyncCache.get_batch. by rewrite length_map, length_imap.
Qed.

Lemma incoming_delivers log g ev batch g' n :
  gw_inv log g -> live g -> http_ok ev -> room (shard_manager g) n -> 0 <= n -> cache_keys log (cache g) ->
  n + cost batch <= 5600 -> len (chan (shard_manager g) 8) + len batch <= 1000 ->
  process_incoming_batch g ev batch = Ret g' ->
  live g' /\ (exists n', n <= n' <= n + cost batch /\ room (shard_manager g') n') /\
  len (chan (shard_manager g') 8) <= len (chan (shard_manager g) 8) + len batch /\
  (forall m, in_charge log g m -> in_charge log g' m) /\ Forall (in_charge log g') batch /\
  cache g' = cache g.
Proof.
  intros Hinv Hg Hh Hr Hn Hk Hcost H8. destruct (decide (batch = [])) as [->|Hne].
  { intros [= <-]. rewrite (@len_nil Message). split_and!; try done; try lia. exists n. cbn. split; [lia|done]. }
  destruct (incoming_split log g ev batch Hinv Hne) as (flags & g1 & Hl & _ & [= _ _ E3 E4 E5 E6 E7] & ->).
  cbv zeta. destruct (routed_cost flags batch) as [Cd Cf].
  assert (Hg1 : live g1) by (unfold live; by rewrite E6, E7).
  destruct (spread_delivers g1 (diverted flags batch) n) as (J1 & J2 & J3 & J4); rewrite ?E4; [done|lia|].
  destruct (spread_all_live g1 (diverted flags batch) Hg1) as [Hg2 Ep].
  pose proof (push_spread_all_core g1 (diverted flags batch)) as Hc2.
  set (g2 := push_spread_all g1 _) in *. set (ls := lookups ev g2 _).
  assert (Ec : cache g2 = cache g) by (destruct Hc2 as (_ & _ & _ & _ & _ & -> & _); done).
  assert (Hls : len ls <= len (forwarded flags batch)) by apply len_zip_le.
  destruct (emit_delivers log g2 ev 0 ls n) as (gf & n' & E & K1 & K2 & K3 & K4 & K5 & [ps K6] & K7);
    [done|done|done|done|lia|by apply lookups_from_key; rewrite Ec|].
  destruct (emit_or_push_total g2 ev 0 ls) as (gf' & E' & _ & _ & _ & _ & _ & Ec' & _).
  { destruct (rm_limits _ _ J1) as (_ & _ & -> & _). lia. }
  rewrite E in E' |- *. injection E' as <-. intros [= <-]. rewrite K4, Ec', Ec. rewrite E4 in *. rewrite E5 in *.
  split_and!; try done; try lia.
  - exists n'. split; [lia|done].
  - intros m [Hm|Hm]; [left; auto|right]. eapply posted_more; [|exact Hm]. by rewrite K6, Ep.
  - apply list.Forall_forall. intros m Hm. destruct (routed_all flags batch m Hl Hm) as [Hd|Hf].
    + left. apply K5. by apply (proj1 (list.Forall_forall _ _) J4).
    + rewrite <- (lookups_fst ev g2) in Hf. apply list_elem_of_fmap in Hf as (p & -> & Hp).
      by apply (proj1 (list.Forall_forall _ _) K7).
Qed.

(** ** Lemmas: translated batches *)

Lemma pooled_live g ev i msgs pairs g' :
  translate_pooled g ev i msgs = Ret (pairs, g') -> live g -> live g'.
Proof.
  revert g i pairs g'. induction msgs as [|m msgs IH]; intros g i pairs g'; cbn [translate_pooled].
  { by intros [= <- <-]. }
  destruct (TranslatorPool.borrow _ _) as [tr pool].
  destruct (Translator.translate_sync _ m) as [r|]; mstep; [|done].
  match goal with |- context [translate_pooled ?g1 ev (S i) msgs] =>
    destruct (translate_pooled g1 ev (S i) msgs) as [[ps g2]|] eqn:E; mstep; [|done] end.
  intros [= _ <-] Hg. apply IH in E; [done|]. by destruct tr, r.
Qed.

Lemma all_live g ev i msgs pairs g' :
  translate_all g ev i msgs = Ret (pairs, g') -> live g -> live g'.
Proof.
  revert g i pairs g'. induction msgs as [|m msgs IH]; intros g i pairs g'; cbn [translate_all].
  { by intros [= <- <-]. }
  destruct (Translator.translate_sync _ m) as [r|]; mstep; [|done].
  match goal with |- context [translate_all ?g1 ev (S i) msgs] =>
    destruct (translate_all g1 ev (S i) msgs) as [[ps g2]|] eqn:E; mstep; [|done] end.
  intros [= _ <-] Hg. apply IH in E; [done|]. by destruct r.
Qed.

(** Each translatable message of a batch has its translation among the pairs. *)
Lemma translations_complete ev i msgs m :
  m ∈ msgs -> translatable m ->
  exists x now, (m, x) ∈ translations ev i msgs /\ Translator.translate_sync now m = Ret (Ok x).
Proof.
  intros Hm Ht. revert i. induction msgs as [|m' msgs IH]; intros i; [by apply not_elem_of_nil in Hm|].
  cbn [translations]. setoid_rewrite elem_of_app. apply elem_of_cons in Hm as [<-|Hm].
  - destruct (translatable_now m (translate_ms ev i) Ht) as [x E]. exists x, (translate_ms ev i).
    split; [|done]. left. unfold translation. rewrite E. by left.
  - destruct (IH Hm (S i)) as (x & now & Hx & E). exists x, now. auto.
Qed.

Lemma translations_sound ev i msgs :
  Forall (fun p => p.1 ∈ msgs /\ exists now, Translator.translate_sync now p.1 = Ret (Ok p.2))
    (translations ev i msgs).
Proof.
  revert i. induction msgs as [|m msgs IH]; intros i; cbn [translations]; [constructor|].
  apply Forall_app_2.
  - unfold translation. destruct (Translator.translate_sync _ m) as [[x|e]|] eqn:E; [|constructor..].
    constructor; [|constructor]. split; [by left|by exists (translate_ms ev i)].
  - eapply list.Forall_impl; [apply IH|]. intros p [Hp E]. split; [by right|done].
Qed.

(** What the tail of both drains leaves behind. *)
Lemma pairs_deliver log g ev pairs :
  live g -> cache_keys log (cache g) ->
  Forall (fun p => p.1 ∈ log /\ exists now, Translator.translate_sync now p.1 = Ret (Ok p.2)) pairs ->
  let g' := emit_pairs g ev pairs in
  live g' /\ cache_keys log (cache g') /\ posts g' = posts g /\ shard_manager g' = shard_manager g /\
  transmission_in g' = transmission_in g ++ map snd pairs.
Proof.
  intros Hg Hk Hp g'. destruct (emit_pairs_transmission g ev pairs) as [Et Ep]. unfold g', emit_pairs in *.
  destruct pairs as [|[o x] pairs]; [done|]. split_and!; try done.
  apply cache_keys_set_batch; [done|]. apply list.Forall_forall. intros e He.
  apply elem_of_lookup_imap in He as (i & [o' x'] & -> & Hx). apply list_elem_of_lookup_2 in Hx.
  apply (proj1 (list.Forall_forall _ _) Hp) in Hx as [Ho [now E]]. by apply (from_key_self log now o' x').
Qed.

Section laws.
Context `{!CrcLaws, !HexLaws, !ZstdLaws, !NomLaws}.

(** The pairs of a batch of sent messages. *)
Definition delivers (log : list Message) (g g' : Gateway.t) (msgs : list Message) : Prop :=
  live g' /\ cache_keys log (cache g') /\ posts g' = posts g /\
  exists xs, transmission_in g' = transmission_in g ++ xs /\
    forall m, m ∈ msgs -> translatable m -> exists x, x ∈ xs /\ from_key log (key m) x.

Lemma pairs_in_log log ev i msgs :
  msgs ⊆ log ->
  Forall (fun p => p.1 ∈ log /\ exists now, Translator.translate_sync now p.1 = Ret (Ok p.2))
    (translations ev i msgs).
Proof. intros Hs. eapply list.Forall_impl; [apply translations_sound|]. intros p [Hp E]. auto. Qed.

Lemma pairs_reach log ev i msgs m :
  msgs ⊆ log -> m ∈ msgs -> translatable m ->
  exists x, x ∈ map snd (translations ev i msgs) /\ from_key log (key m) x.
Proof.
  intros Hs Hm Ht. destruct (translations_complete ev i msgs m Hm Ht) as (x & now & Hx & E).
  exists x. split; [|by apply (from_key_self log now); auto]. apply list_elem_of_fmap. by exists (m, x).
Qed.

Lemma translated_delivers log g ev msgs g' :
  env_ok ev -> Forall msg_ok msgs -> msgs ⊆ log -> live g -> cache_keys log (cache g) ->
  process_translated_batch g ev msgs = Ret g' ->
  delivers log g g' msgs /\ shard_manager g' = shard_manager g.
Proof.
  intros Hev Hok Hsub Hg Hk. unfold process_translated_batch, delivers. destruct msgs as [|m0 msgs].
  { intros [= <-]. split; [|done]. split_and!; try done. exists []. rewrite app_nil_r. split; [done|].
    intros m Hm. by apply not_elem_of_nil in Hm. }
  destruct (translate_pooled_spec g ev 0 _ Hok Hev) as (g1 & E & E1 & E2 & E3 & _ & E5). rewrite E. mstep.
  pose proof (pooled_live _ _ _ _ _ _ E Hg) as Hg1.
  assert (Hk1 : cache_keys log (cache g1)) by (by rewrite E3).
  pose proof (pairs_deliver log g1 ev _ Hg1 Hk1 (pairs_in_log log ev 0 _ Hsub)) as (J1 & J2 & J3 & J4 & J5).
  pose proof (fun m => pairs_reach log ev 0 (m0 :: msgs) m Hsub) as Hreach.
  destruct (translations ev 0 (m0 :: msgs)) as [|pr prs]; set (ge := emit_pairs _ _ _) in *; clearbody ge;
    intros [= <-].
  - split; [|done]. split_and!; try done. exists []. by rewrite app_nil_r.
  - cbn [set_metrics shard_manager posts cache transmission_in]. rewrite J4, J3, E2.
    split; [|done]. split_and!; try done. exists (map snd (pr :: prs)). by rewrite J5, E1.
Qed.

Lemma drain_delivers log g ev g' :
  env_ok ev -> live g -> cache_keys log (cache g) ->
  Forall msg_ok (ShardManager.drain_shard (shard_manager g)
                   (ShardManager.spread_shard_id (shard_manager g))).1 ->
  (ShardManager.drain_shard (shard_manager g) (ShardManager.spread_shard_id (shard_manager g))).1 ⊆ log ->
  drain_spread_shard_once g ev = Ret g' ->
  let '(ms, sm) := ShardManager.drain_shard (shard_manager g)
                     (ShardManager.spread_shard_id (shard_manager g)) in
  delivers log g g' ms /\ shard_manager g' = sm.
Proof.
  intros Hev Hg Hk. unfold drain_spread_shard_once, delivers.
  destruct (ShardManager.drain_shard _ _) as [ms sm]. cbn [fst]. intros Hok Hsub. destruct ms as [|m0 ms].
  { intros [= <-]. split; [|done]. split_and!; try done. exists []. rewrite app_nil_r. split; [done|].
    intros m Hm. by apply not_elem_of_nil in Hm. }
  destruct (translate_all_spec (set_shards g sm) ev 0 _ Hok Hev) as (g1 & E & E1 & E2 & E3 & _ & E5).
  rewrite E. mstep. pose proof (all_live _ _ _ _ _ _ E Hg) as Hg1.
  assert (Hk1 : cache_keys log (cache g1)) by (by rewrite E3).
  pose proof (pairs_deliver log g1 ev _ Hg1 Hk1 (pairs_in_log log ev 0 _ Hsub)) as (J1 & J2 & J3 & J4 & J5).
  pose proof (fun m => pairs_reach log ev 0 (m0 :: ms) m Hsub) as Hreach.
  set (ge := emit_pairs _ _ _) in *. clearbody ge.
  intros [= <-]. cbn [set_metrics shard_manager posts cache transmission_in]. rewrite J4, J3, E2.
  split; [|done]. split_and!; try done. exists (map snd (translations ev 0 (m0 :: ms))). by rewrite J5, E1.
Qed.

(** ** Lemmas: taking from a channel, and the emergency path *)

(** Operations that only replace the content of one channel by no more. *)
Lemma room_replaced s n c q :
  room s n -> 1 <= c <= 8 -> len q <= len (chan s c) ->
  let s' := ShardManager.with_chans s (<[c := q]> (ShardManager.chans s)) in
  room s' n /\ chan s' c = q /\ forall c', c' <> c -> chan s' c' = chan s c'.
Proof.
  intros [R1 R2 R3 R4] Hc Hq s'.
  assert (E : chan s' c = q) by (unfold chan, s'; shards_cbn; by rewrite lookup_insert_eq).
  assert (E' : forall c', c' <> c -> chan s' c' = chan s c')
    by (intros c' Hne; unfold chan, s'; shards_cbn; by rewrite lookup_insert_ne).
  split; [|done]. split; [done|done|..].
  - intros c' Hc'. destruct (R3 c' Hc') as (J1 & J2 & J3). split; [done|]. split; [|done].
    unfold s'. shards_cbn. apply lookup_insert_is_Some'. by right.
  - intros c' Hc'. destruct (decide (c' = c)) as [->|Hne]; [rewrite E|rewrite E' by done];
      specialize (R4 _ Hc'); lia.
Qed.

Lemma worker_room s n c :
  room s n -> 1 <= c <= 7 ->
  let '(ms, s') := ShardManager.worker_recv_batch s c 20 in
  room s' n /\ chan s' 8 = chan s 8 /\ forall m, in_chans s m -> m ∈ ms \/ in_chans s' m.
Proof.
  intros Hr Hc. unfold ShardManager.worker_recv_batch.
  destruct (ShardManager.chans s !! c) as [[|m0 q]|] eqn:Eq; [by auto| |by auto].
  set (k := Z.to_nat (Z.max 1 20)).
  assert (Ec : chan s c = m0 :: q) by (unfold chan; by rewrite Eq).
  destruct (room_replaced s n c (drop k (m0 :: q)) Hr) as (J1 & J2 & J3);
    [lia|rewrite Ec; apply len_drop_le|].
  split; [done|]. split; [apply J3; lia|]. intros m (c' & Hc' & Hm).
  destruct (decide (c' = c)) as [->|Hne].
  - rewrite Ec, <- (take_drop k (m0 :: q)) in Hm. apply elem_of_app in Hm as [Hm|Hm]; [by left|right].
    exists c. by rewrite J2.
  - right. exists c'. by rewrite J3.
Qed.

Lemma drain_room s n :
  room s n -> ShardManager.receivers s !! 8 = Some 8 ->
  let '(ms, s') := ShardManager.drain_shard s (ShardManager.spread_shard_id s) in
  room s' n /\ chan s' 8 = [] /\ forall m, in_chans s m -> m ∈ ms \/ in_chans s' m.
Proof.
  intros Hr Hrx. destruct (rm_limits _ _ Hr) as (_ & _ & _ & E8). unfold ShardManager.drain_shard.
  rewrite E8, Hrx. unfold ShardManager.is_regular_shard.
  cbn [ShardManager.with_chans ShardManager.spread_shard_id]. rewrite E8. cbn [Z.eqb Pos.eqb negb].
  rewrite andb_false_r. cbn [andb].
  destruct (room_replaced s n 8 [] Hr) as (J1 & J2 & J3);
    [lia|rewrite (@len_nil Message); apply len_nonneg|].
  split; [done|]. split; [done|]. intros m (c' & Hc' & Hm).
  destruct (decide (c' = 8)) as [->|Hne]; [by left|right]. exists c'. by rewrite J3.
Qed.

Lemma deadzone_room s n m :
  room s n -> static s ->
  let s' := (ShardManager.push_deadzone s m).2 in
  room s' n /\ forall c, 1 <= c <= 8 -> chan s' c = chan s c.
Proof.
  intros Hr (_ & E0 & _ & _ & _ & Htx & _). unfold ShardManager.push_deadzone, ShardManager.push_to.
  rewrite E0. shards_cbn. cbv zeta.
  assert (Hcount : room (ShardManager.count_allocated s) n /\
                   room (ShardManager.count_dropped (ShardManager.count_allocated s)) n)
    by (destruct Hr as [R1 R2 R3 R4]; split; (split; [exact R1|exact R2|exact R3|exact R4])).
  destruct (ShardManager.shards s !! 0) as [sh|] eqn:E; [|split; [apply Hcount|done]].
  destruct (ShardManager.shard_push _ sh m) as [s1|] eqn:Hp; [|split; [apply Hcount|done]].
  apply shard_push_eq in Hp as [-> _]. apply Htx in E. rewrite E. cbn [snd].
  set (s' := ShardManager.with_chans _ _).
  assert (Ech : ShardManager.chans s' = appended s 0 m) by done. split.
  - destruct (rm_counter _ _ Hr) as [Er Et]. apply (room_appended s s' n n 0 m); try done.
    intros c' Hc'. rewrite (proj2 (Z.eqb_neq 0 c')) by lia. lia.
  - intros c Hc. by rewrite (chan_appended s s' 0 m c Ech), (proj2 (Z.eqb_neq 0 c)) by lia.
Qed.

Lemma emergency_delivers log g ev m g' n :
  env_ok ev -> http_ok ev -> gw_inv log g -> m ∈ log -> msg_ok m ->
  live g -> room (shard_manager g) n -> cache_keys log (cache g) ->
  process_emergency g ev m = Ret g' ->
  live g' /\ room (shard_manager g') n /\ cache_keys log (cache g') /\
  (forall c, 1 <= c <= 8 -> chan (shard_manager g') c = chan (shard_manager g) c) /\
  transmission_in g' = transmission_in g /\ (exists ps, posts g' = posts g ++ ps) /\
  (translatable m -> posted log g' (key m)).
Proof.
  intros Hev Hh Hinv Hm Hok Hg Hr Hk. unfold process_emergency. rewrite reconciled_id by apply Hinv.
  destruct (deadzone_room (shard_manager g) n m Hr (gi_static _ _ Hinv)) as [J1 J2].
  set (g1 := set_snapshots _ _). assert (Hg1 : live g1) by done.
  destruct (translate_sync_cases (translate_ms ev 0) m Hok (Hev 0%nat)) as [E|(x & E & _)]; rewrite E; mstep;
    intros [= <-].
  - split_and!; try done; [exists []; by rewrite app_nil_r|]. intros Ht.
    destruct (translatable_now m (translate_ms ev 0) Ht) as [x Ex]. by rewrite E in Ex.
  - set (g2 := set_cache g1 _). assert (Hg2 : live g2) by done.
    pose proof (from_key_self log _ m x Hm E) as Hx.
    destruct (send_live g2 ev 0 x Hg2 Hh) as [K1 K2].
    destruct (send_to_asts_core g2 ev 0 x) as [(_ & _ & E3 & _ & _ & E6 & _) E7].
    cbn [set_metrics shard_manager posts cache transmission_in]. rewrite E7, E3, E6, K2.
    split_and!; try done; [by apply cache_keys_set|by eexists|]. intros _.
    by apply (posted_message log g2 _ x).
Qed.

(** ** The delivery invariant *)

(** Where a sent message is: before the gateway's handlers ([q]), in their charge,
    or, as a translation, on its way to the uplink ([xs]). *)
Definition covered (log q : list Message) (g : Gateway.t) (xs : list Message) (m : Message) : Prop :=
  m ∈ q \/ in_charge log g m \/ exists x, x ∈ xs /\ from_key log (key m) x.

Record on_way (log q : list Message) (g : Gateway.t) (xs : list Message) : Prop := {
  ow_live : live g;
  ow_cache : cache_keys log (cache g);
  ow_room : exists n, 0 <= n /\ n + cost q <= cost (normal log) /\ room (shard_manager g) n;
  ow_spread : len (chan (shard_manager g) 8) + len q <= len log;
  ow_cover : forall m, m ∈ log -> translatable m -> covered log q g xs m
}.

#[local] Instance cost_proper : Proper ((≡ₚ) ==> eq) cost.
Proof.
  intros l k Hlk. induction Hlk as [|m l k _ IH|m m' l|l k j _ IH1 _ IH2];
    rewrite ?cost_cons; [done|lia|lia|congruence].
Qed.

Lemma on_way_perm log q q' g xs xs' :
  on_way log q g xs -> q ≡ₚ q' -> xs ⊆ xs' -> on_way log q' g xs'.
Proof.
  intros [O1 O2 (n & On & Oc & Or) O4 O5] Hq Hx. split; [done|done|..].
  - exists n. rewrite <- Hq. done.
  - unfold len in *. by rewrite <- Hq.
  - intros m Hm Ht. destruct (O5 m Hm Ht) as [J|[J|(x & Hx' & J)]].
    + left. by rewrite <- Hq.
    + right. by left.
    + right. right. exists x. auto.
Qed.

(** Handlers that touch none of what the invariant reads. *)
Lemma on_way_same log q g g' xs :
  on_way log q g xs ->
  (cache g', shard_manager g', posts g', asts_credentials g', circuit_breaker g') =
  (cache g, shard_manager g, posts g, asts_credentials g, circuit_breaker g) ->
  on_way log q g' xs.
Proof.
  intros [O1 O2 O3 O4 O5] [= E1 E2 E3 E4 E5]. split.
  - unfold live. by rewrite E4, E5.
  - by rewrite E1.
  - by rewrite E2.
  - by rewrite E2.
  - intros m Hm Ht. specialize (O5 m Hm Ht). unfold covered, in_charge, posted in *. by rewrite E2, E3.
Qed.

Lemma in_charge_mono log log' g m : log ⊆ log' -> in_charge log g m -> in_charge log' g m.
Proof.
  intros Hl [?|(r & x & Hr & Hb & Hx)]; [by left|right]. exists r, x. split; [done|]. split; [done|].
  by apply (from_key_mono log).
Qed.

Lemma cache_keys_mono log log' c : log ⊆ log' -> cache_keys log c -> cache_keys log' c.
Proof. intros Hl Hc k e He. eapply from_key_mono; [done|]. by apply (Hc k e). Qed.

Lemma covered_mono log log' q q' g xs m :
  log ⊆ log' -> q ⊆ q' -> covered log q g xs m -> covered log' q' g xs m.
Proof.
  intros Hl Hq [J|[J|(x & Hx & J)]]; [left; auto|right; left|right; right].
  - by apply (in_charge_mono log).
  - exists x. split; [done|]. by apply (from_key_mono log).
Qed.

(** A message joins the queue of the input batcher. *)
Lemma on_way_send log q g xs m :
  on_way log q g xs -> routine m -> on_way (log ++ [m]) (m :: q) g xs.
Proof.
  intros [O1 O2 (n & On & Oc & Or) O4 O5] Hm. split; [done|..].
  - apply (cache_keys_mono log); [apply sub_snoc|done].
  - exists n. rewrite normal_app, normal_cons, Hm, cost_app, !cost_cons. cbn [normal List.filter cost foldr].
    split; [done|]. split; [lia|done].
  - rewrite len_app, !len_cons, (@len_nil Message). lia.
  - intros m' Hm' Ht. apply elem_of_app in Hm' as [Hm'|Hm'].
    + apply (covered_mono log _ q); [apply sub_snoc|set_solver|auto].
    + apply list_elem_of_singleton in Hm' as ->. left. by left.
Qed.

(** An emergency is posted. *)
Lemma on_way_emergency log q g g' xs m ev :
  env_ok ev -> http_ok ev -> gw_inv (log ++ [m]) g -> msg_ok m -> is_emergency m = true ->
  on_way log q g xs -> process_emergency g ev m = Ret g' -> on_way (log ++ [m]) q g' xs.
Proof.
  intros Hev Hh Hinv Hok He [O1 O2 (n & On & Oc & Or) O4 O5] Hp.
  apply (cache_keys_mono log (log ++ [m])) in O2; [|apply sub_snoc].
  destruct (emergency_delivers (log ++ [m]) g ev m g' n) as (J1 & J2 & J3 & J4 & _ & [ps J6] & J7);
    try done; [set_solver|]. split; [done|done|..].
  - exists n. rewrite normal_app, normal_cons, He, cost_app. cbn [normal List.filter cost foldr].
    split; [done|]. split; [lia|done].
  - rewrite J4 by lia. rewrite len_app. change (len [m]) with 1. lia.
  - intros m' Hm' Ht. apply elem_of_app in Hm' as [Hm'|Hm'].
    + destruct (covered_mono log (log ++ [m]) q q g xs m') as [J|[J|J]]; [apply sub_snoc|done|auto|by left| |by right; right].
      right. left. destruct J as [(c & Hc & Hin)|J]; [left; exists c; by rewrite J4|right].
      by apply (posted_more _ g g' _ ps).
    + apply list_elem_of_singleton in Hm' as ->. right. left. right. auto.
Qed.

(** A batch of the input batcher is processed. *)
Lemma on_way_incoming log batch q g g' xs ev :
  http_ok ev -> gw_inv log g -> cost (normal log) <= 5600 -> len log <= 1000 ->
  on_way log (batch ++ q) g xs -> process_incoming_batch g ev batch = Ret g' -> on_way log q g' xs.
Proof.
  intros Hh Hinv Hcost Hlen [O1 O2 (n & On & Oc & Or) O4 O5] Hp. rewrite cost_app in Oc. rewrite len_app in O4.
  pose proof (cost_nonneg q). pose proof (len_nonneg q).
  destruct (incoming_delivers log g ev batch g' n) as (J1 & (n' & Jn & Jr) & J3 & J4 & J5 & J6);
    try done; try lia. split; [done|by rewrite J6|..].
  - exists n'. split; [lia|]. split; [lia|done].
  - lia.
  - intros m Hm Ht. destruct (O5 m Hm Ht) as [J|[J|J]].
    + apply elem_of_app in J as [J|J]; [right; left|by left].
      by apply (proj1 (list.Forall_forall _ _) J5).
    + right. left. auto.
    + by right; right.
Qed.

(** A task takes messages from a channel and translates them. *)
Lemma on_way_taken log q g g' xs ms :
  on_way log q g xs -> delivers log g g' ms ->
  (forall n, room (shard_manager g) n -> room (shard_manager g') n) ->
  len (chan (shard_manager g') 8) <= len (chan (shard_manager g) 8) ->
  (forall m, in_chans (shard_manager g) m -> m ∈ ms \/ in_chans (shard_manager g') m) ->
  exists new, transmission_in g' = transmission_in g ++ new /\ on_way log q g' (xs ++ new).
Proof.
  intros [O1 O2 (n & On & Oc & Or) O4 O5] (D1 & D2 & D3 & new & D4 & D5) Hr H8 Hm. exists new.
  split; [done|]. split; [done|done|by exists n; auto|lia|].
  intros m Hin Ht. destruct (O5 m Hin Ht) as [J|[[J|J]|(x & Hx & J)]]; [by left|right..].
  - destruct (Hm m J) as [Hms|Hch]; [right|left; by left].
    destruct (D5 m Hms Ht) as (x & Hx & Hk). exists x. split; [set_solver|done].
  - left. right. unfold posted in *. by rewrite D3.
  - right. exists x. split; [set_solver|done].
Qed.

Lemma derived_split log (ms : list Message) :
  Forall (fun m => derived log m /\ routine m) ms -> Forall msg_ok ms /\ ms ⊆ log.
Proof.
  intros Hms. rewrite list.Forall_forall in Hms. split.
  - apply list.Forall_forall. intros m Hm. apply (Hms m Hm).
  - intros m Hm. apply (Hms m Hm).
Qed.

Lemma on_way_worker log q g g' xs ev c :
  env_ok ev -> gw_inv log g -> c ∈ ShardManager.workers (shard_manager g) -> on_way log q g xs ->
  (let '(ms, sm) := ShardManager.worker_recv_batch (shard_manager g) c 20 in
   process_translated_batch (set_shards g sm) ev ms) = Ret g' ->
  exists new, transmission_in g' = transmission_in g ++ new /\ on_way log q g' (xs ++ new).
Proof.
  intros Hev Hinv Hc Ho. pose proof (worker_shards _ _ c (gw_shards _ _ Hinv) Hc) as Hw.
  destruct (gi_static _ _ Hinv) as (_ & _ & _ & _ & _ & _ & Ew). rewrite Ew, elem_of_seqZ in Hc.
  pose proof (fun n Hr => worker_room (shard_manager g) n c Hr ltac:(lia)) as Hroom.
  destruct (ShardManager.worker_recv_batch _ c 20) as [ms sm]. destruct Hw as (_ & _ & Hms).
  apply derived_split in Hms as [Hok Hsub]. intros E.
  destruct (translated_delivers log (set_shards g sm) ev ms g') as [D Es]; try done;
    [apply Ho|apply Ho|]. cbn [set_shards shard_manager] in Es.
  destruct (ow_room _ _ _ _ Ho) as (n & _ & _ & Hr). destruct (Hroom n Hr) as (_ & E8 & Hin).
  apply (on_way_taken log q g g' xs ms); try done; rewrite Es; [|by rewrite E8|done].
  intros n' Hn'. apply (Hroom n' Hn').
Qed.

Lemma on_way_drain log q g g' xs ev :
  env_ok ev -> gw_inv log g -> on_way log q g xs -> drain_spread_shard_once g ev = Ret g' ->
  exists new, transmission_in g' = transmission_in g ++ new /\ on_way log q g' (xs ++ new).
Proof.
  intros Hev Hinv Ho E. pose proof (drain_shards _ _ (gw_shards _ _ Hinv)) as Hd.
  destruct (gi_static _ _ Hinv) as (_ & _ & _ & Hrx & _).
  pose proof (fun n Hr => drain_room (shard_manager g) n Hr Hrx) as Hroom.
  pose proof (drain_delivers log g ev g' Hev (ow_live _ _ _ _ Ho) (ow_cache _ _ _ _ Ho)) as D.
  destruct (ShardManager.drain_shard _ _) as [ms sm]. destruct Hd as (_ & _ & Hms).
  apply derived_split in Hms as [Hok Hsub]. destruct (D Hok Hsub E) as [D' Es].
  destruct (ow_room _ _ _ _ Ho) as (n & _ & _ & Hr). destruct (Hroom n Hr) as (_ & E8 & Hin).
  apply (on_way_taken log q g g' xs ms); try done; rewrite Es; [| |done].
  - intros n' Hn'. apply (Hroom n' Hn').
  - rewrite E8, (@len_nil Message). apply len_nonneg.
Qed.

(** A batch of the transmission batcher is posted. *)
Lemma on_way_uplink log q g xs batch ev :
  http_ok ev -> on_way log q g (batch ++ xs) -> on_way log q (send_batch_to_asts g ev batch) xs.
Proof.
  intros Hh Ho. unfold send_batch_to_asts. destruct batch as [|x0 batch]; [done|].
  destruct Ho as [O1 O2 O3 O4 O5]. set (g1 := set_metrics g _). assert (Hg1 : live g1) by done.
  set (r := PostBatch _). destruct (post_live g1 ev 0 r Hg1 Hh) as [J1 J2].
  destruct (post_core g1 ev 0 r) as [(_ & _ & _ & _ & _ & E6 & _) E7].
  set (g2 := post g1 ev 0 r) in *. destruct (ping_live g2 x0 J1) as [J3 J4].
  assert (Ec : cache (send_telemetry_ping g2 x0) = cache g)
    by (unfold send_telemetry_ping; destruct (telemetry g2); done).
  assert (Es : shard_manager (send_telemetry_ping g2 x0) = shard_manager g)
    by (unfold send_telemetry_ping; destruct (telemetry g2); done).
  assert (Ep : posts (send_telemetry_ping g2 x0) = posts g ++ [r]) by (by rewrite J4, J2).
  set (g3 := send_telemetry_ping g2 x0) in *. clearbody g3.
  split; [done|by rewrite Ec|by rewrite Es|by rewrite Es|].
  intros m Hm Ht. destruct (O5 m Hm Ht) as [J|[[J|J]|(x & Hx & J)]]; [by left|right..].
  - left. left. by rewrite Es.
  - left. right. by apply (posted_more log g g3 _ [r]).
  - apply elem_of_app in Hx as [Hx|Hx]; [left; right|right; by exists x].
    exists r, x. rewrite Ep. split; [set_solver|]. split; [|done]. apply list_elem_of_fmap. by exists x.
Qed.

(** ** Lemmas: the invariant of the running gateway *)

Definition in_flight (s : t) : Prop :=
  on_way (sent s) (batcher_in (gw s) ++ held (tin s)) (gw s) (transmission_in (gw s) ++ held (tout s)).

(** The uplink works in this turn. *)
Definition uplink_ok (a : action) : Prop :=
  match a with Send ev _ | Incoming ev | Uplink ev => http_ok ev | _ => True end.

(** What the counter of pushes and the spread shard admit. *)
Definition within_budget (log : list Message) : Prop := cost (normal log) <= 5600 /\ len log <= 1000.

Lemma in_flight_send s ev m s' :
  inv s -> in_flight s -> env_ok ev -> http_ok ev -> msg_ok m ->
  perform s (Send ev m) = Ret s' -> in_flight s'.
Proof.
  intros Hs Hf Hev Hh Hm. cbn [perform]. unfold Gateway.send. set (g1 := set_metrics (gw s) _).
  assert (Hg : gw_inv (sent s ++ [m]) g1)
    by (apply set_metrics_inv, (gw_inv_mono (sent s)), Hs; apply sub_snoc).
  assert (Ho : on_way (sent s) (batcher_in g1 ++ held (tin s)) g1 (transmission_in g1 ++ held (tout s)))
    by (by apply (on_way_same _ _ (gw s))).
  destruct (is_emergency m) eqn:He.
  - destruct (emergency_inv _ _ ev m Hev Hg) as (g' & E & _ & Eb & _); [set_solver|done|]. rewrite E. mstep.
    intros [= <-]. unfold in_flight. cbn [gw tin tout sent]. rewrite Eb.
    destruct (ow_room _ _ _ _ Ho) as (n & _ & _ & Hr).
    destruct (emergency_delivers (sent s ++ [m]) g1 ev m g' n) as (_ & _ & _ & _ & Et & _);
      [done|done|done|set_solver|done|apply Ho|done| |done|].
    + apply (cache_keys_mono (sent s)); [apply sub_snoc|apply Ho].
    + rewrite Et. by apply (on_way_emergency (sent s) _ g1 g' _ m ev).
  - mstep. intros [= <-]. unfold in_flight. cbn [gw tin tout sent].
    apply (on_way_perm _ (m :: batcher_in g1 ++ held (tin s)) _ _ (transmission_in g1 ++ held (tout s)));
      [|cbn [set_batcher batcher_in]; solve_Permutation|done].
    apply (on_way_same _ _ g1); [|done]. by apply on_way_send.
Qed.

Lemma in_flight_incoming s ev s' :
  inv s -> in_flight s -> http_ok ev -> within_budget (sent s) ->
  perform s (Incoming ev) = Ret s' -> in_flight s'.
Proof.
  intros Hs Hf Hh [Hcost Hlen]. pose proof Hs as [Hlog Hg Hin _ _ [Hc _]]. cbn [perform].
  destruct (recv_batch (tin s)) as [[batch rx]|] eqn:E; [|by intros [= <-]].
  destruct (recv_batch_held _ _ _ Hc E) as (_ & Eh & _). rewrite Eh in Hin. apply Forall_app in Hin as [Hb _].
  destruct (incoming_inv _ _ ev batch Hlog Hg Hb) as (g' & E' & _ & [Eb _] & Et). rewrite E'. mstep.
  intros [= <-]. unfold in_flight in *. cbn [gw tin tout sent]. rewrite Eb, Et. rewrite Eh in Hf.
  apply (on_way_incoming _ batch _ (gw s) g' _ ev); try done.
  apply (on_way_perm _ _ _ _ _ _ Hf); [solve_Permutation|done].
Qed.

Lemma in_flight_worker s ev c s' :
  inv s -> in_flight s -> env_ok ev -> perform s (Worker ev c) = Ret s' -> in_flight s'.
Proof.
  intros Hs Hf Hev. cbn [perform]. case_bool_decide as Hc; [|by intros [= <-]].
  pose proof (fun g' => on_way_worker _ _ _ g' _ ev c Hev (i_gw _ Hs) Hc Hf) as Hw.
  pose proof (worker_shards _ _ c (gw_shards _ _ (i_gw _ Hs)) Hc) as Hsh.
  destruct (ShardManager.worker_recv_batch _ c 20) as [ms sm]. destruct Hsh as ([J1 J2] & _ & Hms).
  destruct (translated_batch_inv (sent s) (set_shards (gw s) sm) ev ms) as (g' & E & _ & Eb & _);
    [done|by destruct (i_gw _ Hs); split|done|]. specialize (Hw g'). rewrite E in Hw |- *. mstep. intros [= <-].
  destruct (Hw eq_refl) as (new & Et & Ho). unfold in_flight. cbn [gw tin tout sent]. rewrite Eb, Et.
  apply (on_way_perm _ _ _ _ _ _ Ho); [done|set_solver].
Qed.

Lemma in_flight_drain s ev s' :
  inv s -> in_flight s -> env_ok ev -> perform s (SpreadDrain ev) = Ret s' -> in_flight s'.
Proof.
  intros Hs Hf Hev. cbn [perform].
  destruct (drain_spread_inv _ _ ev Hev (i_gw _ Hs)) as (g' & E & _ & Eb & _).
  destruct (on_way_drain _ _ _ _ _ ev Hev (i_gw _ Hs) Hf E) as (new & Et & Ho).
  rewrite E. mstep. intros [= <-]. unfold in_flight. cbn [gw tin tout sent]. rewrite Eb, Et.
  apply (on_way_perm _ _ _ _ _ _ Ho); [done|set_solver].
Qed.

Lemma in_flight_uplink s ev s' :
  inv s -> in_flight s -> http_ok ev -> perform s (Uplink ev) = Ret s' -> in_flight s'.
Proof.
  intros Hs Hf Hh. pose proof Hs as [_ Hg _ Hout _ [_ Hc]]. cbn [perform].
  destruct (recv_batch (tout s)) as [[batch rx]|] eqn:E; [|by intros [= <-]]. intros [= <-].
  destruct (recv_batch_held _ _ _ Hc E) as (_ & Eh & _). rewrite Eh in Hout. apply Forall_app in Hout as [Hb _].
  destruct (send_batch_inv _ _ ev batch Hg Hb) as (_ & (_ & Ebi & Et & _) & _).
  unfold in_flight in *. cbn [gw tin tout sent]. rewrite Ebi, Et. apply on_way_uplink; [done|].
  rewrite Eh in Hf. apply (on_way_perm _ _ _ _ _ _ Hf); [done|set_solver].
Qed.

Lemma perform_in_flight s a s' :
  inv s -> in_flight s -> action_ok a -> uplink_ok a -> within_budget (sent s) ->
  perform s a = Ret s' -> in_flight s'.
Proof.
  intros Hs Hf Ha Hu Hb Hp. pose proof Hs as [_ Hg _ _ _ [Hi Ho]].
  destruct a as [ev m|now now'|now'|ev|ev c|ev|now now'|now'|ev| |en ep]; cbn [action_ok uplink_ok] in *.
  - destruct Ha. by apply (in_flight_send s ev m).
  - cbn [perform] in Hp. unfold in_flight in *. destruct (batcher_in (gw s)) as [|m rest] eqn:E;
      injection Hp as <-; [by rewrite E|].
    pose proof (gi_batcher _ _ Hg) as Hm. rewrite E in Hm. apply Forall_cons_1 in Hm as [[_ Hr] _].
    destruct (batcher_recv (tin s) now now' m Hi Hr) as (_ & Eh & _). cbn [gw tin tout sent]. rewrite Eh.
    apply (on_way_same _ _ (gw s)); [|done].
    apply (on_way_perm _ _ _ _ _ _ Hf); [cbn [set_batcher batcher_in]; solve_Permutation|done].
  - injection Hp as <-. destruct (batcher_timer (tin s) now' Hi) as (_ & Eh & _).
    unfold in_flight in *. cbn [gw tin tout sent]. by rewrite Eh.
  - by apply (in_flight_incoming s ev).
  - by apply (in_flight_worker s ev c).
  - by apply (in_flight_drain s ev).
  - cbn [perform] in Hp. unfold in_flight in *. destruct (transmission_in (gw s)) as [|m rest] eqn:E;
      injection Hp as <-; [by rewrite E|].
    destruct (transmission_recv (tout s) now now' m Ho) as (_ & Eh & _). cbn [gw tin tout sent]. rewrite Eh.
    apply (on_way_same _ _ (gw s)); [|done].
    apply (on_way_perm _ _ _ _ _ _ Hf); [done|cbn [set_uplink transmission_in]; set_solver].
  - injection Hp as <-. destruct (transmission_timer (tout s) now' Ho) as (_ & Eh & _).
    unfold in_flight in *. cbn [gw tin tout sent]. by rewrite Eh.
  - by apply (in_flight_uplink s ev).
  - injection Hp as <-. apply (on_way_same _ _ (gw s)); [done|]. cbn. by rewrite (proj1 (ow_live _ _ _ _ Hf)).
  - injection Hp as <-. by apply (on_way_same _ _ (gw s)).
Qed.

Lemma budget_prefix log log' : within_budget (log ++ log') -> within_budget log.
Proof.
  intros [Hc Hl]. rewrite normal_app, cost_app in Hc. rewrite len_app in Hl.
  pose proof (cost_nonneg (normal log')). pose proof (len_nonneg log'). split; lia.
Qed.

Lemma run_in_flight s acts :
  inv s -> in_flight s -> Forall action_ok acts -> Forall uplink_ok acts ->
  within_budget (sent s ++ sends acts) ->
  exists s', run s acts = Ret s' /\ inv s' /\ in_flight s' /\ sent s' = sent s ++ sends acts.
Proof.
  intros Hs Hf Ha. revert s Hs Hf. induction Ha as [|a acts Ha _ IH]; intros s Hs Hf Hu Hb; cbn [run].
  { exists s. cbn [sends]. by rewrite app_nil_r. }
  apply Forall_cons_1 in Hu as [Hua Hu]. destruct (perform_inv s a Hs Ha) as (s1 & E & Hs1 & E1).
  assert (Hf1 : in_flight s1) by (apply (perform_in_flight s a); try done; by eapply budget_prefix).
  assert (El : sent s1 ++ sends acts = sent s ++ sends (a :: acts))
    by (rewrite E1, <- app_assoc; by destruct a).
  rewrite E. mstep. destruct (IH s1 Hs1 Hf1 Hu) as (s' & E' & Hs' & Hf' & El'); [by rewrite El|].
  exists s'. rewrite El', El. done.
Qed.

Lemma start_room now cache_ttl credentials telemetry :
  room (shard_manager (Gateway.new now cache_ttl credentials telemetry)) 0.
Proof.
  set (sm := shard_manager _).
  assert (He : Forall (fun c => ShardManager.connected sm c = true /\ ShardManager.chans sm !! c = Some [] /\
                                (fun sh => ShardManager.tx sh) <$> ShardManager.shards sm !! c = Some c) (seqZ 1 8))
    by (apply (bool_decide_unpack _); vm_compute; reflexivity).
  rewrite list.Forall_forall in He. split; [split; vm_compute; reflexivity|split_and!; vm_compute; reflexivity|..].
  - intros c Hc. destruct (He c) as (J1 & J2 & J3); [apply elem_of_seqZ; lia|].
    split; [done|]. split; [by eexists|]. destruct (ShardManager.shards sm !! c) as [sh|]; [|done].
    exists sh. split; [done|]. by injection J3.
  - intros c Hc. destruct (He c) as (_ & J & _); [apply elem_of_seqZ; lia|]. unfold chan. rewrite J.
    change (len (default [] (Some (@nil Message)))) with 0. apply Z.div_pos; lia.
Qed.

Lemma start_in_flight now cache_ttl telemetry : in_flight (start now cache_ttl true telemetry).
Proof.
  split; [done|apply map_Forall_empty|exists 0|vm_compute; discriminate|intros m Hm; by apply not_elem_of_nil in Hm].
  split; [done|]. split; [vm_compute; discriminate|apply start_room].
Qed.

(** Once nothing waits any more, all is posted. *)
Lemma quiescent_posted s m :
  in_flight s -> quiescent s -> m ∈ sent s -> translatable m -> posted (sent s) (gw s) (key m).
Proof.
  intros Hf (Q1 & Q2 & Q3 & Q4 & Q5) Hm Ht. pose proof (ow_cover _ _ _ _ Hf m Hm Ht) as Hc.
  unfold covered in Hc. rewrite Q1, Q2, Q4, Q5 in Hc.
  destruct Hc as [J|[[(c & Hc & J)|J]|(x & J & _)]]; [by apply not_elem_of_nil in J| |done|by apply not_elem_of_nil in J].
  unfold chan in J. rewrite Q3 in J by (apply elem_of_seqZ; lia). by apply not_elem_of_nil in J.
Qed.

Lemma effective_run s turns s' : effective s turns s' -> run s turns = Ret s' /\ sends turns = [].
Proof.
  induction 1 as [s|s a s1 turns s' He Hp _ [IH1 IH2]]; cbn [run]; [done|]. rewrite Hp. mstep.
  split; [done|]. by destruct a.
Qed.

Lemma turns_uplink_ok ev : http_ok ev -> Forall uplink_ok (turns_of ev).
Proof. intros Hh. by repeat constructor. Qed.

(** ** Property *)

End laws.
End delivery.

Section witnesses.
#[local] Existing Instances crc_ibm_3740 crc_ibm_3740_laws hex_ref hex_ref_laws hex_encode_ref
  zstd_stored zstd_stored_laws nom_ref nom_ref_laws.

End witnesses.
