(* ===== verification/OtelSpan.v ===== *)
(** * Compact spans ([src/src/otel_compact_span.rs])

    Spans of telemetry in the binary format of the satellite link:
    [trace id (16)][span id (8)][parent id (8)][name length (1)][name]
    [start (8)][end (8)][t_event (8)][t_system (8)][sensor length (1)][sensor]
    [attribute count (1)][attributes][status (1)], an attribute being two strings
    with one-byte lengths.  A [String] is the list of its bytes; its type
    invariant is that it is valid UTF-8. *)

From S2P Require Import Prelude Utf8 Externals.

Inductive SpanStatus := StatusOk | StatusError.

#[export] Instance SpanStatus_eq_dec : EqDecision SpanStatus.
Proof. solve_decision. Defined.

(** [status as u8] *)
Definition status_u8 (s : SpanStatus) : Z :=
  match s with StatusOk => 0 | StatusError => 1 end.

Module CompactSpan.

Record t := mk {
  trace_id : bytes;
  span_id : bytes;
  parent_span_id : bytes;
  name : bytes;
  start_time_unix_nano : Z;
  end_time_unix_nano : Z;
  t_event : Z;
  t_system : Z;
  sensor_id : bytes;
  attributes : list (bytes * bytes);
  status : SpanStatus
}.

#[export] Instance t_eq_dec : EqDecision t.
Proof. solve_decision. Defined.

(** [SystemTime::now().duration_since(UNIX_EPOCH).unwrap()], with the clock in
    nanoseconds since the epoch. *)
Definition since_epoch (now : Z) : outcome Z := if now <? 0 then Panic else Ret now.

(** [now1] and [now2] are the two readings of the clock. *)
Definition new (now1 now2 : Z) (trace_id span_id name sensor_id : bytes) : outcome t :=
  n1 ← since_epoch now1;
  let now := wrap 64 n1 in
  n2 ← since_epoch now2;
  let now_ms := swrap 64 (n2 / 1000000) in
  Ret (mk trace_id span_id (fill 0 8) name now now now_ms now_ms sensor_id [] StatusOk).

Definition with_parent (s : t) (parent_id : bytes) : t :=
  mk (trace_id s) (span_id s) parent_id (name s) (start_time_unix_nano s)
     (end_time_unix_nano s) (t_event s) (t_system s) (sensor_id s) (attributes s) (status s).

Definition with_t_event (s : t) (v : Z) : t :=
  mk (trace_id s) (span_id s) (parent_span_id s) (name s) (start_time_unix_nano s)
     (end_time_unix_nano s) v (t_system s) (sensor_id s) (attributes s) (status s).

Definition with_t_system (s : t) (v : Z) : t :=
  mk (trace_id s) (span_id s) (parent_span_id s) (name s) (start_time_unix_nano s)
     (end_time_unix_nano s) (t_event s) v (sensor_id s) (attributes s) (status s).

Definition with_attribute (s : t) (key value : bytes) : t :=
  mk (trace_id s) (span_id s) (parent_span_id s) (name s) (start_time_unix_nano s)
     (end_time_unix_nano s) (t_event s) (t_system s) (sensor_id s)
     (attributes s ++ [(key, value)]) (status s).

Definition with_status (s : t) (v : SpanStatus) : t :=
  mk (trace_id s) (span_id s) (parent_span_id s) (name s) (start_time_unix_nano s)
     (end_time_unix_nano s) (t_event s) (t_system s) (sensor_id s) (attributes s) v.

Definition complete (now : Z) (s : t) : outcome t :=
  n ← since_epoch now;
  Ret (mk (trace_id s) (span_id s) (parent_span_id s) (name s) (start_time_unix_nano s)
     (wrap 64 n) (t_event s) (t_system s) (sensor_id s) (attributes s) (status s)).

Definition spread_ms (s : t) : Z := swrap 64 (t_system s - t_event s).

Section codec.
Context `{BufCrate}.

(** A length byte and the bytes. *)
Definition put_attribute (buf : bytes) (kv : bytes * bytes) : bytes :=
  let '(key, value) := kv in
  let buf := put_uint 1 buf (wrap 8 (len key)) in
  let buf := put_slice buf key in
  let buf := put_uint 1 buf (wrap 8 (len value)) in
  put_slice buf value.

Definition encode (s : t) : bytes :=
  let buf := [] in
  let buf := put_slice buf (trace_id s) in
  let buf := put_slice buf (span_id s) in
  let buf := put_slice buf (parent_span_id s) in
  let buf := put_uint 1 buf (wrap 8 (len (name s))) in
  let buf := put_slice buf (name s) in
  let buf := put_uint 8 buf (start_time_unix_nano s) in
  let buf := put_uint 8 buf (end_time_unix_nano s) in
  let buf := put_uint 8 buf (wrap 64 (t_event s)) in
  let buf := put_uint 8 buf (wrap 64 (t_system s)) in
  let buf := put_uint 1 buf (wrap 8 (len (sensor_id s))) in
  let buf := put_slice buf (sensor_id s) in
  let buf := put_uint 1 buf (wrap 8 (len (attributes s))) in
  let buf := foldl put_attribute buf (attributes s) in
  put_uint 1 buf (status_u8 (status s)).

(** [get_i64] *)
Definition get_i64 (buf : bytes) : outcome (Z * bytes) :=
  '(v, buf) ← get_uint 8 buf; Ret (swrap 64 v, buf).

(** The loop over the attributes. *)
Fixpoint decode_attributes (count : nat) (buf : bytes)
  : outcome (result (list (bytes * bytes) * bytes) string) :=
  match count with
  | O => Ret (Ok ([], buf))
  | S count =>
      if len buf <? 1 then Ret (Err "Insufficient data for attribute key length"%string) else
      '(key_len, buf) ← get_uint 1 buf;
      if len buf <? key_len then Ret (Err "Insufficient data for attribute key"%string) else
      '(kb, buf) ← split_to buf key_len;
      match from_utf8 kb with
      | None => Ret (Err "Invalid UTF-8 in attribute key"%string)
      | Some key =>
          if len buf <? 1
          then Ret (Err "Insufficient data for attribute value length"%string) else
          '(val_len, buf) ← get_uint 1 buf;
          if len buf <? val_len
          then Ret (Err "Insufficient data for attribute value"%string) else
          '(vb, buf) ← split_to buf val_len;
          match from_utf8 vb with
          | None => Ret (Err "Invalid UTF-8 in attribute value"%string)
          | Some value =>
              '(rest, buf) <-! decode_attributes count buf;
              Ret (Ok ((key, value) :: rest, buf))
          end
      end
  end.

Definition decode (data : bytes) : outcome (result t string) :=
  let buf := data in
  if len buf <? 16 + 8 + 8 + 1 + 8 + 8 + 8 + 8 + 1 + 1 + 1
  then Ret (Err "Insufficient data for compact span"%string) else
  '(trace_id, buf) ← split_to buf 16;
  '(span_id, buf) ← split_to buf 8;
  '(parent_span_id, buf) ← split_to buf 8;
  '(name_len, buf) ← get_uint 1 buf;
  if len buf <? name_len then Ret (Err "Insufficient data for name"%string) else
  '(nb, buf) ← split_to buf name_len;
  match from_utf8 nb with
  | None => Ret (Err "Invalid UTF-8 in name"%string)
  | Some name =>
  '(start_time_unix_nano, buf) ← get_uint 8 buf;
  '(end_time_unix_nano, buf) ← get_uint 8 buf;
  '(t_event, buf) ← get_i64 buf;
  '(t_system, buf) ← get_i64 buf;
  '(sensor_len, buf) ← get_uint 1 buf;
  if len buf <? sensor_len then Ret (Err "Insufficient data for sensor_id"%string) else
  '(sb, buf) ← split_to buf sensor_len;
  match from_utf8 sb with
  | None => Ret (Err "Invalid UTF-8 in sensor_id"%string)
  | Some sensor_id =>
  '(attr_count, buf) ← get_uint 1 buf;
  '(attributes, buf) <-! decode_attributes (Z.to_nat attr_count) buf;
  '(status_byte, _) ← get_uint 1 buf;
  if status_byte =? 0 then
    Ret (Ok (mk trace_id span_id parent_span_id name start_time_unix_nano
           end_time_unix_nano t_event t_system sensor_id attributes StatusOk))
  else if status_byte =? 1 then
    Ret (Ok (mk trace_id span_id parent_span_id name start_time_unix_nano
           end_time_unix_nano t_event t_system sensor_id attributes StatusError))
  else Ret (Err "Invalid status byte"%string)
  end
  end.
End codec.

Definition encoded_size (s : t) : Z :=
  wrap 64 (16 + 8 + 8
    + 1 + len (name s)
    + 8 + 8
    + 8 + 8
    + 1 + len (sensor_id s)
    + 1
    + foldr (fun kv n => (1 + len kv.1 + 1 + len kv.2) + n) 0 (attributes s)
    + 1).

(** A chain of builder calls on a span. *)
Inductive builder :=
| WithParent (parent_id : bytes)
| WithTEvent (v : Z)
| WithTSystem (v : Z)
| WithAttribute (key value : bytes)
| WithStatus (v : SpanStatus)
| Complete (now : Z).

Definition build1 (s : t) (b : builder) : outcome t :=
  match b with
  | WithParent p => Ret (with_parent s p)
  | WithTEvent v => Ret (with_t_event s v)
  | WithTSystem v => Ret (with_t_system s v)
  | WithAttribute k v => Ret (with_attribute s k v)
  | WithStatus v => Ret (with_status s v)
  | Complete now => complete now s
  end.

Fixpoint build (s : t) (bs : list builder) : outcome t :=
  match bs with
  | [] => Ret s
  | b :: bs => s ← build1 s b; build s bs
  end.

(** The type invariant of a [String]. *)
Definition string_ok (s : bytes) : Prop := bytes_ok s /\ utf8_valid s = true.

(** The type invariant of the struct. *)
Definition typed (s : t) : Prop :=
  (bytes_ok (trace_id s) /\ len (trace_id s) = 16) /\
  (bytes_ok (span_id s) /\ len (span_id s) = 8) /\
  (bytes_ok (parent_span_id s) /\ len (parent_span_id s) = 8) /\
  string_ok (name s) /\ in_u 64 (start_time_unix_nano s) /\ in_u 64 (end_time_unix_nano s) /\
  in_i 64 (t_event s) /\ in_i 64 (t_system s) /\ string_ok (sensor_id s) /\
  Forall (fun kv => string_ok kv.1 /\ string_ok kv.2) (attributes s).

(** The types of the builders' arguments. *)
Definition builder_typed (b : builder) : Prop :=
  match b with
  | WithParent p => bytes_ok p /\ len p = 8
  | WithTEvent v | WithTSystem v => in_i 64 v
  | WithAttribute k v => string_ok k /\ string_ok v
  | WithStatus _ | Complete _ => True
  end.

Definition built_attribute (b : builder) : option (bytes * bytes) :=
  match b with WithAttribute k v => Some (k, v) | _ => None end.

(** Spans the format can carry. *)
Definition fits (s : t) : Prop :=
  len (name s) <= 255 /\ len (sensor_id s) <= 255 /\ len (attributes s) <= 255 /\
  Forall (fun kv => len kv.1 <= 255 /\ len kv.2 <= 255) (attributes s).

#[export] Instance string_ok_dec s : Decision (string_ok s).
Proof. unfold string_ok. apply _. Defined.
#[export] Instance typed_dec s : Decision (typed s).
Proof. unfold typed. apply _. Defined.
#[export] Instance fits_dec s : Decision (fits s).
Proof. unfold fits. apply _. Defined.
#[export] Instance builder_typed_dec b : Decision (builder_typed b).
Proof. destruct b; apply _. Defined.

End CompactSpan.

Import CompactSpan.

(** ** Lemmas *)

(** The layout of the encoding. *)
Definition pascal (s : bytes) : bytes := to_be 1 (wrap 8 (len s)) ++ s.
Definition attribute_layout (kv : bytes * bytes) : bytes := pascal kv.1 ++ pascal kv.2.
Definition head_layout (s : t) : bytes :=
  trace_id s ++ span_id s ++ parent_span_id s ++ pascal (name s).
Definition body_layout (s : t) : bytes :=
  to_be 8 (start_time_unix_nano s) ++ to_be 8 (end_time_unix_nano s)
  ++ to_be 8 (wrap 64 (t_event s)) ++ to_be 8 (wrap 64 (t_system s)) ++ pascal (sensor_id s)
  ++ to_be 1 (wrap 8 (len (attributes s))) ++ concat (map attribute_layout (attributes s)).
Definition layout (s : t) : bytes :=
  head_layout s ++ body_layout s ++ to_be 1 (status_u8 (status s)).

Section layout.
Context `{BufCrate, !BufLaws}.

Lemma put_attributes_layout buf l :
  foldl put_attribute buf l = buf ++ concat (map attribute_layout l).
Proof.
  revert buf. induction l as [|[k v] l IH]; intros buf; simpl; [by rewrite app_nil_r|].
  rewrite IH. unfold attribute_layout, pascal. simpl fst. simpl snd.
  by rewrite !put_slice_spec, !put_uint_spec, <- !app_assoc.
Qed.

Lemma encode_layout s : encode s = layout s.
Proof.
  unfold encode, layout, head_layout, body_layout, pascal.
  rewrite put_uint_spec, put_attributes_layout.
  by rewrite !put_uint_spec, !put_slice_spec, <- !app_assoc.
Qed.

(** *** Reading what was written *)

Lemma wrap8_len (s : bytes) : len s <= 255 -> wrap 8 (len s) = len s.
Proof. intros. pose proof (len_nonneg s). apply wrap_small. unfold in_u. lia. Qed.

Lemma get_u8_app v b : get_uint 1 (to_be 1 v ++ b) = Ret (wrap 8 v, b).
Proof. apply (get_uint_app 1). Qed.

Lemma get_pascal s b :
  len s <= 255 -> get_uint 1 (pascal s ++ b) = Ret (len s, s ++ b).
Proof.
  intros. unfold pascal. rewrite <- app_assoc, get_u8_app, wrap_small.
  - by rewrite wrap8_len.
  - by apply wrap_range.
Qed.

Lemma from_utf8_ok s : string_ok s -> from_utf8 s = Some s.
Proof. intros [_ Hs]. unfold from_utf8. by rewrite Hs. Qed.

Lemma get_u64_app v b : in_u 64 v -> get_uint 8 (to_be 8 v ++ b) = Ret (v, b).
Proof. intros. rewrite get_uint_app. by rewrite wrap_small. Qed.

Lemma get_i64_app v b : in_i 64 v -> get_i64 (to_be 8 (wrap 64 v) ++ b) = Ret (v, b).
Proof.
  intros. unfold get_i64. rewrite get_u64_app by (by apply wrap_range). mstep.
  by rewrite swrap_wrap.
Qed.

Lemma decode_attributes_app l b :
  Forall (fun kv => string_ok kv.1 /\ string_ok kv.2) l ->
  Forall (fun kv => len kv.1 <= 255 /\ len kv.2 <= 255) l ->
  decode_attributes (length l) (concat (map attribute_layout l) ++ b) = Ret (Ok (l, b)).
Proof.
  induction l as [|[k v] l IH]; [done|]. intros [[Hk Hv] Ht]%Forall_cons_1 [[Lk Lv] Hf]%Forall_cons_1.
  cbn [length map concat decode_attributes].
  change (attribute_layout (k, v)) with (pascal k ++ pascal v). simpl fst in *. simpl snd in *. rewrite <- !app_assoc.
  pose proof (len_nonneg k). pose proof (len_nonneg v).
  set (r := concat _ ++ b). pose proof (len_nonneg r).
  assert (len (pascal k) = 1 + len k) by (unfold pascal; len_solve).
  assert (len (pascal v) = 1 + len v) by (unfold pascal; len_solve).
  bcase. rewrite get_pascal by lia. mstep. bcase.
  rewrite split_to_app by done. mstep. rewrite from_utf8_ok by done.
  bcase. rewrite get_pascal by lia. mstep. bcase.
  rewrite split_to_app by done. mstep. rewrite from_utf8_ok by done.
  unfold r. by rewrite IH.
Qed.

(** The decoder on a complete prefix, up to the attributes. *)
Lemma decode_prefix s b :
  typed s -> fits s -> 68 <= len (head_layout s ++ body_layout s ++ b) ->
  decode (head_layout s ++ body_layout s ++ b) =
    '(v, _) ← get_uint 1 b;
    if v =? 0 then Ret (Ok (with_status s StatusOk))
    else if v =? 1 then Ret (Ok (with_status s StatusError))
    else Ret (Err "Invalid status byte"%string).
Proof.
  intros ([Ht Lt] & [Hs Ls] & [Hp Lp] & Hn & Hst & Hen & Hte & Hts & Hse & Hat)
    (Fn & Fs & Fc & Fa) Hlen.
  unfold decode. rewrite (proj2 (Z.ltb_ge _ _)) by lia. clear Hlen.
  unfold head_layout, body_layout. rewrite <- !app_assoc.
  do 3 (rewrite split_to_app by done; mstep).
  rewrite get_pascal by done. mstep. set (r := to_be 8 _ ++ _). pose proof (len_nonneg r).
  bcase. rewrite split_to_app by done. mstep. rewrite from_utf8_ok by done. unfold r. clear r H1.
  do 2 (rewrite get_u64_app by done; mstep). do 2 (rewrite get_i64_app by done; mstep).
  rewrite get_pascal by done. mstep. set (r := to_be 1 _ ++ _). pose proof (len_nonneg r).
  bcase. rewrite split_to_app by done. mstep. rewrite from_utf8_ok by done. unfold r. clear r H1.
  rewrite get_u8_app, wrap_small by (by apply wrap_range). mstep.
  pose proof (len_nonneg (attributes s)).
  rewrite wrap_small by (unfold in_u; lia). unfold len at 1. rewrite Nat2Z.id.
  rewrite decode_attributes_app by done. mstep.
  destruct (get_uint 1 b) as [[v ?]|]; [|done]. done.
Qed.

Lemma len_layouts s :
  typed s ->
  len (head_layout s) = 33 + len (name s) /\
  len (body_layout s) = 34 + len (sensor_id s)
    + foldr (fun kv n => (1 + len kv.1 + 1 + len kv.2) + n) 0 (attributes s).
Proof.
  intros ([Ht Lt] & [Hs Ls] & [Hp Lp] & _).
  unfold head_layout, body_layout, pascal. len_simpl. split; [lia|].
  enough (len (concat (map attribute_layout (attributes s)))
    = foldr (fun kv n => (1 + len kv.1 + 1 + len kv.2) + n) 0 (attributes s)) by lia.
  induction (attributes s) as [|[k v] l IH]; [done|]. cbn [map concat foldr].
  rewrite len_app, IH. unfold attribute_layout, pascal. len_simpl. simpl fst. simpl snd. lia.
Qed.

Lemma attributes_size_nonneg (l : list (bytes * bytes)) :
  0 <= foldr (fun kv n => (1 + len kv.1 + 1 + len kv.2) + n) 0 l.
Proof.
  induction l as [|[k v] l IH]; simpl; [lia|].
  pose proof (len_nonneg k). pose proof (len_nonneg v). lia.
Qed.

Lemma attributes_size_le (l : list (bytes * bytes)) :
  Forall (fun kv => len kv.1 <= 255 /\ len kv.2 <= 255) l ->
  foldr (fun kv n => (1 + len kv.1 + 1 + len kv.2) + n) 0 l <= 512 * len l.
Proof.
  induction 1 as [|[k v] l [Hk Hv] _ IH]; simpl in *; [done|].
  rewrite len_cons. lia.
Qed.
End layout.

(** *** What was read had been written *)

Lemma get_i64_Ret `{BufCrate, !BufLaws} b v r :
  bytes_ok b -> get_i64 b = Ret (v, r) -> b = to_be 8 (wrap 64 v) ++ r /\ in_i 64 v.
Proof.
  intros Hok Hg. unfold get_i64 in Hg. inv_ret. destruct x as [u r']. inv_ret.
  apply get_uint_Ret in H1 as [-> Hu]; [|done]. change (8 * Z.of_nat 8) with 64 in Hu.
  rewrite wrap_swrap by done. split; [done|by apply swrap_range].
Qed.

(** Peels one successful read off a decoder. *)
Ltac read_step :=
  match goal with
  | H : (split_to ?b ?n ≫= _) = Ret _ |- _ =>
      let E := fresh "E" in let x := fresh "x" in let r := fresh "r" in
      destruct (split_to b n) as [[x r]|] eqn:E; [|done];
      apply split_to_Ret in E as [-> E]; [|unfold in_u in *; lia]; cbn [mbind outcome_bind] in H;
      match goal with K : bytes_ok (x ++ r) |- _ => apply bytes_ok_app_inv in K as [? K] end
  | H : (get_uint ?n ?b ≫= _) = Ret _ |- _ =>
      let E := fresh "E" in let x := fresh "v" in let r := fresh "r" in
      destruct (get_uint n b) as [[x r]|] eqn:E; [|done];
      apply get_uint_Ret in E as [-> E]; [|done]; cbn [mbind outcome_bind] in H;
      match goal with K : bytes_ok (_ ++ r) |- _ => apply bytes_ok_app_inv in K as [_ K] end
  | H : (get_i64 ?b ≫= _) = Ret _ |- _ =>
      let E := fresh "E" in let x := fresh "v" in let r := fresh "r" in
      destruct (get_i64 b) as [[x r]|] eqn:E; [|done];
      apply get_i64_Ret in E as [-> E]; [|done]; cbn [mbind outcome_bind] in H;
      match goal with K : bytes_ok (_ ++ r) |- _ => apply bytes_ok_app_inv in K as [_ K] end
  | H : match from_utf8 ?x with _ => _ end = Ret _ |- _ =>
      let E := fresh "Hutf" in
      destruct (from_utf8 x) eqn:E; [|done]; apply from_utf8_Some in E as [-> E]
  | H : (if ?c then _ else _) = Ret _ |- _ => destruct c eqn:?; [done|]
  end.

Section sound.
Context `{BufCrate, !BufLaws}.

Lemma pascal_read v x : in_u 8 v -> len x = v -> to_be 1 v ++ x = pascal x /\ len x <= 255.
Proof.
  unfold in_u, pascal. intros Hv ->. rewrite wrap_small by done. split; [done|lia].
Qed.

Lemma decode_attributes_sound n data l b :
  bytes_ok data -> decode_attributes n data = Ret (Ok (l, b)) ->
  data = concat (map attribute_layout l) ++ b /\ length l = n /\
  Forall (fun kv => string_ok kv.1 /\ string_ok kv.2) l /\
  Forall (fun kv => len kv.1 <= 255 /\ len kv.2 <= 255) l.
Proof.
  revert data l. induction n as [|n IH]; intros data l Hok Hd.
  { cbn in Hd. simplify_eq. done. }
  cbn [decode_attributes] in Hd. repeat read_step.
  destruct (decode_attributes n r0) as [[[l' b']|]|] eqn:Hl; [|done|done].
  cbn in Hd. injection Hd as <- <-.
  destruct (IH r0 l' ltac:(done) Hl) as (-> & <- & Ht & Hf).
  destruct (pascal_read v x E E0) as [Hk Lk].
  destruct (pascal_read v0 x0 E1 E2) as [Hv Lv].
  split_and!; [|done|by repeat constructor|by repeat constructor].
  cbn [map concat]. change (attribute_layout (x, x0)) with (pascal x ++ pascal x0).
  by rewrite <- Hk, <- Hv, <- !app_assoc.
Qed.
Lemma decode_sound data s :
  bytes_ok data -> decode data = Ret (Ok s) ->
  typed s /\ fits s /\ exists rest, data = layout s ++ rest.
Proof.
  intros Hok Hd. unfold decode in Hd. repeat read_step.
  destruct (decode_attributes _ _) as [[[l b]|]|] eqn:Hl; [|done|done].
  apply decode_attributes_sound in Hl as (-> & Hn & Ht & Hf); [|done]. cbn [rbind] in Hd.
  apply bytes_ok_app_inv in Hok as [_ Hok]. read_step.
  assert (exists st, s = mk x x0 x1 x2 v0 v1 v2 v3 x3 l st /\ v6 = status_u8 st)
    as (st & -> & ->).
  { destruct (v6 =? 0) eqn:?; [|destruct (v6 =? 1) eqn:?; [|done]];
      breflect; subst; injection Hd as <-; eexists; split; reflexivity. }
  unfold in_u in E10. assert (Hv5 : v5 = len l) by (unfold len; lia).
  destruct (pascal_read v x2 E2 E3) as [Hname Ln], (pascal_read v4 x3 E8 E9) as [Hsens Ls].
  split_and!; [done|unfold fits; cbn; split_and!; (done || lia)|].
  exists r. unfold layout, head_layout, body_layout. cbn -[to_be len wrap Z.of_nat].
  rewrite <- Hname, <- Hsens, <- Hv5, (wrap_small 8 v5) by (unfold in_u; lia).
  by rewrite <- !app_assoc.
Qed.
End sound.

(** *** Building *)

Lemma build1_typed s b s' :
  typed s -> builder_typed b -> build1 s b = Ret s' ->
  typed s' /\ attributes s' = attributes s ++ option_list (built_attribute b) /\
  (trace_id s', span_id s', name s', sensor_id s', start_time_unix_nano s')
  = (trace_id s, span_id s, name s, sensor_id s, start_time_unix_nano s).
Proof.
  intros Ht Hb Hs. unfold typed in *. destruct_and! Ht.
  destruct b; cbn in Hs; unfold complete, since_epoch in Hs; bsplit; inv_ret;
    cbn [build1 with_parent with_t_event with_t_system with_attribute with_status typed
      trace_id span_id parent_span_id name start_time_unix_nano end_time_unix_nano t_event
      t_system sensor_id attributes status builder_typed built_attribute option_list] in *;
    rewrite ?app_nil_r; split_and!; try done; try tauto.
  - apply Forall_app. split; [done|]. by constructor; [|constructor].
  - by apply wrap_range.
Qed.

Lemma build_typed s bs :
  typed s -> Forall builder_typed bs ->
  Forall (fun b => match b with Complete now => 0 <= now | _ => True end) bs ->
  exists s', build s bs = Ret s' /\ typed s' /\
    attributes s' = attributes s ++ omap built_attribute bs /\
    (trace_id s', span_id s', name s', sensor_id s') = (trace_id s, span_id s, name s, sensor_id s).
Proof.
  revert s. induction bs as [|b bs IH]; intros s Ht Hb Hc.
  { exists s. by rewrite app_nil_r. }
  apply Forall_cons_1 in Hb as [Hb Hbs], Hc as [Hc Hcs].
  assert (exists s1, build1 s b = Ret s1) as [s1 E].
  { destruct b; cbn; eauto. unfold complete, since_epoch.
    rewrite (proj2 (Z.ltb_ge _ 0)) by lia. cbn. eauto. }
  destruct (build1_typed s b s1 Ht Hb E) as (Ht1 & Ha1 & Hi1).
  destruct (IH s1 Ht1 Hbs Hcs) as (s' & E' & Ht' & Ha' & Hi').
  exists s'. cbn [build]. rewrite E. mstep. split_and!; [done|done| |congruence].
  rewrite Ha', Ha1, <- app_assoc. cbn. by destruct (built_attribute b).
Qed.

(** ** Theorems *)

Lemma decode_encode `{BufCrate, !BufLaws} s rest :
  typed s -> fits s -> decode (encode s ++ rest) = Ret (Ok s).
Proof.
  intros Ht Hf. rewrite encode_layout. unfold layout. rewrite <- !app_assoc.
  destruct (len_layouts s Ht) as [Hh Hb]. pose proof (len_nonneg (name s)).
  pose proof (len_nonneg (sensor_id s)). pose proof (len_nonneg rest).
  pose proof (attributes_size_nonneg (attributes s)).
  rewrite decode_prefix by (len_solve || done). rewrite get_u8_app. mstep.
  by destruct s as [????????? ? []].
Qed.

Lemma encode_size `{BufCrate, !BufLaws} s :
  typed s ->
  len (encode s) = 68 + len (name s) + len (sensor_id s)
    + foldr (fun kv n => (1 + len kv.1 + 1 + len kv.2) + n) 0 (attributes s).
Proof.
  intros Ht. rewrite encode_layout. unfold layout. destruct (len_layouts s Ht) as [Hh Hb].
  rewrite !len_app, Hh, Hb, len_to_be. lia.
Qed.

Lemma encode_size_fits `{BufCrate, !BufLaws} s :
  typed s -> fits s -> 68 <= len (encode s) <= 131138.
Proof.
  intros Ht (Fn & Fs & Fc & Fa). rewrite encode_size by done.
  pose proof (len_nonneg (name s)). pose proof (len_nonneg (sensor_id s)).
  pose proof (attributes_size_nonneg (attributes s)).
  pose proof (attributes_size_le (attributes s) Fa). lia.
Qed.

Lemma encoded_size_eq `{BufCrate, !BufLaws} s :
  typed s -> len (encode s) < 2 ^ 64 -> encoded_size s = len (encode s).
Proof.
  intros Ht. rewrite encode_size by done. intros Hl. unfold encoded_size.
  pose proof (len_nonneg (name s)). pose proof (len_nonneg (sensor_id s)).
  pose proof (attributes_size_nonneg (attributes s)).
  rewrite wrap_small by (unfold in_u; lia). lia.
Qed.

Lemma encode_bytes `{BufCrate, !BufLaws} s : typed s -> bytes_ok (encode s).
Proof.
  intros ([Ht Lt] & [Hs Ls] & [Hp Lp] & [Hn _] & _ & _ & _ & _ & [Hse _] & Ha).
  rewrite encode_layout. unfold layout, head_layout, body_layout, pascal.
  repeat apply bytes_ok_app; try done; try apply to_be_ok.
  induction Ha as [|[k v] l [[Hk _] [Hv _]] _ IH]; [constructor|].
  cbn [map concat]. change (attribute_layout (k, v)) with (pascal k ++ pascal v). unfold pascal.
  repeat apply bytes_ok_app; try done; apply to_be_ok.
Qed.

Section theorems.
Context `{BufCrate, !BufLaws}.

(** C17: [decode] accepts exactly the byte strings that begin with the encoding of
    a span the format can carry (strings of at most 255 bytes, at most 255
    attributes), and returns that span: the decoded value satisfies the type
    invariant, encoding and decoding are inverse, and bytes after the encoding
    are ignored. *)
Theorem span_decode_exact data s :
  bytes_ok data ->
  decode data = Ret (Ok s) <-> typed s /\ fits s /\ exists rest, data = encode s ++ rest.
Proof.
  intros Hok. split.
  - intros Hd. rewrite encode_layout. by apply decode_sound.
  - intros (Ht & Hf & rest & ->). by apply decode_encode.
Qed.

(** [encoded_size] is the length of the encoding (for spans whose size fits
    [usize]); it is at least the 68 bytes [decode] asks for, and at most 131138
    bytes for spans the format can carry. *)
Theorem span_encoded_size s :
  typed s -> len (encode s) < 2 ^ 64 ->
  encoded_size s = len (encode s) /\ 68 <= encoded_size s /\
  (fits s -> encoded_size s <= 131138).
Proof.
  intros Ht Hl. assert (Hs : encoded_size s = len (encode s)) by (by apply encoded_size_eq).
  split; [done|]. rewrite Hs. split; [|intros Hf; by apply encode_size_fits].
  rewrite encode_size by done.
  pose proof (len_nonneg (name s)). pose proof (len_nonneg (sensor_id s)).
  pose proof (attributes_size_nonneg (attributes s)). lia.
Qed.

(** A span with a non-empty name whose last byte was lost in transit makes
    [decode] panic instead of returning an error (a defect: the length test at
    its start counts every string as empty, and the status byte is read without
    a test). *)
Theorem span_cut_panics s :
  typed s -> fits s -> 1 <= len (name s) ->
  decode (truncate (encode s) (len (encode s) - 1)) = Panic.
Proof.
  intros Ht Hf Hn. rewrite encode_layout. unfold layout. rewrite app_assoc.
  destruct (len_layouts s Ht) as [Hh Hb].
  rewrite truncate_app by len_solve. rewrite <- (app_nil_r (body_layout s)).
  pose proof (len_nonneg (sensor_id s)). pose proof (attributes_size_nonneg (attributes s)).
  rewrite decode_prefix by (len_solve || done). by rewrite get_uint_short.
Qed.
End theorems.

(** A span made by [new] and any chain of builder calls and [complete] keeps
    the type invariant (64-bit times whatever the clock says, 8- and 16-byte
    identifiers, valid UTF-8), carries the attributes added, in order, and the
    identifiers, name and sensor given to [new]; the chain panics only when the
    clock is before the epoch. *)
Theorem span_built_typed now1 now2 tr sp nm se bs :
  bytes_ok tr -> len tr = 16 -> bytes_ok sp -> len sp = 8 -> string_ok nm -> string_ok se ->
  Forall builder_typed bs -> 0 <= now1 -> 0 <= now2 ->
  Forall (fun b => match b with Complete now => 0 <= now | _ => True end) bs ->
  exists s0 s, new now1 now2 tr sp nm se = Ret s0 /\ build s0 bs = Ret s /\ typed s /\
    (trace_id s, span_id s, name s, sensor_id s) = (tr, sp, nm, se) /\
    attributes s = omap built_attribute bs.
Proof.
  intros Htr Ltr Hsp Lsp Hnm Hse Hbs H1 H2 Hclock. unfold new, since_epoch.
  do 2 (rewrite (proj2 (Z.ltb_ge _ 0)) by lia; mstep).
  eexists _. match goal with |- context [Ret ?x = _] => assert (Ht : typed x) end.
  { unfold typed. cbn -[fill wrap swrap]. split_and!; try done; try (by apply wrap_range);
      try (by apply swrap_range); by repeat constructor. }
  destruct (build_typed _ bs Ht Hbs Hclock) as (s & Hs & Hts & Ha & Hi).
  exists s. split_and!; [done|exact Hs|done| |by rewrite Ha]. cbn in Hi. congruence.
Qed.

(** ** Witnesses *)

Definition sample_span : t :=
  mk (fill 1 16) (fill 2 8) (fill 0 8) [115; 46; 114] 5 6 (-1) 1500 [115; 49]
     [([116], [50; 53])] StatusError.

Lemma span_decode_exact_witness :
  @decode buf_ref (@encode buf_ref sample_span ++ [7]) = Ret (Ok sample_span).
Proof.
  apply (@span_decode_exact buf_ref buf_ref_laws); [compute_done|].
  split_and!; [compute_done|compute_done|].
  by exists [7].
Defined.

Lemma span_encoded_size_witness :
  encoded_size sample_span = len (@encode buf_ref sample_span).
Proof.
  apply (@span_encoded_size buf_ref buf_ref_laws); compute_done.
Defined.

Lemma span_cut_panics_witness :
  @decode buf_ref (truncate (@encode buf_ref sample_span)
    (len (@encode buf_ref sample_span) - 1)) = Panic.
Proof.
  apply (@span_cut_panics buf_ref buf_ref_laws); compute_done.
Defined.

Lemma span_built_typed_witness :
  exists s0 s, new 7 8 (fill 1 16) (fill 2 8) [115] [116] = Ret s0 /\
    build s0 [WithAttribute [1] [2]; Complete 9; WithTEvent (-5)] = Ret s /\ typed s /\
    (trace_id s, span_id s, name s, sensor_id s) = (fill 1 16, fill 2 8, [115], [116]) /\
    attributes s = omap built_attribute [WithAttribute [1] [2]; Complete 9; WithTEvent (-5)].
Proof.
  apply (span_built_typed 7 8 (fill 1 16) (fill 2 8) [115] [116]
    [WithAttribute [1] [2]; Complete 9; WithTEvent (-5)]); try compute_done.
  by repeat constructor.
Defined.
