(* ===== verification/OtelBundle.v ===== *)
(** * Telemetry bundles ([src/src/otel_bundle.rs])

    Bundles of compact spans:
    [sequence number (8)][batch time (8)][compression (1)][has data (1)]
    [data length (4)][data], the data being the spans with four-byte lengths,
    possibly compressed.  The two compression crates are parameters. *)

From S2P Require Import Prelude Utf8 Externals OtelSpan.

Module CompressionType.
Inductive t := NoCompression | Zstd | Gzip.

#[export] Instance t_eq_dec : EqDecision t.
Proof. solve_decision. Defined.

(** [compression_type as u8] *)
Definition as_u8 (c : t) : Z := match c with NoCompression => 0 | Zstd => 1 | Gzip => 2 end.

(** The [match] of [decode] on the byte. *)
Definition of_u8 (b : Z) : option t :=
  if b =? 0 then Some NoCompression else
  if b =? 1 then Some Zstd else
  if b =? 2 then Some Gzip else None.
End CompressionType.

Module TelemetryBundle.
Import CompressionType.

Record t := mk {
  sequence_number : Z;
  batch_timestamp : Z;
  compression_type : CompressionType.t;
  spans : list CompactSpan.t;
  compressed_data : option bytes
}.

Definition new (now sequence_number : Z) : outcome t :=
  n ← CompactSpan.since_epoch now;
  Ret (mk sequence_number (swrap 64 (n / 1000000)) NoCompression [] None).

Definition add_span (b : t) (s : CompactSpan.t) : t :=
  mk (sequence_number b) (batch_timestamp b) (compression_type b) (spans b ++ [s])
     (compressed_data b).

Definition with_compression (b : t) (c : CompressionType.t) : t :=
  mk (sequence_number b) (batch_timestamp b) c (spans b) (compressed_data b).

Definition set_compressed_data (b : t) (d : option bytes) : t :=
  mk (sequence_number b) (batch_timestamp b) (compression_type b) (spans b) d.

Definition span_count (b : t) : Z := len (spans b).

Definition encoded_size (b : t) : Z :=
  wrap 64 (8 + 8 + 1 + 1 + 4 +
    match compressed_data b with
    | Some d => len d
    | None => wrap 64 (foldr (fun s n => (4 + CompactSpan.encoded_size s) + n) 0 (spans b))
    end).

Section codec.
Context `{BufCrate} (zstd gzip : LevelCodec).

(** The loop that encodes the spans with their lengths. *)
Definition put_span (raw_data : bytes) (s : CompactSpan.t) : bytes :=
  let encoded := CompactSpan.encode s in
  let raw_data := put_uint 4 raw_data (wrap 32 (len encoded)) in
  put_slice raw_data encoded.

Definition raw_spans (l : list CompactSpan.t) : bytes := foldl put_span [] l.

(** The new state and whether the call succeeded; [level] is an [i32]. *)
Definition compress (b : t) (level : Z) : t * result unit unit :=
  if bool_decide (spans b = []) then (b, Ok tt) else
  match compression_type b with
  | NoCompression => (set_compressed_data b None, Ok tt)
  | Zstd =>
      match @compress_at zstd level (raw_spans (spans b)) with
      | Some c => (set_compressed_data b (Some c), Ok tt)
      | None => (b, Err tt)
      end
  | Gzip =>
      match @compress_at gzip (wrap 32 level) (raw_spans (spans b)) with
      | Some c => (set_compressed_data b (Some c), Ok tt)
      | None => (b, Err tt)
      end
  end.

Definition encode (b : t) : bytes :=
  let buf := [] in
  let buf := put_uint 8 buf (sequence_number b) in
  let buf := put_uint 8 buf (wrap 64 (batch_timestamp b)) in
  let buf := put_uint 1 buf (as_u8 (compression_type b)) in
  let has_data := bool_decide (is_Some (compressed_data b)) || negb (bool_decide (spans b = [])) in
  let buf := put_uint 1 buf (if has_data then 1 else 0) in
  match compressed_data b with
  | Some data =>
      let buf := put_uint 4 buf (wrap 32 (len data)) in
      put_slice buf data
  | None =>
      if negb (bool_decide (spans b = [])) then
        let raw_data := raw_spans (spans b) in
        let buf := put_uint 4 buf (wrap 32 (len raw_data)) in
        put_slice buf raw_data
      else put_uint 4 buf 0
  end.

(** The loop over the spans; every turn consumes at least the four length bytes,
    so [length span_buf] turns are enough ([decode_spans_fuel]). *)
Fixpoint decode_spans (fuel : nat) (span_buf : bytes)
  : outcome (result (list CompactSpan.t) string) :=
  match fuel with
  | O => Panic
  | S fuel =>
      if 4 <=? len span_buf then
        '(span_len, span_buf) ← get_uint 4 span_buf;
        if len span_buf <? span_len then Ret (Err "Insufficient data for span"%string) else
        '(span_data, span_buf) ← split_to span_buf span_len;
        span <-! CompactSpan.decode span_data;
        l <-! decode_spans fuel span_buf;
        Ret (Ok (span :: l))
      else Ret (Ok [])
  end.

(** The three branches on the compression type. *)
Definition decode_data (c : CompressionType.t) (data : bytes)
  : outcome (result (list CompactSpan.t) string) :=
  match c with
  | NoCompression => decode_spans (S (length data)) data
  | Zstd =>
      match @decompress zstd data with
      | None => Ret (Err "Zstd decompression failed"%string)
      | Some d => decode_spans (S (length d)) d
      end
  | Gzip =>
      match @decompress gzip data with
      | None => Ret (Err "Gzip decompression failed"%string)
      | Some d => decode_spans (S (length d)) d
      end
  end.

Definition decode (data : bytes) : outcome (result t string) :=
  let buf := data in
  if len buf <? 8 + 8 + 1 + 1 + 4
  then Ret (Err "Insufficient data for bundle header"%string) else
  '(sequence_number, buf) ← get_uint 8 buf;
  '(batch_timestamp, buf) ← CompactSpan.get_i64 buf;
  '(compression_type_byte, buf) ← get_uint 1 buf;
  match of_u8 compression_type_byte with
  | None => Ret (Err "Invalid compression type"%string)
  | Some compression_type =>
      '(flag, buf) ← get_uint 1 buf;
      let has_data := flag =? 1 in
      '(data_len, buf) ← get_uint 4 buf;
      if len buf <? data_len then Ret (Err "Insufficient data for bundle payload"%string) else
      if has_data then
        '(data, _) ← split_to buf data_len;
        l <-! decode_data compression_type data;
        Ret (Ok (mk sequence_number batch_timestamp compression_type l None))
      else Ret (Ok (mk sequence_number batch_timestamp compression_type [] None))
  end.
End codec.

(** The type invariant of the struct. *)
Definition typed (b : t) : Prop :=
  in_u 64 (sequence_number b) /\ in_i 64 (batch_timestamp b) /\
  Forall CompactSpan.typed (spans b) /\
  match compressed_data b with Some d => bytes_ok d | None => True end.

#[export] Instance typed_dec b : Decision (typed b).
Proof. unfold typed. destruct (compressed_data b); apply _. Defined.

End TelemetryBundle.

Import CompressionType TelemetryBundle.

(** ** Lemmas *)

Section lemmas.
Context `{BufCrate, !BufLaws} (zstd gzip : LevelCodec).

Definition span_layout (s : CompactSpan.t) : bytes :=
  to_be 4 (wrap 32 (len (CompactSpan.encode s))) ++ CompactSpan.encode s.

Lemma raw_spans_layout l : raw_spans l = concat (map span_layout l).
Proof.
  unfold raw_spans. enough (forall acc, foldl put_span acc l = acc ++ concat (map span_layout l))
    by done.
  induction l as [|s l IH]; intros acc; cbn [foldl map concat]; [by rewrite app_nil_r|].
  rewrite IH. unfold put_span, span_layout. by rewrite put_slice_spec, put_uint_spec, <- !app_assoc.
Qed.

(** More fuel than bytes does not change the result. *)
Lemma decode_spans_fuel f1 f2 b :
  bytes_ok b -> (length b < f1)%nat -> (length b < f2)%nat ->
  decode_spans f1 b = decode_spans f2 b.
Proof.
  revert f2 b. induction f1 as [|f1 IH]; intros f2 b Hok H1 H2; [lia|].
  destruct f2 as [|f2]; [lia|]. cbn [decode_spans].
  destruct (4 <=? len b) eqn:E4; [|done]. breflect.
  destruct (get_uint 4 b) as [[v r]|] eqn:Eg; [|done]. mstep.
  apply get_uint_Ret in Eg as [-> [Hv _]]; [|done]. apply bytes_ok_app_inv in Hok as [_ Hok].
  destruct (len r <? v) eqn:Ev; [done|].
  destruct (split_to r v) as [[x r']|] eqn:Es; [|done]. mstep.
  apply split_to_Ret in Es as [-> _]; [|done]. apply bytes_ok_app_inv in Hok as [_ Hok].
  destruct (CompactSpan.decode x) as [[s|]|]; [|done|done]. mstep.
  rewrite !length_app in H1, H2. assert (length (to_be 4 v) = 4%nat) by done.
  rewrite (IH f2 r'); [done|done|lia|lia].
Qed.

Lemma decode_spans_app l b fuel :
  Forall CompactSpan.typed l -> Forall CompactSpan.fits l -> len b < 4 ->
  (length l < fuel)%nat -> decode_spans fuel (raw_spans l ++ b) = Ret (Ok l).
Proof.
  rewrite raw_spans_layout. intros Ht Hf Hb.
  revert fuel. induction Ht as [|s l Hs Ht IH]; intros fuel Hfuel;
    (destruct fuel as [|fuel]; [simpl in Hfuel; lia|]); cbn [map concat decode_spans].
  { cbn [app]. by rewrite (proj2 (Z.leb_gt _ _)). }
  apply Forall_cons_1 in Hf as [Hfs Hf].
  pose proof (encode_size_fits s Hs Hfs). 
  change (span_layout s)
    with (to_be 4 (wrap 32 (len (CompactSpan.encode s))) ++ CompactSpan.encode s).
  rewrite <- !app_assoc.
  set (r := concat _ ++ b). pose proof (len_nonneg r).
  rewrite (proj2 (Z.leb_le _ _)) by len_solve.
  rewrite get_uint_app. mstep. rewrite wrap_small by (by apply wrap_range).
  rewrite wrap_small by (unfold in_u; lia). bcase. rewrite split_to_app by done. mstep.
  rewrite <- (app_nil_r (CompactSpan.encode s)), decode_encode by done. mstep.
  unfold r. rewrite IH by (done || (simpl in Hfuel; lia)). done.
Qed.

(** The payload of a bundle, when it has one. *)
Definition payload (b : t) : option bytes :=
  match compressed_data b with
  | Some d => Some d
  | None => if bool_decide (spans b = []) then None else Some (raw_spans (spans b))
  end.

Definition header_layout (b : t) : bytes :=
  to_be 8 (sequence_number b) ++ to_be 8 (wrap 64 (batch_timestamp b))
  ++ to_be 1 (as_u8 (compression_type b)).

Lemma encode_bundle_layout b :
  encode b = header_layout b ++
    match payload b with
    | Some d => to_be 1 1 ++ to_be 4 (wrap 32 (len d)) ++ d
    | None => to_be 1 0 ++ to_be 4 0
    end.
Proof.
  unfold encode, payload, header_layout.
  destruct (compressed_data b) as [d|]; cbn [bool_decide decide_rel];
    [|case_bool_decide]; cbn [negb orb];
    by rewrite ?put_slice_spec, !put_uint_spec, <- !app_assoc.
Qed.

Lemma of_as_u8 c : of_u8 (wrap 8 (as_u8 c)) = Some c.
Proof. by destruct c. Qed.

(** The decoder on a well-formed header. *)
Lemma decode_header b flag d rest :
  typed b -> in_u 8 flag -> len d < 2 ^ 32 ->
  decode zstd gzip (header_layout b ++ to_be 1 flag ++ to_be 4 (wrap 32 (len d)) ++ d ++ rest) =
    if flag =? 1 then
      l <-! decode_data zstd gzip (compression_type b) d;
      Ret (Ok (mk (sequence_number b) (batch_timestamp b) (compression_type b) l None))
    else Ret (Ok (mk (sequence_number b) (batch_timestamp b) (compression_type b) [] None)).
Proof.
  intros (Hq & Hts & _) Hflag Hd. pose proof (len_nonneg d). pose proof (len_nonneg rest).
  unfold decode, header_layout. rewrite (proj2 (Z.ltb_ge _ _)) by len_solve.
  rewrite <- !app_assoc, get_u64_app by done. mstep.
  rewrite get_i64_app by done. mstep. rewrite get_u8_app. mstep. rewrite of_as_u8.
  rewrite get_u8_app. mstep. rewrite (wrap_small 8 flag) by done.
  rewrite get_uint_app, !wrap_small by (try apply wrap_range; unfold in_u; lia). mstep.
  bcase. rewrite split_to_app by done. by destruct (flag =? 1).
Qed.
End lemmas.

(** What [compress] leaves decodes to the spans. *)
Lemma compress_payload `{BufCrate, !BufLaws} (zstd gzip : LevelCodec)
    `{!LevelCodecLaws zstd, !LevelCodecLaws gzip} b level b' :
  Forall CompactSpan.typed (spans b) -> Forall CompactSpan.fits (spans b) ->
  compressed_data b = None -> compress zstd gzip b level = (b', Ok tt) ->
  (sequence_number b', batch_timestamp b', compression_type b', spans b')
  = (sequence_number b, batch_timestamp b, compression_type b, spans b) /\
  (spans b <> [] -> compression_type b <> NoCompression -> is_Some (compressed_data b')) /\
  match payload b' with
  | Some d => decode_data zstd gzip (compression_type b) d = Ret (Ok (spans b))
  | None => spans b = []
  end.
Proof.
  intros Ht Hf Hnone. unfold compress, payload.
  assert (Hraw : decode_spans (S (length (raw_spans (spans b)))) (raw_spans (spans b))
                 = Ret (Ok (spans b))).
  { rewrite <- (app_nil_r (raw_spans (spans b))) at 2. apply decode_spans_app; try done.
    enough (length (spans b) <= length (raw_spans (spans b)))%nat by lia.
    rewrite raw_spans_layout. induction (spans b) as [|s l IH]; [done|].
    apply Forall_cons_1 in Ht as [_ Ht], Hf as [_ Hf]. cbn [map concat length].
    rewrite length_app. specialize (IH Ht Hf).
    assert (1 <= length (span_layout s))%nat; [|lia].
    unfold span_layout. rewrite length_app. change (length (to_be 4 _)) with 4%nat. lia. }
  destruct (bool_decide (spans b = [])) eqn:E.
  { intros [= <-]. apply bool_decide_eq_true in E. rewrite Hnone.
    rewrite bool_decide_eq_true_2 by done. done. }
  destruct (compression_type b) eqn:Ec;
    [intros [= <-]
    |destruct (@compress_at zstd _ _) as [c|] eqn:Ez; intros [= <-]
    |destruct (@compress_at gzip _ _) as [c|] eqn:Ez; intros [= <-]]; cbn; rewrite ?Ec, ?E;
    split_and!; eauto; try done.
  - by rewrite (decompress_compress _ _ _ Ez).
  - by rewrite (decompress_compress _ _ _ Ez).
Qed.

Lemma decode_encode_bundle `{BufCrate, !BufLaws} (zstd gzip : LevelCodec)
    `{!LevelCodecLaws zstd, !LevelCodecLaws gzip} b level b' rest :
  typed b -> Forall CompactSpan.fits (spans b) -> compressed_data b = None ->
  compress zstd gzip b level = (b', Ok tt) ->
  (forall d, payload b' = Some d -> len d < 2 ^ 32) ->
  decode zstd gzip (encode b' ++ rest) = Ret (Ok b).
Proof.
  intros Hty Hf Hnone Hc Hlen. pose proof Hty as (Hq & Hts & Hs & _).
  destruct (compress_payload zstd gzip b level b' Hs Hf Hnone Hc) as (Heq & _ & Hp).
  assert (Hh : header_layout b' = header_layout b) by (unfold header_layout; congruence).
  rewrite encode_bundle_layout, Hh. destruct (payload b') as [d|] eqn:Ep.
  - rewrite <- !app_assoc, decode_header by (done || (by apply Hlen)). cbn [Z.eqb Pos.eqb].
    rewrite Hp. cbn. destruct b; cbn in *. by subst.
  - change (to_be 4 0) with (to_be 4 (wrap 32 (len (@nil Z)))). rewrite <- !app_assoc.
    rewrite <- (app_nil_l rest), decode_header by done. destruct b; cbn in *. by subst.
Qed.

(** ** The wire format *)

(** The payload without its compression. *)
Definition plain (zstd gzip : LevelCodec) (c : CompressionType.t) (d : bytes) : option bytes :=
  match c with
  | NoCompression => Some d
  | Zstd => @decompress zstd d
  | Gzip => @decompress gzip d
  end.

(** Chunks with their lengths, one per span, which it begins with. *)
Inductive chunks `{BufCrate} : bytes -> list CompactSpan.t -> Prop :=
| chunks_nil tail : len tail < 4 -> chunks tail []
| chunks_cons s pad raw l :
    CompactSpan.typed s -> CompactSpan.fits s -> len (CompactSpan.encode s ++ pad) < 2 ^ 32 ->
    chunks raw l ->
    chunks (to_be 4 (len (CompactSpan.encode s ++ pad)) ++ (CompactSpan.encode s ++ pad) ++ raw) (s :: l).

Section format.
Context `{BufCrate, !BufLaws} (zstd gzip : LevelCodec).

Lemma chunks_typed raw l : chunks raw l -> Forall CompactSpan.typed l.
Proof. induction 1; by constructor. Qed.

Lemma decode_spans_chunks fuel raw l :
  bytes_ok raw -> decode_spans fuel raw = Ret (Ok l) -> chunks raw l.
Proof.
  revert raw l. induction fuel as [|fuel IH]; intros raw l Hok Hd; [done|]. cbn [decode_spans] in Hd.
  destruct (4 <=? len raw) eqn:E4; breflect; [|injection Hd as <-; by constructor]. repeat read_step.
  destruct (CompactSpan.decode x) as [[s|]|] eqn:Es; [|done|done]. cbn [rbind] in Hd.
  destruct (decode_spans fuel r0) as [[l'|]|] eqn:El; [|done|done]. cbn in Hd. injection Hd as <-.
  apply decode_sound in Es as (Ht & Hf & pad & ->); [|done]. rewrite <- encode_layout in *.
  subst v. constructor; [done|done| |by apply IH]. by destruct E as [_ E].
Qed.

Lemma chunks_decode raw l fuel :
  bytes_ok raw -> chunks raw l -> (length raw < fuel)%nat -> decode_spans fuel raw = Ret (Ok l).
Proof.
  intros Hok Hc. revert fuel Hok. induction Hc as [tail Ht|s pad raw l Ht Hf Hl _ IH]; intros fuel Hok Hfuel;
    (destruct fuel as [|fuel]; [lia|]); cbn [decode_spans].
  { by rewrite (proj2 (Z.leb_gt _ _)). }
  apply bytes_ok_app_inv in Hok as [_ Hok]. apply bytes_ok_app_inv in Hok as [_ Hok].
  set (chunk := CompactSpan.encode s ++ pad) in *. pose proof (len_nonneg raw). pose proof (len_nonneg chunk).
  rewrite (proj2 (Z.leb_le _ _)) by len_solve.
  rewrite get_uint_app. mstep. change (8 * Z.of_nat 4) with 32. rewrite wrap_small by (unfold in_u; lia).
  rewrite (proj2 (Z.ltb_ge _ _)) by len_solve. rewrite split_to_app by done. mstep.
  unfold chunk. rewrite decode_encode by done. mstep.
  rewrite IH; [done|done|]. rewrite !length_app in Hfuel. change (length (to_be 4 _)) with 4%nat in Hfuel. lia.
Qed.

Context `{!LevelCodecLaws zstd, !LevelCodecLaws gzip}.

Lemma plain_bytes c d raw : bytes_ok d -> plain zstd gzip c d = Some raw -> bytes_ok raw.
Proof.
  intros Hd. destruct c; cbn [plain]; [by intros [= <-]|..]; intros Ex; by apply decompress_bytes in Ex.
Qed.

Lemma decode_data_chunks c d l :
  bytes_ok d ->
  decode_data zstd gzip c d = Ret (Ok l) <-> exists raw, plain zstd gzip c d = Some raw /\ chunks raw l.
Proof.
  intros Hd. assert (E : decode_data zstd gzip c d = Ret (Ok l) <->
    exists raw, plain zstd gzip c d = Some raw /\ decode_spans (S (length raw)) raw = Ret (Ok l)).
  { unfold decode_data, plain. destruct c; [naive_solver| |]; destruct (decompress d); naive_solver. }
  rewrite E. split; intros (raw & Hp & Hr); exists raw; (split; [done|]); pose proof (plain_bytes c d raw Hd Hp).
  - by eapply decode_spans_chunks.
  - by apply chunks_decode; [..|lia].
Qed.

(** What is known of the input when the header was read. *)
Lemma decode_header_inv data b :
  bytes_ok data -> decode zstd gzip data = Ret (Ok b) ->
  in_u 64 (sequence_number b) /\ in_i 64 (batch_timestamp b) /\ compressed_data b = None /\
  exists flag d rest,
    data = header_layout b ++ [flag] ++ to_be 4 (len d) ++ d ++ rest /\ len d < 2 ^ 32 /\
    if flag =? 1 then decode_data zstd gzip (compression_type b) d = Ret (Ok (spans b)) else spans b = [].
Proof.
  intros Hok Hd. unfold decode in Hd. repeat read_step.
  destruct (of_u8 v1) as [c|] eqn:Ec; [|done]. repeat read_step. breflect.
  assert (Hc : v1 = as_u8 c) by (unfold of_u8 in Ec; repeat case_match; breflect; by simplify_eq).
  assert (Hflag : to_be 1 v2 = [v2]) by (unfold to_be; cbn; by rewrite Z.mod_small by (unfold in_u in *; lia)).
  assert (Hr : r = sub r 0 v3 ++ sub r v3 (len r - v3)) by (apply sub_split; unfold in_u in *; lia).
  assert (Hl : len (sub r 0 v3) = v3) by (apply len_sub; unfold in_u in *; lia).
  assert (Hb : (sequence_number b, batch_timestamp b, compression_type b, compressed_data b) = (v, v0, c, None) /\
    if v2 =? 1 then decode_data zstd gzip c (sub r 0 v3) = Ret (Ok (spans b)) else spans b = []).
  { destruct (v2 =? 1); [|by injection Hd as <-].
    rewrite split_to_spec, (proj2 (Z.ltb_ge _ _)) in Hd by (unfold in_u in *; lia). cbn [mbind outcome_bind] in Hd.
    destruct (decode_data _ _ c _) as [[l|]|]; [|done|done]. cbn in Hd. by injection Hd as <-. }
  unfold header_layout. destruct Hb as [[= -> -> -> ->] Hb]. split_and!; [done..|].
  exists v2, (sub r 0 v3), (sub r v3 (len r - v3)).
  rewrite Hl, <- Hr, Hflag, Hc, <- !app_assoc. split; [done|]. split; [apply E3|done].
Qed.
End format.

(** ** Theorems *)

Section theorems.
Context `{BufCrate, !BufLaws} (zstd gzip : LevelCodec).
Context `{!LevelCodecLaws zstd, !LevelCodecLaws gzip}.

(** C18: A bundle of spans the format can carry survives compression (none, zstd
    or gzip, at any level), encoding and decoding: [decode] returns the bundle
    with its spans in order, whatever follows it in the buffer. *)
Theorem bundle_roundtrip b level b' rest :
  typed b -> Forall CompactSpan.fits (spans b) -> compressed_data b = None ->
  compress zstd gzip b level = (b', Ok tt) ->
  (forall d, payload b' = Some d -> len d < 2 ^ 32) ->
  decode zstd gzip (encode b' ++ rest) = Ret (Ok b).
Proof. apply decode_encode_bundle; done. Qed.

(** A span added after [compress] is lost (a defect): the bundle holds it,
    but what it encodes to decodes to the bundle without it. *)
Theorem bundle_late_span_lost b level b' s :
  typed b -> Forall CompactSpan.fits (spans b) -> compressed_data b = None ->
  spans b <> [] -> compression_type b <> NoCompression ->
  compress zstd gzip b level = (b', Ok tt) ->
  (forall d, payload b' = Some d -> len d < 2 ^ 32) ->
  spans (add_span b' s) = spans b ++ [s] /\
  decode zstd gzip (encode (add_span b' s)) = Ret (Ok b).
Proof.
  intros Hty Hf Hnone Hne Hct Hc Hlen.
  destruct (compress_payload zstd gzip b level b' ltac:(apply Hty) Hf Hnone Hc)
    as (Heq & Hsome & _). destruct (Hsome Hne Hct) as [d Hd].
  split; [cbn; congruence|].
  assert (encode (add_span b' s) = encode b' ++ []) as ->.
  { rewrite app_nil_r, !encode_bundle_layout. unfold payload, header_layout. cbn.
    by rewrite Hd. }
  by apply (decode_encode_bundle zstd gzip b level).
Qed.

(** C38: The wire format of bundles, exactly.  [decode] returns a bundle on precisely
    the byte strings made of its header (sequence number, batch time, compression
    type), a flag byte, a payload with its four-byte length, and any trailing bytes,
    where the payload, if the flag is 1, decompresses under that type to chunks with
    four-byte lengths, each of which begins with the encoding of the next span, and at
    most three bytes more; with another flag the payload is skipped and the bundle has
    no spans.  The header fields and the spans satisfy their type invariants, and no
    compressed data is kept. *)
Theorem bundle_decode_exact data b :
  bytes_ok data ->
  decode zstd gzip data = Ret (Ok b) <->
  typed b /\ compressed_data b = None /\
  exists flag d rest,
    data = header_layout b ++ [flag] ++ to_be 4 (len d) ++ d ++ rest /\ len d < 2 ^ 32 /\
    if flag =? 1 then exists raw, plain zstd gzip (compression_type b) d = Some raw /\ chunks raw (spans b)
    else spans b = [].
Proof.
  intros Hok. split.
  - intros Hd. destruct (decode_header_inv zstd gzip data b Hok Hd)
      as (Hq & Hts & Hn & flag & d & rest & -> & Hl & Hdata). clear Hd. rename Hdata into Hd.
    apply bytes_ok_app_inv in Hok as [_ Hok]. do 2 apply bytes_ok_app_inv in Hok as [_ Hok].
    apply bytes_ok_app_inv in Hok as [Hok _].
    assert (Ht : Forall CompactSpan.typed (spans b) -> typed b) by (intros Hs; unfold typed; by rewrite Hn).
    destruct (flag =? 1) eqn:E.
    + apply (decode_data_chunks zstd gzip) in Hd as (raw & Hp & Hc); [|done].
      split; [by apply Ht, (chunks_typed raw)|]. split; [done|]. exists flag, d, rest. rewrite E. eauto.
    + split; [apply Ht; rewrite Hd; constructor|]. split; [done|]. exists flag, d, rest. by rewrite E.
  - intros (Ht & Hn & flag & d & rest & -> & Hl & Hb).
    apply bytes_ok_app_inv in Hok as [_ Hok]. apply bytes_ok_app_inv in Hok as [Hflag Hok].
    apply bytes_ok_app_inv in Hok as [_ Hok]. apply bytes_ok_app_inv in Hok as [Hd _].
    apply Forall_cons_1 in Hflag as [Hflag _].
    assert (E1 : [flag] = to_be 1 flag) by (unfold to_be; cbn; by rewrite Z.mod_small by (unfold in_u in Hflag; lia)).
    assert (E4 : to_be 4 (len d) = to_be 4 (wrap 32 (len d)))
      by (rewrite wrap_small; [done|]; unfold in_u; pose proof (len_nonneg d); lia).
    rewrite E1, E4, decode_header by done. destruct (flag =? 1).
    + rewrite (proj2 (decode_data_chunks zstd gzip _ _ _ Hd) Hb). cbn. destruct b; cbn in *. by subst.
    + destruct b; cbn in *. by subst.
Qed.
End theorems.

(** ** Witnesses *)

Definition sample_bundle : t := mk 7 (-2) Gzip [sample_span; sample_span] None.

Definition sample_zstd : LevelCodec := codec_stored 0x28.
Definition sample_gzip : LevelCodec := codec_stored 0x1F.

Lemma sample_zstd_laws : LevelCodecLaws sample_zstd.
Proof. by apply codec_stored_laws. Qed.
Lemma sample_gzip_laws : LevelCodecLaws sample_gzip.
Proof. by apply codec_stored_laws. Qed.

Definition sample_packed : t := (@compress buf_ref sample_zstd sample_gzip sample_bundle 3).1.

Lemma bundle_roundtrip_witness :
  @decode buf_ref sample_zstd sample_gzip (@encode buf_ref sample_packed ++ [1; 2])
  = Ret (Ok sample_bundle).
Proof.
  apply (@bundle_roundtrip buf_ref buf_ref_laws sample_zstd sample_gzip sample_zstd_laws
    sample_gzip_laws sample_bundle 3); try reflexivity.
  - compute_done.
  - compute_done.
  - intros d Hd. vm_compute in Hd. injection Hd as <-. reflexivity.
Defined.

Lemma bundle_late_span_lost_witness :
  spans (add_span sample_packed sample_span) = spans sample_bundle ++ [sample_span] /\
  @decode buf_ref sample_zstd sample_gzip (@encode buf_ref (add_span sample_packed sample_span))
  = Ret (Ok sample_bundle).
Proof.
  apply (@bundle_late_span_lost buf_ref buf_ref_laws sample_zstd sample_gzip sample_zstd_laws
    sample_gzip_laws sample_bundle 3); try reflexivity; try discriminate.
  - compute_done.
  - compute_done.
  - intros d Hd. vm_compute in Hd. injection Hd as <-. reflexivity.
Defined.

(** Two spans with padding after the first, two stray bytes, and a byte that follows. *)
Definition sample_wire : bytes :=
  to_be 8 258 ++ to_be 8 5 ++ [0; 1] ++
  (let chunk := @CompactSpan.encode buf_ref sample_span ++ [9] in
   let raw := to_be 4 (len chunk) ++ chunk ++ to_be 4 (len chunk - 1) ++ removelast chunk ++ [7; 7] in
   to_be 4 (len raw) ++ raw) ++ [1].

Lemma bundle_decode_exact_witness :
  typed (mk 258 5 NoCompression [sample_span; sample_span] None) /\
  exists raw, @chunks buf_ref raw [sample_span; sample_span].
Proof.
  destruct (proj1 (@bundle_decode_exact buf_ref buf_ref_laws sample_zstd sample_gzip sample_zstd_laws
    sample_gzip_laws sample_wire (mk 258 5 NoCompression [sample_span; sample_span] None)
    ltac:(compute_done))) as (Ht & _ & flag & d & rest & Hd & _ & Hc).
  - vm_compute. reflexivity.
  - split; [exact Ht|]. destruct (flag =? 1); [|discriminate Hc].
    destruct Hc as (raw & _ & Hc). exists raw. exact Hc.
Defined.
