(* ===== verification/OtelConverter.v ===== *)
(** * OTLP conversion ([src/src/otel_converter.rs])

    Compact spans and bundles as OTLP spans and export requests, their JSON and
    binary forms.  The crates [hex], [bytes] and the map of [serde_json] are
    parameters. *)

From S2P Require Import Prelude Crc Utf8 Externals Text OtelSpan OtelBundle.

(** ** JSON values *)

#[local] Set Warnings "-register-all".

(** [serde_json::Value], with objects as the entries of a [serde_json::Map]. *)
Inductive json :=
| JString (s : bytes)
| JNumber (z : Z)
| JArray (l : list json)
| JObject (m : list (bytes * json)).

(** [Map::insert] and [Map::get]. *)
Class JsonMapCrate := {
  map_insert : list (bytes * json) -> bytes -> json -> list (bytes * json);
  map_get : list (bytes * json) -> bytes -> option json
}.
Class JsonMapLaws `{JsonMapCrate} : Prop := {
  map_get_new : forall k, map_get [] k = None;
  map_get_insert : forall m k v k',
    map_get (map_insert m k v) k' = if bool_decide (k = k') then Some v else map_get m k'
}.

(** [value.get(key)] *)
Definition json_get `{JsonMapCrate} (j : json) (k : bytes) : option json :=
  match j with JObject m => map_get m k | _ => None end.

Inductive OtlpStatus := Unset | OtlpOk | OtlpError.

#[export] Instance OtlpStatus_eq_dec : EqDecision OtlpStatus.
Proof. solve_decision. Defined.

Module OtlpSpan.

Record t := mk {
  trace_id : bytes;
  span_id : bytes;
  parent_span_id : option bytes;
  name : bytes;
  start_time_unix_nano : Z;
  end_time_unix_nano : Z;
  attributes : list (bytes * bytes);
  status : OtlpStatus
}.

#[export] Instance t_eq_dec : EqDecision t.
Proof. solve_decision. Defined.

Definition from_compact `{HexEncodeCrate} (span : CompactSpan.t) : t :=
  let trace_id := hex_encode (CompactSpan.trace_id span) in
  let span_id := hex_encode (CompactSpan.span_id span) in
  let parent_span_id :=
    if negb (bool_decide (CompactSpan.parent_span_id span = fill 0 8))
    then Some (hex_encode (CompactSpan.parent_span_id span)) else None in
  let attributes :=
    [(lit "t_event", int_to_string (CompactSpan.t_event span));
     (lit "t_system", int_to_string (CompactSpan.t_system span));
     (lit "sensor_id", CompactSpan.sensor_id span)] in
  let spread_ms := swrap 64 (CompactSpan.t_system span - CompactSpan.t_event span) in
  let attributes := attributes ++ [(lit "spread_ms", int_to_string spread_ms)] in
  let attributes := foldl (fun l kv => l ++ [kv]) attributes (CompactSpan.attributes span) in
  let status :=
    match CompactSpan.status span with StatusOk => OtlpOk | StatusError => OtlpError end in
  mk trace_id span_id parent_span_id (CompactSpan.name span)
    (CompactSpan.start_time_unix_nano span) (CompactSpan.end_time_unix_nano span)
    attributes status.

Definition status_str (s : OtlpStatus) : bytes :=
  match s with
  | Unset => lit "STATUS_UNSET"
  | OtlpOk => lit "STATUS_OK"
  | OtlpError => lit "STATUS_ERROR"
  end.

(** The loops that copy attributes into a map. *)
Definition insert_all `{JsonMapCrate} (m : list (bytes * json)) (l : list (bytes * bytes)) :=
  foldl (fun m kv => map_insert m kv.1 (JString kv.2)) m l.

Definition to_json `{JsonMapCrate} (s : t) : json :=
  let obj := [] in
  let obj := map_insert obj (lit "traceId") (JString (trace_id s)) in
  let obj := map_insert obj (lit "spanId") (JString (span_id s)) in
  let obj := match parent_span_id s with
             | Some parent => map_insert obj (lit "parentSpanId") (JString parent)
             | None => obj
             end in
  let obj := map_insert obj (lit "name") (JString (name s)) in
  let obj := map_insert obj (lit "startTimeUnixNano") (JNumber (start_time_unix_nano s)) in
  let obj := map_insert obj (lit "endTimeUnixNano") (JNumber (end_time_unix_nano s)) in
  let obj := map_insert obj (lit "status") (JString (status_str (status s))) in
  let attrs_map := insert_all [] (attributes s) in
  let obj := map_insert obj (lit "attributes") (JObject attrs_map) in
  JObject obj.

End OtlpSpan.

Module OtlpExportRequest.

Record t := mk {
  resource_attributes : list (bytes * bytes);
  spans : list OtlpSpan.t
}.

Definition new : t := mk [] [].

Definition with_resource_attribute (r : t) (key value : bytes) : t :=
  mk (resource_attributes r ++ [(key, value)]) (spans r).

Definition with_span (r : t) (s : OtlpSpan.t) : t := mk (resource_attributes r) (spans r ++ [s]).

(** [format!("{:?}", compression_type)] *)
Definition compression_debug (c : CompressionType.t) : bytes :=
  match c with
  | CompressionType.NoCompression => lit "None"
  | CompressionType.Zstd => lit "Zstd"
  | CompressionType.Gzip => lit "Gzip"
  end.

Definition from_bundle `{HexEncodeCrate} (bundle : TelemetryBundle.t) : t :=
  let request := new in
  let request := with_resource_attribute request (lit "bundle.sequence_number")
                   (int_to_string (TelemetryBundle.sequence_number bundle)) in
  let request := with_resource_attribute request (lit "bundle.timestamp")
                   (int_to_string (TelemetryBundle.batch_timestamp bundle)) in
  let request := with_resource_attribute request (lit "bundle.compression")
                   (compression_debug (TelemetryBundle.compression_type bundle)) in
  foldl (fun r s => with_span r (OtlpSpan.from_compact s)) request (TelemetryBundle.spans bundle).

Definition to_json `{JsonMapCrate} (r : t) : json :=
  let obj := [] in
  let resource_attrs := OtlpSpan.insert_all [] (resource_attributes r) in
  let obj := map_insert obj (lit "resource") (JObject resource_attrs) in
  let spans_array := map OtlpSpan.to_json (spans r) in
  let scope := map_insert [] (lit "spans") (JArray spans_array) in
  let inner := map_insert [] (lit "resource") (JObject resource_attrs) in
  let inner := map_insert inner (lit "scopeSpans") (JArray [JObject scope]) in
  let obj := map_insert obj (lit "resourceSpans") (JArray [JObject inner]) in
  JObject obj.

Section binary.
Context `{BufCrate, HexCrate}.

Definition put_string (buf s : bytes) : bytes :=
  let buf := put_uint 4 buf (wrap 32 (len s)) in
  put_slice buf s.

Definition put_pair (buf : bytes) (kv : bytes * bytes) : bytes :=
  let buf := put_string buf kv.1 in
  put_string buf kv.2.

(** [hex::decode(s).unwrap_or_default()] *)
Definition unhex (s : bytes) : bytes := match hex_decode s with Some b => b | None => [] end.

Definition put_span (buf : bytes) (s : OtlpSpan.t) : bytes :=
  let buf := put_slice buf (unhex (OtlpSpan.trace_id s)) in
  let buf := put_slice buf (unhex (OtlpSpan.span_id s)) in
  let buf := match OtlpSpan.parent_span_id s with
             | Some parent => let buf := put_uint 1 buf 1 in put_slice buf (unhex parent)
             | None => put_uint 1 buf 0
             end in
  let buf := put_string buf (OtlpSpan.name s) in
  let buf := put_uint 8 buf (OtlpSpan.start_time_unix_nano s) in
  let buf := put_uint 8 buf (OtlpSpan.end_time_unix_nano s) in
  let buf := put_uint 1 buf (match OtlpSpan.status s with Unset => 0 | OtlpOk => 1 | OtlpError => 2 end) in
  let buf := put_uint 4 buf (wrap 32 (len (OtlpSpan.attributes s))) in
  foldl put_pair buf (OtlpSpan.attributes s).

Definition to_binary (r : t) : bytes :=
  let buf := [] in
  let buf := put_uint 4 buf (wrap 32 (len (resource_attributes r))) in
  let buf := foldl put_pair buf (resource_attributes r) in
  let buf := put_uint 4 buf (wrap 32 (len (spans r))) in
  foldl put_span buf (spans r).
End binary.

End OtlpExportRequest.

Import OtlpExportRequest.

(** ** Lemmas *)

(** The value of the last pair with key [k]. *)
Definition last_value (k : bytes) (l : list (bytes * bytes)) : option bytes :=
  foldl (fun o kv => if bool_decide (kv.1 = k) then Some kv.2 else o) None l.

Lemma last_value_app k l1 l2 :
  last_value k (l1 ++ l2) = match last_value k l2 with Some v => Some v | None => last_value k l1 end.
Proof.
  unfold last_value. rewrite foldl_app. generalize (foldl (fun o kv =>
    if bool_decide (kv.1 = k) then Some kv.2 else o) None l1 : option bytes) as o.
  induction l2 as [|kv l2 IH] using rev_ind; intros o; [done|].
  rewrite !foldl_app. cbn [foldl]. by case_bool_decide.
Qed.

Lemma insert_all_get `{JsonMapCrate, !JsonMapLaws} l k :
  map_get (OtlpSpan.insert_all [] l) k = JString <$> last_value k l.
Proof.
  unfold OtlpSpan.insert_all, last_value.
  induction l as [|[k' v] l IH] using rev_ind; [apply map_get_new|].
  rewrite !foldl_app. cbn [foldl fst snd]. rewrite map_get_insert. by case_bool_decide.
Qed.

Lemma from_compact_attributes `{HexEncodeCrate} s :
  OtlpSpan.attributes (OtlpSpan.from_compact s) =
    [(lit "t_event", int_to_string (CompactSpan.t_event s));
     (lit "t_system", int_to_string (CompactSpan.t_system s));
     (lit "sensor_id", CompactSpan.sensor_id s);
     (lit "spread_ms", int_to_string (CompactSpan.spread_ms s))]
    ++ CompactSpan.attributes s.
Proof.
  cbn [OtlpSpan.from_compact OtlpSpan.attributes]. unfold CompactSpan.spread_ms.
  set (pre := _ ++ _). change (_ :: _ :: _ :: _ :: []) with pre. clearbody pre.
  revert pre. induction (CompactSpan.attributes s) as [|kv l IH]; intros pre;
    cbn [foldl]; [by rewrite app_nil_r|]. by rewrite IH, <- app_assoc.
Qed.

Lemma from_bundle_spans `{HexEncodeCrate} b :
  from_bundle b = mk
    [(lit "bundle.sequence_number", int_to_string (TelemetryBundle.sequence_number b));
     (lit "bundle.timestamp", int_to_string (TelemetryBundle.batch_timestamp b));
     (lit "bundle.compression", compression_debug (TelemetryBundle.compression_type b))]
    (map OtlpSpan.from_compact (TelemetryBundle.spans b)).
Proof.
  unfold from_bundle. set (r := with_resource_attribute _ _ _).
  assert (H0 : forall r l, foldl (fun r s => with_span r (OtlpSpan.from_compact s)) r l
           = mk (resource_attributes r) (spans r ++ map OtlpSpan.from_compact l)).
  { clear. intros r l. revert r. induction l as [|s l IH]; intros r; cbn [foldl map].
    - rewrite app_nil_r. by destruct r.
    - rewrite IH. cbn. by rewrite <- app_assoc. }
  by rewrite H0.
Qed.

Section binary_layout.
Context `{BufCrate, !BufLaws, HexCrate, !HexLaws, HexEncodeCrate, !HexEncodeLaws}.

Definition string_layout (s : bytes) : bytes := to_be 4 (wrap 32 (len s)) ++ s.
Definition pair_layout (kv : bytes * bytes) : bytes := string_layout kv.1 ++ string_layout kv.2.
Definition pairs_layout (l : list (bytes * bytes)) : bytes :=
  to_be 4 (wrap 32 (len l)) ++ concat (map pair_layout l).

Definition parent_layout (p : bytes) : bytes :=
  if bool_decide (p = fill 0 8) then [0] else 1 :: p.

(** The binary form of a compact span: the identifiers are the raw bytes. *)
Definition otlp_layout (s : CompactSpan.t) : bytes :=
  CompactSpan.trace_id s ++ CompactSpan.span_id s
  ++ parent_layout (CompactSpan.parent_span_id s)
  ++ string_layout (CompactSpan.name s)
  ++ to_be 8 (CompactSpan.start_time_unix_nano s) ++ to_be 8 (CompactSpan.end_time_unix_nano s)
  ++ [match CompactSpan.status s with StatusOk => 1 | StatusError => 2 end]
  ++ pairs_layout (OtlpSpan.attributes (OtlpSpan.from_compact s)).

Lemma put_pairs buf l : foldl put_pair buf l = buf ++ concat (map pair_layout l).
Proof.
  revert buf. induction l as [|kv l IH]; intros buf; cbn [foldl map concat];
    [by rewrite app_nil_r|].
  rewrite IH. unfold put_pair, put_string, pair_layout, string_layout.
  by rewrite !put_slice_spec, !put_uint_spec, <- !app_assoc.
Qed.

Lemma unhex_encode bs : bytes_ok bs -> unhex (hex_encode bs) = bs.
Proof. intros. unfold unhex. by rewrite hex_encode_text, hex_decode_text. Qed.

Lemma put_compact buf s :
  CompactSpan.typed s -> put_span buf (OtlpSpan.from_compact s) = buf ++ otlp_layout s.
Proof.
  intros ([Ht _] & [Hs _] & [Hp _] & _).
  unfold put_span, otlp_layout, pairs_layout, string_layout, parent_layout.
  rewrite put_pairs, !put_uint_spec. unfold put_string. rewrite put_slice_spec, put_uint_spec.
  cbn [OtlpSpan.trace_id OtlpSpan.span_id OtlpSpan.parent_span_id OtlpSpan.name
    OtlpSpan.start_time_unix_nano OtlpSpan.end_time_unix_nano OtlpSpan.status
    OtlpSpan.from_compact].
  rewrite !unhex_encode by done.
  case_bool_decide; cbn [negb]; rewrite ?unhex_encode by done;
    rewrite !put_slice_spec, ?put_uint_spec, <- !app_assoc; by destruct (CompactSpan.status s).
Qed.
End binary_layout.

(** *** The binary form is uniquely readable *)

Definition short_pair (kv : bytes * bytes) : Prop := len kv.1 < 2 ^ 32 /\ len kv.2 < 2 ^ 32.

(** Spans whose lengths fit the 32-bit length fields. *)
Definition lengths_fit (s : CompactSpan.t) : Prop :=
  len (CompactSpan.name s) < 2 ^ 32 /\ len (CompactSpan.sensor_id s) < 2 ^ 32 /\
  len (CompactSpan.attributes s) + 4 < 2 ^ 32 /\ Forall short_pair (CompactSpan.attributes s).

Lemma app_inj_len {A} (a1 a2 b1 b2 : list A) :
  len a1 = len a2 -> a1 ++ b1 = a2 ++ b2 -> a1 = a2 /\ b1 = b2.
Proof. unfold len. intros. apply app_inj_1; [lia|done]. Qed.

Lemma to_be_inj n a b r1 r2 :
  in_u (8 * Z.of_nat n) a -> in_u (8 * Z.of_nat n) b -> to_be n a ++ r1 = to_be n b ++ r2 ->
  a = b /\ r1 = r2.
Proof.
  intros Ha Hb E. apply app_inj_len in E as [E ->]; [|by len_simpl].
  split; [|done]. by rewrite <- (from_to_be_small n a), <- (from_to_be_small n b), E.
Qed.

Lemma length_field_inj {A} (l1 l2 : list A) r1 r2 :
  len l1 < 2 ^ 32 -> len l2 < 2 ^ 32 ->
  to_be 4 (wrap 32 (len l1)) ++ r1 = to_be 4 (wrap 32 (len l2)) ++ r2 ->
  len l1 = len l2 /\ r1 = r2.
Proof.
  intros H1 H2. pose proof (len_nonneg l1). pose proof (len_nonneg l2).
  rewrite !wrap_small by (unfold in_u; lia). apply to_be_inj; unfold in_u; lia.
Qed.

Lemma string_layout_inj s1 s2 r1 r2 :
  len s1 < 2 ^ 32 -> len s2 < 2 ^ 32 -> string_layout s1 ++ r1 = string_layout s2 ++ r2 ->
  s1 = s2 /\ r1 = r2.
Proof.
  unfold string_layout. rewrite <- !app_assoc. intros H1 H2 E.
  apply length_field_inj in E as [Hl E]; [|done|done]. by apply app_inj_len.
Qed.

Lemma pairs_inj l1 l2 r1 r2 :
  Forall short_pair l1 -> Forall short_pair l2 -> length l1 = length l2 ->
  concat (map pair_layout l1) ++ r1 = concat (map pair_layout l2) ++ r2 -> l1 = l2 /\ r1 = r2.
Proof.
  intros H1. revert l2. induction H1 as [|[k1 v1] l1 [Hk1 Hv1] _ IH]; intros l2 H2 Hl E.
  { by destruct l2. }
  destruct l2 as [|[k2 v2] l2]; [done|]. apply Forall_cons_1 in H2 as [[Hk2 Hv2] H2].
  cbn [map concat pair_layout fst snd] in *. unfold pair_layout in E at 1 3.
  cbn [fst snd] in E. rewrite <- !app_assoc in E.
  apply string_layout_inj in E as [-> E]; [|done|done].
  apply string_layout_inj in E as [-> E]; [|done|done].
  injection Hl as Hl. by destruct (IH l2 H2 Hl E) as [-> ->].
Qed.

Lemma pairs_layout_inj l1 l2 r1 r2 :
  len l1 < 2 ^ 32 -> len l2 < 2 ^ 32 -> Forall short_pair l1 -> Forall short_pair l2 ->
  pairs_layout l1 ++ r1 = pairs_layout l2 ++ r2 -> l1 = l2 /\ r1 = r2.
Proof.
  unfold pairs_layout. rewrite <- !app_assoc. intros L1 L2 H1 H2 E.
  apply length_field_inj in E as [Hl E]; [|done|done].
  apply pairs_inj in E; [done|done|done|unfold len in Hl; lia].
Qed.

Lemma dec_digits_len f n acc : len (dec_digits f n acc) <= Z.of_nat f + len acc.
Proof.
  revert n acc. induction f as [|f IH]; intros n acc; cbn [dec_digits]; [lia|].
  destruct (n <? 10); [rewrite len_cons; lia|].
  pose proof (IH (n / 10) (48 + n mod 10 :: acc)) as Hl. rewrite len_cons in Hl. lia.
Qed.

Lemma int_to_string_len z : len (int_to_string z) <= 21.
Proof.
  unfold int_to_string. destruct (z <? 0).
  - pose proof (dec_digits_len 20 (- z) []). rewrite len_cons. rewrite len_nil in *. lia.
  - pose proof (dec_digits_len 20 z []). rewrite len_nil in *. lia.
Qed.

Lemma int_to_string_inj a b : in_i 64 a -> in_i 64 b -> int_to_string a = int_to_string b -> a = b.
Proof.
  intros Ha Hb E. pose proof (parse_i64_to_string a Ha) as Hp.
  rewrite E, parse_i64_to_string in Hp by done. by injection Hp.
Qed.

Lemma parent_layout_inj p1 p2 r1 r2 :
  len p1 = 8 -> len p2 = 8 -> parent_layout p1 ++ r1 = parent_layout p2 ++ r2 ->
  p1 = p2 /\ r1 = r2.
Proof.
  unfold parent_layout. intros H1 H2 E. repeat case_bool_decide; cbn in E; try discriminate E.
  - split; [congruence|by injection E].
  - injection E as E. apply app_inj_len in E; [done|lia].
Qed.

Section inj.
Context `{HexEncodeCrate}.

Lemma from_compact_short s :
  lengths_fit s ->
  len (OtlpSpan.attributes (OtlpSpan.from_compact s)) < 2 ^ 32 /\
  Forall short_pair (OtlpSpan.attributes (OtlpSpan.from_compact s)).
Proof.
  intros (_ & Hs & Hc & Ha). rewrite from_compact_attributes. split; [len_solve|].
  apply Forall_app. split; [|done].
  pose proof (int_to_string_len (CompactSpan.t_event s)).
  pose proof (int_to_string_len (CompactSpan.t_system s)).
  pose proof (int_to_string_len (CompactSpan.spread_ms s)).
  repeat (constructor; [split; cbn [fst snd]; [by vm_compute|lia]|]). constructor.
Qed.

Lemma otlp_layout_inj s1 s2 r1 r2 :
  CompactSpan.typed s1 -> CompactSpan.typed s2 -> lengths_fit s1 -> lengths_fit s2 ->
  otlp_layout s1 ++ r1 = otlp_layout s2 ++ r2 -> s1 = s2 /\ r1 = r2.
Proof.
  intros T1 T2 F1 F2 E. destruct (from_compact_short s1 F1) as [L1 P1].
  destruct (from_compact_short s2 F2) as [L2 P2]. unfold otlp_layout in E.
  destruct T1 as ([_ Ht1] & [_ Hs1] & [_ Hp1] & _ & Hst1 & Hen1 & Hte1 & Hts1 & _).
  destruct T2 as ([_ Ht2] & [_ Hs2] & [_ Hp2] & _ & Hst2 & Hen2 & Hte2 & Hts2 & _).
  rewrite <- !app_assoc in E.
  apply app_inj_len in E as [Etr E]; [|lia]. apply app_inj_len in E as [Esp E]; [|lia].
  apply parent_layout_inj in E as [Epa E]; [|done|done].
  apply string_layout_inj in E as [Ena E]; [|apply F1|apply F2].
  apply to_be_inj in E as [Est E]; [|done|done]. apply to_be_inj in E as [Een E]; [|done|done].
  apply app_inj_len in E as [Estat E]; [|done].
  apply pairs_layout_inj in E as [Eat ->]; [|done..].
  rewrite !from_compact_attributes in Eat. injection Eat as Ete Ets Ese _ Eattr.
  apply int_to_string_inj in Ete, Ets; [|done..]. split; [|done].
  destruct s1 as [????????? ? []], s2 as [????????? ? []]; cbn in *; congruence.
Qed.

Lemma otlp_layouts_inj l1 l2 :
  Forall CompactSpan.typed l1 -> Forall CompactSpan.typed l2 ->
  Forall lengths_fit l1 -> Forall lengths_fit l2 -> length l1 = length l2 ->
  concat (map otlp_layout l1) = concat (map otlp_layout l2) -> l1 = l2.
Proof.
  intros T1. revert l2. induction T1 as [|s1 l1 Hs1 T1 IH]; intros [|s2 l2] T2 F1 F2 Hl E;
    try done. cbn [map concat] in E.
  apply Forall_cons_1 in T2 as [? ?], F1 as [? ?], F2 as [? ?]. injection Hl as Hl.
  apply otlp_layout_inj in E as [-> E]; [|done..]. f_equal. by apply IH.
Qed.
End inj.

(** The resource attributes of a bundle. *)
Definition bundle_attributes (b : TelemetryBundle.t) : list (bytes * bytes) :=
  [(lit "bundle.sequence_number", int_to_string (TelemetryBundle.sequence_number b));
   (lit "bundle.timestamp", int_to_string (TelemetryBundle.batch_timestamp b));
   (lit "bundle.compression", compression_debug (TelemetryBundle.compression_type b))].

Lemma to_binary_layout
    `{BufCrate, !BufLaws, HexCrate, !HexLaws, HexEncodeCrate, !HexEncodeLaws} b :
  TelemetryBundle.typed b ->
  to_binary (from_bundle b) =
    pairs_layout (bundle_attributes b)
    ++ to_be 4 (wrap 32 (len (TelemetryBundle.spans b)))
    ++ concat (map otlp_layout (TelemetryBundle.spans b)).
Proof.
  intros (_ & _ & Hs & _). rewrite from_bundle_spans. unfold to_binary.
  cbn [resource_attributes spans]. rewrite put_uint_spec.
  rewrite put_pairs, put_uint_spec. unfold pairs_layout. rewrite <- !app_assoc.
  replace (len (map OtlpSpan.from_compact (TelemetryBundle.spans b)))
    with (len (TelemetryBundle.spans b)) by (unfold len; by rewrite length_map).
  set (hd := to_be 4 _). set (mid := concat _). set (cnt := to_be 4 _).
  transitivity ((hd ++ mid ++ cnt) ++ concat (map otlp_layout (TelemetryBundle.spans b)));
    [|by rewrite <- !app_assoc].
  cbn [app]. generalize (hd ++ mid ++ cnt) as buf. clear hd mid cnt.
  induction Hs as [|s l Hs _ IH]; intros buf; cbn [map foldl concat]; [by rewrite app_nil_r|].
  rewrite put_compact by done. by rewrite IH, <- app_assoc.
Qed.

Lemma int_to_string_inj_u64 a b :
  in_u 64 a -> in_u 64 b -> int_to_string a = int_to_string b -> a = b.
Proof.
  unfold in_u. intros Ha Hb E.
  pose proof (parse_int_to_string 0 (2 ^ 64 - 1) a ltac:(lia) ltac:(lia) ltac:(lia)) as Hp.
  rewrite E, parse_int_to_string in Hp by lia. by injection Hp.
Qed.

Lemma bundle_attributes_short b : Forall short_pair (bundle_attributes b).
Proof.
  pose proof (int_to_string_len (TelemetryBundle.sequence_number b)).
  pose proof (int_to_string_len (TelemetryBundle.batch_timestamp b)).
  repeat (constructor; [split; cbn [fst snd]; [by vm_compute|]|]); [lia|lia| |constructor].
  by destruct (TelemetryBundle.compression_type b).
Qed.

(** ** Theorems *)

(** The JSON form of a span has the span's fields, no [parentSpanId] for a
    root span, and an [attributes] object that holds, for each key, the value of
    the last attribute with that key: earlier attributes of the same name,
    the time stamps among them, are overwritten. *)
Theorem otlp_json_fields `{JsonMapCrate, !JsonMapLaws} (s : OtlpSpan.t) :
  let j := OtlpSpan.to_json s in
  json_get j (lit "traceId") = Some (JString (OtlpSpan.trace_id s)) /\
  json_get j (lit "spanId") = Some (JString (OtlpSpan.span_id s)) /\
  json_get j (lit "parentSpanId") = JString <$> OtlpSpan.parent_span_id s /\
  json_get j (lit "name") = Some (JString (OtlpSpan.name s)) /\
  json_get j (lit "startTimeUnixNano") = Some (JNumber (OtlpSpan.start_time_unix_nano s)) /\
  json_get j (lit "endTimeUnixNano") = Some (JNumber (OtlpSpan.end_time_unix_nano s)) /\
  exists m, json_get j (lit "attributes") = Some (JObject m) /\
    forall k, map_get m k = JString <$> last_value k (OtlpSpan.attributes s).
Proof.
  cbv zeta. unfold json_get, OtlpSpan.to_json.
  assert (Hk : forall m v k1 k2, bool_decide (lit k1 = lit k2) = false ->
    map_get (map_insert m (lit k1) v) (lit k2) = map_get m (lit k2)).
  { intros m v k1 k2 Hne. by rewrite map_get_insert, Hne. }
  assert (He : forall m v k, map_get (map_insert m k v) k = Some v).
  { intros. by rewrite map_get_insert, bool_decide_eq_true_2. }
  destruct (OtlpSpan.parent_span_id s); split_and!;
    try (repeat first [rewrite He | rewrite Hk by reflexivity | rewrite map_get_new]; done);
    eexists; (split; [by rewrite He|apply insert_all_get]).
Qed.

(** The binary form of an export request loses nothing: two bundles (with
    strings and counts that fit the 32-bit length fields) whose requests have the
    same binary form have the same sequence number, batch time, compression and
    spans, identifiers and both time stamps included. *)
Theorem otlp_binary_faithful
    `{BufCrate, !BufLaws, HexCrate, !HexLaws, HexEncodeCrate, !HexEncodeLaws} b1 b2 :
  TelemetryBundle.typed b1 -> TelemetryBundle.typed b2 ->
  Forall lengths_fit (TelemetryBundle.spans b1) -> Forall lengths_fit (TelemetryBundle.spans b2) ->
  len (TelemetryBundle.spans b1) < 2 ^ 32 -> len (TelemetryBundle.spans b2) < 2 ^ 32 ->
  to_binary (from_bundle b1) = to_binary (from_bundle b2) ->
  TelemetryBundle.sequence_number b1 = TelemetryBundle.sequence_number b2 /\
  TelemetryBundle.batch_timestamp b1 = TelemetryBundle.batch_timestamp b2 /\
  TelemetryBundle.compression_type b1 = TelemetryBundle.compression_type b2 /\
  TelemetryBundle.spans b1 = TelemetryBundle.spans b2.
Proof.
  intros T1 T2 F1 F2 L1 L2 E. rewrite !to_binary_layout in E by done.
  apply pairs_layout_inj in E as [Ea E]; [|done|done|apply bundle_attributes_short..].
  apply length_field_inj in E as [El E]; [|done..].
  destruct T1 as (Q1 & S1 & T1 & _), T2 as (Q2 & S2 & T2 & _).
  apply otlp_layouts_inj in E; try done; [|unfold len in El; lia].
  injection Ea as Eq Es Ec. apply int_to_string_inj_u64 in Eq; [|done..].
  apply int_to_string_inj in Es; [|done..]. split_and!; try done.
  revert Ec. by destruct (TelemetryBundle.compression_type b1), (TelemetryBundle.compression_type b2).
Qed.

(** ** Witnesses *)

(** Maps as association lists, replacing the entry of a key. *)
Definition assoc_set (m : list (bytes * json)) (k : bytes) (v : json) : list (bytes * json) :=
  (k, v) :: List.filter (fun kv => negb (bool_decide (kv.1 = k))) m.

Definition json_map_ref : JsonMapCrate := {|
  map_insert := assoc_set;
  map_get m k := snd <$> head (List.filter (fun kv => bool_decide (kv.1 = k)) m)
|}.

Lemma json_map_ref_laws : @JsonMapLaws json_map_ref.
Proof.
  constructor; [done|]. intros m k v k'. cbn. case_bool_decide as Hk; [done|].
  induction m as [|[k0 v0] m IH]; [done|]. cbn [List.filter fst].
  repeat (case_bool_decide; cbn [negb List.filter fst head snd]; try congruence);
    rewrite ?bool_decide_eq_true_2 by done; rewrite ?bool_decide_eq_false_2 by done; done.
Qed.

Lemma otlp_json_fields_witness :
  @json_get json_map_ref
    (@OtlpSpan.to_json json_map_ref (@OtlpSpan.from_compact hex_encode_ref sample_span))
    (lit "parentSpanId") = None.
Proof.
  apply (@otlp_json_fields json_map_ref json_map_ref_laws
    (@OtlpSpan.from_compact hex_encode_ref sample_span)).
Defined.

Lemma otlp_binary_faithful_witness :
  TelemetryBundle.spans sample_bundle = TelemetryBundle.spans sample_packed.
Proof.
  apply (@otlp_binary_faithful buf_ref buf_ref_laws hex_ref hex_ref_laws hex_encode_ref
    hex_encode_ref_laws sample_bundle sample_packed);
    solve [compute_done | unfold lengths_fit, short_pair; compute_done].
Defined.
