(* ===== verification/OtelReconciler.v ===== *)
(** * Bi-temporal reconciliation ([src/src/otel_reconciler.rs])

    The collector's store of OTLP spans, indexed by entity (trace and span
    identifier), with queries over both time stamps.  The abstract specification
    is a log of records; the hash map refines it. *)

From S2P Require Import Prelude Crc Utf8 Externals Text Float64.
From S2P Require Import OtelSpan OtelBundle OtelConverter.

Module BitemporalRecord.
Record t := mk {
  entity_id : bytes;
  t_event : Z;
  t_system : Z;
  span : OtlpSpan.t
}.
End BitemporalRecord.

Module ReconciliationStats.
Record t := mk {
  total_records : Z;
  positive_spread : Z;
  negative_spread : Z;
  zero_spread : Z;
  avg_spread_ms : f64;
  max_spread_ms : Z;
  min_spread_ms : Z
}.
Definition default : t := mk 0 0 0 0 (f64_of_Z 0) 0 0.
End ReconciliationStats.

Module BitemporalReconciler.
Import BitemporalRecord.

(** The map of records by entity. *)
Abbreviation state := (gmap bytes (list BitemporalRecord.t)).

Definition new : state := ∅.

(** [span.attributes.iter().find(|(k, _)| k == key).and_then(parse).unwrap_or(0)] *)
Definition extract (key : bytes) (s : OtlpSpan.t) : Z :=
  match List.find (fun kv => bool_decide (kv.1 = key)) (OtlpSpan.attributes s) with
  | Some (_, v) => match parse_i64 v with Some z => z | None => 0 end
  | None => 0
  end.

Definition extract_t_event (s : OtlpSpan.t) : Z := extract (lit "t_event") s.
Definition extract_t_system (s : OtlpSpan.t) : Z := extract (lit "t_system") s.

(** [format!("{}:{}", trace_id, span_id)] *)
Definition format_entity (trace_id span_id : bytes) : bytes := trace_id ++ lit ":" ++ span_id.

(** [self.records.entry(entity_id).or_default().push(record)] *)
Definition push_record (m : state) (entity_id : bytes) (r : BitemporalRecord.t) : state :=
  <[entity_id := default [] (m !! entity_id) ++ [r]]> m.

Definition ingest (m : state) (s : OtlpSpan.t) : state :=
  let t_event := extract_t_event s in
  let t_system := extract_t_system s in
  let entity_id := format_entity (OtlpSpan.trace_id s) (OtlpSpan.span_id s) in
  push_record m entity_id (mk entity_id t_event t_system s).

Definition retroactive_correction (m : state) (s : OtlpSpan.t) (new_t_event : Z) : state :=
  let t_system := extract_t_system s in
  let entity_id := format_entity (OtlpSpan.trace_id s) (OtlpSpan.span_id s) in
  push_record m entity_id (mk entity_id new_t_event t_system s).

Definition clear (m : state) : state := ∅.

(** [self.records.values()], the keys being visited in the given order. *)
Definition values (order : list bytes) (m : state) : list (list BitemporalRecord.t) :=
  omap (fun k => m !! k) order.

(** The two nested loops that push the spans of the records that pass a test. *)
Definition select (order : list bytes) (m : state) (test : BitemporalRecord.t -> bool)
  : list OtlpSpan.t :=
  concat (map (fun records => map span (List.filter test records)) (values order m)).

Definition query_valid_time (order : list bytes) (m : state) (start_ms end_ms : Z)
  : list OtlpSpan.t :=
  select order m (fun r => (start_ms <=? t_event r) && (t_event r <=? end_ms)).

Definition query_transaction_time (order : list bytes) (m : state) (start_ms end_ms : Z)
  : list OtlpSpan.t :=
  select order m (fun r => (start_ms <=? t_system r) && (t_system r <=? end_ms)).

Definition actual_state_at (order : list bytes) (m : state) (valid_time_ms : Z)
  : list OtlpSpan.t :=
  select order m (fun r => t_event r =? valid_time_ms).

(** [iter.max_by_key(|r| r.t_system)]: the last of the greatest elements. *)
Definition max_by_t_system (l : list BitemporalRecord.t) : option BitemporalRecord.t :=
  foldl (fun o r => match o with
                    | None => Some r
                    | Some m => if t_system r <? t_system m then Some m else Some r
                    end) None l.

Definition system_belief_at (order : list bytes) (m : state) (transaction_time_ms : Z)
  : list OtlpSpan.t :=
  omap (fun records =>
    span <$> max_by_t_system
      (List.filter (fun r => t_system r <=? transaction_time_ms) records)) (values order m).

(** One record of the loop of [spread_stats]. *)
Definition count_record (start_ms end_ms : Z) (acc : ReconciliationStats.t * list Z)
    (r : BitemporalRecord.t) : ReconciliationStats.t * list Z :=
  let '(st, spreads) := acc in
  if (start_ms <=? t_system r) && (t_system r <=? end_ms) then
    let spread := swrap 64 (t_system r - t_event r) in
    let spreads := spreads ++ [spread] in
    let total := ReconciliationStats.total_records st + 1 in
    let pos := ReconciliationStats.positive_spread st in
    let neg := ReconciliationStats.negative_spread st in
    let zero := ReconciliationStats.zero_spread st in
    let mk' p n z := ReconciliationStats.mk total p n z (ReconciliationStats.avg_spread_ms st)
      (ReconciliationStats.max_spread_ms st) (ReconciliationStats.min_spread_ms st) in
    (if 0 <? spread then mk' (pos + 1) neg zero
     else if spread <? 0 then mk' pos (neg + 1) zero
     else mk' pos neg (zero + 1), spreads)
  else acc.

Definition spread_stats (order : list bytes) (m : state) (start_ms end_ms : Z)
  : ReconciliationStats.t :=
  let '(st, spreads) :=
    foldl (foldl (count_record start_ms end_ms)) (ReconciliationStats.default, [])
      (values order m) in
  match spreads with
  | [] => st
  | sp :: rest =>
      let sum := foldl (fun a b => swrap 64 (a + b)) 0 spreads in
      ReconciliationStats.mk (ReconciliationStats.total_records st)
        (ReconciliationStats.positive_spread st) (ReconciliationStats.negative_spread st)
        (ReconciliationStats.zero_spread st)
        (f64_div (f64_of_Z sum) (f64_of_Z (len spreads)))
        (foldl Z.max sp rest) (foldl Z.min sp rest)
  end.

Definition entity_history (m : state) (trace_id span_id : bytes) : list BitemporalRecord.t :=
  default [] (m !! format_entity trace_id span_id).

Definition record_count (order : list bytes) (m : state) : Z :=
  foldr (fun v n => len v + n) 0 (values order m).

(** Sequences of calls. *)
Inductive op :=
| Ingest (s : OtlpSpan.t)
| Correct (s : OtlpSpan.t) (new_t_event : Z)
| Clear.

Definition step (m : state) (o : op) : state :=
  match o with
  | Ingest s => ingest m s
  | Correct s t => retroactive_correction m s t
  | Clear => clear m
  end.

Definition run (ops : list op) : state := foldl step new ops.

(** ** Abstract specification: a log of records *)

Definition log_step (log : list BitemporalRecord.t) (o : op) : list BitemporalRecord.t :=
  let id s := format_entity (OtlpSpan.trace_id s) (OtlpSpan.span_id s) in
  match o with
  | Ingest s => log ++ [mk (id s) (extract_t_event s) (extract_t_system s) s]
  | Correct s t => log ++ [mk (id s) t (extract_t_system s) s]
  | Clear => []
  end.

Definition log_of (ops : list op) : list BitemporalRecord.t := foldl log_step [] ops.

(** [m] holds, for each entity, its records of the log in order. *)
Definition represents (m : state) (log : list BitemporalRecord.t) : Prop :=
  forall k, m !! k = match List.filter (fun r => bool_decide (entity_id r = k)) log with
                     | [] => None
                     | l => Some l
                     end.

(** [order] visits every key of the map once. *)
Definition visits (order : list bytes) (m : state) : Prop :=
  NoDup order /\ forall k, k ∈ order <-> is_Some (m !! k).

End BitemporalReconciler.

Import BitemporalRecord BitemporalReconciler.

(** ** Lemmas *)

Lemma push_represents m log id r :
  entity_id r = id -> represents m log -> represents (push_record m id r) (log ++ [r]).
Proof.
  intros Hid Hm k. unfold push_record. rewrite List.filter_app. cbn [List.filter].
  rewrite Hid. destruct (decide (id = k)) as [->|Hne].
  - rewrite lookup_insert_eq, bool_decide_eq_true_2 by done. rewrite (Hm k).
    by destruct (List.filter _ log).
  - rewrite lookup_insert_ne, bool_decide_eq_false_2, app_nil_r by done. apply Hm.
Qed.

Lemma step_represents m log o : represents m log -> represents (step m o) (log_step log o).
Proof.
  intros Hm. destruct o; [by apply push_represents..|]. intros k. apply lookup_empty.
Qed.

Lemma run_represents ops : represents (run ops) (log_of ops).
Proof.
  unfold run, log_of. assert (H : represents new []) by (intros k; apply lookup_empty).
  revert H. generalize new as m. generalize (@nil BitemporalRecord.t) as log.
  induction ops as [|o ops IH]; intros log m Hm; [done|]. by apply IH, step_represents.
Qed.

(** Partitioning a list by keys that cover it. *)
Lemma filter_other ks r (log : list BitemporalRecord.t) :
  entity_id r ∉ ks ->
  map (fun k => List.filter (fun r => bool_decide (entity_id r = k)) (r :: log)) ks
  = map (fun k => List.filter (fun r => bool_decide (entity_id r = k)) log) ks.
Proof.
  intros Hr. apply map_ext_in. intros k' Hk'%list_elem_of_In. cbn [List.filter].
  rewrite bool_decide_eq_false_2; [done|]. by intros <-.
Qed.

Lemma partition_by_key ks (log : list BitemporalRecord.t) :
  NoDup ks -> (forall r, r ∈ log -> entity_id r ∈ ks) ->
  concat (map (fun k => List.filter (fun r => bool_decide (entity_id r = k)) log) ks) ≡ₚ log.
Proof.
  intros Hnd. induction log as [|r log IH]; intros Hin.
  { clear. induction ks; [done|]. by cbn. }
  specialize (IH (fun r' Hr' => Hin r' (list_elem_of_further _ _ _ Hr'))).
  destruct (list_elem_of_split _ _ (Hin r (list_elem_of_here _ _))) as (k1 & k2 & ->).
  apply list.NoDup_app in Hnd as (_ & Hk1 & [Hk2 _]%list.NoDup_cons).
  rewrite !map_app, !concat_app in *. cbn [map concat] in *.
  rewrite filter_other by (intros ?; by eapply Hk1; [done|left]).
  rewrite filter_other by done. cbn [List.filter]. rewrite bool_decide_eq_true_2 by done.
  cbn [app]. by rewrite <- Permutation_middle, IH.
Qed.

Lemma values_map order m log :
  represents m log -> visits order m ->
  values order m = map (fun k => List.filter (fun r => bool_decide (entity_id r = k)) log) order.
Proof.
  intros Hm [_ Hv]. unfold values.
  assert (Hall : Forall (fun k => is_Some (m !! k)) order) 
    by (apply Forall_forall; intros k Hk%list_elem_of_In; by apply Hv).
  clear Hv. induction Hall as [|k ks [l Hk] _ IH]; [done|]. cbn [omap list_omap map].
  rewrite Hk, IH. f_equal. rewrite (Hm k) in Hk. by destruct (List.filter _ log); simplify_eq.
Qed.

Lemma represents_keys order m log r :
  represents m log -> visits order m -> r ∈ log -> entity_id r ∈ order.
Proof.
  intros Hm [_ Hv] Hr. apply Hv. rewrite (Hm _).
  destruct (List.filter _ log) eqn:E; [|eauto]. exfalso.
  apply list_elem_of_In in Hr.
  assert (In r []) as []. rewrite <- E. apply filter_In. split; [done|].
  by apply bool_decide_eq_true_2.
Qed.

Lemma values_permutation order m log :
  represents m log -> visits order m -> concat (values order m) ≡ₚ log.
Proof.
  intros Hm Hv. rewrite (values_map order m log) by done.
  apply partition_by_key; [apply Hv|]. intros r. by apply (represents_keys order m).
Qed.

(** Selections are selections of the log. *)
Lemma select_log order m log test :
  represents m log -> visits order m -> select order m test ≡ₚ map span (List.filter test log).
Proof.
  intros Hm Hv. transitivity (map span (List.filter test (concat (values order m)))).
  - unfold select. induction (values order m) as [|l ls IH]; [done|]. cbn [map concat].
    by rewrite List.filter_app, map_app, IH.
  - apply Permutation_map. by rewrite (values_permutation order m log).
Qed.

(** [max_by_t_system] keeps the last of the greatest. *)
Definition later (o : option BitemporalRecord.t) (r : BitemporalRecord.t) :=
  match o with
  | None => Some r
  | Some m => if t_system r <? t_system m then Some m else Some r
  end.

Lemma later_keep r l :
  Forall (fun x => t_system x < t_system r) l -> foldl later (Some r) l = Some r.
Proof.
  induction 1 as [|x l Hx _ IH]; [done|]. cbn [foldl later].
  by rewrite (proj2 (Z.ltb_lt _ _)).
Qed.

Lemma later_bound b l :
  Forall (fun x => t_system x <= b) l ->
  match foldl later None l with None => l = [] | Some m => t_system m <= b end.
Proof.
  induction l as [|x l IH] using rev_ind; [done|]. intros [H1 H2]%Forall_app.
  apply Forall_cons_1 in H2 as [Hx _]. rewrite foldl_app. cbn [foldl]. specialize (IH H1).
  destruct (foldl later None l) as [m|]; cbn [later]; [|done]. by destruct (_ <? _).
Qed.

Lemma later_split l r :
  foldl later None l = Some r ->
  exists l1 l2, l = l1 ++ r :: l2 /\ Forall (fun x => t_system x <= t_system r) l1 /\
    Forall (fun x => t_system x < t_system r) l2.
Proof.
  revert r. induction l as [|x l IH] using rev_ind; intros r; [done|].
  rewrite foldl_app. cbn [foldl]. destruct (foldl later None l) as [m|] eqn:E; cbn [later].
  - destruct (IH m eq_refl) as (l1 & l2 & -> & H1 & H2).
    destruct (t_system x <? t_system m) eqn:Ex; intros [= <-]; breflect.
    + exists l1, (l2 ++ [x]). rewrite <- app_assoc. split_and!; [done|done|].
      apply Forall_app. split; [done|]. by constructor.
    + exists (l1 ++ m :: l2), []. split_and!; [done| |constructor].
      apply Forall_app. split; [|constructor; [lia|]];
        (eapply list.Forall_impl; [eassumption|cbn; lia]).
  - intros [= <-]. exists l, []. split_and!; [done| |constructor].
    destruct l as [|y l]; [constructor|]. exfalso.
    revert E. cbn [foldl later]. clear. generalize y. induction l as [|z l IH]; intros y0 E; [done|].
    cbn [foldl later] in E. by destruct (_ <? _); apply IH in E.
Qed.

Lemma max_by_spec l r :
  max_by_t_system l = Some r <->
  exists l1 l2, l = l1 ++ r :: l2 /\ Forall (fun x => t_system x <= t_system r) l1 /\
    Forall (fun x => t_system x < t_system r) l2.
Proof.
  change (max_by_t_system l) with (foldl later None l). split; [apply later_split|].
  intros (l1 & l2 & -> & H1 & H2). rewrite foldl_app. cbn [foldl].
  pose proof (later_bound _ _ H1) as Hb.
  destruct (foldl later None l1) as [m|]; cbn [later]; [|by apply later_keep].
  rewrite (proj2 (Z.ltb_ge _ _)) by done. by apply later_keep.
Qed.

(** Splitting a filtered list splits the list. *)
Lemma filter_split_inv {A} (f : A -> bool) l l1 x l2 :
  List.filter f l = l1 ++ x :: l2 ->
  exists k1 k2, l = k1 ++ x :: k2 /\ f x = true /\ List.filter f k1 = l1 /\ List.filter f k2 = l2.
Proof.
  revert l1. induction l as [|y l IH]; intros l1 E; [by destruct l1|]. cbn [List.filter] in E.
  destruct (f y) eqn:Ey.
  - destruct l1 as [|z l1]; injection E as <- E.
    + by exists [], l.
    + destruct (IH l1 E) as (k1 & k2 & -> & Hx & <- & <-). exists (y :: k1), k2. cbn.
      by rewrite Ey.
  - destruct (IH l1 E) as (k1 & k2 & -> & Hx & <- & <-). exists (y :: k1), k2. cbn.
    by rewrite Ey.
Qed.

Lemma Forall_filter_iff {A} (f : A -> bool) (P : A -> Prop) l :
  Forall P (List.filter f l) <-> forall x, x ∈ l -> f x = true -> P x.
Proof.
  rewrite Forall_forall. split; intros H x.
  - intros Hx%list_elem_of_In Hf. by apply H, filter_In.
  - intros [Hx%list_elem_of_In Hf]%filter_In. by apply H.
Qed.

Lemma filter_filter {A} (f g : A -> bool) l :
  List.filter f (List.filter g l) = List.filter (fun x => g x && f x) l.
Proof.
  induction l as [|x l IH]; [done|]. cbn. destruct (g x); cbn; by rewrite IH.
Qed.

(** The record of its entity the system believes in at time [T]. *)
Definition believed (T : Z) (l1 : list BitemporalRecord.t) (r : BitemporalRecord.t)
    (l2 : list BitemporalRecord.t) : Prop :=
  t_system r <= T /\
  (forall r', r' ∈ l1 -> entity_id r' = entity_id r -> t_system r' <= T ->
     t_system r' <= t_system r) /\
  (forall r', r' ∈ l2 -> entity_id r' = entity_id r -> t_system r' <= T ->
     t_system r' < t_system r).

Lemma max_by_believed T k log r :
  max_by_t_system (List.filter (fun r => t_system r <=? T)
    (List.filter (fun r => bool_decide (entity_id r = k)) log)) = Some r <->
  entity_id r = k /\ exists l1 l2, log = l1 ++ r :: l2 /\ believed T l1 r l2.
Proof.
  rewrite filter_filter, max_by_spec. set (f := fun _ => _ && _).
  assert (Hf : forall x, f x = true <-> entity_id x = k /\ t_system x <= T).
  { intros x. unfold f. rewrite andb_true_iff, bool_decide_eq_true, Z.leb_le. done. }
  split.
  - intros (l1 & l2 & E & H1 & H2). apply filter_split_inv in E as (k1 & k2 & -> & Hx & <- & <-).
    apply Hf in Hx as [<- HT]. rewrite Forall_filter_iff in H1, H2.
    split; [done|]. exists k1, k2. split; [done|]. split_and!; [done| |];
      intros r' Hr' Hid Hr; [apply H1|apply H2]; (done || by apply Hf).
  - intros (<- & l1 & l2 & -> & HT & H1 & H2).
    exists (List.filter f l1), (List.filter f l2). rewrite List.filter_app. cbn [List.filter].
    rewrite (proj2 (Hf r)) by done. split; [done|]. rewrite !Forall_filter_iff.
    split; intros x Hx [Hid Hr]%Hf; auto.
Qed.

Lemma system_belief_log order m log T x :
  represents m log -> visits order m ->
  x ∈ system_belief_at order m T <->
  exists l1 r l2, log = l1 ++ r :: l2 /\ span r = x /\ believed T l1 r l2.
Proof.
  intros Hm Hv. unfold system_belief_at. rewrite (values_map order m log) by done.
  rewrite list_elem_of_omap. split.
  - intros (l & Hl & Hx). apply list_elem_of_fmap in Hl as (k & -> & _).
    apply fmap_Some in Hx as (r & Hr & ->).
    apply max_by_believed in Hr as (_ & l1 & l2 & -> & Hb). by exists l1, r, l2.
  - intros (l1 & r & l2 & Hlog & <- & Hb).
    exists (List.filter (fun x => bool_decide (entity_id x = entity_id r)) log). split.
    + apply list_elem_of_fmap. exists (entity_id r). split; [done|].
      apply (represents_keys order m log); [done..|]. subst log. set_solver.
    + rewrite (proj2 (max_by_believed T (entity_id r) log r)); [done|]. eauto.
Qed.

Lemma record_count_concat l :
  foldr (fun (v : list BitemporalRecord.t) n => len v + n) 0 l = len (concat l).
Proof. induction l as [|v l IH]; [done|]. cbn [foldr concat]. by rewrite len_app, IH. Qed.

Lemma len_permutation {A} (l1 l2 : list A) : l1 ≡ₚ l2 -> len l1 = len l2.
Proof. intros H. unfold len. by rewrite H. Qed.

(** *** Spread statistics *)

Definition window (a b : Z) (r : BitemporalRecord.t) : bool := (a <=? t_system r) && (t_system r <=? b).
Definition spread (r : BitemporalRecord.t) : Z := swrap 64 (t_system r - t_event r).

Lemma count_records a b l :
  foldl (count_record a b) (ReconciliationStats.default, []) l =
  (ReconciliationStats.mk (len (List.filter (window a b) l))
     (len (List.filter (fun r => window a b r && (0 <? spread r)) l))
     (len (List.filter (fun r => window a b r && (spread r <? 0)) l))
     (len (List.filter (fun r => window a b r && (spread r =? 0)) l))
     (f64_of_Z 0) 0 0, map spread (List.filter (window a b) l)).
Proof.
  induction l as [|r l IH] using rev_ind; [done|]. rewrite foldl_app, IH. cbn [foldl].
  rewrite !List.filter_app, map_app, !len_app. cbn [List.filter count_record].
  change ((a <=? t_system r) && (t_system r <=? b)) with (window a b r).
  change (swrap 64 (t_system r - t_event r)) with (spread r).
  destruct (window a b r); cbn [andb map]; rewrite ?len_nil, ?len_cons, ?app_nil_r, ?Z.add_0_r;
    [|done].
  destruct (0 <? spread r) eqn:E1, (spread r <? 0) eqn:E2, (spread r =? 0) eqn:E3;
    breflect; try lia; cbn; by rewrite ?Z.add_0_r.
Qed.

Lemma fold_max_spec x l :
  foldl Z.max x l ∈ x :: l /\ Forall (fun y => y <= foldl Z.max x l) (x :: l).
Proof.
  revert x. induction l as [|y l IH]; intros x; [split; [left|by repeat constructor]|].
  cbn [foldl]. destruct (IH (Z.max x y)) as [Hin Hall]. apply Forall_cons_1 in Hall as [Hm Hall].
  split.
  - apply elem_of_cons in Hin as [->|?]; [|by do 2 right].
    destruct (Z.max_spec x y) as [[_ ->]|[_ ->]]; [right; left|left].
  - constructor; [lia|]. constructor; [lia|done].
Qed.

Lemma fold_min_spec x l :
  foldl Z.min x l ∈ x :: l /\ Forall (fun y => foldl Z.min x l <= y) (x :: l).
Proof.
  revert x. induction l as [|y l IH]; intros x; [split; [left|by repeat constructor]|].
  cbn [foldl]. destruct (IH (Z.min x y)) as [Hin Hall]. apply Forall_cons_1 in Hall as [Hm Hall].
  split.
  - apply elem_of_cons in Hin as [->|?]; [|by do 2 right].
    destruct (Z.min_spec x y) as [[_ ->]|[_ ->]]; [left|right; left].
  - constructor; [lia|]. constructor; [lia|done].
Qed.

Lemma foldl_concat {A B} (f : A -> B -> A) a (ls : list (list B)) :
  foldl (foldl f) a ls = foldl f a (concat ls).
Proof.
  revert a. induction ls as [|l ls IH]; intros a; [done|]. cbn [foldl concat].
  by rewrite foldl_app, IH.
Qed.

(** *** Times of converted spans *)

Definition record_of `{HexEncodeCrate} (s : CompactSpan.t) : BitemporalRecord.t :=
  let o := OtlpSpan.from_compact s in
  mk (format_entity (OtlpSpan.trace_id o) (OtlpSpan.span_id o))
    (CompactSpan.t_event s) (CompactSpan.t_system s) o.

Lemma extract_times `{HexEncodeCrate} s :
  CompactSpan.typed s ->
  extract_t_event (OtlpSpan.from_compact s) = CompactSpan.t_event s /\
  extract_t_system (OtlpSpan.from_compact s) = CompactSpan.t_system s.
Proof.
  intros (_ & _ & _ & _ & _ & _ & He & Hs & _).
  unfold extract_t_event, extract_t_system, extract. rewrite !from_compact_attributes.
  cbn [List.find app fst].
  rewrite (bool_decide_eq_true_2 (lit "t_event" = lit "t_event")) by done.
  rewrite (bool_decide_eq_false_2 (lit "t_event" = lit "t_system")) by done.
  rewrite (bool_decide_eq_true_2 (lit "t_system" = lit "t_system")) by done.
  by rewrite !parse_i64_to_string.
Qed.

Lemma log_step_compact `{HexEncodeCrate} log s :
  CompactSpan.typed s -> log_step log (Ingest (OtlpSpan.from_compact s)) = log ++ [record_of s].
Proof. intros Hs. cbn. by destruct (extract_times s Hs) as [-> ->]. Qed.

Lemma log_of_bundle `{HexEncodeCrate} l :
  Forall CompactSpan.typed l ->
  log_of (map Ingest (map OtlpSpan.from_compact l)) = map record_of l.
Proof.
  unfold log_of. intros Hl. change (map record_of l) with ([] ++ map record_of l).
  generalize (@nil BitemporalRecord.t) as log. induction Hl as [|s l Hs _ IH]; intros log.
  { by rewrite app_nil_r. }
  cbn [map foldl]. rewrite log_step_compact by done. by rewrite IH, <- app_assoc.
Qed.

Lemma foldl_ingest l : foldl ingest new l = run (map Ingest l).
Proof. unfold run. generalize new as m. induction l as [|s l IH]; intros m; [done|]. apply IH. Qed.

Lemma filter_records `{HexEncodeCrate} f l :
  List.filter f (map record_of l) = map record_of (List.filter (fun s => f (record_of s)) l).
Proof. induction l as [|s l IH]; [done|]. cbn [map List.filter]. rewrite IH. by destruct (f _). Qed.

(** ** Theorems *)

(** C15: The reconciler refines a log of records.  After any sequence of
    [ingest], [retroactive_correction] and [clear], whatever the order in which
    the hash map is visited, each query returns the spans of the records of the
    log that lie in its window, [record_count] is the length of the log, and the
    history of an entity is its records in the order they arrived. *)
Theorem reconciler_refines_log ops order trace_id span_id a b :
  visits order (run ops) ->
  query_valid_time order (run ops) a b
    ≡ₚ map span (List.filter (fun r => (a <=? t_event r) && (t_event r <=? b)) (log_of ops)) /\
  query_transaction_time order (run ops) a b
    ≡ₚ map span (List.filter (fun r => (a <=? t_system r) && (t_system r <=? b)) (log_of ops)) /\
  actual_state_at order (run ops) a
    ≡ₚ map span (List.filter (fun r => t_event r =? a) (log_of ops)) /\
  record_count order (run ops) = len (log_of ops) /\
  entity_history (run ops) trace_id span_id
    = List.filter (fun r => bool_decide (entity_id r = format_entity trace_id span_id)) (log_of ops).
Proof.
  intros Hv. pose proof (run_represents ops) as Hr.
  split_and!; [by apply select_log..| |].
  - unfold record_count. rewrite record_count_concat.
    by apply len_permutation, values_permutation.
  - unfold entity_history. rewrite (Hr _). by destruct (List.filter _ (log_of ops)).
Qed.

(** [system_belief_at] returns, for each entity, the span recorded with the
    greatest transaction time not after the given one, the last ingested when
    there are several, and nothing else. *)
Theorem system_belief_exact ops order T x :
  visits order (run ops) ->
  x ∈ system_belief_at order (run ops) T <->
  exists l1 r l2, log_of ops = l1 ++ r :: l2 /\ span r = x /\ believed T l1 r l2.
Proof. intros. apply system_belief_log; [apply run_represents|done]. Qed.

(** The spread statistics of a window count each record of the log in it once,
    by the sign of its spread; the maximum and minimum are spreads of such records
    and bound them all.  None of this depends on the visiting order. *)
Theorem spread_stats_exact ops order a b :
  visits order (run ops) ->
  let l := List.filter (window a b) (log_of ops) in
  let st := spread_stats order (run ops) a b in
  ReconciliationStats.total_records st = len l /\
  ReconciliationStats.positive_spread st = len (List.filter (fun r => 0 <? spread r) l) /\
  ReconciliationStats.negative_spread st = len (List.filter (fun r => spread r <? 0) l) /\
  ReconciliationStats.zero_spread st = len (List.filter (fun r => spread r =? 0) l) /\
  (l <> [] ->
     ReconciliationStats.max_spread_ms st ∈ map spread l /\
     ReconciliationStats.min_spread_ms st ∈ map spread l /\
     Forall (fun r => ReconciliationStats.min_spread_ms st <= spread r
                      <= ReconciliationStats.max_spread_ms st) l).
Proof.
  intros Hv. cbv zeta.
  pose proof (values_permutation order (run ops) (log_of ops) (run_represents ops) Hv) as HP.
  unfold spread_stats. rewrite foldl_concat, count_records.
  assert (HF : forall f, len (List.filter f (concat (values order (run ops))))
                       = len (List.filter f (log_of ops))).
  { intros f. apply len_permutation. by rewrite HP. }
  rewrite !filter_filter, !HF.
  set (w := List.filter (window a b) (concat (values order (run ops)))).
  assert (Hw : w ≡ₚ List.filter (window a b) (log_of ops)) by (unfold w; by rewrite HP).
  destruct w as [|r w]; cbn [map].
  { split_and!; try done. intros Hne. by apply Permutation_nil_l in Hw. }
  cbn [ReconciliationStats.total_records ReconciliationStats.positive_spread
    ReconciliationStats.negative_spread ReconciliationStats.zero_spread
    ReconciliationStats.max_spread_ms ReconciliationStats.min_spread_ms].
  split_and!; try done. intros _. rewrite <- Hw. cbn [map].
  destruct (fold_max_spec (spread r) (map spread w)) as [M1 M2].
  destruct (fold_min_spec (spread r) (map spread w)) as [m1 m2].
  split_and!; [done|done|]. rewrite Forall_forall in M2, m2 |- *. intros x Hx.
  split; [apply m2|apply M2]; by apply (in_map spread (r :: w)).
Qed.

Section pipeline.
Context `{BufCrate, !BufLaws, HexEncodeCrate} (zstd gzip : LevelCodec).
Context `{!LevelCodecLaws zstd, !LevelCodecLaws gzip}.

End pipeline.

(** A custom attribute named [t_event] splits the two consumers of a span (a
    defect): the reconciler reads the span's own event time, the JSON export
    carries the custom value in its place. *)
Theorem json_shadows_t_event `{JsonMapCrate, !JsonMapLaws, HexEncodeCrate} s l v :
  CompactSpan.typed s -> CompactSpan.attributes s = l ++ [(lit "t_event", v)] ->
  extract_t_event (OtlpSpan.from_compact s) = CompactSpan.t_event s /\
  exists m, json_get (OtlpSpan.to_json (OtlpSpan.from_compact s)) (lit "attributes")
    = Some (JObject m) /\ map_get m (lit "t_event") = Some (JString v).
Proof.
  intros Hs Ha. split; [by apply extract_times|].
  exists (OtlpSpan.insert_all [] (OtlpSpan.attributes (OtlpSpan.from_compact s))). split.
  - unfold json_get, OtlpSpan.to_json. by rewrite map_get_insert, bool_decide_eq_true_2.
  - rewrite insert_all_get, from_compact_attributes, Ha, app_assoc, last_value_app.
    by vm_compute.
Qed.

(** ** Witnesses *)

(** Every map can be visited. *)
Lemma visits_keys m : visits (map fst (map_to_list m)) m.
Proof.
  split; [apply NoDup_fst_map_to_list|]. intros k. rewrite list_elem_of_fmap. split.
  - intros ([k' v] & -> & Hv%elem_of_map_to_list). by exists v.
  - intros [v Hv]. exists (k, v). by rewrite elem_of_map_to_list.
Qed.

Definition sample_otlp : OtlpSpan.t := @OtlpSpan.from_compact hex_encode_ref sample_span.
Definition sample_ops : list op := [Ingest sample_otlp; Correct sample_otlp 12].
Definition sample_order : list bytes := map fst (map_to_list (run sample_ops)).

Lemma reconciler_refines_log_witness : record_count sample_order (run sample_ops) = 2.
Proof.
  apply (reconciler_refines_log sample_ops sample_order [] [] 0 0), visits_keys.
Defined.

Lemma system_belief_exact_witness :
  sample_otlp ∈ system_belief_at sample_order (run sample_ops) 1500.
Proof.
  apply (system_belief_exact sample_ops sample_order 1500 sample_otlp); [apply visits_keys|].
  eexists [_], _, []. split; [reflexivity|]. split; [reflexivity|].
  split; [vm_compute; discriminate|]. split; [|set_solver].
  intros r' ->%list_elem_of_singleton _ _. vm_compute. discriminate.
Defined.

Lemma spread_stats_exact_witness :
  ReconciliationStats.total_records (spread_stats sample_order (run sample_ops) 0 2000) = 2.
Proof. apply (spread_stats_exact sample_ops sample_order 0 2000), visits_keys. Defined.


Definition shadowed_span : CompactSpan.t :=
  CompactSpan.with_attribute sample_span (lit "t_event") (lit "77").

Lemma json_shadows_t_event_witness :
  extract_t_event (@OtlpSpan.from_compact hex_encode_ref shadowed_span) = -1.
Proof.
  apply (@json_shadows_t_event json_map_ref json_map_ref_laws hex_encode_ref shadowed_span
    [([116], [50; 53])] (lit "77")); [compute_done|reflexivity].
Defined.
