(* ===== verification/Buffers.v ===== *)
(** * Buffers ([src/src/dynamic_buffer.rs], [src/src/lifetime_safe.rs])

    Growable buffers with a size limit, the pools that hand buffers out in turn,
    and the translator that returns owned data.  How much a [Vec] allocates is
    the standard library's business: with [with_capacity] and [reserve] it is
    only promised to be enough, so the two amounts are parameters.  Allocation
    succeeds here: a [Vec] of more than [isize::MAX] bytes, which panics, and memory
    that runs out, which aborts, are outside of the model. *)

From S2P Require Import Prelude IridiumSbd AstsProtobuf.

(** ** The capacity of a [Vec] *)

(** [with_capacity n] and [reserve] on a vector of capacity [cap] that needs room
    for [needed] elements in all. *)
Class VecAlloc := {
  with_capacity : Z -> Z;
  grow : Z -> Z -> Z
}.
Class VecAllocLaws `{VecAlloc} : Prop := {
  with_capacity_enough : forall n, n <= with_capacity n;
  grow_enough : forall cap needed, needed <= grow cap needed
}.

(** The amortised policy: a fresh vector has the capacity asked for, a growing one
    at most doubles unless more is needed (and never gets less than 8 bytes). *)
Class VecAmortized `{VecAlloc} : Prop := {
  with_capacity_exact : forall n, with_capacity n = n;
  grow_at_most : forall cap needed, grow cap needed <= Z.max 8 (Z.max (2 * cap) needed)
}.

(** A vector of bytes and its capacity. *)
Module Vec.
Record t := mk { data : bytes; capacity : Z }.

(** [v.reserve(additional)] *)
Definition reserve `{VecAlloc} (v : t) (additional : Z) : t :=
  if additional <=? capacity v - len (data v) then v
  else mk (data v) (grow (capacity v) (len (data v) + additional)).

Definition clear (v : t) : t := mk [] (capacity v).

(** [v.extend_from_slice(s)], which reserves [s.len()] first. *)
Definition extend_from_slice `{VecAlloc} (v : t) (s : bytes) : t :=
  let v := reserve v (len s) in
  mk (data v ++ s) (capacity v).
End Vec.

(** [n.next_power_of_two()] *)
Definition next_power_of_two (n : Z) : Z := if n <=? 1 then 1 else 2 ^ Z.log2_up n.

Inductive BufferError :=
| TooLarge (requested max : Z)
| AllocationFailed
| InvalidSize.

Module DynamicBuffer.

Record t := mk { buffer : Vec.t; max_capacity : Z }.

Section ops.
Context `{VecAlloc}.

Definition new (initial_capacity max_capacity : Z) : result t BufferError :=
  if max_capacity <? initial_capacity then Err (TooLarge initial_capacity max_capacity) else
  Ok (mk (Vec.mk [] (with_capacity initial_capacity)) max_capacity).

Definition write (b : t) (data : bytes) : t * result unit BufferError :=
  if max_capacity b <? len data then (b, Err (TooLarge (len data) (max_capacity b))) else
  let v := if Vec.capacity (buffer b) <? len data then
             let new_cap := Z.min (next_power_of_two (len data)) (max_capacity b) in
             Vec.reserve (buffer b) new_cap
           else buffer b in
  let v := Vec.clear v in
  let v := Vec.extend_from_slice v data in
  (mk v (max_capacity b), Ok tt).

Definition as_slice (b : t) : bytes := Vec.data (buffer b).
Definition buf_len (b : t) : Z := len (Vec.data (buffer b)).
Definition capacity (b : t) : Z := Vec.capacity (buffer b).
Definition is_empty (b : t) : bool := bool_decide (Vec.data (buffer b) = []).

Definition clear (b : t) : t := mk (Vec.clear (buffer b)) (max_capacity b).

Definition reset (b : t) (initial_capacity : Z) : t * result unit BufferError :=
  if max_capacity b <? initial_capacity
  then (b, Err (TooLarge initial_capacity (max_capacity b))) else
  (mk (Vec.mk [] (with_capacity initial_capacity)) (max_capacity b), Ok tt).

(** [as_mut_slice] lets the caller overwrite the bytes in place, not resize. *)
Definition overwrite (b : t) (d : bytes) : t :=
  if len d =? buf_len b then mk (Vec.mk d (Vec.capacity (buffer b))) (max_capacity b) else b.

(** The calls on one buffer. *)
Inductive op := Write (d : bytes) | Clear | Reset (initial_capacity : Z) | Overwrite (d : bytes).

(** Sizes are unsigned. *)
Definition op_typed (o : op) : Prop := match o with Reset n => 0 <= n | _ => True end.

Definition step (b : t) (o : op) : t :=
  match o with
  | Write d => (write b d).1
  | Clear => clear b
  | Reset n => (reset b n).1
  | Overwrite d => overwrite b d
  end.
End ops.

End DynamicBuffer.

Module DynamicBufferPool.

Record t := mk {
  buffers : list DynamicBuffer.t;
  max_capacity : Z;
  next_index : Z
}.

Definition new `{VecAlloc} (pool_size : nat) (initial_capacity max_capacity : Z)
  : result t BufferError :=
  match pool_size, DynamicBuffer.new initial_capacity max_capacity with
  | O, _ => Ok (mk [] max_capacity 0)
  | _, Err e => Err e
  | _, Ok b => Ok (mk (replicate pool_size b) max_capacity 0)
  end.

(** The index of the buffer handed out and the pool; [% 0] panics. *)
Definition get_buffer (p : t) : outcome (Z * t) :=
  if len (buffers p) =? 0 then Panic else
  let index := next_index p mod len (buffers p) in
  Ret (index, mk (buffers p) (max_capacity p) (wrap 64 (next_index p + 1))).

Definition get_buffer_at (p : t) (index : Z) : outcome Z :=
  if len (buffers p) =? 0 then Panic else Ret (index mod len (buffers p)).

(** [pool.get_buffer()?.write(data)]: what a caller does with the buffer. *)
Definition write_next `{VecAlloc} (p : t) (data : bytes)
  : outcome (t * result unit BufferError) :=
  '(i, p) ← get_buffer p;
  b ← (buffers p).[i];
  let '(b, r) := DynamicBuffer.write b data in
  bs ← set_at (buffers p) i b;
  Ret (mk bs (max_capacity p) (next_index p), r).

End DynamicBufferPool.

(** ** lifetime_safe.rs *)

Module SafeTranslationResult.
Record t := mk { data : bytes; size : Z }.
Definition new (data : bytes) : t := mk data (len data).
Definition as_slice (r : t) : bytes := data r.
End SafeTranslationResult.

Module TranslationArena.

Record t := mk { buffers : list bytes; next_index : Z; buffer_size : Z }.

Definition new (pool_size buffer_size : Z) : t :=
  mk (fill (fill 0 buffer_size) pool_size) 0 buffer_size.

Definition get_buffer (a : t) : outcome (Z * t) :=
  if len (buffers a) =? 0 then Panic else
  let index := next_index a mod len (buffers a) in
  Ret (index, mk (buffers a) (wrap 64 (next_index a + 1)) (buffer_size a)).

Definition get_buffer_at (a : t) (index : Z) : outcome Z :=
  if len (buffers a) =? 0 then Panic else Ret (index mod len (buffers a)).

Definition clone_to_bytes (a : t) (buffer : bytes) (len : Z) : outcome bytes := buffer.[0 ~> len].

Definition clone_to_bytes_at (a : t) (index len : Z) : outcome bytes :=
  if Prelude.len (buffers a) =? 0 then Panic else
  buffer ← (buffers a).[index mod Prelude.len (buffers a)];
  buffer.[0 ~> len].

End TranslationArena.

Module HybridTranslator.

Record t := mk { arena : TranslationArena.t }.

Definition new (pool_size buffer_size : Z) : t := mk (TranslationArena.new pool_size buffer_size).

(** [g] is the process-wide sequence counter. *)
Definition translate_zero_alloc (g : Z) (h : t) (iridium_msg : IridiumSBDMessage.t)
    (output_buffer : bytes) : outcome (option Z * bytes * Z) :=
  ZeroCopyTranslator.translate g iridium_msg output_buffer.

Definition translate_safe (g : Z) (h : t) (iridium_msg : IridiumSBDMessage.t)
  : outcome (option SafeTranslationResult.t * Z) :=
  let local_buffer := fill 0 2048 in
  '(r, local_buffer, g) ← translate_zero_alloc g h iridium_msg local_buffer;
  match r with
  | None => Ret (None, g)
  | Some size =>
      d ← local_buffer.[0 ~> size];
      Ret (Some (SafeTranslationResult.new d), g)
  end.

End HybridTranslator.

Import DynamicBuffer.

(** ** Lemmas *)

Lemma next_power_of_two_ge n : n <= next_power_of_two n.
Proof.
  unfold next_power_of_two. destruct (n <=? 1) eqn:E; breflect; [lia|].
  apply Z.log2_up_spec. lia.
Qed.

Section dynamic.
Context `{VecAlloc, !VecAllocLaws}.

(** The buffer holds at most [max_capacity] bytes, all within its allocation. *)
Definition sane (b : t) : Prop := buf_len b <= capacity b /\ buf_len b <= max_capacity b.

(** The allocation after a write that was accepted. *)
Definition written_capacity (b : t) (d : bytes) : Z :=
  if capacity b <? len d
  then grow (capacity b) (buf_len b + Z.min (next_power_of_two (len d)) (max_capacity b))
  else capacity b.

Lemma write_accepts b d :
  sane b -> len d <= max_capacity b ->
  write b d = (mk (Vec.mk d (written_capacity b d)) (max_capacity b), Ok tt) /\
  len d <= written_capacity b d.
Proof.
  unfold sane, buf_len, capacity. intros [Hc Hm] Hd. unfold write, written_capacity, buf_len, capacity.
  rewrite (proj2 (Z.ltb_ge _ _)) by lia.
  pose proof (next_power_of_two_ge (len d)). pose proof (len_nonneg (Vec.data (buffer b))).
  set (n := Z.min _ _). assert (Hn : len d <= n) by (unfold n; lia). clearbody n.
  destruct (Vec.capacity (buffer b) <? len d) eqn:E; breflect.
  - unfold Vec.reserve. rewrite (proj2 (Z.leb_gt _ _)) by lia. cbn [Vec.clear Vec.capacity].
    pose proof (grow_enough (Vec.capacity (buffer b)) (len (Vec.data (buffer b)) + n)).
    unfold Vec.extend_from_slice, Vec.reserve, Vec.clear. cbn [Vec.data Vec.capacity].
    rewrite (proj2 (Z.leb_le _ _)) by (len_simpl; lia). split; [done|lia].
  - unfold Vec.extend_from_slice, Vec.reserve, Vec.clear. cbn [Vec.data Vec.capacity].
    rewrite (proj2 (Z.leb_le _ _)) by (len_simpl; lia). done.
Qed.

Lemma write_rejects b d :
  max_capacity b < len d -> write b d = (b, Err (TooLarge (len d) (max_capacity b))).
Proof. intros. unfold write. by rewrite (proj2 (Z.ltb_lt _ _)). Qed.

Lemma step_sane b o : sane b -> op_typed o ->
  sane (step b o) /\ max_capacity (step b o) = max_capacity b.
Proof.
  intros Hs Ho. pose proof (len_nonneg (Vec.data (buffer b))). destruct o as [d| |n|d]; cbn [step].
  - destruct (decide (len d <= max_capacity b)).
    + destruct (write_accepts b d Hs ltac:(done)) as [-> ?]. cbn.
      unfold sane, buf_len, capacity. done.
    + by rewrite write_rejects by lia.
  - unfold sane, clear, buf_len, capacity, Vec.clear in *. cbn [buffer Vec.data Vec.capacity
      max_capacity]. len_simpl. split; [lia|done].
  - unfold reset. destruct (_ <? n) eqn:E; [done|]. breflect. cbn in Ho.
    unfold sane, buf_len, capacity. cbn [fst buffer Vec.data Vec.capacity max_capacity].
    pose proof (with_capacity_enough n). len_simpl. split; [lia|done].
  - unfold overwrite. destruct (_ =? _) eqn:E; [|done]. breflect.
    unfold sane, buf_len, capacity in *. cbn [buffer Vec.data Vec.capacity max_capacity].
    by rewrite E.
Qed.

Lemma steps_sane ops b : sane b -> Forall op_typed ops ->
  sane (foldl step b ops) /\ max_capacity (foldl step b ops) = max_capacity b.
Proof.
  intros Hs Ho. revert b Hs. induction Ho as [|o ops Ho _ IH]; intros b Hs; [done|].
  cbn [foldl]. destruct (step_sane b o Hs Ho) as [Hs' <-]. by apply IH.
Qed.

Lemma new_sane i m b : 0 <= i -> new i m = Ok b ->
  sane b /\ max_capacity b = m /\ as_slice b = [] /\ i <= m /\ capacity b = with_capacity i.
Proof.
  unfold new. intros Hi Hn. destruct (m <? i) eqn:E; simplify_eq. breflect.
  unfold sane, as_slice, buf_len, capacity. cbn [buffer Vec.data Vec.capacity max_capacity].
  pose proof (with_capacity_enough i). len_simpl. split_and!; (done || lia).
Qed.

(** The allocation of the amortised policy. *)
Lemma step_capacity `{!VecAmortized} b o :
  sane b -> op_typed o -> capacity b <= Z.max 8 (2 * max_capacity b) ->
  capacity (step b o) <= Z.max 8 (2 * max_capacity b).
Proof.
  intros Hs Ho Hc. destruct o as [d| |n|d]; cbn [step].
  - destruct (decide (len d <= max_capacity b)) as [Hd|Hd]; [|by rewrite write_rejects by lia].
    destruct (write_accepts b d Hs Hd) as [-> _]. unfold written_capacity.
    unfold capacity in *. cbn [fst buffer Vec.capacity].
    destruct (_ <? _) eqn:E; [|done]. breflect.
    destruct Hs as [Hl Hm]. unfold capacity in Hl.
    etransitivity; [apply grow_at_most|]. lia.
  - done.
  - unfold reset. destruct (_ <? n) eqn:E; [done|]. breflect. cbn in Ho.
    unfold capacity. cbn [fst buffer Vec.capacity]. rewrite with_capacity_exact. lia.
  - unfold overwrite. by destruct (_ =? _).
Qed.

Lemma steps_capacity `{!VecAmortized} ops b :
  sane b -> Forall op_typed ops -> capacity b <= Z.max 8 (2 * max_capacity b) ->
  capacity (foldl step b ops) <= Z.max 8 (2 * max_capacity b).
Proof.
  intros Hs Ho. revert b Hs. induction Ho as [|o ops Ho _ IH]; intros b Hs Hc; [done|].
  cbn [foldl]. destruct (step_sane b o Hs Ho) as [Hs' Hm]. rewrite <- Hm.
  apply IH; [done|]. rewrite Hm. by apply step_capacity.
Qed.
End dynamic.

(** ** Theorems *)

(** C39: A buffer never holds more than its limit.  After any sequence of calls whose
    allocations succeed the content is within the limit and the allocation; a write
    is accepted exactly when the data fits the limit, and then the buffer holds the
    data; a refused write changes nothing.  With the amortised growth policy the
    allocation stays below twice the limit (or 8 bytes). *)
Theorem dynamic_buffer_bounds `{VecAlloc, !VecAllocLaws} initial max b0 ops d :
  0 <= initial -> new initial max = Ok b0 -> Forall op_typed ops ->
  let b := foldl step b0 ops in
  buf_len b <= max /\ buf_len b <= capacity b /\
  (len d <= max -> (write b d).2 = Ok tt /\ as_slice (write b d).1 = d) /\
  (max < len d -> write b d = (b, Err (TooLarge (len d) max))) /\
  (VecAmortized -> capacity b <= Z.max 8 (2 * max)).
Proof.
  intros Hi Hn Ho. cbv zeta. destruct (new_sane _ _ _ Hi Hn) as (Hs & Hm & _ & Hle & Hc).
  subst max. destruct (steps_sane ops b0 Hs Ho) as [[Hc' Hl'] Hm'].
  split_and!; [by rewrite <- Hm'|done| | |].
  - intros Hd. destruct (write_accepts (foldl step b0 ops) d) as [-> _]; [done|lia|done].
  - intros Hd. rewrite write_rejects by lia. by rewrite Hm'.
  - intros Ham. apply steps_capacity; [done|done|]. rewrite Hc, with_capacity_exact. lia.
Qed.

(** The growth of a buffer does not respect its limit (a divergence from its
    comment): when the old content and the new data together exceed it, an
    accepted write that has to grow leaves an allocation above [max_capacity],
    whatever the growth policy, because [reserve] counts from the old content. *)
Theorem dynamic_buffer_overshoots `{VecAlloc, !VecAllocLaws} b d :
  sane b -> capacity b < len d -> len d <= max_capacity b ->
  max_capacity b < buf_len b + len d ->
  (write b d).2 = Ok tt /\ max_capacity b < capacity (write b d).1.
Proof.
  intros Hs Hc Hd Hm. destruct (write_accepts b d Hs Hd) as [-> _]. split; [done|].
  unfold capacity at 1. cbn [fst buffer Vec.capacity]. unfold written_capacity.
  rewrite (proj2 (Z.ltb_lt _ _)) by done. eapply Z.lt_le_trans; [|apply grow_enough].
  pose proof (next_power_of_two_ge (len d)). lia.
Qed.

(** *** Pools *)

(** Writing to a list in range. *)
Lemma set_at_insert {A} (l : list A) i x :
  0 <= i < len l -> set_at l i x = Ret (<[Z.to_nat i := x]> l).
Proof.
  unfold len. intros Hi. unfold set_at, copy_from_slice, len. cbn [length].
  rewrite !(proj2 (Z.leb_le _ _)), (proj2 (Z.eqb_eq _ _)) by lia. cbn [andb].
  rewrite insert_take_drop by lia. do 2 f_equal. cbn. do 2 f_equal. lia.
Qed.

(** The writes through the pool, one after the other. *)
Fixpoint write_all `{VecAlloc} (p : DynamicBufferPool.t) (ds : list bytes)
  : outcome (DynamicBufferPool.t * list (result unit BufferError)) :=
  match ds with
  | [] => Ret (p, [])
  | d :: ds =>
      '(p, r) ← DynamicBufferPool.write_next p d;
      '(p, rs) ← write_all p ds;
      Ret (p, r :: rs)
  end.

Section pools.
Context `{VecAlloc, !VecAllocLaws}.
Implicit Types p : DynamicBufferPool.t.

(** [n] sane buffers, [k] of them handed out; the last [n] of the data [ds] written
    so far are in place. *)
Definition holds (n max : Z) (ds : list bytes) p : Prop :=
  len (DynamicBufferPool.buffers p) = n /\
  Forall (fun b => sane b /\ DynamicBuffer.max_capacity b = max) (DynamicBufferPool.buffers p) /\
  DynamicBufferPool.next_index p = len ds /\
  forall i d, len ds - n <= Z.of_nat i -> ds !! i = Some d ->
    as_slice <$> DynamicBufferPool.buffers p !! Z.to_nat (Z.of_nat i mod n) = Some d.

Lemma mod_apart n i k : 0 < n -> 0 <= i < k -> k - i < n -> i mod n <> k mod n.
Proof.
  intros Hn Hi Hk E. assert (Hd : (k - i) mod n = 0)
    by (by rewrite Zminus_mod, E, Z.sub_diag, Z.mod_0_l by lia).
  rewrite Z.mod_small in Hd; lia.
Qed.

Lemma write_next_holds n max ds p d :
  0 < n -> len ds + 1 < 2 ^ 64 -> len d <= max -> holds n max ds p ->
  exists p', DynamicBufferPool.write_next p d = Ret (p', Ok tt) /\ holds n max (ds ++ [d]) p'.
Proof.
  intros Hn H64 Hd (Hl & Hb & Hi & Hc). pose proof (len_nonneg ds).
  unfold DynamicBufferPool.write_next, DynamicBufferPool.get_buffer.
  rewrite Hl, (proj2 (Z.eqb_neq _ _)) by lia. mstep. rewrite Hi.
  cbn [DynamicBufferPool.buffers DynamicBufferPool.next_index DynamicBufferPool.max_capacity].
  pose proof (Z.mod_pos_bound (len ds) n Hn) as Hidx. set (k := len ds mod n) in *.
  destruct (at_Ret (DynamicBufferPool.buffers p) k ltac:(lia)) as (b & -> & Hk). mstep.
  destruct (Forall_lookup_1 _ _ _ _ Hb Hk) as [Hs Hmax].
  destruct (write_accepts b d Hs ltac:(lia)) as [-> Hw].
  rewrite set_at_insert by lia. mstep. eexists. split; [done|].
  unfold holds. cbn [DynamicBufferPool.buffers DynamicBufferPool.next_index].
  rewrite len_app, len_cons, len_nil. unfold len at 1. rewrite length_insert. split; [done|].
  split; [|split].
  - apply Forall_insert; [done|]. unfold sane, buf_len, capacity. cbn. subst max. done.
  - apply wrap_small. unfold in_u. lia.
  - intros i d' Hw' Hd'. destruct (decide (i < length ds)%nat) as [Hlt|Hge].
    + rewrite lookup_app_l in Hd' by done. rewrite list_lookup_insert_ne.
      * apply Hc; [lia|done].
      * assert (Z.of_nat i mod n <> k); [|pose proof (Z.mod_pos_bound (Z.of_nat i) n Hn); lia].
        apply mod_apart; unfold len in *; lia.
    + rewrite lookup_app_r in Hd' by lia. apply list_lookup_singleton_Some in Hd' as [Hz <-].
      replace (Z.of_nat i) with (len ds) by (unfold len; lia).
      fold k. rewrite list_lookup_insert_eq by (unfold len in Hl; lia). done.
Qed.
Lemma write_all_holds n max ds0 ds p :
  0 < n -> len ds0 + len ds < 2 ^ 64 -> Forall (fun d => len d <= max) ds -> holds n max ds0 p ->
  exists p', write_all p ds = Ret (p', replicate (length ds) (Ok tt)) /\
    holds n max (ds0 ++ ds) p'.
Proof.
  intros Hn H64 Hds. revert ds0 p H64.
  induction Hds as [|d ds Hd _ IH]; intros ds0 p H64 Hp; [exists p; by rewrite app_nil_r|].
  rewrite len_cons in H64. pose proof (len_nonneg ds). cbn [write_all].
  destruct (write_next_holds n max ds0 p d) as (p1 & -> & Hp1); [done|lia|done|done|]. mstep.
  destruct (IH (ds0 ++ [d]) p1) as (p' & -> & Hp'); [rewrite len_app, len_cons, len_nil; lia|done|].
  mstep. exists p'. rewrite <- app_assoc in Hp'. done.
Qed.

Lemma new_pool_holds n initial max p :
  0 <= initial -> (0 < n)%nat -> DynamicBufferPool.new n initial max = Ok p ->
  holds (Z.of_nat n) max [] p.
Proof.
  intros Hi Hn Hp. unfold DynamicBufferPool.new in Hp. destruct n as [|n]; [lia|].
  destruct (new initial max) as [b|] eqn:E; [|done]. simplify_eq.
  destruct (new_sane _ _ _ Hi E) as (Hs & Hm & _). unfold holds.
  cbn [DynamicBufferPool.buffers DynamicBufferPool.next_index].
  change (b :: replicate n b) with (replicate (S n) b).
  split_and!; [|by apply Forall_replicate|done|done].
  unfold len. by rewrite length_replicate.
Qed.
End pools.

(** A pool of [n] buffers hands them out in turn: after any sequence of
    writes through [get_buffer], each of acceptable size, every write succeeded
    and the last [n] pieces of data are all still in the pool, each in its own
    buffer.  A pool of size zero panics at the first call. *)
Theorem pool_round_robin `{VecAlloc, !VecAllocLaws} n initial max p ds :
  0 <= initial -> DynamicBufferPool.new n initial max = Ok p ->
  len ds < 2 ^ 64 -> Forall (fun d => len d <= max) ds ->
  if (n =? 0)%nat then DynamicBufferPool.get_buffer p = Panic
  else exists p', write_all p ds = Ret (p', replicate (length ds) (Ok tt)) /\
    forall i d, len ds - Z.of_nat n <= Z.of_nat i -> ds !! i = Some d ->
      as_slice <$> DynamicBufferPool.buffers p' !! Z.to_nat (Z.of_nat i mod Z.of_nat n) = Some d.
Proof.
  intros Hi Hp H64 Hds. destruct (n =? 0)%nat eqn:E.
  - apply Nat.eqb_eq in E as ->. unfold DynamicBufferPool.new in Hp. by simplify_eq.
  - apply Nat.eqb_neq in E.
    destruct (write_all_holds (Z.of_nat n) max [] ds p) as (p' & Hw & _ & _ & _ & Hc);
      [lia|by rewrite len_nil|done|by apply (new_pool_holds n initial); [|lia|]|].
    exists p'. split; [done|]. apply Hc.
Qed.

(** The owned translation agrees with the zero-allocation one: for every
    parsed Iridium message [translate_safe] succeeds, takes one sequence number,
    and returns exactly the frame that [translate_zero_alloc] writes at the start
    of any buffer of at least 347 bytes, with its length. *)
Theorem safe_translation_agrees g h m buffer :
  in_u 32 g -> IridiumSBDMessage.wf m -> 347 <= len buffer ->
  exists r rest, HybridTranslator.translate_safe g h m = Ret (Some r, wrap 32 (g + 1)) /\
    SafeTranslationResult.size r = len (SafeTranslationResult.as_slice r) /\
    HybridTranslator.translate_zero_alloc g h m buffer
    = Ret (Some (SafeTranslationResult.size r), SafeTranslationResult.as_slice r ++ rest,
           wrap 32 (g + 1)) /\
    len (SafeTranslationResult.as_slice r ++ rest) = len buffer.
Proof.
  intros Hg Hm Hb. destruct (wf_iridium_payload m Hm) as (pl & Hpl & Hok & _ & Hle).
  pose proof (len_nonneg pl).
  unfold HybridTranslator.translate_safe, HybridTranslator.translate_zero_alloc.
  rewrite !translate_is_type_1, !(translate_with_type_eq _ _ _ pl)
    by (done || lia || (unfold in_u; lia)). unfold translated. mstep.
  rewrite (proj2 (Z.ltb_ge (len (fill 0 2048)) _)) by (rewrite len_fill; lia).
  rewrite (proj2 (Z.ltb_ge (len buffer) _)) by lia. mstep.
  rewrite slice_Ret by len_solve. mstep. rewrite Z.sub_0_r, sub_app_l by len_solve.
  eexists _, _. split; [done|]. cbn [SafeTranslationResult.size SafeTranslationResult.new
    SafeTranslationResult.as_slice SafeTranslationResult.data].
  rewrite len_asts_wire. split_and!; [done|done|]. len_solve.
Qed.

(** ** Witnesses *)

(** The growth policy of the standard library. *)
Definition vec_std : VecAlloc := {|
  with_capacity n := n;
  grow cap needed := Z.max 8 (Z.max (2 * cap) needed)
|}.

Lemma vec_std_laws : @VecAllocLaws vec_std.
Proof. constructor; simpl; lia. Qed.
Lemma vec_std_amortized : @VecAmortized vec_std.
Proof. constructor; simpl; lia. Qed.

Definition sample_buffer : t := mk (Vec.mk [] 4) 10.

Lemma dynamic_buffer_bounds_witness :
  @capacity (foldl (@step vec_std) sample_buffer [Write (fill 1 9); Clear]) <= 20.
Proof.
  apply (@dynamic_buffer_bounds vec_std vec_std_laws 4 10 sample_buffer
    [Write (fill 1 9); Clear] []); [lia|reflexivity|by repeat constructor|].
  apply vec_std_amortized.
Defined.

Lemma dynamic_buffer_overshoots_witness :
  10 < capacity (@write vec_std (mk (Vec.mk [1; 2; 3; 4] 4) 10) (fill 1 9)).1.
Proof.
  apply (@dynamic_buffer_overshoots vec_std vec_std_laws (mk (Vec.mk [1; 2; 3; 4] 4) 10) (fill 1 9));
    vm_compute; split || reflexivity || discriminate; discriminate.
Defined.

Definition sample_pool : DynamicBufferPool.t := DynamicBufferPool.mk [sample_buffer; sample_buffer] 10 0.

Lemma pool_round_robin_witness :
  exists p', @write_all vec_std sample_pool [[1]; [2]; [3]] = Ret (p', [Ok tt; Ok tt; Ok tt]) /\
    as_slice <$> DynamicBufferPool.buffers p' !! 0%nat = Some [3].
Proof.
  destruct (@pool_round_robin vec_std vec_std_laws 2 4 10 sample_pool [[1]; [2]; [3]])
    as (p' & Hw & Hc); [lia|reflexivity|reflexivity|by repeat constructor|].
  exists p'. split; [exact Hw|]. apply (Hc 2%nat [3]); [vm_compute; discriminate|reflexivity].
Defined.

Definition sample_sbd : IridiumSBDMessage.t :=
  IridiumSBDMessage.mk (IridiumSBDMessage.mkHeader 1 2) ([72; 105] ++ fill 0 338) 2 0.

Lemma safe_translation_agrees_witness :
  exists r rest, HybridTranslator.translate_safe 5 (HybridTranslator.new 1 1) sample_sbd
      = Ret (Some r, 6) /\
    HybridTranslator.translate_zero_alloc 5 (HybridTranslator.new 1 1) sample_sbd (fill 9 347)
    = Ret (Some (SafeTranslationResult.size r), SafeTranslationResult.as_slice r ++ rest, 6).
Proof.
  destruct (safe_translation_agrees 5 (HybridTranslator.new 1 1) sample_sbd (fill 9 347))
    as (r & rest & H1 & _ & H2 & _).
  - unfold in_u. lia.
  - unfold IridiumSBDMessage.wf. compute_done.
  - vm_compute. discriminate.
  - by exists r, rest.
Defined.
