(* ===== verification/CodecTests.v ===== *)
(** * The unit tests of the codecs (the [tests] modules under [src/src])

    Each [#[test]] function is translated like any other function: it builds its
    inputs, calls the model of the operation under test, and panics when an
    assertion does not hold.  A test of the repository passes on the model when
    its translation returns.  The tests run the models on the inputs their authors
    chose, which ties the definitions to the behaviour the repository expects. *)

From S2P Require Import Prelude Crc Protocol Externals Utf8 Text IridiumSbd AstsProtobuf InmarsatC.
From S2P Require Import Vsat Hfvhf Nidd Samsara Buffers.

(** [assert!], [unwrap] on the three kinds of results, and [.is_some()]. *)
Definition assert (b : bool) : outcome unit := if b then Ret tt else Panic.
Definition unwrap {A} (o : option A) : outcome A := match o with Some x => Ret x | None => Panic end.
Definition unwrap_ok {A E} (r : result A E) : outcome A := match r with Ok x => Ret x | Err _ => Panic end.
Definition unwrap_err {A E} (r : result A E) : outcome E := match r with Ok _ => Panic | Err e => Ret e end.
Definition is_some {A} (o : option A) : bool := match o with Some _ => true | None => false end.
Definition is_ok {A E} (r : result A E) : bool := match r with Ok _ => true | Err _ => false end.
Definition assert_eq {A} `{EqDecision A} (x y : A) : outcome unit := assert (bool_decide (x = y)).

(** A list of tests passes. *)
Definition passes (tests : list (outcome unit)) : bool :=
  forallb (fun t => match t with Ret _ => true | Panic => false end) tests.

Module inmarsat_c_tests.
Import InmarsatCMessage.
Section tests.
Context `{CrcCrate, HexCrate}.

Definition test_inmarsat_c_parse : outcome unit :=
  let data := fill 0 21 in
  data ← copy_from_slice data 0 4 (to_be 4 MAGIC_NUMBER);
  data ← copy_from_slice data 4 6 (to_be 2 1234);
  data ← copy_from_slice data 6 10 [0x01; 0x02; 0x03; 0x04];
  data ← copy_from_slice data 10 14 [0x05; 0x06; 0x07; 0x08];
  data ← set_at data 14 72; data ← set_at data 15 101; data ← set_at data 16 108;
  data ← set_at data 17 108; data ← set_at data 18 111;
  body ← data.[0 ~> 19];
  let checksum := crc_checksum body in
  data ← copy_from_slice data 19 21 (to_be 2 checksum);
  msg ← parse data;
  _ ← assert (is_ok msg);
  msg ← unwrap_ok msg;
  assert_eq (message_number msg) 1234.

Definition test_inmarsat_c_parse_invalid_magic : outcome unit :=
  let data := fill 0 20 in
  data ← copy_from_slice data 0 4 (to_be 4 0xDEADBEEF);
  data ← copy_from_slice data 4 6 (to_be 2 1234);
  data ← copy_from_slice data 6 10 [0x01; 0x02; 0x03; 0x04];
  data ← copy_from_slice data 10 14 [0x05; 0x06; 0x07; 0x08];
  msg ← parse data;
  _ ← assert (negb (is_ok msg));
  e ← unwrap_err msg;
  assert (match e with InvalidMagicNumber _ _ => true | _ => false end).

Definition test_inmarsat_c_parse_too_short : outcome unit :=
  let data := lit "short" in
  msg ← parse data;
  _ ← assert (negb (is_ok msg));
  e ← unwrap_err msg;
  assert (match e with InvalidLength _ _ => true | _ => false end).

Definition hello : t := mk 1234 (lit "01020304") (lit "05060708") (lit "Hello").

Definition test_inmarsat_c_encode : outcome unit :=
  encoded ← encode hello;
  _ ← assert (16 <=? len encoded);
  magic ← encoded.[0 ~> 4];
  _ ← assert_eq (from_be magic) MAGIC_NUMBER;
  number ← encoded.[4 ~> 6];
  assert_eq (from_be number) 1234.

Definition test_inmarsat_c_roundtrip : outcome unit :=
  encoded ← encode hello;
  decoded ← parse encoded;
  decoded ← unwrap_ok decoded;
  _ ← assert_eq (message_number decoded) (message_number hello);
  _ ← assert_eq (destination_id decoded) (destination_id hello);
  _ ← assert_eq (source_id decoded) (source_id hello);
  assert_eq (payload decoded) (payload hello).
End tests.

Example inmarsat_c_tests_pass :
  passes [@test_inmarsat_c_parse crc_ibm_3740 hex_ref;
          @test_inmarsat_c_parse_invalid_magic crc_ibm_3740 hex_ref;
          @test_inmarsat_c_parse_too_short crc_ibm_3740 hex_ref;
          @test_inmarsat_c_encode crc_ibm_3740 hex_ref;
          @test_inmarsat_c_roundtrip crc_ibm_3740 hex_ref] = true.
Proof. vm_compute. reflexivity. Qed.
End inmarsat_c_tests.

Module nidd_tests.
Import NIDDMessage.

(** The packets of the tests: a header and ["Hello"]. *)
Definition hello_packet (pdu qos coverage : Z) : bytes :=
  [pdu; qos; 0x01; 0x00; coverage; 0x00; 0x05; 0x00; 0x01; 0x48; 0x65; 0x6c; 0x6c; 0x6f].

Definition test_parse_nidd : outcome unit :=
  let data := hello_packet 0x01 0x01 0x00 in
  msg ← parse data; msg ← unwrap msg;
  _ ← assert_eq (h_pdu_type (header msg)) 0x01;
  _ ← assert_eq (h_qos_priority (header msg)) 0x01;
  _ ← assert_eq (h_reliability (header msg)) 0x01;
  _ ← assert_eq (h_delay_class (header msg)) 0x00;
  _ ← assert_eq (h_coverage_enhancement (header msg)) 0x00;
  _ ← assert_eq (h_length (header msg)) 5;
  _ ← assert_eq (h_sequence_number (header msg)) 1;
  _ ← assert_eq (payload_len msg) 5;
  p ← payload_slice msg;
  assert_eq p (lit "Hello").

Definition test_parse_invalid_nidd : outcome unit :=
  msg ← parse [0x01];
  assert (negb (is_some msg)).

Definition test_max_payload_size : outcome unit :=
  let data := [0x01; 0x00; 0x00; 0x00; 0x00; 0x06; 0x41; 0x00; 0x01] in
  let data := data ++ fill 0 1601 in
  msg ← parse data;
  assert (negb (is_some msg)).

Definition test_control_plane_bit : outcome unit :=
  msg ← parse (hello_packet 0x81 0x01 0x00); msg ← unwrap msg;
  _ ← assert (is_control_plane msg);
  assert (match pdu_type msg with ControlPlane => true | UserData => false end).

Definition test_qos_priority : outcome unit :=
  msg ← parse (hello_packet 0x01 0x03 0x00); msg ← unwrap msg;
  assert (match qos_priority msg with QEmergency => true | _ => false end).

Definition test_coverage_enhancement : outcome unit :=
  msg ← parse (hello_packet 0x01 0x01 0x02); msg ← unwrap msg;
  assert (match coverage_enhancement msg with Level2 => true | _ => false end).

Example nidd_tests_pass :
  passes [test_parse_nidd; test_parse_invalid_nidd; test_max_payload_size; test_control_plane_bit;
          test_qos_priority; test_coverage_enhancement] = true.
Proof. vm_compute. reflexivity. Qed.
End nidd_tests.

Module vsat_tests.
Import VSATMessage.

Definition test_vsat_parse : outcome unit :=
  let data := fill 0 20 in
  data ← copy_from_slice data 0 4 (to_be 4 12345678);
  data ← copy_from_slice data 4 8 [192; 168; 1; 1];
  data ← copy_from_slice data 8 12 [192; 168; 1; 2];
  data ← set_at data 12 72; data ← set_at data 13 101; data ← set_at data 14 108;
  data ← set_at data 15 108; data ← set_at data 16 111;
  msg ← parse data;
  _ ← assert (is_some msg);
  msg ← unwrap msg;
  assert_eq (packet_id msg) 12345678.

Definition test_vsat_parse_too_short : outcome unit :=
  msg ← parse (lit "short");
  assert (negb (is_some msg)).

Section tests.
Context `{ZstdCrate}.

Definition test_vsat_encode : outcome unit :=
  let msg := mk 12345678 [192; 168; 1; 1] [192; 168; 1; 2] (lit "Hello") in
  encoded ← encode msg;
  assert (12 <=? len encoded).

Definition test_vsat_compress_decompress : outcome unit :=
  let msg := mk 12345678 [192; 168; 1; 1] [192; 168; 1; 2] (lit "Hello VSAT") in
  compressed ← encode msg;
  let decompressed := decompress compressed in
  assert (is_some decompressed).
End tests.

Example vsat_tests_pass :
  passes [test_vsat_parse; test_vsat_parse_too_short; @test_vsat_encode zstd_stored;
          @test_vsat_compress_decompress zstd_stored] = true.
Proof. vm_compute. reflexivity. Qed.
End vsat_tests.

Module hfvhf_tests.
Import HFVHFMessage.

Definition test_hfvhf_parse : outcome unit :=
  let data := fill 0 20 in
  data ← copy_from_slice data 0 4 (to_be 4 145800);
  data ← set_at data 4 1;
  data ← copy_from_slice data 5 7 (to_le 2 1000);
  data ← copy_from_slice data 7 9 (to_le 2 2000);
  msg ← parse data;
  _ ← assert (is_some msg);
  msg ← unwrap msg;
  _ ← assert_eq (frequency_khz msg) 145800;
  assert_eq (modulation msg) FM.

Definition test_hfvhf_parse_too_short : outcome unit :=
  msg ← parse (lit "short");
  assert (negb (is_some msg)).

Definition test_hfvhf_encode : outcome unit :=
  let msg := mk 145800 FM [1000; 2000; 3000] in
  encoded ← encode msg;
  _ ← assert (5 <=? len encoded);
  b ← encoded.[4];
  assert_eq b 1.

Definition test_hfvhf_codec_translate : outcome unit :=
  let msg := mk 145800 FM [1000; 2000; 3000] in
  digital ← codec_translate_to_digital msg;
  assert (5 <=? len digital).

Definition test_hfvhf_resample : outcome unit :=
  let msg := mk 145800 FM [1000; 2000; 3000; 4000; 5000] in
  let resampled := resample msg 16000 8000 in
  assert_eq (len (audio_samples resampled)) 10.

Example hfvhf_tests_pass :
  passes [test_hfvhf_parse; test_hfvhf_parse_too_short; test_hfvhf_encode;
          test_hfvhf_codec_translate; test_hfvhf_resample] = true.
Proof. vm_compute. reflexivity. Qed.
End hfvhf_tests.

Module samsara_tests.
Import SamsaraMessage.

(** The literals [37.7749], [-122.4194], [40.7128] and [-74.0060] as their bits. *)
Definition lat1 : Z := 0x4042E32FEC56D5D0.
Definition lon1 : Z := 0xC05E9AD77318FC50.
Definition lat2 : Z := 0x40445B3D07C84B5E.
Definition lon2 : Z := 0xC05280624DD2F1AA.

Definition test_samsara_parse : outcome unit :=
  let device := lit "device-12345" in
  let pl := lit "test payload data" in
  let buffer := [1] ++ to_be 2 (len device) ++ device ++ to_be 8 1234567890 ++
    to_be 8 lat1 ++ to_be 8 lon1 ++ to_be 4 (len pl) ++ pl in
  msg ← parse buffer; msg ← unwrap msg;
  _ ← assert_eq (device_id msg) device;
  _ ← assert_eq (timestamp msg) 1234567890;
  _ ← assert_eq (latitude msg) lat1;
  _ ← assert_eq (longitude msg) lon1;
  assert_eq (payload msg) pl.

Definition test_samsara_parse_too_short : outcome unit :=
  msg ← parse (lit "short");
  assert (negb (is_some msg)).

Definition test_samsara_roundtrip : outcome unit :=
  let original := mk (lit "device-67890") 9876543210 lat2 lon2 (lit "roundtrip test data") in
  let encoded := encode original in
  decoded ← parse encoded; decoded ← unwrap decoded;
  _ ← assert_eq (device_id decoded) (device_id original);
  _ ← assert_eq (timestamp decoded) (timestamp original);
  _ ← assert_eq (latitude decoded) (latitude original);
  _ ← assert_eq (longitude decoded) (longitude original);
  assert_eq (payload decoded) (payload original).

Definition test_samsara_encode : outcome unit :=
  let msg := mk (lit "test-device") 1234567890 lat1 lon1 (lit "test payload") in
  let encoded := encode msg in
  _ ← assert (31 <? len encoded);
  b ← encoded.[0];
  assert_eq b 1.

Example samsara_tests_pass :
  passes [test_samsara_parse; test_samsara_parse_too_short; test_samsara_roundtrip;
          test_samsara_encode] = true.
Proof. vm_compute. reflexivity. Qed.
End samsara_tests.

Module iridium_tests.
Import IridiumSBDMessage.

Definition iridium_data : bytes := [0x01; 0x00; 0x05; 0x48; 0x65; 0x6c; 0x6c; 0x6f; 0x00; 0x00].

Definition test_parse_iridium_sbd : outcome unit :=
  msg ← parse iridium_data; msg ← unwrap msg;
  _ ← assert_eq (h_protocol (header msg)) 0x01;
  _ ← assert_eq (h_length (header msg)) 5;
  _ ← assert_eq (payload_len msg) 5;
  p ← payload_slice msg;
  assert_eq p (lit "Hello").

Definition test_parse_invalid_iridium : outcome unit :=
  msg ← parse [0x01];
  assert (negb (is_some msg)).

(** [asts_protobuf.rs]; [g] is the process-wide sequence counter. *)
Definition test_zero_copy_translation (g : Z) : outcome unit :=
  iridium_msg ← parse iridium_data; iridium_msg ← unwrap iridium_msg;
  '(size, output_buffer, _) ← ZeroCopyTranslator.translate g iridium_msg (fill 0 2048);
  size ← unwrap size;
  _ ← assert (0 <? size);
  b ← output_buffer.[0];
  assert_eq b 0x01.

Definition test_payload_too_large : outcome unit :=
  let asts_msg := ASTSProtobufMessage.new 0x01 0 in
  let large_payload := fill 0 1025 in
  '(ok, _) ← ASTSProtobufMessage.set_payload asts_msg large_payload;
  assert (negb ok).

(** [lifetime_safe.rs] *)
Definition test_safe_translation (g : Z) : outcome unit :=
  iridium_msg ← parse iridium_data; iridium_msg ← unwrap iridium_msg;
  let translator := HybridTranslator.new 8 2048 in
  '(result, _) ← HybridTranslator.translate_safe g translator iridium_msg;
  result ← unwrap result;
  assert_eq (SafeTranslationResult.size result) 12.

(** Whatever the value of the counter. *)
Example iridium_tests_pass g :
  passes [test_parse_iridium_sbd; test_parse_invalid_iridium; test_zero_copy_translation g;
          test_payload_too_large; test_safe_translation g] = true.
Proof. vm_compute. reflexivity. Qed.
End iridium_tests.

Module dynamic_buffer_tests.
Import DynamicBuffer.
Section tests.
Context `{VecAlloc}.

Definition test_dynamic_buffer_growth : outcome unit :=
  buffer ← unwrap_ok (new 10 1000);
  let '(buffer, r) := write buffer [1; 2; 3] in
  _ ← unwrap_ok r;
  _ ← assert_eq (buf_len buffer) 3;
  let large_data := fill 0 500 in
  let '(buffer, r) := write buffer large_data in
  _ ← unwrap_ok r;
  _ ← assert_eq (buf_len buffer) 500;
  assert (500 <=? capacity buffer).

Definition test_buffer_too_large : outcome unit :=
  buffer ← unwrap_ok (new 10 100);
  let too_large := fill 0 200 in
  let '(_, result) := write buffer too_large in
  assert (match result with Err (TooLarge _ _) => true | _ => false end).

Definition test_buffer_pool : outcome unit :=
  pool ← unwrap_ok (DynamicBufferPool.new 4 10 1000);
  '(index, pool) ← DynamicBufferPool.get_buffer pool;
  buffer ← (DynamicBufferPool.buffers pool).[index];
  let '(buffer, r) := write buffer [1; 2; 3] in
  _ ← unwrap_ok r;
  assert_eq (buf_len buffer) 3.
End tests.

Example dynamic_buffer_tests_pass :
  passes [@test_dynamic_buffer_growth vec_std; @test_buffer_too_large vec_std;
          @test_buffer_pool vec_std] = true.
Proof. vm_compute. reflexivity. Qed.
End dynamic_buffer_tests.
