(* ===== verification/Wal.v ===== *)
(** * Persistent storage ([src/src/storage/wal.rs], [src/src/storage/encrypted_store.rs])

    The write-ahead log as a file with a cursor, its entries and their replay, and
    the store that writes each message to the log and to the bi-temporal store.
    The crates [bincode] and [crc32fast] are parameters; the outcome of every
    write call is an argument.

    The source is read with two repairs, without which it does not type-check:
    [file.get_ref()] is the file itself ([File] has no [get_ref]), and calls of
    asynchronous functions in [open] are awaited.  [compact] and the commands around
    the encrypted volume are in [Storage]. *)

From S2P Require Import Prelude Protocol Bitemporal Snapshot.

(** ** Crates *)

(** [bincode::serialize] and [bincode::deserialize] at a type. *)
Class BincodeCrate (A : Type) := {
  serialize : A -> option bytes;
  deserialize : bytes -> option A
}.
Class BincodeLaws (A : Type) `{BincodeCrate A} : Prop := {
  deserialize_serialize : forall a b, serialize a = Some b -> deserialize b = Some a;
  serialize_bytes : forall a b, serialize a = Some b -> bytes_ok b
}.

(** [crc32fast::Hasher] on a whole buffer. *)
Class Crc32Crate := crc32 : bytes -> Z.
Class Crc32Laws `{Crc32Crate} : Prop := { crc32_u32 : forall d, in_u 32 (crc32 d) }.

(** ** Files *)

Module File.
Record t := mk { content : bytes; pos : Z }.

Definition seek_start (f : t) (n : Z) : t := mk (content f) n.
Definition seek_end (f : t) : t := mk (content f) (len (content f)).

(** Writing at the cursor; a gap after the end is filled with zeros. *)
Definition write (f : t) (d : bytes) : t :=
  mk (take (Z.to_nat (pos f)) (content f) ++ fill 0 (pos f - len (content f)) ++ d
      ++ drop (Z.to_nat (pos f + len d)) (content f))
     (pos f + len d).

(** [write_all]: [None] when the call succeeds, [Some n] when it fails after [n]
    bytes have been written. *)
Definition write_all (f : t) (d : bytes) (fault : option Z) : t * bool :=
  match fault with
  | None => (write f d, true)
  | Some n => (write f (take (Z.to_nat n) d), false)
  end.

(** What a [BufReader] made now can read. *)
Definition unread (f : t) : bytes := drop (Z.to_nat (pos f)) (content f).

(** The cursor after a reader has met the end of the file. *)
Definition read_to_end (f : t) : t := mk (content f) (Z.max (pos f) (len (content f))).
End File.

Definition WAL_MAGIC : bytes := [70; 76; 79; 65; 84; 87; 65; 76]. (* FLOATWAL *)
Definition WAL_VERSION : Z := 1.
Definition WAL_HEADER_SIZE : Z := 16.
Definition WAL_ENTRY_HEADER_SIZE : Z := 4.
Definition WAL_ENTRY_FOOTER_SIZE : Z := 4.

(** The texts inside the errors are left out. *)
Inductive WalError :=
| FileOpen | FileRead | FileWrite | FileSeek | Serialization | Deserialization
| InvalidHeader | CrcMismatch.

Module WalHeader.
Record t := mk { magic : bytes; version : Z; sequence : Z }.

Definition new (sequence : Z) : t := mk WAL_MAGIC WAL_VERSION sequence.

Definition to_bytes (h : t) : bytes := magic h ++ to_be 2 (version h) ++ to_be 8 (sequence h).

Definition from_bytes (bs : bytes) : outcome (option t) :=
  if len bs <? WAL_HEADER_SIZE then Ret None else
  magic ← bs.[0 ~> 8];
  if negb (bool_decide (magic = WAL_MAGIC)) then Ret None else
  v ← read_at bs 8 2;
  s ← read_at bs 10 8;
  Ret (Some (mk magic (from_be v) (from_be s))).
End WalHeader.

Module WalEntry.
Record t := mk { sequence : Z; message : Message; timestamp_ms : Z }.

#[global] Instance t_eq_dec : EqDecision t.
Proof. solve_decision. Defined.

(** [now] is the clock in milliseconds since the epoch; [unwrap] panics before it. *)
Definition new (now sequence : Z) (m : Message) : outcome t :=
  if now <? 0 then Panic else Ret (mk sequence m (wrap 64 now)).
End WalEntry.

Module Wal.

Record t := mk { file : File.t; sequence : Z }.

Section ops.
Context `{BincodeCrate WalEntry.t, Crc32Crate}.

Definition compute_crc32 (d : bytes) : Z := crc32 d.

(** The outcomes of an operation's I/O calls, by their number. *)
Implicit Types fault : Z -> option Z.

Definition is_new_file (f : File.t) : bool := len (File.content f) =? 0.

(** [write_header]: calls 0 (seek), 1 (write) and 2 (flush). *)
Definition write_header fault (f : File.t) : File.t * result unit WalError :=
  let header_bytes := WalHeader.to_bytes (WalHeader.new 0) in
  if bool_decide (is_Some (fault 0)) then (f, Err FileSeek) else
  let f := File.seek_start f 0 in
  let '(f, ok) := File.write_all f header_bytes (fault 1) in
  if negb ok then (f, Err FileWrite) else
  if bool_decide (is_Some (fault 2)) then (f, Err FileWrite) else
  (f, Ok tt).

(** The loop of [load_sequence]: the last sequence number seen.  Every turn
    consumes at least eight bytes. *)
Fixpoint scan_entries (fuel : nat) (reader : bytes) (sequence : Z) : result Z WalError :=
  match fuel with
  | O => Err FileRead
  | S fuel =>
      if len reader <? WAL_ENTRY_HEADER_SIZE then Ok sequence else
      let n := from_be (sub reader 0 4) in
      let reader := drop 4 reader in
      if len reader <? n then Err FileRead else
      let data := sub reader 0 n in
      let reader := drop (Z.to_nat n) reader in
      if len reader <? WAL_ENTRY_FOOTER_SIZE then Err FileRead else
      let stored_crc := from_be (sub reader 0 4) in
      let reader := drop 4 reader in
      if negb (compute_crc32 data =? stored_crc) then Err CrcMismatch else
      match deserialize data with
      | Some entry => scan_entries fuel reader (WalEntry.sequence entry)
      | None => scan_entries fuel reader sequence
      end
  end.

(** [load_sequence]: the number found. *)
Definition load_sequence (f : File.t) : outcome (result Z WalError) :=
  let reader := File.unread f in
  if len reader <? WAL_HEADER_SIZE then Ret (Err FileRead) else
  h ← WalHeader.from_bytes (sub reader 0 WAL_HEADER_SIZE);
  match h with
  | None => Ret (Err InvalidHeader)
  | Some header =>
      let reader := drop (Z.to_nat WAL_HEADER_SIZE) reader in
      Ret (scan_entries (S (length reader)) reader (WalHeader.sequence header))
  end.

(** [open] on the bytes of the file, empty when it has just been created. *)
Definition open fault (opened : bool) (content : bytes) : outcome (result t WalError) :=
  if negb opened then Ret (Err FileOpen) else
  let f := File.mk content 0 in
  let '(f, r) := if is_new_file f then write_header fault f else (f, Ok tt) in
  match r with
  | Err e => Ret (Err e)
  | Ok _ =>
      s <-! load_sequence f;
      Ret (Ok (mk (File.read_to_end f) s))
  end.

(** The bytes of one entry. *)
Definition record (data : bytes) : bytes :=
  to_be 4 (wrap 32 (len data)) ++ data ++ to_be 4 (compute_crc32 data).

(** [append]: calls 0 (seek), 1 to 3 (the writes), 4 (flush), 5 (sync). *)
Definition append fault (now : Z) (w : t) (m : Message) : outcome (t * result Z WalError) :=
  let seq := wrap 64 (sequence w + 1) in
  let w := mk (file w) seq in
  entry ← WalEntry.new now seq m;
  match serialize entry with
  | None => Ret (w, Err Serialization)
  | Some data =>
      let crc := compute_crc32 data in
      if bool_decide (is_Some (fault 0)) then Ret (w, Err FileSeek) else
      let f := File.seek_end (file w) in
      let '(f, ok) := File.write_all f (to_be 4 (wrap 32 (len data))) (fault 1) in
      if negb ok then Ret (mk f seq, Err FileWrite) else
      let '(f, ok) := File.write_all f data (fault 2) in
      if negb ok then Ret (mk f seq, Err FileWrite) else
      let '(f, ok) := File.write_all f (to_be 4 crc) (fault 3) in
      if negb ok then Ret (mk f seq, Err FileWrite) else
      if bool_decide (is_Some (fault 4)) then Ret (mk f seq, Err FileWrite) else
      if bool_decide (is_Some (fault 5)) then Ret (mk f seq, Err FileWrite) else
      Ret (mk f seq, Ok seq)
  end.

(** The loop of [replay]. *)
Fixpoint replay_entries (fuel : nat) (reader : bytes) : result (list Message) WalError :=
  match fuel with
  | O => Err FileRead
  | S fuel =>
      if len reader <? WAL_ENTRY_HEADER_SIZE then Ok [] else
      let n := from_be (sub reader 0 4) in
      let reader := drop 4 reader in
      if len reader <? n then Err FileRead else
      let data := sub reader 0 n in
      let reader := drop (Z.to_nat n) reader in
      if len reader <? WAL_ENTRY_FOOTER_SIZE then Err FileRead else
      let stored_crc := from_be (sub reader 0 4) in
      let reader := drop 4 reader in
      if negb (compute_crc32 data =? stored_crc) then replay_entries fuel reader else
      match deserialize data with
      | Some entry =>
          match replay_entries fuel reader with
          | Ok messages => Ok (WalEntry.message entry :: messages)
          | Err e => Err e
          end
      | None => replay_entries fuel reader
      end
  end.

Definition replay (w : t) : t * result (list Message) WalError :=
  let reader := File.unread (file w) in
  let w' := mk (File.read_to_end (file w)) (sequence w) in
  if len reader <? WAL_HEADER_SIZE then (w', Err FileRead) else
  let reader := drop (Z.to_nat WAL_HEADER_SIZE) reader in
  (w', replay_entries (S (length reader)) reader).

End ops.
End Wal.

(** ** The store on top of the log *)

Module EncryptedStore.

Definition STORAGE_MOUNT : string := "/mnt/encrypted_storage".

(** [files] are the files below the mount point.  Errors of the log are passed on
    as they are. *)
Record t := mk {
  wal : Wal.t;
  bitemporal : BiTemporalStore.t;
  files : gmap string bytes;
  mount_point : string
}.

Inductive StoreError :=
| CryptSetup | MountPoint | Mount | Unmount | StoreRead | StoreWrite | StoreSerialization
| StoreDeserialization | Sync | InWal (e : WalError).

Section ops.
Context `{BincodeCrate WalEntry.t, BincodeCrate SnapshotManager.Snapshot, Crc32Crate}.
Implicit Types fault : Z -> option Z.

(** [open]: the outcomes of the three preparatory steps, those of the log, and the
    bytes of the log file. *)
Definition open (crypt mount_pt mount : option StoreError) fault (opened : bool)
    (content : bytes) (files : gmap string bytes) : outcome (result t StoreError) :=
  match crypt with Some e => Ret (Err e) | None =>
  match mount_pt with Some e => Ret (Err e) | None =>
  match mount with Some e => Ret (Err e) | None =>
  r ← Wal.open fault opened content;
  match r with
  | Err e => Ret (Err (InWal e))
  | Ok w =>
      let '(w, r) := Wal.replay w in
      match r with
      | Err e => Ret (Err (InWal e))
      | Ok messages =>
          let b := foldl BiTemporalStore.store (BiTemporalStore.new 10000) messages in
          Ret (Ok (mk w b files STORAGE_MOUNT))
      end
  end end end end.

Definition store fault (now : Z) (s : t) (m : Message) : outcome (t * result unit StoreError) :=
  '(w, r) ← Wal.append fault now (wal s) m;
  match r with
  | Err e => Ret (mk w (bitemporal s) (files s) (mount_point s), Err (InWal e))
  | Ok _ => Ret (mk w (BiTemporalStore.store (bitemporal s) m) (files s) (mount_point s), Ok tt)
  end.

(** [store_batch], each message with the I/O outcomes and clock of its turn. *)
Fixpoint store_batch (s : t) (l : list ((Z -> option Z) * Z * Message))
  : outcome (t * result unit StoreError) :=
  match l with
  | [] => Ret (s, Ok tt)
  | (fault, now, m) :: l =>
      '(s, r) ← store fault now s m;
      match r with
      | Err e => Ret (s, Err e)
      | Ok _ => store_batch s l
      end
  end.

Definition snapshot_path (mount_point id : string) : string :=
  (mount_point +:+ "/snapshots/" +:+ id +:+ ".bin")%string.

(** [persist_snapshot]: calls 0 (directory), 1 (write) and 2 (sync). *)
Definition persist_snapshot fault (s : t) (snap : SnapshotManager.Snapshot)
  : t * result unit StoreError :=
  let path := snapshot_path (mount_point s) (SnapshotManager.id snap) in
  if bool_decide (is_Some (fault 0)) then (s, Err StoreWrite) else
  match serialize snap with
  | None => (s, Err StoreSerialization)
  | Some data =>
      match fault 1 with
      | Some n => (mk (wal s) (bitemporal s) (<[path := take (Z.to_nat n) data]> (files s))
                     (mount_point s), Err StoreWrite)
      | None =>
          let s := mk (wal s) (bitemporal s) (<[path := data]> (files s)) (mount_point s) in
          if bool_decide (is_Some (fault 2)) then (s, Err Sync) else (s, Ok tt)
      end
  end.

Definition load_snapshot (readable : bool) (s : t) (snapshot_id : string)
  : result (option SnapshotManager.Snapshot) StoreError :=
  match files s !! snapshot_path (mount_point s) snapshot_id with
  | None => Ok None
  | Some data =>
      if negb readable then Err StoreRead else
      match deserialize data with
      | None => Err StoreDeserialization
      | Some snap => Ok (Some snap)
      end
  end.
End ops.
End EncryptedStore.

(** ** Lemmas *)

Section lemmas.
Context `{BincodeCrate WalEntry.t, !BincodeLaws WalEntry.t, Crc32Crate, !Crc32Laws}.

Lemma drop_to_be n v r : drop n (to_be n v ++ r) = r.
Proof.
  rewrite drop_app_ge by (unfold to_be; rewrite length_reverse, to_le_length; lia).
  unfold to_be. by rewrite length_reverse, to_le_length, Nat.sub_diag, drop_0.
Qed.

Lemma drop_len (d r : bytes) : drop (Z.to_nat (len d)) (d ++ r) = r.
Proof. unfold len. rewrite Nat2Z.id. apply drop_app_length. Qed.

(** One turn of the loops on an intact entry. *)
Lemma replay_record f d rest :
  len d < 2 ^ 32 ->
  Wal.replay_entries (S f) (Wal.record d ++ rest) =
  match deserialize d with
  | Some entry =>
      match Wal.replay_entries f rest with
      | Ok ms => Ok (WalEntry.message entry :: ms)
      | Err e => Err e
      end
  | None => Wal.replay_entries f rest
  end.
Proof.
  intros Hd. cbn [Wal.replay_entries]. pose proof (len_nonneg d). pose proof (len_nonneg rest).
  unfold Wal.record, WAL_ENTRY_HEADER_SIZE, WAL_ENTRY_FOOTER_SIZE. rewrite <- !app_assoc.
  rewrite (proj2 (Z.ltb_ge _ 4)) by len_solve. rewrite sub_app_l by len_solve.
  rewrite from_to_be_small, wrap_small by (try apply wrap_range; unfold in_u; lia).
  rewrite drop_to_be, (proj2 (Z.ltb_ge _ (len d))) by len_solve.
  rewrite sub_app_l, drop_len by done. rewrite (proj2 (Z.ltb_ge _ 4)) by len_solve.
  rewrite sub_app_l by len_solve. unfold Wal.compute_crc32.
  rewrite from_to_be_small, Z.eqb_refl by apply crc32_u32. by rewrite drop_to_be.
Qed.

(** The entries of a list of serialised data. *)
Lemma replay_records f es ds rest :
  Forall2 (fun e d => serialize e = Some d /\ len d < 2 ^ 32) es ds -> (length ds < f)%nat ->
  Wal.replay_entries f (concat (map Wal.record ds) ++ rest) =
  match Wal.replay_entries (f - length ds) rest with
  | Ok ms => Ok (map WalEntry.message es ++ ms)
  | Err e => Err e
  end.
Proof.
  intros Hed. revert f. induction Hed as [|e d es ds [Hs Hl] _ IH]; intros f Hf.
  { cbn [map concat app length]. rewrite Nat.sub_0_r. by destruct (Wal.replay_entries f rest). }
  destruct f as [|f]; [simpl in Hf; lia|]. cbn [map concat length] in *.
  rewrite <- app_assoc, replay_record, (deserialize_serialize e d Hs), IH by (done || lia).
  cbn [Nat.sub app]. by destruct (Wal.replay_entries _ rest).
Qed.
(** An entry cut after its length field stops the loop with an error. *)
Lemma replay_torn f d k :
  bytes_ok d -> len d < 2 ^ 32 -> 4 <= k < len (Wal.record d) ->
  Wal.replay_entries (S f) (truncate (Wal.record d) k) = Err FileRead.
Proof.
  intros Hok Hd Hk. cbn [Wal.replay_entries].
  assert (Hr : exists t, truncate (Wal.record d) k = to_be 4 (wrap 32 (len d)) ++ t /\
    len t < len d + 4).
  { unfold Wal.record in *. exists (truncate (d ++ to_be 4 (Wal.compute_crc32 d)) (k - 4)).
    len_simpl. unfold truncate. rewrite take_app_ge; [|unfold to_be; rewrite length_reverse, to_le_length; lia].
    replace (length (to_be 4 (wrap 32 (len d)))) with 4%nat by done.
    replace (Z.to_nat k - 4)%nat with (Z.to_nat (k - 4)) by lia. split; [done|].
    unfold len at 1. rewrite length_take. lia. }
  destruct Hr as (t & -> & Ht). pose proof (len_nonneg t). pose proof (len_nonneg d).
  unfold WAL_ENTRY_HEADER_SIZE, WAL_ENTRY_FOOTER_SIZE.
  rewrite (proj2 (Z.ltb_ge _ 4)) by len_solve. rewrite sub_app_l by len_solve.
  rewrite from_to_be_small, wrap_small by (try apply wrap_range; unfold in_u; lia).
  rewrite drop_to_be. destruct (len t <? len d) eqn:E; [done|]. breflect.
  rewrite (proj2 (Z.ltb_lt _ 4)); [done|]. unfold len in *. rewrite length_drop. lia.
Qed.

(** Appending without faults. *)
Lemma write_at_end f d :
  File.pos f = len (File.content f) ->
  File.write f d = File.mk (File.content f ++ d) (len (File.content f) + len d).
Proof.
  intros Hp. unfold File.write. rewrite Hp, Z.sub_diag. f_equal.
  unfold len. rewrite Nat2Z.id, take_ge, drop_ge by lia. by rewrite app_nil_r.
Qed.

Definition no_fault : Z -> option Z := fun _ => None.

Lemma append_record now w m d :
  0 <= now -> serialize (WalEntry.mk (wrap 64 (Wal.sequence w + 1)) m (wrap 64 now)) = Some d ->
  Wal.append no_fault now w m =
  Ret (Wal.mk (File.mk (File.content (Wal.file w) ++ Wal.record d)
                 (len (File.content (Wal.file w) ++ Wal.record d)))
         (wrap 64 (Wal.sequence w + 1)), Ok (wrap 64 (Wal.sequence w + 1))).
Proof.
  intros Hn Hs. unfold Wal.append, WalEntry.new. rewrite (proj2 (Z.ltb_ge _ 0)) by lia. mstep.
  rewrite Hs. unfold no_fault. cbn [bool_decide File.write_all negb].
  rewrite (write_at_end (File.seek_end _)) by done. cbn [File.content File.seek_end Wal.file].
  rewrite (write_at_end (File.mk _ _)) by (cbn [File.pos File.content]; by rewrite len_app).
  cbn [File.content].
  rewrite (write_at_end (File.mk _ _)) by (cbn [File.pos File.content]; by rewrite !len_app).
  cbn [File.content].
  unfold Wal.record. rewrite <- !app_assoc, !len_app. do 4 f_equal. lia.
Qed.

(** [replay] starts at the cursor, which [append] leaves at the end. *)
Lemma replay_at_end w :
  File.pos (Wal.file w) = len (File.content (Wal.file w)) ->
  Wal.replay w = (Wal.mk (File.read_to_end (Wal.file w)) (Wal.sequence w), Err FileRead).
Proof.
  intros Hp. unfold Wal.replay, File.unread. rewrite Hp.
  unfold len at 1. rewrite drop_ge; [done|]. unfold len. lia.
Qed.
End lemmas.

(** The entries a sequence of appends writes. *)
Fixpoint entries_from (seq : Z) (l : list (Z * Message)) : list WalEntry.t :=
  match l with
  | [] => []
  | (now, m) :: l => WalEntry.mk (wrap 64 (seq + 1)) m (wrap 64 now) :: entries_from (wrap 64 (seq + 1)) l
  end.

(** Appends, one after the other, without faults. *)
Fixpoint append_all `{BincodeCrate WalEntry.t, Crc32Crate} (w : Wal.t) (l : list (Z * Message))
  : outcome (Wal.t * list (result Z WalError)) :=
  match l with
  | [] => Ret (w, [])
  | (now, m) :: l =>
      '(w, r) ← Wal.append no_fault now w m;
      '(w, rs) ← append_all w l;
      Ret (w, r :: rs)
  end.

Lemma entries_messages seq l : map WalEntry.message (entries_from seq l) = map snd l.
Proof.
  revert seq. induction l as [|[now m] l IH]; intros seq; [done|]. cbn [entries_from map].
  by rewrite IH.
Qed.

Lemma append_all_records `{BincodeCrate WalEntry.t, !BincodeLaws WalEntry.t, Crc32Crate} w l ds :
  Forall (fun x : Z * Message => 0 <= x.1) l ->
  Forall2 (fun e d => serialize e = Some d /\ len d < 2 ^ 32)
    (entries_from (Wal.sequence w) l) ds ->
  exists w', append_all w l
    = Ret (w', map (fun e => Ok (WalEntry.sequence e)) (entries_from (Wal.sequence w) l)) /\
    File.content (Wal.file w') = File.content (Wal.file w) ++ concat (map Wal.record ds) /\
    (l <> [] \/ File.pos (Wal.file w) = len (File.content (Wal.file w)) ->
     File.pos (Wal.file w') = len (File.content (Wal.file w'))).
Proof.
  intros Hn. revert w ds. induction Hn as [|[now m] l Hnow _ IH]; intros w ds Hds.
  { inversion_clear Hds. exists w. cbn. rewrite app_nil_r. naive_solver. }
  cbn [entries_from] in Hds. inversion_clear Hds as [|e d es ds' [Hs Hl] Hds']. simpl in Hnow.
  cbn [append_all]. rewrite (append_record now w m d) by done. mstep.
  edestruct IH as (w' & -> & Hc & Hp); [exact Hds'|]. mstep. exists w'.
  cbn [Wal.file File.content Wal.sequence] in *. split; [done|].
  cbn [map concat]. rewrite app_assoc. split; [done|]. intros _. apply Hp. by right.
Qed.

(** ** Theorems *)

Section theorems.
Context `{BincodeCrate WalEntry.t, !BincodeLaws WalEntry.t, Crc32Crate, !Crc32Laws}.

(** C24: Messages appended to a log come back.  A sequence of appends adds exactly
    its entries at the end of the file, numbered consecutively, and the replay
    loop started at the first of them returns the messages in order; up to three
    stray bytes at the end are ignored. *)
Theorem wal_append_replay w l ds rest :
  Forall (fun x : Z * Message => 0 <= x.1) l ->
  Forall2 (fun e d => serialize e = Some d /\ len d < 2 ^ 32)
    (entries_from (Wal.sequence w) l) ds ->
  len rest < 4 ->
  exists w' log, append_all w l
    = Ret (w', map (fun e => Ok (WalEntry.sequence e)) (entries_from (Wal.sequence w) l)) /\
    File.content (Wal.file w') = File.content (Wal.file w) ++ log /\
    Wal.replay_entries (S (length (log ++ rest))) (log ++ rest) = Ok (map snd l).
Proof.
  intros Hn Hds Hr. destruct (append_all_records w l ds Hn Hds) as (w' & Ha & Hc & _).
  exists w', (concat (map Wal.record ds)). split; [done|]. split; [done|].
  assert (Hlen : (length ds <= length (concat (map Wal.record ds)))%nat).
  { clear. induction ds as [|d ds IH]; [done|]. cbn [map concat length].
    rewrite length_app. assert (1 <= length (Wal.record d))%nat; [|lia].
    unfold Wal.record. rewrite length_app. change (length (to_be 4 _)) with 4%nat. lia. }
  rewrite (replay_records _ (entries_from (Wal.sequence w) l)) by (rewrite ?length_app; done || lia).
  rewrite entries_messages.
  destruct (S (length (concat (map Wal.record ds) ++ rest)) - length ds)%nat eqn:E;
    [rewrite length_app in E; lia|].
  cbn [Wal.replay_entries]. unfold WAL_ENTRY_HEADER_SIZE.
  rewrite (proj2 (Z.ltb_lt _ 4)) by done. by rewrite app_nil_r.
Qed.

(** A torn last write loses the whole log (a defect: the log is meant to
    survive power failures).  When the last entry is cut anywhere after its length
    field, replay returns an error and none of the intact entries before it. *)
Theorem wal_torn_entry es ds d k f :
  Forall2 (fun e d => serialize e = Some d /\ len d < 2 ^ 32) es ds ->
  bytes_ok d -> len d < 2 ^ 32 -> 4 <= k < len (Wal.record d) -> (length ds < f)%nat ->
  Wal.replay_entries f (concat (map Wal.record ds) ++ truncate (Wal.record d) k) = Err FileRead.
Proof.
  intros Hed Hok Hd Hk Hf. rewrite (replay_records _ es) by done.
  destruct (f - length ds)%nat eqn:E; [lia|]. by rewrite replay_torn.
Qed.

(** No file is opened. *)
Lemma open_not_Ok fault opened content w : Wal.open fault opened content <> Ret (Ok w).
Proof.
  enough (Hopen : match Wal.open fault opened content with Ret (Ok _) => False | _ => True end)
    by (intros E; by rewrite E in Hopen).
  unfold Wal.open. destruct opened; [cbn [negb]|done].
  unfold Wal.is_new_file. cbn [File.content]. destruct (len content =? 0) eqn:E.
  - breflect. apply len_0_nil in E as ->. unfold Wal.write_header.
    destruct (fault 0); [done|]. cbn [bool_decide]. unfold File.write_all.
    destruct (fault 1); [done|]. cbn [negb]. by destruct (fault 2).
  - unfold Wal.load_sequence, File.unread. cbn [File.content File.pos]. rewrite drop_0.
    unfold WAL_HEADER_SIZE. destruct (len content <? 16) eqn:E16; [done|]. breflect.
    unfold WalHeader.from_bytes, WAL_HEADER_SIZE. rewrite len_sub by lia. cbn [Z.ltb Z.compare].
    assert (Hl : len (sub content 0 16) = 16) by len_solve.
    rewrite (slice_Ret _ 0 8) by lia. mstep. destruct (negb _); [done|].
    rewrite (read_at_Ret _ 8 2) by lia. mstep. by rewrite (read_at_Panic _ 10 8) by lia.
Qed.

(** [Wal::open] never succeeds (a defect).  Whatever the file holds and
    however the I/O goes, it returns an error or panics: in a new file the header
    is looked for after itself, and the 16 bytes read of an existing header are
    too short for its 18-byte layout. *)
Theorem wal_open_never_succeeds fault opened content :
  match Wal.open fault opened content with Ret (Ok _) => False | _ => True end.
Proof.
  destruct (Wal.open fault opened content) as [[w|e]|] eqn:E; [|done..]. by apply open_not_Ok in E.
Qed.

(** A log that has been written to cannot be replayed (a defect): [replay]
    reads from the file's cursor, which an append leaves at the end, and returns
    an error although the entries are there. *)
Theorem wal_replay_after_append w l ds :
  l <> [] -> Forall (fun x : Z * Message => 0 <= x.1) l ->
  Forall2 (fun e d => serialize e = Some d /\ len d < 2 ^ 32)
    (entries_from (Wal.sequence w) l) ds ->
  exists w' rs, append_all w l = Ret (w', rs) /\ (Wal.replay w').2 = Err FileRead.
Proof.
  intros Hl Hn Hds. destruct (append_all_records w l ds Hn Hds) as (w' & Ha & Hc & Hp).
  eexists w', _. split; [done|]. rewrite replay_at_end by (apply Hp; by left). done.
Qed.
End theorems.

(** *** The store *)

Lemma string_app_length s t :
  String.length (s +:+ t)%string = (String.length s + String.length t)%nat.
Proof.
  induction s as [|c s IH]; [done|].
  change (S (String.length (s +:+ t)) = S (String.length s + String.length t))%nat.
  by rewrite IH.
Qed.

Lemma string_app_inv_tail t s1 s2 : (s1 +:+ t)%string = (s2 +:+ t)%string -> s1 = s2.
Proof.
  revert s2. induction s1 as [|c s1 IH]; intros [|c' s2] E; [done| | |].
  - apply (f_equal String.length) in E. rewrite !string_app_length in E. cbn in E. lia.
  - apply (f_equal String.length) in E. rewrite !string_app_length in E. cbn in E. lia.
  - cbn in E. injection E as -> E. f_equal. by apply IH.
Qed.

Section store.
Context `{BincodeCrate WalEntry.t, !BincodeLaws WalEntry.t, Crc32Crate}.
Context `{BincodeCrate SnapshotManager.Snapshot, !BincodeLaws SnapshotManager.Snapshot}.

(** An append adds its whole record when it succeeds, and at most a part of it when
    it fails. *)
Lemma append_cases fault now w m w' r :
  Wal.append fault now w m = Ret (w', r) ->
  Wal.sequence w' = wrap 64 (Wal.sequence w + 1) /\
  match r with
  | Ok seq => seq = Wal.sequence w' /\ exists d,
      serialize (WalEntry.mk seq m (wrap 64 now)) = Some d /\
      File.content (Wal.file w') = File.content (Wal.file w) ++ Wal.record d
  | Err _ => exists torn, File.content (Wal.file w') = File.content (Wal.file w) ++ torn
  end.
Proof.
  unfold Wal.append, WalEntry.new. destruct (now <? 0); [done|]. mstep.
  destruct (serialize _) as [d|] eqn:Hs; cycle 1.
  { intros [= <- <-]. split; [done|]. exists []. by rewrite app_nil_r. }
  case_bool_decide. { intros [= <- <-]. split; [done|]. exists []. by rewrite app_nil_r. }
  assert (Hw : forall f x o, File.pos f = len (File.content f) ->
    exists y, (File.write_all f x o).1 = File.mk (File.content f ++ y) (len (File.content f ++ y))
      /\ ((File.write_all f x o).2 = true -> y = x)).
  { intros f x [n|] Hp; cbn [File.write_all fst snd]; rewrite write_at_end by done;
      eexists; rewrite len_app; done. }
  do 3 (match goal with |- context [File.write_all ?f ?x ?o] =>
    destruct (Hw f x o) as (?y & Ey & Hy); [done|];
    destruct (File.write_all f x o) as [? []]; cbn [fst snd negb] in Ey, Hy |- *; subst;
    [specialize (Hy eq_refl); subst|
     intros [= <- <-]; split; [done|]; cbn [Wal.file File.content File.seek_end];
     rewrite <- ?app_assoc; by eexists] end).
  assert (Hall : forall r0, exists torn, File.content (Wal.file (Wal.mk (File.mk ((((File.content (Wal.file w)
    ++ to_be 4 (wrap 32 (len d))) ++ d) ++ to_be 4 (Wal.compute_crc32 d))) r0) 0)) = File.content (Wal.file w) ++ torn).
  { intros. cbn. rewrite <- !app_assoc. by eexists. }
  cbn [Wal.file File.content File.seek_end].
  case_bool_decide; [intros [= <- <-]; split; [done|]; apply (Hall 0)|].
  case_bool_decide; [intros [= <- <-]; split; [done|]; apply (Hall 0)|].
  intros [= <- <-]. split; [done|]. split; [done|]. exists d. split; [done|].
  cbn. unfold Wal.record. by rewrite <- !app_assoc.
Qed.

Lemma store_cases fault now s m s' r :
  EncryptedStore.store fault now s m = Ret (s', r) ->
  Wal.sequence (EncryptedStore.wal s') = wrap 64 (Wal.sequence (EncryptedStore.wal s) + 1) /\
  match r with
  | Ok _ => EncryptedStore.bitemporal s' = BiTemporalStore.store (EncryptedStore.bitemporal s) m /\
      exists d, serialize (WalEntry.mk (Wal.sequence (EncryptedStore.wal s')) m (wrap 64 now)) = Some d /\
      File.content (Wal.file (EncryptedStore.wal s'))
        = File.content (Wal.file (EncryptedStore.wal s)) ++ Wal.record d
  | Err _ => EncryptedStore.bitemporal s' = EncryptedStore.bitemporal s /\
      exists torn, File.content (Wal.file (EncryptedStore.wal s'))
        = File.content (Wal.file (EncryptedStore.wal s)) ++ torn
  end.
Proof.
  unfold EncryptedStore.store. intros Hs. apply bind_Ret in Hs as ([w r'] & Ha & Hs).
  apply append_cases in Ha as [Hq Ha]. destruct r' as [q|e]; inv_ret; cbn; (split; [done|]).
  - destruct Ha as (-> & d & Hd & Hc). split; [done|]. by exists d.
  - split; [done|]. done.
Qed.

Abbreviation turn := ((Z -> option Z) * Z * Message)%type.
Definition turn_entry (x : turn) : Z * Message := (x.1.2, x.2).

Lemma store_batch_cases s l s' r :
  EncryptedStore.store_batch s l = Ret (s', r) ->
  exists k ds torn, (k <= length l)%nat /\
    EncryptedStore.bitemporal s'
      = foldl BiTemporalStore.store (EncryptedStore.bitemporal s) (map snd (take k l)) /\
    Forall2 (fun e d => serialize e = Some d)
      (entries_from (Wal.sequence (EncryptedStore.wal s)) (map turn_entry (take k l))) ds /\
    File.content (Wal.file (EncryptedStore.wal s'))
      = File.content (Wal.file (EncryptedStore.wal s)) ++ concat (map Wal.record ds) ++ torn /\
    match r with Ok _ => k = length l /\ torn = [] | Err _ => (k < length l)%nat end.
Proof.
  revert s. induction l as [|[[fault now] m] l IH]; intros s Hb.
  { cbn in Hb. inv_ret. exists 0%nat, [], []. cbn. by rewrite app_nil_r. }
  cbn [EncryptedStore.store_batch] in Hb. apply bind_Ret in Hb as ([s1 r1] & Hs & Hb).
  apply store_cases in Hs as [Hq Hs]. destruct r1 as [u|e].
  - destruct Hs as (Hbt & d & Hd & Hc).
    destruct (IH s1 Hb) as (k & ds & torn & Hk & Hm & Hds & Hc' & Hr).
    exists (S k), (d :: ds), torn. cbn [take map foldl length concat turn_entry entries_from].
    rewrite Hm, Hbt, Hc', Hc, <- !app_assoc. rewrite Hq in Hd, Hds.
    split_and!; [lia|done|by constructor|done|]. destruct r; naive_solver lia.
  - inv_ret. destruct Hs as (Hbt & torn & Hc). exists 0%nat, [], torn.
    cbn [take map foldl length concat entries_from app]. rewrite Hc.
    split_and!; [lia|done|constructor|done|lia].
Qed.

(** C16: Storing is write-ahead and in order.  Whatever I/O calls fail during a
    batch, the messages that reached the in-memory store are a prefix of it; the
    file has grown by exactly their entries, numbered consecutively, followed by
    nothing when the batch succeeded and otherwise by what the failed append left;
    and the batch succeeds only when all of it is stored.  That is one append per
    message: the comment of [store_batch] promises a single write, with which a
    failed batch would leave no stored prefix. *)
Theorem store_write_ahead s l s' r :
  EncryptedStore.store_batch s l = Ret (s', r) ->
  exists k ds torn,
    EncryptedStore.bitemporal s'
      = foldl BiTemporalStore.store (EncryptedStore.bitemporal s) (map snd (take k l)) /\
    Forall2 (fun e d => serialize e = Some d)
      (entries_from (Wal.sequence (EncryptedStore.wal s)) (map turn_entry (take k l))) ds /\
    File.content (Wal.file (EncryptedStore.wal s'))
      = File.content (Wal.file (EncryptedStore.wal s)) ++ concat (map Wal.record ds) ++ torn /\
    match r with Ok _ => k = length l /\ torn = [] | Err _ => (k < length l)%nat end.
Proof.
  intros Hb. destruct (store_batch_cases s l s' r Hb) as (k & ds & torn & _ & H').
  by exists k, ds, torn.
Qed.

(** A snapshot that was persisted is loaded back, and the snapshots under other
    identifiers are unaffected. *)
Theorem snapshot_persist_load fault s snap s' :
  EncryptedStore.persist_snapshot fault s snap = (s', Ok tt) ->
  EncryptedStore.load_snapshot true s' (SnapshotManager.id snap) = Ok (Some snap) /\
  forall i, i <> SnapshotManager.id snap ->
    EncryptedStore.load_snapshot true s' i = EncryptedStore.load_snapshot true s i.
Proof.
  unfold EncryptedStore.persist_snapshot. case_bool_decide; [done|].
  destruct (serialize snap) as [d|] eqn:Hd; [|done].
  destruct (fault 1); [done|]. case_bool_decide; [done|]. intros [= <-].
  unfold EncryptedStore.load_snapshot. cbn [EncryptedStore.files EncryptedStore.mount_point].
  rewrite lookup_insert_eq. cbn [negb]. rewrite (deserialize_serialize snap d Hd).
  split; [done|]. intros i Hi. rewrite lookup_insert_ne; [done|].
  unfold EncryptedStore.snapshot_path. intros E. apply Hi. symmetry.
  do 2 apply (inj (String.app _)) in E. by apply string_app_inv_tail in E.
Qed.
End store.

(** ** Witnesses *)

(** A codec that numbers a fixed list of values. *)
Definition bincode_table {A} `{EqDecision A} (table : list A) : BincodeCrate A := {|
  serialize a := match list_find (fun x => x = a) table with
                 | Some (i, _) => Some (to_be 4 (Z.of_nat i)) | None => None end;
  deserialize b := table !! Z.to_nat (from_be b)
|}.

Lemma bincode_table_laws {A} `{EqDecision A} (table : list A) :
  len table < 2 ^ 32 -> @BincodeLaws A (bincode_table table).
Proof.
  intros Ht. constructor; cbn [serialize deserialize bincode_table]; intros a b Hs; destruct (list_find _ table) as [[i x]|] eqn:E;
    simplify_eq; [|apply to_be_ok].
  apply list_find_Some in E as (Hi & -> & _). pose proof (lookup_lt_Some _ _ _ Hi).
  rewrite from_to_be_small by (unfold in_u, len in *; lia). by rewrite Nat2Z.id.
Qed.

Definition sample_message : Message := mkMessage IridiumSBD [1; 2] Operational 3 4 5.
Definition sample_entry : WalEntry.t := WalEntry.mk 1 sample_message 7.
Definition bincode_entries : BincodeCrate WalEntry.t := bincode_table [sample_entry].
Definition crc32_sum : Crc32Crate := fun d => wrap 32 (foldl Z.add 0 d).

Lemma bincode_entries_laws : @BincodeLaws WalEntry.t bincode_entries.
Proof. by apply bincode_table_laws. Qed.
Lemma crc32_sum_laws : @Crc32Laws crc32_sum.
Proof. constructor. intros d. by apply wrap_range. Qed.

Definition empty_wal : Wal.t := Wal.mk (File.mk [] 0) 0.

Lemma wal_append_replay_witness :
  exists w' log, @append_all bincode_entries crc32_sum empty_wal [(7, sample_message)]
    = Ret (w', [Ok 1]) /\
    File.content (Wal.file w') = log /\
    @Wal.replay_entries bincode_entries crc32_sum (S (length (log ++ [0]))) (log ++ [0])
    = Ok [sample_message].
Proof.
  apply (@wal_append_replay bincode_entries bincode_entries_laws crc32_sum crc32_sum_laws
    empty_wal [(7, sample_message)] [[0; 0; 0; 0]] [0]); [by repeat constructor| |done].
  constructor; [|constructor]. split; [reflexivity|reflexivity].
Defined.

Lemma wal_torn_entry_witness :
  @Wal.replay_entries bincode_entries crc32_sum 2
    (@Wal.record crc32_sum [0; 0; 0; 0] ++ truncate (@Wal.record crc32_sum [9]) 6) = Err FileRead.
Proof.
  apply (@wal_torn_entry bincode_entries bincode_entries_laws crc32_sum crc32_sum_laws
    [sample_entry] [[0; 0; 0; 0]] [9] 6 2); [|by repeat constructor|done|done|cbn; lia].
  constructor; [|constructor]. split; reflexivity.
Defined.

Lemma wal_replay_after_append_witness :
  exists w' rs, @append_all bincode_entries crc32_sum empty_wal [(7, sample_message)]
    = Ret (w', rs) /\ (@Wal.replay bincode_entries crc32_sum w').2 = Err FileRead.
Proof.
  apply (@wal_replay_after_append bincode_entries bincode_entries_laws crc32_sum
    empty_wal [(7, sample_message)] [[0; 0; 0; 0]]); [done|by repeat constructor|].
  constructor; [|constructor]. split; reflexivity.
Defined.

Lemma wal_open_never_succeeds_witness :
  match @Wal.open bincode_entries crc32_sum no_fault true [] with
  | Ret (Ok _) => False | _ => True end.
Proof.
  apply (@wal_open_never_succeeds bincode_entries crc32_sum no_fault true []).
Defined.

Definition sample_snapshot : SnapshotManager.Snapshot :=
  SnapshotManager.mkSnapshot "a" [sample_message] IridiumSBD 1 2 3.
Definition bincode_snapshots : BincodeCrate SnapshotManager.Snapshot :=
  @bincode_table _ SnapshotManager.Snapshot_eq_dec [sample_snapshot].

Lemma bincode_snapshots_laws : @BincodeLaws SnapshotManager.Snapshot bincode_snapshots.
Proof. by apply bincode_table_laws. Qed.

Definition empty_store : EncryptedStore.t :=
  EncryptedStore.mk empty_wal (BiTemporalStore.new 10) ∅ EncryptedStore.STORAGE_MOUNT.

Lemma store_write_ahead_witness :
  exists s' k ds torn,
    @EncryptedStore.store_batch bincode_entries crc32_sum empty_store
      [(no_fault, 7, sample_message)] = Ret (s', Ok tt) /\
    File.content (Wal.file (EncryptedStore.wal s'))
      = concat (map (@Wal.record crc32_sum) ds) ++ torn /\ k = 1%nat /\ torn = [].
Proof.
  destruct (@EncryptedStore.store_batch bincode_entries crc32_sum empty_store
      [(no_fault, 7, sample_message)]) as [[s' r]|] eqn:E; [|vm_compute in E; discriminate E].
  assert (r = Ok tt) as -> by (vm_compute in E; congruence).
  destruct (@store_write_ahead bincode_entries crc32_sum empty_store
    [(no_fault, 7, sample_message)] s' (Ok tt) E) as (k & ds & torn & _ & _ & Hc & Hk & Ht).
  by exists s', k, ds, torn.
Defined.

Lemma snapshot_persist_load_witness :
  exists s', @EncryptedStore.persist_snapshot bincode_snapshots no_fault empty_store sample_snapshot
    = (s', Ok tt) /\
  @EncryptedStore.load_snapshot bincode_snapshots true s' "a" = Ok (Some sample_snapshot).
Proof.
  destruct (@EncryptedStore.persist_snapshot bincode_snapshots no_fault empty_store sample_snapshot)
    as [s' r] eqn:E. assert (r = Ok tt) as -> by (vm_compute in E; congruence).
  exists s'. split; [done|].
  apply (@snapshot_persist_load bincode_snapshots bincode_snapshots_laws no_fault empty_store
    sample_snapshot s' E).
Defined.
