(* ===== verification/StrOps.v ===== *)
(** * String operations of the standard library

    Strings are their UTF-8 bytes.  [String::from_utf8_lossy], [str::find],
    [str::contains], [str::split] at an ASCII character, [str::trim] and
    [str::parse::<f64>], as the modem and provisioning code uses them. *)

From Stdlib Require Import SpecFloat.
From S2P Require Import Prelude Float64 Utf8 Text.

(** ** Lossy decoding *)

(** The number of bytes a leading byte announces; none for an invalid one. *)
Definition char_width (b : Z) : nat :=
  if in_range 0 0x7F b then 1
  else if in_range 0xC2 0xDF b then 2
  else if in_range 0xE0 0xEF b then 3
  else if in_range 0xF0 0xF4 b then 4
  else 0.

(** The second bytes allowed after a leading byte of three or four. *)
Definition second_ok (b0 b1 : Z) : bool :=
  if b0 =? 0xE0 then in_range 0xA0 0xBF b1
  else if b0 =? 0xED then in_range 0x80 0x9F b1
  else if b0 =? 0xF0 then in_range 0x90 0xBF b1
  else if b0 =? 0xF4 then in_range 0x80 0x8F b1
  else is_cont b1.

(** Whether the text starts with a character, and the length of that character or of
    the invalid sequence (the longest prefix of a character). *)
Definition utf8_step (s : bytes) : bool * nat :=
  match s with
  | [] => (false, 0%nat)
  | b0 :: r =>
      let g i := default 0 (r !! i) in
      match char_width b0 with
      | 1%nat => (true, 1%nat)
      | 2%nat => if is_cont (g 0%nat) then (true, 2%nat) else (false, 1%nat)
      | 3%nat =>
          if negb (second_ok b0 (g 0%nat)) then (false, 1%nat)
          else if is_cont (g 1%nat) then (true, 3%nat) else (false, 2%nat)
      | 4%nat =>
          if negb (second_ok b0 (g 0%nat)) then (false, 1%nat)
          else if negb (is_cont (g 1%nat)) then (false, 2%nat)
          else if is_cont (g 2%nat) then (true, 4%nat) else (false, 3%nat)
      | _ => (false, 1%nat)
      end
  end.

(** U+FFFD *)
Definition REPLACEMENT : bytes := [0xEF; 0xBF; 0xBD].

Fixpoint lossy (fuel : nat) (s : bytes) : bytes :=
  match fuel, s with
  | O, _ => []
  | _, [] => []
  | S fuel, _ =>
      let '(ok, n) := utf8_step s in
      (if ok then take n s else REPLACEMENT) ++ lossy fuel (drop n s)
  end.

(** Every step consumes at least one byte. *)
Definition from_utf8_lossy (s : bytes) : bytes := lossy (length s) s.

(** ** Searching *)

Fixpoint is_prefix (p s : bytes) : bool :=
  match p, s with
  | [], _ => true
  | x :: p, y :: s => (x =? y) && is_prefix p s
  | _, [] => false
  end.

(** [s.find(p)]: the byte index of the first occurrence. *)
Fixpoint find (p s : bytes) : option Z :=
  if is_prefix p s then Some 0 else
  match s with
  | [] => None
  | _ :: s => Z.succ <$> find p s
  end.

Definition contains (s p : bytes) : bool := match find p s with Some _ => true | None => false end.

(** [s.split(c)] for an ASCII character. *)
Fixpoint split_on (c : Z) (s : bytes) : list bytes :=
  match s with
  | [] => [[]]
  | x :: s =>
      if x =? c then [] :: split_on c s
      else match split_on c s with
           | [] => [[x]]
           | w :: ws => (x :: w) :: ws
           end
  end.

(** ** Trimming *)

(** The encodings of the characters with the Unicode property [White_Space]. *)
Definition white_space : list bytes :=
  map (fun b => [b]) [9; 10; 11; 12; 13; 32]
  ++ [[0xC2; 0x85]; [0xC2; 0xA0]; [0xE1; 0x9A; 0x80]]
  ++ map (fun b => [0xE2; 0x80; b])
       [0x80; 0x81; 0x82; 0x83; 0x84; 0x85; 0x86; 0x87; 0x88; 0x89; 0x8A; 0xA8; 0xA9; 0xAF]
  ++ [[0xE2; 0x81; 0x9F]; [0xE3; 0x80; 0x80]].

(** Removes words of [ws] from the front. *)
Fixpoint strip (ws : list bytes) (fuel : nat) (s : bytes) : bytes :=
  match fuel with
  | O => s
  | S fuel =>
      match List.find (fun w => is_prefix w s) ws with
      | Some w => strip ws fuel (drop (length w) s)
      | None => s
      end
  end.

Definition trim_start (s : bytes) : bytes := strip white_space (length s) s.
Definition trim_end (s : bytes) : bytes :=
  reverse (strip (map reverse white_space) (length s) (reverse s)).
Definition trim (s : bytes) : bytes := trim_end (trim_start s).

(** ** Decimal fractions *)

Definition is_digit (c : Z) : bool := in_range 48 57 c.

Fixpoint take_digits (s : bytes) : bytes * bytes :=
  match s with
  | c :: r => if is_digit c then let '(d, r) := take_digits r in (c :: d, r) else ([], s)
  | [] => ([], [])
  end.

Definition dec_value (ds : bytes) : Z := foldl (fun v c => v * 10 + (c - 48)) 0 ds.

(** [m * 10^e] correctly rounded: the quotient of two integers is rounded once. *)
Definition f64_of_dec (neg : bool) (m e : Z) : f64 :=
  match m with
  | Zpos _ =>
      let num := if 0 <=? e then m * 10 ^ e else m in
      let den := if 0 <=? e then 1 else 10 ^ (- e) in
      SFdiv prec emax (S754_finite neg (Z.to_pos num) 0) (S754_finite false (Z.to_pos den) 0)
  | _ => S754_zero neg
  end.

Definition parse_exponent (s : bytes) : option Z :=
  let '(neg, s) := match s with
                   | c :: r => if c =? 45 then (true, r) else if c =? 43 then (false, r) else (false, s)
                   | [] => (false, s)
                   end in
  match take_digits s with
  | ((_ :: _) as ds, []) => Some (if neg then - dec_value ds else dec_value ds)
  | _ => None
  end.

Definition to_lower (c : Z) : Z := if in_range 65 90 c then c + 32 else c.

(** [s.parse::<f64>().ok()] *)
Definition parse_f64 (s : bytes) : option f64 :=
  let '(neg, s) := match s with
                   | c :: r => if c =? 45 then (true, r) else if c =? 43 then (false, r) else (false, s)
                   | [] => (false, s)
                   end in
  let low := map to_lower s in
  if bool_decide (low = lit "inf" \/ low = lit "infinity") then Some (S754_infinity neg)
  else if bool_decide (low = lit "nan") then Some S754_nan
  else
  let '(ip, s1) := take_digits s in
  let '(fp, s2) := match s1 with
                   | c :: r => if c =? 46 then take_digits r else ([], s1)
                   | [] => ([], s1)
                   end in
  if len (ip ++ fp) =? 0 then None else
  match (match s2 with
         | [] => Some 0
         | c :: r => if to_lower c =? 101 then parse_exponent r else None
         end) with
  | Some e => Some (f64_of_dec neg (dec_value (ip ++ fp)) (e - len fp))
  | None => None
  end.

(** ** Lemmas *)

Lemma utf8_step_bounds s : s <> [] -> (1 <= (utf8_step s).2)%nat.
Proof.
  destruct s as [|b r]; [done|]. intros _. cbn [utf8_step].
  destruct (char_width b) as [|[|[|[|[]]]]]; repeat case_match; cbn; lia.
Qed.

Lemma lossy_cons fuel s :
  s <> [] ->
  lossy (S fuel) s
  = (if (utf8_step s).1 then take (utf8_step s).2 s else REPLACEMENT)
    ++ lossy fuel (drop (utf8_step s).2 s).
Proof. destruct s; [done|]. intros _. cbn [lossy]. by destruct (utf8_step _). Qed.

(** The fuel does not matter beyond the length. *)
Lemma lossy_fuel n m s : (length s <= n)%nat -> (length s <= m)%nat -> lossy n s = lossy m s.
Proof.
  revert m s. induction n as [|n IH]; intros m s Hn Hm; destruct s as [|b r];
    [by destruct m|cbn in Hn; lia|by destruct m|].
  destruct m as [|m]; [cbn in Hm; lia|]. rewrite !lossy_cons by done. f_equal.
  pose proof (utf8_step_bounds (b :: r) ltac:(done)).
  apply IH; rewrite length_drop; cbn [length] in *; lia.
Qed.

(** A step over text that begins with a character. *)
Lemma lossy_char c s :
  (forall t, utf8_step (c ++ t) = (true, length c)) -> c <> [] ->
  from_utf8_lossy (c ++ s) = c ++ from_utf8_lossy s.
Proof.
  intros Hc Hne. unfold from_utf8_lossy. destruct c as [|b c]; [done|].
  cbn [app length]. rewrite lossy_cons by done.
  change (b :: c ++ s) with ((b :: c) ++ s). rewrite Hc. cbn [fst snd].
  rewrite take_app_length, drop_app_length.
  by rewrite (lossy_fuel _ (length s)) by (rewrite ?length_app; lia).
Qed.

Lemma lossy_ascii_char b s :
  0 <= b <= 0x7F -> from_utf8_lossy (b :: s) = b :: from_utf8_lossy s.
Proof.
  intros Hb. apply (lossy_char [b]); [|done]. intros t. cbn [app utf8_step].
  unfold char_width, in_range. by rewrite !(proj2 (Z.leb_le _ _)) by lia.
Qed.

(** ASCII text is unchanged. *)
Lemma lossy_ascii s : Forall (fun b => 0 <= b <= 0x7F) s -> from_utf8_lossy s = s.
Proof. induction 1 as [|b s Hb _ IH]; [done|]. by rewrite lossy_ascii_char, IH. Qed.

Lemma lossy_ascii_app a s :
  Forall (fun b => 0 <= b <= 0x7F) a -> from_utf8_lossy (a ++ s) = a ++ from_utf8_lossy s.
Proof. induction 1 as [|b a Hb _ IH]; [done|]. cbn [app]. by rewrite lossy_ascii_char, IH. Qed.

(** Lossy decoding adds nothing but the replacement character. *)
Lemma lossy_elem c s : c ∈ from_utf8_lossy s -> c ∈ s \/ c ∈ REPLACEMENT.
Proof.
  unfold from_utf8_lossy. generalize (length s) as n. intros n. revert s.
  induction n as [|n IH]; intros s Hc; [by apply not_elem_of_nil in Hc|].
  destruct (decide (s = [])) as [->|Hs]; [by apply not_elem_of_nil in Hc|].
  rewrite lossy_cons in Hc by done. apply elem_of_app in Hc as [Hc|Hc].
  - destruct (utf8_step s).1; [left|by right]. by apply elem_of_take in Hc as (i & Hi & _);
      eapply list_elem_of_lookup_2.
  - apply IH in Hc as [Hc|Hc]; [left|by right]. rewrite <- (take_drop (utf8_step s).2 s).
    apply elem_of_app. by right.
Qed.

(** *** Validity, one character at a time *)

Lemma in_range_true lo hi b : lo <= b <= hi -> in_range lo hi b = true.
Proof. intros. unfold in_range. by rewrite !(proj2 (Z.leb_le _ _)) by lia. Qed.

Lemma in_range_false lo hi b : b < lo \/ hi < b -> in_range lo hi b = false.
Proof. intros. unfold in_range. destruct (lo <=? b) eqn:?, (b <=? hi) eqn:?; breflect; done || lia. Qed.

(** Decides the tests on [b] from what is known about it. *)
Ltac decide_byte b :=
  repeat match goal with
  | |- context [in_range ?lo ?hi b] =>
      (rewrite (in_range_true lo hi b) by lia) || (rewrite (in_range_false lo hi b) by lia)
  | |- context [b =? ?k] =>
      (rewrite (proj2 (Z.eqb_eq b k)) by lia) || (rewrite (proj2 (Z.eqb_neq b k)) by lia)
  end; cbn [orb].

Lemma utf8_valid_step s :
  s <> [] -> utf8_valid s = (utf8_step s).1 && utf8_valid (drop (utf8_step s).2 s).
Proof.
  destruct s as [|b0 r]; [done|]. intros _. cbn [utf8_valid utf8_step].
  unfold char_width, second_ok.
  assert (Hb : 0 <= b0 <= 0x7F \/ 0xC2 <= b0 <= 0xDF \/ b0 = 0xE0 \/ 0xE1 <= b0 <= 0xEC \/ b0 = 0xED
    \/ 0xEE <= b0 <= 0xEF \/ b0 = 0xF0 \/ 0xF1 <= b0 <= 0xF3 \/ b0 = 0xF4
    \/ (b0 < 0 \/ 0x7F < b0 < 0xC2 \/ 0xF4 < b0)) by lia.
  destruct_or! Hb; decide_byte b0;
    destruct r as [|b1 [|b2 [|b3 r]]]; cbn [lookup list_lookup from_option id];
    repeat match goal with |- context [is_cont ?b] => destruct (is_cont b) eqn:? end;
    repeat match goal with |- context [in_range ?lo ?hi ?b] => destruct (in_range lo hi b) eqn:? end;
    done.
Qed.

(** A valid text is unchanged. *)
Lemma lossy_valid s : utf8_valid s = true -> from_utf8_lossy s = s.
Proof.
  unfold from_utf8_lossy. enough (H : forall n s, (length s <= n)%nat ->
    utf8_valid s = true -> lossy n s = s) by (intros; by apply H).
  clear s. induction n as [|n IH]; intros s Hn Hv; (destruct (decide (s = [])) as [->|Hs]; [done|]).
  - destruct s; [done|cbn in Hn; lia].
  - rewrite utf8_valid_step in Hv by done. apply andb_true_iff in Hv as [Ho Hv].
    rewrite lossy_cons, Ho by done. pose proof (utf8_step_bounds s Hs).
    rewrite IH by (done || (rewrite length_drop; lia)). apply take_drop.
Qed.

(** *** Occurrences *)

Lemma is_prefix_spec p s : is_prefix p s = true <-> exists t, s = p ++ t.
Proof.
  revert s. induction p as [|x p IH]; intros s; [split; [by exists s|done]|].
  destruct s as [|y s]; cbn [is_prefix]; [by split; [|intros [? ?]]|].
  rewrite andb_true_iff, Z.eqb_eq, IH. split.
  - intros [-> [t ->]]. by exists t.
  - intros [t [= -> ->]]. eauto.
Qed.

Lemma contains_cons p x s : is_prefix p (x :: s) = false -> contains (x :: s) p = contains s p.
Proof. intros H. unfold contains. cbn [find]. rewrite H. by destruct (find p s). Qed.

Lemma contains_spec s p : contains s p = true <-> exists a b, s = a ++ p ++ b.
Proof.
  split.
  - induction s as [|x s IH]; intros H.
    + unfold contains in H. cbn [find] in H. destruct (is_prefix p []) eqn:E; [|done].
      apply is_prefix_spec in E as [t E]. by exists [], t.
    + destruct (is_prefix p (x :: s)) eqn:E.
      * apply is_prefix_spec in E as [t E]. by exists [], t.
      * rewrite contains_cons in H by done. destruct (IH H) as (a & b & ->). by exists (x :: a), b.
  - intros (a & b & ->). induction a as [|x a IH]; cbn [app].
    + assert (E : is_prefix p (p ++ b) = true) by (apply is_prefix_spec; eauto).
      unfold contains. destruct (p ++ b); cbn [find]; by rewrite E.
    + destruct (is_prefix p (x :: a ++ p ++ b)) eqn:E; [|by rewrite contains_cons].
      unfold contains. cbn [find]. by rewrite E.
Qed.

(** *** Splitting *)

Lemma split_on_here c w s : c ∉ w -> split_on c (w ++ c :: s) = w :: split_on c s.
Proof.
  induction w as [|x w IH]; intros Hc; cbn [app split_on]; [by rewrite Z.eqb_refl|].
  apply not_elem_of_cons in Hc as [Hx Hw]. rewrite (proj2 (Z.eqb_neq x c)) by congruence.
  by rewrite IH.
Qed.

Lemma split_on_last c w : c ∉ w -> split_on c w = [w].
Proof.
  induction w as [|x w IH]; intros Hc; [done|]. cbn [split_on].
  apply not_elem_of_cons in Hc as [Hx Hw]. rewrite (proj2 (Z.eqb_neq x c)) by congruence.
  by rewrite IH.
Qed.

(** Splitting a list of words joined by the separator gives the words. *)
Lemma split_on_join c ws w :
  Forall (fun w => c ∉ w) ws -> c ∉ w ->
  split_on c (concat (map (fun w => w ++ [c]) ws) ++ w) = ws ++ [w].
Proof.
  intros Hws Hw. induction Hws as [|v ws Hv _ IH]; cbn [map concat app]; [by apply split_on_last|].
  rewrite <- !app_assoc. cbn [app]. by rewrite split_on_here, IH.
Qed.

(** *** Trimming *)

(** A printing ASCII character stops the trimming of words that begin otherwise. *)
Lemma strip_stop ws fuel c s :
  33 <= c <= 0x7F -> Forall (fun w => match w with b :: _ => b < 33 \/ 0x7F < b | [] => False end) ws ->
  strip ws fuel (c :: s) = c :: s.
Proof.
  intros Hc Hws. destruct fuel as [|fuel]; [done|]. cbn [strip].
  assert (List.find (fun w => is_prefix w (c :: s)) ws = None) as ->; [|done].
  induction Hws as [|w ws Hw _ IH]; [done|]. cbn [List.find]. destruct w as [|b w]; [done|].
  cbn [is_prefix]. by rewrite (proj2 (Z.eqb_neq b c)) by lia.
Qed.

Lemma white_space_heads :
  Forall (fun w => match w with b :: _ => b < 33 \/ 0x7F < b | [] => False end) white_space /\
  Forall (fun w => match w with b :: _ => b < 33 \/ 0x7F < b | [] => False end)
    (map reverse white_space).
Proof. split; repeat (constructor; [vm_compute; auto|]); constructor. Qed.

Lemma trim_start_stop c s : 33 <= c <= 0x7F -> trim_start (c :: s) = c :: s.
Proof. intros. by apply strip_stop, white_space_heads. Qed.

Lemma trim_end_stop s c : 33 <= c <= 0x7F -> trim_end (s ++ [c]) = s ++ [c].
Proof.
  intros. unfold trim_end. rewrite reverse_app. cbn [reverse rev_append app].
  rewrite strip_stop by (done || apply white_space_heads).
  by rewrite reverse_cons, reverse_involutive.
Qed.

Lemma trim_start_space s : trim_start (32 :: s) = trim_start s.
Proof. reflexivity. Qed.

(** A word between printing characters, after a space, is what is left. *)
Lemma trim_word c w : 33 <= c <= 0x7F -> Forall (fun b => 33 <= b <= 0x7F) w -> trim (c :: w) = c :: w.
Proof.
  intros Hc Hw. unfold trim. rewrite trim_start_stop by done.
  destruct w as [|x w] using rev_ind; [by apply (trim_end_stop [])|].
  apply Forall_app in Hw as [_ Hx]. apply Forall_cons_1 in Hx as [Hx _].
  change (c :: w ++ [x]) with ((c :: w) ++ [x]). by apply trim_end_stop.
Qed.

(** White space after a printing character is cut off, the rest is kept. *)
Lemma trim_line c s x : 33 <= c <= 0x7F -> 33 <= x <= 0x7F ->
  trim (c :: s ++ [x; 13; 10]) = c :: s ++ [x].
Proof.
  intros Hc Hx. unfold trim. rewrite trim_start_stop by done. unfold trim_end.
  change (c :: s ++ [x; 13; 10]) with ((c :: s) ++ [x; 13; 10]). rewrite reverse_app.
  replace (length ((c :: s) ++ [x; 13; 10])) with (S (S (S (S (length s)))))
    by (rewrite length_app; cbn; lia).
  change (reverse [x; 13; 10] ++ reverse (c :: s)) with (10 :: 13 :: x :: reverse (c :: s)).
  transitivity (reverse (strip (map reverse white_space) (S (S (length s))) (x :: reverse (c :: s))));
    [reflexivity|].
  rewrite strip_stop by (done || apply white_space_heads).
  by rewrite reverse_cons, reverse_involutive.
Qed.

(** *** Numbers *)

(** A text with a character that is neither a digit nor a sign is not a number. *)
Lemma parse_digits_bad lo hi neg acc a c b :
  is_digit c = false -> parse_digits lo hi neg acc (a ++ c :: b) = None.
Proof.
  intros Hc. revert acc. induction a as [|x a IH]; intros acc; cbn [app parse_digits].
  - unfold is_digit, in_range in Hc. by rewrite Hc.
  - rewrite IH. by repeat case_match.
Qed.

Lemma parse_int_bad lo hi a c b :
  is_digit c = false -> c <> 43 -> c <> 45 -> parse_int lo hi (a ++ c :: b) = None.
Proof.
  intros Hc H1 H2. destruct a as [|x a]; cbn [app parse_int].
  - rewrite (proj2 (Z.eqb_neq c 43)), (proj2 (Z.eqb_neq c 45)) by done. cbn [orb].
    by apply (parse_digits_bad _ _ _ _ []).
  - rewrite !parse_digits_bad by done.
    change (x :: a ++ c :: b) with ((x :: a) ++ c :: b). rewrite parse_digits_bad by done.
    by repeat case_match.
Qed.

Example lossy_broken : from_utf8_lossy [65; 0xE2; 0x82; 66] = [65; 0xEF; 0xBF; 0xBD; 66].
Proof. reflexivity. Qed.
Example trim_both : trim (lit "  a b" ++ [13; 10; 0xC2; 0xA0]) = lit "a b".
Proof. reflexivity. Qed.
Example split_fields : split_on 44 (lit "a,,b") = [lit "a"; []; lit "b"].
Proof. reflexivity. Qed.
(** [48.8566] is [0x1.86da5119ce076p+5], [-2.5e-3] is [-0x1.47ae147ae147bp-9]. *)
Example parse_f64_paris :
  parse_f64 (lit "48.8566") = Some (S754_finite false 0x186da5119ce076 (-47)).
Proof. vm_compute. reflexivity. Qed.
Example parse_f64_small :
  parse_f64 (lit "-2.5e-3") = Some (S754_finite true 0x147ae147ae147b (-61)).
Proof. vm_compute. reflexivity. Qed.
Example parse_f64_bad : parse_f64 (lit "1.5x") = None /\ parse_f64 (lit ".") = None.
Proof. split; reflexivity. Qed.
