(* ===== verification/Radio.v ===== *)
(** * LoRa transceivers ([src/src/hardware/lr1121.rs], [src/src/hardware/sx1262.rs])

    The two drivers are the same code up to names; [LR1121] models the first and
    [SX1262] says so of the second.  The SPI bus, the pins and the chip are the
    environment: a [Device] answers each transfer and each reading of the interrupt
    pin as a function of everything that happened before.  A driver operation
    extends the history of events and finishes, fails or is still waiting.

    Each file declares the enum [Register] twice, which does not type-check; the
    two are read as one. *)

From S2P Require Import Prelude Io System.

(** ** The environment *)

Inductive event :=
| CsLow | CsHigh | ResetLow | ResetHigh
| SleepMs (ms : Z)
| Transfer (written : bytes)        (* spi.write *)
| Receive (n : Z)                   (* spi.read into n bytes *)
| PollDio1.

Abbreviation history := (list event).

(** [write_ok h d]: the write of [d] succeeds; [read_reply h n]: the bytes read,
    [None] for an error; [dio1_high h]: the level of the pin. *)
Class Device := {
  write_ok : history -> bytes -> bool;
  read_reply : history -> Z -> option bytes;
  dio1_high : history -> bool
}.
(** A read fills the whole buffer. *)
Class DeviceLaws `{Device} : Prop := {
  read_reply_len : forall h n r, read_reply h n = Some r -> len r = n /\ bytes_ok r
}.

Inductive RadioError :=
| SpiInit | SpiWrite | SpiRead | GpioInit | Timeout | InvalidResponse.

Abbreviation radio := (io (list event) RadioError).
#[local] Open Scope io_scope.

Section bus.
Context `{Device}.

Definition spi_write (d : bytes) : radio unit := fun h =>
  (h ++ [Transfer d], if write_ok h d then Fin tt else Fail SpiWrite).

Definition spi_read (n : Z) : radio bytes := fun h =>
  (h ++ [Receive n], match read_reply h n with Some r => Fin r | None => Fail SpiRead end).

Definition poll_dio1 : radio bool := fun h => (h ++ [PollDio1], Fin (dio1_high h)).
End bus.

(** An index of an array whose length is known statically. *)
Definition nth_byte (l : bytes) (i : nat) : Z := default 0 (l !! i).

(** ** The LR1121 driver *)

Module LR1121.

Inductive Register :=
| RegFifoTxPtr | RegFifoTxBase | RegFifoRxPtr | RegFifoRxBase | RegIrqFlags | RegIrqFlagsMask
| RegFifoAddrPtr | RegPacketParams | RegModemParams | RegRfFreq | RegPaConfig | RegPaDutyCycle
| RegRxNbBytes | RegPktRssiValue | RegPktSnrValue.

Definition register_u8 (r : Register) : Z :=
  match r with
  | RegFifoTxPtr => 0x0D | RegFifoTxBase => 0x0E | RegFifoRxPtr => 0x0F | RegFifoRxBase => 0x10
  | RegIrqFlags => 0x12 | RegIrqFlagsMask => 0x13 | RegFifoAddrPtr => 0x0C
  | RegPacketParams => 0x1A | RegModemParams => 0x1B | RegRfFreq => 0x06 | RegPaConfig => 0x09
  | RegPaDutyCycle => 0x0A
  | RegRxNbBytes => 0x13 | RegPktRssiValue => 0x1A | RegPktSnrValue => 0x19
  end.

Inductive Opcode :=
| WriteRegister | ReadRegister | WriteBuffer | ReadBuffer | SetSleep | SetStandby | SetFs | SetTx
| SetRx | StopTimerOnPreamble | SetRxDutyCycle | SetCad | SetTxContinuousWave
| SetTxContinuousPreamble | SetPacketType | GetIrqStatus | ClearIrqStatus | SetRfFrequency
| SetTxParams | SetCadParams | SetBufferBaseAddress | SetModulationParams | SetPacketParams
| GetStatus | GetPacketType | GetRxBufferGain | SetLoraSymbTimeout.

Definition opcode_u8 (o : Opcode) : Z :=
  match o with
  | WriteRegister => 0x0D | ReadRegister => 0x1D | WriteBuffer => 0x0E | ReadBuffer => 0x1E
  | SetSleep => 0x84 | SetStandby => 0x80 | SetFs => 0xC1 | SetTx => 0x83 | SetRx => 0x82
  | StopTimerOnPreamble => 0x9F | SetRxDutyCycle => 0x94 | SetCad => 0xC5
  | SetTxContinuousWave => 0xD1 | SetTxContinuousPreamble => 0x8B | SetPacketType => 0x8A
  | GetIrqStatus => 0x12 | ClearIrqStatus => 0x02 | SetRfFrequency => 0x86 | SetTxParams => 0x8E
  | SetCadParams => 0x87 | SetBufferBaseAddress => 0x8F | SetModulationParams => 0x8D
  | SetPacketParams => 0x8C | GetStatus => 0xC0 | GetPacketType => 0x11
  | GetRxBufferGain => 0x18 | SetLoraSymbTimeout => 0xA0
  end.

Inductive SpreadingFactor := SF5 | SF6 | SF7 | SF8 | SF9 | SF10 | SF11 | SF12.
Definition sf_u8 (s : SpreadingFactor) : Z :=
  match s with
  | SF5 => 0x05 | SF6 => 0x06 | SF7 => 0x07 | SF8 => 0x08 | SF9 => 0x09 | SF10 => 0x0A
  | SF11 => 0x0B | SF12 => 0x0C
  end.

Inductive Bandwidth := BW125 | BW250 | BW500.
Definition bw_u8 (b : Bandwidth) : Z := match b with BW125 => 0 | BW250 => 1 | BW500 => 2 end.

Inductive CodingRate := CR4_5 | CR4_6 | CR4_7 | CR4_8.
Definition cr_u8 (c : CodingRate) : Z :=
  match c with CR4_5 => 1 | CR4_6 => 2 | CR4_7 => 3 | CR4_8 => 4 end.

Inductive HeaderType := Explicit | Implicit.
Definition header_u8 (h : HeaderType) : Z := match h with Explicit => 0 | Implicit => 1 end.

Inductive CrcMode := CrcEnabled | CrcDisabled.
Definition crc_u8 (c : CrcMode) : Z := match c with CrcEnabled => 1 | CrcDisabled => 0 end.

Inductive IqMode := IqStandard | IqInverted.
Definition iq_u8 (i : IqMode) : Z := match i with IqStandard => 0 | IqInverted => 1 end.

Inductive Irq :=
| TxDone | RxDone | PreambleDetected | SyncWordValid | HeaderValid | HeaderError | CrcError
| CadDone | CadDetected | IrqTimeout.
Definition irq_u16 (i : Irq) : Z :=
  match i with
  | TxDone => 0x0001 | RxDone => 0x0002 | PreambleDetected => 0x0004 | SyncWordValid => 0x0008
  | HeaderValid => 0x0010 | HeaderError => 0x0020 | CrcError => 0x0040 | CadDone => 0x0080
  | CadDetected => 0x0100 | IrqTimeout => 0x0200
  end.

(** [PacketType::LoRa as u8] *)
Definition PacketType_LoRa : Z := 0x01.

Record LoRaConfig := mkConfig {
  frequency : Z;
  bandwidth : Bandwidth;
  spreading_factor : SpreadingFactor;
  coding_rate : CodingRate;
  header_type : HeaderType;
  crc : CrcMode;
  iq_mode : IqMode;
  preamble_length : Z;
  tx_power : Z
}.

Definition default_config : LoRaConfig :=
  mkConfig 915000000 BW125 SF7 CR4_5 Explicit CrcEnabled IqStandard 8 14.

Record LoRaFrame := mkFrame { data : bytes; rssi : Z; snr : Z; frequency_error : Z }.

(** The driver's own state; the channels it creates are never used. *)
Record t := mk { config : LoRaConfig }.

Section driver.
Context `{Device}.

Definition reset : radio unit :=
  emit ResetLow;;;
  emit (SleepMs 10);;;
  emit ResetHigh;;;
  emit (SleepMs 10).

Definition wake_up : radio unit :=
  emit CsLow;;;
  spi_write [opcode_u8 SetStandby; 0x01];;;
  emit CsHigh;;;
  emit (SleepMs 1).

Definition set_packet_type (pkt_type : Z) : radio unit :=
  emit CsLow;;;
  spi_write [opcode_u8 SetPacketType; pkt_type];;;
  emit CsHigh.

(** The register value of a frequency. *)
Definition rf_reg (freq_hz : Z) : Z :=
  let fxtal := 32000000 in
  wrap 32 (wrap 64 (freq_hz * wrap 64 (Z.shiftl 1 25)) / fxtal).

Definition set_rf_frequency (freq_hz : Z) : radio unit :=
  let r := rf_reg freq_hz in
  emit CsLow;;;
  spi_write [opcode_u8 SetRfFrequency; wrap 8 (Z.shiftr r 24); wrap 8 (Z.shiftr r 16);
             wrap 8 (Z.shiftr r 8); wrap 8 r];;;
  emit CsHigh.

Definition set_modulation_params (c : LoRaConfig) : radio unit :=
  emit CsLow;;;
  spi_write [opcode_u8 SetModulationParams; sf_u8 (spreading_factor c); bw_u8 (bandwidth c);
             cr_u8 (coding_rate c); 0x01; header_u8 (header_type c); crc_u8 (crc c);
             iq_u8 (iq_mode c)];;;
  emit CsHigh.

Definition set_packet_params (c : LoRaConfig) : radio unit :=
  emit CsLow;;;
  spi_write [opcode_u8 SetPacketParams; wrap 8 (Z.shiftr (preamble_length c) 8);
             wrap 8 (preamble_length c); 0x00; crc_u8 (crc c); 0x00];;;
  emit CsHigh.

Definition set_tx_params (power_dbm : Z) : radio unit :=
  emit CsLow;;;
  spi_write [opcode_u8 SetTxParams; wrap 8 power_dbm; 0x04];;;
  emit CsHigh.

Definition configure_lora (c : LoRaConfig) : radio unit :=
  set_rf_frequency (frequency c);;;
  set_modulation_params c;;;
  set_packet_params c;;;
  set_tx_params (tx_power c).

Definition set_buffer_base_address : radio unit :=
  emit CsLow;;;
  spi_write [opcode_u8 SetBufferBaseAddress; 0x00; 0x00];;;
  emit CsHigh.

Definition clear_irq : radio unit :=
  emit CsLow;;;
  spi_write [opcode_u8 ClearIrqStatus; 0xFF; 0xFF];;;
  emit CsHigh.

(** The pins [new] takes after it has opened the bus. *)
Definition LR1121_CS_PIN : Z := 8.
Definition LR1121_DIO1_PIN : Z := 22.
Definition LR1121_RESET_PIN : Z := 23.

Definition take_pins `{GpioCrate} : io (list Z) RadioError unit :=
  gpio_open GpioInit;;;
  gpio_take LR1121_CS_PIN GpioInit;;;
  gpio_take LR1121_DIO1_PIN GpioInit;;;
  gpio_take LR1121_RESET_PIN GpioInit.

(** [init] is the first error of opening the bus and the pins.  A [new] that fails
    later drops the driver; what the GPIO crate does to the pins it drops comes after
    the events here. *)
Definition new (init : option RadioError) (frequency_mhz : Z) : radio t :=
  match init with
  | Some e => io_fail e
  | None =>
      let d := default_config in
      let c := mkConfig (wrap 32 (frequency_mhz * 1000000)) (bandwidth d) (spreading_factor d)
                 (coding_rate d) (header_type d) (crc d) (iq_mode d) (preamble_length d)
                 (tx_power d) in
      reset;;;
      wake_up;;;
      set_packet_type PacketType_LoRa;;;
      configure_lora c;;;
      set_buffer_base_address;;;
      clear_irq;;;
      io_ret (mk c)
  end.

Definition write_buffer (d : bytes) : radio unit :=
  emit CsLow;;;
  spi_write ([opcode_u8 WriteBuffer; 0x00] ++ d);;;
  emit CsHigh.

Definition read_register (reg : Register) : radio Z :=
  emit CsLow;;;
  spi_write [opcode_u8 ReadRegister; register_u8 reg; 0x00];;;
  response <~ spi_read 2;
  emit CsHigh;;;
  io_ret (nth_byte response 1).

Definition read_buffer : radio bytes :=
  rx_byte <~ read_register RegRxNbBytes;
  emit CsLow;;;
  spi_write ([opcode_u8 ReadBuffer; 0x00] ++ fill 0 rx_byte);;;
  response <~ spi_read (rx_byte + 2);
  emit CsHigh;;;
  io_ret (drop 2 response).

Definition get_rssi_snr : radio (Z * Z) :=
  pkt_rssi <~ read_register RegPktRssiValue;
  pkt_snr <~ read_register RegPktSnrValue;
  io_ret (swrap 16 (pkt_rssi - 137), swrap 8 pkt_snr).

Definition get_irq_status : radio Z :=
  emit CsLow;;;
  spi_write [opcode_u8 GetIrqStatus; 0x00; 0x00];;;
  response <~ spi_read 3;
  emit CsHigh;;;
  io_ret (from_be [nth_byte response 1; nth_byte response 2]).

(** The polling loop, for at most [polls] turns. *)
Fixpoint wait_for_irq (polls : nat) (irq : Irq) : radio unit :=
  match polls with
  | O => io_wait
  | S polls =>
      high <~ poll_dio1;
      if high then
        irq_status <~ get_irq_status;
        if negb (Z.land irq_status (irq_u16 irq) =? 0) then io_ret tt
        else emit (SleepMs 10);;; wait_for_irq polls irq
      else emit (SleepMs 10);;; wait_for_irq polls irq
  end.

Definition tx_packet (polls : nat) (d : bytes) : radio unit :=
  write_buffer d;;;
  emit CsLow;;;
  spi_write [opcode_u8 SetTx; 0x00];;;
  emit CsHigh;;;
  wait_for_irq polls TxDone;;;
  clear_irq.

Definition rx_packet (polls : nat) : radio LoRaFrame :=
  emit CsLow;;;
  spi_write [opcode_u8 SetRx; 0x00];;;
  emit CsHigh;;;
  wait_for_irq polls RxDone;;;
  d <~ read_buffer;
  rs <~ get_rssi_snr;
  clear_irq;;;
  io_ret (mkFrame d (fst rs) (snd rs) 0).
End driver.

End LR1121.

(** ** The SX1262 driver

    sx1262.rs differs from lr1121.rs in names and comments only. *)
Module SX1262.
Definition Register : Type := LR1121.Register.
Definition Opcode : Type := LR1121.Opcode.
Definition SpreadingFactor : Type := LR1121.SpreadingFactor.
Definition Bandwidth : Type := LR1121.Bandwidth.
Definition CodingRate : Type := LR1121.CodingRate.
Definition HeaderType : Type := LR1121.HeaderType.
Definition CrcMode : Type := LR1121.CrcMode.
Definition IqMode : Type := LR1121.IqMode.
Definition Irq : Type := LR1121.Irq.
Definition LoRaConfig : Type := LR1121.LoRaConfig.
Definition LoRaFrame : Type := LR1121.LoRaFrame.
Definition default_config : LoRaConfig := LR1121.default_config.
Definition t : Type := LR1121.t.
Definition Sx1262Error : Type := RadioError.
Definition SX1262_CS_PIN : Z := 8.
Definition SX1262_DIO1_PIN : Z := 22.
Definition SX1262_RESET_PIN : Z := 23.

Section driver.
Context `{Device}.
Definition reset : radio unit := LR1121.reset.
Definition wake_up : radio unit := LR1121.wake_up.
Definition set_packet_type : Z -> radio unit := LR1121.set_packet_type.
Definition configure_lora : LR1121.LoRaConfig -> radio unit := LR1121.configure_lora.
Definition set_rf_frequency : Z -> radio unit := LR1121.set_rf_frequency.
Definition set_modulation_params : LR1121.LoRaConfig -> radio unit := LR1121.set_modulation_params.
Definition set_packet_params : LR1121.LoRaConfig -> radio unit := LR1121.set_packet_params.
Definition set_tx_params : Z -> radio unit := LR1121.set_tx_params.
Definition set_buffer_base_address : radio unit := LR1121.set_buffer_base_address.
Definition clear_irq : radio unit := LR1121.clear_irq.
Definition new : option RadioError -> Z -> radio LR1121.t := LR1121.new.
Definition tx_packet : nat -> bytes -> radio unit := LR1121.tx_packet.
Definition rx_packet : nat -> radio LR1121.LoRaFrame := LR1121.rx_packet.
Definition write_buffer : bytes -> radio unit := LR1121.write_buffer.
Definition read_buffer : radio bytes := LR1121.read_buffer.
Definition read_register : LR1121.Register -> radio Z := LR1121.read_register.
Definition get_rssi_snr : radio (Z * Z) := LR1121.get_rssi_snr.
Definition wait_for_irq : nat -> LR1121.Irq -> radio unit := LR1121.wait_for_irq.
Definition get_irq_status : radio Z := LR1121.get_irq_status.
End driver.
End SX1262.

Import LR1121.

(** ** Chip select

    [cs_after b h]: whether the select line is low after the events [h], when it
    was low ([b = true]) or high before; [selected b h]: all transfers in [h] happen
    while it is low. *)
Definition cs_step (low : bool) (e : event) : bool :=
  match e with CsLow => true | CsHigh => false | _ => low end.
Definition cs_after (low : bool) (h : history) : bool := foldl cs_step low h.

Fixpoint selected (low : bool) (h : history) : bool :=
  match h with
  | [] => true
  | e :: h =>
      match e with Transfer _ | Receive _ => low | _ => true end && selected (cs_step low e) h
  end.

Lemma cs_after_app b h1 h2 : cs_after b (h1 ++ h2) = cs_after (cs_after b h1) h2.
Proof. apply foldl_app. Qed.

Lemma selected_app b h1 h2 :
  selected b (h1 ++ h2) = selected b h1 && selected (cs_after b h1) h2.
Proof.
  revert b. induction h1 as [|e h1 IH]; intros b; [done|]. cbn [app selected].
  by rewrite IH, andb_assoc.
Qed.

(** From level [b], [m] makes transfers only while the line is low, and leaves it at
    [b'] when it finishes, low when it fails and high when it waits. *)
Definition drives {A} (b : bool) (m : radio A) (b' : bool) : Prop :=
  forall h0, exists h, (m h0).1 = h0 ++ h /\ selected b h = true /\
    cs_after b h = match (m h0).2 with Fin _ => b' | Fail _ => true | _ => false end.

Create HintDb radio discriminated.

Lemma drives_bind {A B} b1 b2 b3 (m : radio A) (k : A -> radio B) :
  drives b1 m b2 -> (forall a, drives b2 (k a) b3) -> drives b1 (io_bind m k) b3.
Proof.
  intros Hm Hk h0. destruct (Hm h0) as (h1 & E1 & S1 & C1). unfold io_bind.
  destruct (m h0) as [h r]. cbn [fst snd] in E1, C1. subst h.
  destruct r as [a|e| |]; [|by exists h1..].
  destruct (Hk a (h0 ++ h1)) as (h2 & E2 & S2 & C2). exists (h1 ++ h2).
  rewrite app_assoc, selected_app, cs_after_app, S1, C1. by rewrite E2.
Qed.

Lemma drives_ret {A} b (a : A) : drives b (io_ret a) b.
Proof. intros h0. exists []. by rewrite app_nil_r. Qed.

Lemma drives_emit b e :
  match e with Transfer _ | Receive _ => False | _ => True end ->
  drives b (emit e) (cs_step b e).
Proof. intros He h0. exists [e]. by destruct e. Qed.

Lemma drives_wait {A} : drives false (@io_wait history RadioError A) false.
Proof. intros h0. exists []. by rewrite app_nil_r. Qed.

Section cs.
Context `{Device}.

Lemma drives_write d : drives true (spi_write d) true.
Proof. intros h0. exists [Transfer d]. cbn. by destruct (write_ok h0 d). Qed.

Lemma drives_read n : drives true (spi_read n) true.
Proof. intros h0. exists [Receive n]. cbn. by destruct (read_reply h0 n). Qed.

Lemma drives_poll b : drives b poll_dio1 b.
Proof. intros h0. by exists [PollDio1]. Qed.

(** Solves [drives] for straight-line code. *)
Ltac drive :=
  repeat first
    [ apply drives_ret | apply drives_write | apply drives_read | apply drives_poll
    | eapply drives_bind; [|intros ?]
    | apply (drives_emit _ CsLow I) | apply (drives_emit _ CsHigh I)
    | apply (drives_emit _ ResetLow I) | apply (drives_emit _ ResetHigh I)
    | apply (drives_emit _ (SleepMs _) I) ]; eauto with radio.

Lemma drives_clear_irq b : drives b clear_irq false.
Proof. unfold clear_irq. drive. Qed.

Lemma drives_read_register b r : drives b (read_register r) false.
Proof. unfold read_register. drive. Qed.

Lemma drives_irq_status b : drives b get_irq_status false.
Proof. unfold get_irq_status. drive. Qed.

Lemma drives_write_buffer b d : drives b (write_buffer d) false.
Proof. unfold write_buffer. drive. Qed.

Lemma drives_read_buffer b : drives b read_buffer false.
Proof.
  unfold read_buffer. eapply drives_bind; [apply drives_read_register|intros n]. drive.
Qed.

Lemma drives_rssi b : drives b get_rssi_snr false.
Proof.
  unfold get_rssi_snr. eapply drives_bind; [apply drives_read_register|intros r].
  eapply drives_bind; [apply drives_read_register|intros s]. drive.
Qed.

Lemma drives_wait_for_irq polls irq : drives false (wait_for_irq polls irq) false.
Proof.
  induction polls as [|polls IH]; [apply drives_wait|]. cbn [wait_for_irq].
  eapply drives_bind; [apply drives_poll|intros []]; [|drive].
  eapply drives_bind; [apply drives_irq_status|intros st]. destruct (negb _); drive.
Qed.

Lemma drives_tx b polls d : drives b (tx_packet polls d) false.
Proof.
  unfold tx_packet. eapply drives_bind; [apply drives_write_buffer|intros _].
  do 3 (eapply drives_bind; [drive|intros _]).
  eapply drives_bind; [apply drives_wait_for_irq|intros _]. apply drives_clear_irq.
Qed.

Lemma drives_rx b polls : drives b (rx_packet polls) false.
Proof.
  unfold rx_packet. do 3 (eapply drives_bind; [drive|intros _]).
  eapply drives_bind; [apply drives_wait_for_irq|intros _].
  eapply drives_bind; [apply drives_read_buffer|intros d].
  eapply drives_bind; [apply drives_rssi|intros rs].
  eapply drives_bind; [apply drives_clear_irq|intros _]. drive.
Qed.

Lemma drives_new b f : drives b (new None f) false.
Proof.
  unfold new. eapply drives_bind; [unfold reset; drive|intros _]. cbn [cs_step].
  eapply drives_bind; [unfold wake_up; drive|intros _]. cbn [cs_step].
  eapply drives_bind; [unfold set_packet_type; drive|intros _]. cbn [cs_step].
  eapply drives_bind; [|intros _; eapply drives_bind; [unfold set_buffer_base_address; drive|intros _]].
  - unfold configure_lora, set_rf_frequency, set_modulation_params, set_packet_params,
      set_tx_params. drive.
  - eapply drives_bind; [apply drives_clear_irq|intros _]. drive.
Qed.
End cs.

(** ** Sequences of driver calls *)

Inductive call := Init (frequency_mhz : Z) | Tx (d : bytes) | Rx.

Section calls.
Context `{Device}.

(** Whether the call failed with an error, the callers' values aside; [polls] bounds
    the turns of every polling loop. *)
Definition perform (polls : nat) (c : call) (h : history) : history * run RadioError unit :=
  match c with
  | Init f => io_bind (new None f) (fun _ => io_ret tt) h
  | Tx d => tx_packet polls d h
  | Rx => io_bind (rx_packet polls) (fun _ => io_ret tt) h
  end.

Lemma drives_perform b polls c : drives b (perform polls c) false.
Proof.
  destruct c; cbn [perform].
  - eapply (drives_bind _ false _ (new None frequency_mhz)); [apply drives_new|intros _; apply drives_ret].
  - apply drives_tx.
  - eapply (drives_bind _ false _ (rx_packet polls)); [apply drives_rx|intros _; apply drives_ret].
Qed.

Fixpoint perform_all (polls : nat) (cs : list call) (h : history) (last : run RadioError unit)
  : history * run RadioError unit :=
  match cs with
  | [] => (h, last)
  | c :: cs => let '(h, r) := perform polls c h in perform_all polls cs h r
  end.
End calls.

(** ** Initialisation *)

(** The byte strings written between a falling and the next rising edge of the
    select line. *)
Fixpoint transactions (h : history) (open : option bytes) : list bytes :=
  match h with
  | [] => []
  | CsLow :: h => transactions h (Some [])
  | CsHigh :: h => match open with Some d => d :: transactions h None | None => transactions h None end
  | Transfer d :: h => transactions h (match open with Some o => Some (o ++ d) | None => None end)
  | _ :: h => transactions h open
  end.

(** Sequencing on a bus that accepts all writes. *)
Lemma write_accepted `{Device} d h :
  (forall h d, write_ok h d = true) -> spi_write d h = (h ++ [Transfer d], Fin tt).
Proof. intros Hw. unfold spi_write. by rewrite Hw. Qed.

Lemma command_accepted `{Device} d h :
  (forall h d, write_ok h d = true) ->
  (emit CsLow;;; spi_write d;;; emit CsHigh) h = (h ++ [CsLow; Transfer d; CsHigh], Fin tt).
Proof.
  intros Hw. unfold io_bind, emit. rewrite (write_accepted d _ Hw). by rewrite <- !app_assoc.
Qed.

(** *** Frequencies *)

Lemma rf_reg_exact f :
  0 <= f < 4096000000 -> rf_reg f = f * 2 ^ 25 / 32000000 /\ in_u 32 (rf_reg f).
Proof.
  intros Hf. unfold rf_reg. change (wrap 64 (Z.shiftl 1 25)) with (2 ^ 25).
  rewrite (wrap_small 64) by (unfold in_u; lia).
  assert (0 <= f * 2 ^ 25 / 32000000 < 2 ^ 32).
  { split; [apply Z.div_pos; lia|apply Z.div_lt_upper_bound; lia]. }
  rewrite wrap_small by (unfold in_u; lia). split; [done|]. unfold in_u. lia.
Qed.

Lemma bytes_of_u32 r :
  in_u 32 r ->
  [wrap 8 (Z.shiftr r 24); wrap 8 (Z.shiftr r 16); wrap 8 (Z.shiftr r 8); wrap 8 r] = to_be 4 r.
Proof.
  intros Hr. unfold to_be. cbn [to_le]. unfold wrap.
  rewrite !Z.shiftr_div_pow2 by lia. change (2 ^ 8) with 256.
  rewrite !Z.div_div by lia. done.
Qed.

(** ** Polling *)

Section polling.
Context `{Device}.

Lemma wait_more n m irq h h' r :
  wait_for_irq n irq h = (h', r) -> r <> Waiting -> (n <= m)%nat ->
  wait_for_irq m irq h = (h', r).
Proof.
  revert m h. induction n as [|n IH]; intros m h Hw Hr Hm; [unfold wait_for_irq, io_wait in Hw; congruence|].
  destruct m as [|m]; [lia|]. cbn [wait_for_irq] in *. unfold io_bind at 1 in Hw.
  unfold io_bind at 1. cbn [poll_dio1] in *. destruct (dio1_high h).
  - unfold io_bind at 1 in Hw. unfold io_bind at 1.
    destruct (get_irq_status (h ++ [PollDio1])) as [h1 [st|e| |]]; [|done..].
    destruct (negb _); [done|]. unfold io_bind in *. cbn [emit] in *. apply IH; (done || lia).
  - unfold io_bind in *. cbn [emit] in *. apply IH; (done || lia).
Qed.

Lemma wait_low n irq h :
  (forall h, dio1_high h = false) -> (wait_for_irq n irq h).2 = Waiting.
Proof.
  intros Hd. revert h. induction n as [|n IH]; intros h; [done|]. cbn [wait_for_irq].
  unfold io_bind at 1. cbn [poll_dio1]. rewrite Hd. unfold io_bind. cbn [emit]. apply IH.
Qed.
End polling.

Section stability.
Context `{Device} (n m : nat).
Hypothesis Hw : forall irq, stable (wait_for_irq n irq) (wait_for_irq m irq).

Lemma stable_tx d : stable (tx_packet n d) (tx_packet m d).
Proof.
  unfold tx_packet. do 4 (apply stable_bind; [apply stable_refl|intros _]).
  apply stable_bind; [apply Hw|intros _; apply stable_refl].
Qed.

Lemma stable_rx : stable (rx_packet n) (rx_packet m).
Proof.
  unfold rx_packet. do 3 (apply stable_bind; [apply stable_refl|intros _]).
  apply stable_bind; [apply Hw|intros _; apply stable_refl].
Qed.
End stability.

(** *** Values of finished operations *)

Section values.
Context `{Device, !DeviceLaws}.

Lemma spi_read_Fin n h h' r : spi_read n h = (h', Fin r) -> len r = n /\ bytes_ok r.
Proof.
  unfold spi_read. destruct (read_reply h n) eqn:E; intros ?; simplify_eq.
  by apply read_reply_len in E.
Qed.

Lemma nth_byte_u8 l i : bytes_ok l -> in_u 8 (nth_byte l i).
Proof.
  intros Hl. unfold nth_byte. destruct (l !! i) eqn:E; cbn; [|unfold in_u; lia].
  by eapply (Forall_lookup_1 _ _ _ _ Hl).
Qed.

Lemma read_register_u8 r h h' v : read_register r h = (h', Fin v) -> in_u 8 v.
Proof.
  unfold read_register. intros. io_inv. eapply nth_byte_u8, spi_read_Fin; eauto.
Qed.

Lemma read_buffer_bounds h h' d : read_buffer h = (h', Fin d) -> bytes_ok d /\ len d <= 255.
Proof.
  unfold read_buffer. intros. io_inv.
  match goal with H : read_register _ _ = _ |- _ => apply read_register_u8 in H as Hn end.
  match goal with H : spi_read _ _ = _ |- _ => apply spi_read_Fin in H as [Hl Hok] end.
  unfold in_u, len in *. split; [by apply Forall_drop|]. rewrite length_drop. lia.
Qed.

Lemma rssi_snr_bounds h h' rs :
  get_rssi_snr h = (h', Fin rs) -> -137 <= rs.1 <= 118 /\ in_i 8 rs.2.
Proof.
  unfold get_rssi_snr. intros. io_inv.
  repeat match goal with H : read_register _ _ = _ |- _ => apply read_register_u8 in H end.
  cbn [fst snd]. unfold in_u in *. rewrite swrap_small by (unfold in_i; lia).
  split; [lia|by apply swrap_range].
Qed.
End values.

(** ** Theorems *)

(** C19: The drivers respect the chip-select protocol in every sequence of calls,
    whatever the device answers: each SPI transfer happens while the select line
    is low; after a call that finished or is waiting for an interrupt the line is
    high; but after a failed transfer it stays low (a defect: the error returns
    before the line is raised), until the next call or, after a failed [new], until
    the pin is dropped. *)
Theorem radio_chip_select `{Device} polls cs low h0 :
  cs <> [] ->
  exists h, (perform_all polls cs h0 Waiting).1 = h0 ++ h /\ selected low h = true /\
    cs_after low h =
      match (perform_all polls cs h0 Waiting).2 with Fail _ => true | _ => false end.
Proof.
  intros Hne. generalize (@Waiting RadioError unit) as last. revert low h0 Hne.
  induction cs as [|c cs IH]; intros low h0 Hne last; [done|]. cbn [perform_all].
  destruct (drives_perform low polls c h0) as (h1 & E1 & S1 & C1).
  destruct (perform polls c h0) as [h' r]. cbn [fst snd] in *. subst h'.
  destruct cs as [|c' cs].
  { exists h1. cbn. split_and!; [done|done|]. rewrite C1. by destruct r. }
  destruct (IH (cs_after low h1) (h0 ++ h1) ltac:(done) r) as (h2 & E2 & S2 & C2).
  exists (h1 ++ h2). rewrite app_assoc, selected_app, cs_after_app, S1. by rewrite E2.
Qed.

(** On a bus that accepts writes, initialisation resets the chip and then sends
    exactly these eight commands, in this order, and the frequency command carries
    the register value of the configured frequency. *)
Theorem radio_init_commands `{Device} mhz h0 :
  (forall h d, write_ok h d = true) -> 0 <= mhz < 4096 ->
  exists h r, new None mhz h0 = (h0 ++ h, Fin r) /\ frequency (config r) = mhz * 1000000 /\
    transactions h None =
      [[0x80; 0x01]; [0x8A; 0x01];
       0x86 :: to_be 4 (mhz * 1000000 * 2 ^ 25 / 32000000);
       [0x8D; 0x07; 0x00; 0x01; 0x01; 0x00; 0x01; 0x00];
       [0x8C; 0; 8; 0; 1; 0]; [0x8E; 14; 4]; [0x8F; 0; 0]; [0x02; 0xFF; 0xFF]].
Proof.
  intros Hw Hm. assert (Hf : wrap 32 (mhz * 1000000) = mhz * 1000000)
    by (apply wrap_small; unfold in_u; lia).
  destruct (rf_reg_exact (mhz * 1000000) ltac:(lia)) as [Hr Hr32].
  unfold new. rewrite Hf. erewrite bind_Fin by (unfold reset, io_bind, emit; reflexivity).
  erewrite bind_Fin; [|unfold wake_up, io_bind, emit, spi_write; rewrite Hw; reflexivity].
  erewrite bind_Fin by (by apply command_accepted).
  erewrite (bind_Fin (configure_lora _)); cycle 1.
  { unfold configure_lora. erewrite bind_Fin by (by apply command_accepted).
    erewrite bind_Fin by (by apply command_accepted).
    erewrite bind_Fin by (by apply command_accepted). by apply command_accepted. }
  erewrite bind_Fin by (by apply command_accepted).
  erewrite bind_Fin by (by apply command_accepted). unfold io_ret.
  eexists _, _. rewrite <- !app_assoc. split; [reflexivity|]. split; [done|].
  cbn [frequency default_config]. rewrite bytes_of_u32 by done.
  cbn -[to_be rf_reg]. by rewrite Hr.
Qed.

(** The frequency register is accurate: below 4.096 GHz the four bytes sent
    encode the register value exactly, nothing overflows, and the frequency the
    chip derives from it ([register * 32 MHz / 2^25]) is at most 1 Hz below the one
    asked for. *)
Theorem radio_frequency_accurate f :
  0 <= f < 4096000000 ->
  let r := rf_reg f in
  from_be [wrap 8 (Z.shiftr r 24); wrap 8 (Z.shiftr r 16); wrap 8 (Z.shiftr r 8); wrap 8 r] = r /\
  (f - 1) * 2 ^ 25 < r * 32000000 <= f * 2 ^ 25.
Proof.
  intros Hf. cbv zeta. destruct (rf_reg_exact f Hf) as [Hr Hu].
  rewrite bytes_of_u32 by done. split; [by apply from_to_be_small|]. rewrite Hr.
  pose proof (Z.div_mod (f * 2 ^ 25) 32000000 ltac:(lia)).
  pose proof (Z.mod_pos_bound (f * 2 ^ 25) 32000000 ltac:(lia)). lia.
Qed.

(** Transmission has no time-out (a defect: the error [Timeout] is never
    produced).  With a chip that accepts all commands but never raises its
    interrupt line, [tx_packet] is still waiting after any number of polls. *)
Theorem radio_tx_hangs `{Device} polls d h0 :
  (forall h d, write_ok h d = true) -> (forall h, dio1_high h = false) ->
  (tx_packet polls d h0).2 = Waiting.
Proof.
  intros Hw Hd. unfold tx_packet. erewrite bind_Fin by (by apply command_accepted).
  unfold io_bind at 1. cbn [emit]. erewrite bind_Fin by (by apply write_accepted).
  unfold io_bind at 1. cbn [emit]. unfold io_bind.
  match goal with |- context [wait_for_irq polls TxDone ?h] =>
    pose proof (wait_low polls TxDone h Hd) as Hl end.
  destruct (wait_for_irq _ _ _) as [h r]. cbn in Hl. by subst.
Qed.

(** What a received frame can hold: whenever [rx_packet] returns a frame it has
    at most 255 bytes, its signal strength lies between -137 and 118 dBm and its
    signal-to-noise ratio is an [i8], whatever the chip answered. *)
Theorem radio_rx_bounds `{Device, !DeviceLaws} polls h0 h f :
  rx_packet polls h0 = (h, Fin f) ->
  bytes_ok (data f) /\ len (data f) <= 255 /\ -137 <= rssi f <= 118 /\ in_i 8 (snr f).
Proof.
  unfold rx_packet. intros. io_inv.
  match goal with H : read_buffer _ = _ |- _ => apply read_buffer_bounds in H as [Hok Hl] end.
  match goal with H : get_rssi_snr _ = _ |- _ => apply rssi_snr_bounds in H as [Hr Hs] end.
  done.
Qed.

(** The bound on the number of polls does not matter once an operation has
    returned: with more polls [tx_packet] and [rx_packet] make the same transfers
    and return the same result. *)
Theorem radio_polls_stable `{Device} n m d h0 :
  (n <= m)%nat ->
  ((tx_packet n d h0).2 <> Waiting -> tx_packet m d h0 = tx_packet n d h0) /\
  ((rx_packet n h0).2 <> Waiting -> rx_packet m h0 = rx_packet n h0).
Proof.
  intros Hm. assert (Hw : forall irq, stable (wait_for_irq n irq) (wait_for_irq m irq)).
  { intros irq h Hr. destruct (wait_for_irq n irq h) as [h1 r] eqn:E. by apply (wait_more n). }
  split; [apply (stable_tx n m Hw d h0)|apply (stable_rx n m Hw h0)].
Qed.

(** ** Witnesses *)

(** A chip that accepts everything, reads zeros and never interrupts. *)
Definition quiet_chip : Device := {|
  write_ok _ _ := true;
  read_reply _ n := Some (fill 0 n);
  dio1_high _ := false
|}.

(** A chip that interrupts at once with all flags set and answers [3] everywhere. *)
Definition ready_chip : Device := {|
  write_ok _ _ := true;
  read_reply _ n := if n <? 0 then None else Some (fill 3 n);
  dio1_high _ := true
|}.

Lemma ready_chip_laws : @DeviceLaws ready_chip.
Proof.
  constructor. cbn. intros _ n r. destruct (n <? 0) eqn:E; [done|]. breflect. intros [= <-].
  rewrite len_fill. split; [lia|]. apply Forall_replicate. unfold in_u. lia.
Qed.

(** A chip that takes the eight commands of the initialisation and fails then. *)
Definition faulty_chip : Device := {|
  write_ok h _ := bool_decide (length h <= 29)%nat;
  read_reply _ n := Some (fill 0 n);
  dio1_high _ := true
|}.

Lemma radio_chip_select_witness :
  exists h, (@perform faulty_chip 3 (Init 915) []).2 = Fin tt /\
    (@perform_all faulty_chip 3 [Init 915; Tx [1; 2]] [] Waiting).1 = h /\ cs_after false h = true.
Proof.
  destruct (@radio_chip_select faulty_chip 3 [Init 915; Tx [1; 2]] false [] ltac:(done))
    as (h & E & _ & C).
  exists h. split; [vm_compute; reflexivity|]. split; [exact E|]. rewrite C. vm_compute. reflexivity.
Defined.

Lemma radio_init_commands_witness :
  exists h r, @new quiet_chip None 915 [] = (h, Fin r) /\ frequency (config r) = 915000000.
Proof.
  destruct (@radio_init_commands quiet_chip 915 [] ltac:(done) ltac:(lia)) as (h & r & E & F & _).
  exists h, r. split; [exact E|exact F].
Defined.

Lemma radio_frequency_accurate_witness :
  (2400000000 - 1) * 2 ^ 25 < rf_reg 2400000000 * 32000000.
Proof. apply (radio_frequency_accurate 2400000000). lia. Defined.

Lemma radio_tx_hangs_witness : (@tx_packet quiet_chip 4 [1; 2] []).2 = Waiting.
Proof. apply (@radio_tx_hangs quiet_chip 4 [1; 2] []); done. Defined.

Lemma radio_rx_bounds_witness :
  exists h f, @rx_packet ready_chip 2 [] = (h, Fin f) /\ len (data f) <= 255.
Proof.
  destruct (@rx_packet ready_chip 2 []) as [h r] eqn:E.
  destruct r as [f|e| |]; [|vm_compute in E; discriminate E..].
  exists h, f. split; [done|]. apply (@radio_rx_bounds ready_chip ready_chip_laws 2 [] h f E).
Defined.

Lemma radio_polls_stable_witness :
  @tx_packet ready_chip 5 [1] [] = @tx_packet ready_chip 1 [1] [].
Proof.
  apply (@radio_polls_stable ready_chip 1 5 [1] []); [lia|]. vm_compute. discriminate.
Defined.
