(* ===== verification/Board.v ===== *)
(** * Board peripherals ([src/src/hardware]: config_button.rs, led.rs, watchdog.rs,
      atecc608b.rs)

    The polling thread of the configuration button, the status LED with its task, the
    watchdog with its kicks, and the commands of the ECC chip.  Pins, clocks and the
    I2C bus are the environment: readings are arguments, writes are events, and which
    pins are in use is a state.

    led.rs uses its controller after moving it into the task; it is read as if the
    task had its own copy. *)

From S2P Require Import Prelude Crc Io System.

#[local] Open Scope io_scope.

(** ** Configuration button *)

Module ConfigButton.

Definition CONFIG_BUTTON_PIN : Z := 18.
Definition DEBOUNCE_MS : Z := 50.
Definition PROVISIONING_HOLD_MS : Z := 3000.
Definition FACTORY_RESET_HOLD_MS : Z := 10000.

Inductive Level := Low | High.
#[global] Instance Level_eq_dec : EqDecision Level.
Proof. solve_decision. Defined.

Inductive ButtonEvent := Pressed | Released | ProvisioningMode | FactoryReset.
#[global] Instance ButtonEvent_eq_dec : EqDecision ButtonEvent.
Proof. solve_decision. Defined.

(** The shared fields and the thread's [last_level].  [deadlocked]: the thread waits
    for a lock it holds itself. *)
Record t := mk {
  pressed : bool;
  press_start : option Z;
  last_level : Level;
  deadlocked : bool
}.

(** The state in which the thread starts, and [new]: the pin is read at [level]. *)
Definition initial (level : Level) : t := mk false None level false.

Inductive ButtonError := GpioInit.

Definition new `{GpioCrate} (level : Level) : io (list Z) ButtonError t :=
  gpio_open GpioInit;;;
  gpio_take CONFIG_BUTTON_PIN GpioInit;;;
  io_ret (initial level).

(** What the thread observes in one turn of its loop: the two readings of the pin
    and the clock at the change and at the long-press check. *)
Record reading := mkReading {
  current_level : Level;
  debounced_level : Level;
  at_change : Z;
  at_check : Z
}.

(** The branch on a change of level. *)
Definition on_change (s : t) (r : reading) : t * list ButtonEvent :=
  if bool_decide (current_level r = last_level s) then (s, []) else
  let '(s, evs) :=
    if bool_decide (debounced_level r = current_level r) then
      if bool_decide (current_level r = Low) then
        (mk true (Some (at_change r)) (last_level s) false, [Pressed])
      else
        (mk false None (last_level s) false,
         match press_start s with
         | Some start =>
             let d := at_change r - start in
             if FACTORY_RESET_HOLD_MS <=? d then [FactoryReset]
             else if PROVISIONING_HOLD_MS <=? d then [ProvisioningMode] else []
         | None => []
         end ++ [Released])
    else (s, []) in
  (mk (pressed s) (press_start s) (debounced_level r) false, evs).

(** The long-press check.  The guard of the [if let] is alive in its body, so the
    second lock of the factory-reset branch never returns. *)
Definition check_hold (s : t) (r : reading) : t * list ButtonEvent :=
  if pressed s then
    match press_start s with
    | Some start =>
        let elapsed := at_check r - start in
        if FACTORY_RESET_HOLD_MS <=? elapsed then
          (mk false (press_start s) (last_level s) true, [])
        else if PROVISIONING_HOLD_MS <=? elapsed then (s, [ProvisioningMode])
        else (s, [])
    | None => (s, [])
    end
  else (s, []).

(** One turn of the loop: the state and the events sent. *)
Definition poll (s : t) (r : reading) : t * list ButtonEvent :=
  if deadlocked s then (s, []) else
  let '(s, e1) := on_change s r in
  let '(s, e2) := check_hold s r in
  (s, e1 ++ e2).

Fixpoint run (s : t) (rs : list reading) : t * list ButtonEvent :=
  match rs with
  | [] => (s, [])
  | r :: rs =>
      let '(s, e1) := poll s r in
      let '(s, e2) := run s rs in
      (s, e1 ++ e2)
  end.

Definition is_pressed (s : t) : bool := pressed s.
Definition press_duration (s : t) (now : Z) : option Z := (fun st => now - st) <$> press_start s.

End ConfigButton.

(** ** Status LED *)

Module LedController.
Import ConfigButton.

Inductive LedState := Connected | NoUplink | BurstInProgress | Fault | Off.
#[global] Instance LedState_eq_dec : EqDecision LedState.
Proof. solve_decision. Defined.

Inductive event := SetColor (red green blue : Level) | SleepMs (ms : Z).

Definition pulse_green_slow : list event :=
  concat (replicate 5
    [SetColor Low High Low; SleepMs 500; SetColor High High High; SleepMs 500]).

Definition pulse_amber_fast : list event :=
  concat (replicate 10
    [SetColor Low Low High; SleepMs 100; SetColor High High High; SleepMs 100]).

(** One turn of the update task: the last state shown and the events. *)
Definition update (last_state current_state : LedState) : LedState * list event :=
  if negb (bool_decide (current_state = last_state)) then
    (current_state,
     match current_state with
     | Connected => [SetColor Low High Low]
     | NoUplink => pulse_green_slow
     | BurstInProgress => pulse_amber_fast
     | Fault => [SetColor High Low Low]
     | Off => [SetColor High High High]
     end ++ [SleepMs 100])
  else (last_state, [SleepMs 100]).

(** The shared fields; the pins are in the environment. *)
Record t := mk { state : LedState; running : bool }.

Definition set_state (c : t) (s : LedState) : t := mk s (running c).
Definition stop (c : t) : t := mk (state c) false.

(** The task over what it finds in each turn; it ends when it finds [running] false. *)
Fixpoint task (last_state : LedState) (found : list t) : list event :=
  match found with
  | [] => []
  | c :: found =>
      if negb (running c) then [] else
      let '(l, evs) := update last_state (state c) in evs ++ task l found
  end.

Definition LED_RED_PIN : Z := 17.
Definition LED_GREEN_PIN : Z := 27.
Definition LED_BLUE_PIN : Z := 6.

Inductive LedError := GpioInit.

(** [new]: the controller; its task starts from the last state [Off]. *)
Definition new `{GpioCrate} : io (list Z) LedError t :=
  gpio_open GpioInit;;;
  gpio_take LED_RED_PIN GpioInit;;;
  gpio_take LED_GREEN_PIN GpioInit;;;
  gpio_take LED_BLUE_PIN GpioInit;;;
  io_ret (mk Off true).

(** The lights that are on: the LED is common anode, [LOW] is on. *)
Inductive light := Red | Green | Blue.
Definition lit (e : event) : option (list light) :=
  match e with
  | SetColor r g b =>
      Some ((if bool_decide (r = Low) then [Red] else [])
         ++ (if bool_decide (g = Low) then [Green] else [])
         ++ (if bool_decide (b = Low) then [Blue] else []))
  | SleepMs _ => None
  end.

(** The lights left on after a sequence of events. *)
Definition shown (before : list light) (evs : list event) : list light :=
  foldl (fun l e => match lit e with Some l' => l' | None => l end) before evs.

End LedController.

(** ** Watchdog *)

Module Watchdog.

Definition WATCHDOG_KICK_INTERVAL_MS : Z := 25000.
Definition WATCHDOG_GPIO : Z := 26.

Inductive WatchdogError := GpioInit | KickFailed.

(** The handle on the pin. *)
Record t := mk { pin : Z }.

Section init.
Context `{GpioCrate}.

(** Both calls are unwrapped. *)
Definition clone (w : t) : io (list Z) WatchdogError t := fun held =>
  if negb gpio_new then (held, Panicked) else
  if gpio_get held WATCHDOG_GPIO then (held ++ [WATCHDOG_GPIO], Fin (mk WATCHDOG_GPIO))
  else (held, Panicked).

(** The kick task ([task] below) is spawned with the clone. *)
Definition new : io (list Z) WatchdogError t :=
  gpio_open GpioInit;;;
  gpio_take WATCHDOG_GPIO GpioInit;;;
  let watchdog := mk WATCHDOG_GPIO in
  watchdog_clone <~ clone watchdog;
  io_ret watchdog.
End init.

Inductive event := SetLow | SetHigh | SleepMs (ms : Z).

Definition kick : list event := [SetLow; SleepMs 10; SetHigh; SleepMs 10; SetLow].

(** [n] turns of the kick task. *)
Fixpoint task (n : nat) : list event :=
  match n with
  | O => []
  | S n => [SleepMs WATCHDOG_KICK_INTERVAL_MS] ++ kick ++ task n
  end.

(** The times of the rising edges. *)
Fixpoint rising (now : Z) (evs : list event) : list Z :=
  match evs with
  | [] => []
  | SleepMs ms :: evs => rising (now + ms) evs
  | SetHigh :: evs => now :: rising now evs
  | SetLow :: evs => rising now evs
  end.

End Watchdog.

(** ** ECC chip *)

Module ATECC608B.

Definition ATECC608B_ADDR : Z := 0x60.

Inductive Opcode := Read | Write | Random | Sign | Verify | Serial | LockConfig | LockData.
Definition opcode_u8 (o : Opcode) : Z :=
  match o with
  | Read => 0x02 | Write => 0x12 | Random => 0x1B | Sign => 0x41 | Verify => 0x45
  | Serial => 0x03 | LockConfig => 0x17 | LockData => 0x16
  end.

Inductive Zone := Configuration | Data | OTP.
Definition zone_u8 (z : Zone) : Z := match z with Configuration => 0 | Data => 1 | OTP => 2 end.

Inductive AteccError :=
| I2cInit | I2cWrite | I2cRead | InvalidResponse (b : Z) | InvalidDigestLength
| InvalidSignatureLength | LockFailed.

(** The bus: what happened, and how it answers. *)
Inductive event := SetAddress (a : Z) | BusWrite (d : bytes) | BusRead (n : Z) | SleepMs (ms : Z).

Class I2cBus := {
  address_ok : list event -> Z -> bool;
  bus_write_ok : list event -> bytes -> bool;
  bus_read : list event -> Z -> option bytes
}.
(** A read leaves the caller's buffer, filled or not, at its length. *)
Class I2cBusLaws `{I2cBus} : Prop := {
  bus_read_len : forall h n r, bus_read h n = Some r -> len r = n /\ bytes_ok r
}.

#[local] Abbreviation io := (io (list event) AteccError).

(** [(crc << 1) ^ 0x07], [crc <<= 1] on [u8]. *)
Definition crc8_bit (crc : Z) : Z :=
  if negb (Z.land crc 0x80 =? 0) then Z.lxor (wrap 8 (Z.shiftl crc 1)) 0x07
  else wrap 8 (Z.shiftl crc 1).

Definition crc8 (data : bytes) : Z :=
  foldl (fun crc byte => Nat.iter 8 crc8_bit (Z.lxor crc byte)) 0 data.

Section driver.
Context `{I2cBus}.

Definition set_slave_address (a : Z) : io unit := fun h =>
  (h ++ [SetAddress a], if address_ok h a then Fin tt else Fail I2cWrite).
Definition i2c_write (d : bytes) : io unit := fun h =>
  (h ++ [BusWrite d], if bus_write_ok h d then Fin tt else Fail I2cWrite).
Definition i2c_read (n : Z) : io bytes := fun h =>
  (h ++ [BusRead n], match bus_read h n with Some r => Fin r | None => Fail I2cRead end).
Definition sleep (ms : Z) : io unit := emit (SleepMs ms).

Definition wake : io unit :=
  set_slave_address 0x00;;;
  i2c_write [0x00];;;
  sleep 1;;;
  set_slave_address ATECC608B_ADDR.

(** [if response[0] != 0x01 { return Err(InvalidResponse(response[0])) }] *)
Definition check_header (response : bytes) : io unit :=
  b <~ of_outcome (response.[0]);
  if negb (b =? 0x01) then io_fail (InvalidResponse b) else io_ret tt.

Definition read_serial : io bytes :=
  wake;;;
  let cmd := fill 0 7 in
  cmd <~ of_outcome (
    cmd ← set_at cmd 0 (opcode_u8 Read);
    cmd ← set_at cmd 1 (zone_u8 Configuration);
    cmd ← set_at cmd 2 0x00;
    cmd ← set_at cmd 3 0x00;
    cmd ← set_at cmd 4 0x00;
    cmd ← set_at cmd 5 0x09;
    body ← cmd.[0 ~> 6];
    set_at cmd 6 (crc8 body));
  i2c_write cmd;;;
  sleep 5;;;
  response <~ i2c_read 32;
  check_header response;;;
  of_outcome (
    src ← response.[1 ~> 10];
    copy_from_slice (fill 0 9) 0 9 src).

Definition sign (digest : bytes) : io bytes :=
  if negb (len digest =? 32) then io_fail InvalidDigestLength else
  wake;;;
  let cmd := fill 0 36 in
  cmd <~ of_outcome (
    cmd ← set_at cmd 0 (opcode_u8 Sign);
    cmd ← set_at cmd 1 0x80;
    cmd ← set_at cmd 2 0x00;
    cmd ← copy_from_slice cmd 3 35 digest;
    body ← cmd.[0 ~> 35];
    set_at cmd 35 (crc8 body));
  i2c_write cmd;;;
  sleep 100;;;
  response <~ i2c_read (64 + 4);
  check_header response;;;
  of_outcome (
    src ← response.[1 ~> 65];
    copy_from_slice (fill 0 64) 0 64 src).

Definition verify (digest signature : bytes) : io bool :=
  if negb (len digest =? 32) then io_fail InvalidDigestLength else
  if negb (len signature =? 64) then io_fail InvalidSignatureLength else
  wake;;;
  let cmd := fill 0 99 in
  cmd <~ of_outcome (
    cmd ← set_at cmd 0 (opcode_u8 Verify);
    cmd ← set_at cmd 1 0x00;
    cmd ← set_at cmd 2 0x00;
    cmd ← set_at cmd 3 0x00;
    cmd ← copy_from_slice cmd 4 36 digest;
    cmd ← copy_from_slice cmd 36 100 signature;
    body ← cmd.[0 ~> 98];
    set_at cmd 98 (crc8 body));
  i2c_write cmd;;;
  sleep 50;;;
  response <~ i2c_read 4;
  b <~ of_outcome (response.[0]);
  io_ret (b =? 0x00).

Definition random : io bytes :=
  wake;;;
  let cmd := fill 0 3 in
  cmd <~ of_outcome (
    cmd ← set_at cmd 0 (opcode_u8 Random);
    cmd ← set_at cmd 1 0x00;
    set_at cmd 2 0x20);
  i2c_write cmd;;;
  sleep 20;;;
  response <~ i2c_read 35;
  check_header response;;;
  of_outcome (
    src ← response.[1 ~> 33];
    copy_from_slice (fill 0 32) 0 32 src).

(** [opened]: the bus could be opened. *)
Definition new (opened : bool) : io unit :=
  if negb opened then io_fail I2cInit else
  wake;;;
  _serial <~ read_serial;
  io_ret tt.
End driver.

End ATECC608B.

(** ** Theorems *)

Section button.
Import ConfigButton.

Lemma poll_held s r :
  deadlocked s = false -> current_level r = last_level s ->
  poll s r = check_hold s r.
Proof.
  intros Hd Hl. unfold poll, on_change. rewrite Hd, bool_decide_eq_true_2 by done.
  by destruct (check_hold s r).
Qed.

Lemma run_deadlocked s rs : deadlocked s = true -> run s rs = (s, []).
Proof.
  intros Hd. induction rs as [|r rs IH]; [done|]. cbn [run poll]. unfold poll. rewrite Hd.
  by rewrite IH.
Qed.

(** Holding the button for the ten seconds of a factory reset kills its thread (a
    defect): at the first turn that sees the button held that long, the thread
    locks a mutex it already holds; it has not sent [FactoryReset], and whatever is
    read afterwards it never sends anything again. *)
Theorem button_reset_deadlocks s start r rs :
  deadlocked s = false -> pressed s = true -> press_start s = Some start ->
  current_level r = last_level s -> FACTORY_RESET_HOLD_MS <= at_check r - start ->
  (run s (r :: rs)).2 = [] /\ deadlocked (run s (r :: rs)).1 = true.
Proof.
  intros Hd Hp Hs Hl Ht. cbn [run]. rewrite poll_held by done. unfold check_hold.
  rewrite Hp, Hs, (proj2 (Z.leb_le _ _)) by done. by rewrite run_deadlocked.
Qed.

(** A press is reported when it begins; every turn of the loop that finds the
    button held between three and ten seconds sends [ProvisioningMode] again (once
    per turn, not once per press); and a release before three seconds sends only
    [Released]. *)
Theorem button_press_events s start press held release :
  deadlocked s = false -> pressed s = false -> last_level s = High ->
  current_level press = Low -> debounced_level press = Low -> at_change press = start ->
  at_check press - start < PROVISIONING_HOLD_MS ->
  Forall (fun r => current_level r = Low /\
    PROVISIONING_HOLD_MS <= at_check r - start < FACTORY_RESET_HOLD_MS) held ->
  (run s (press :: held)).2 = Pressed :: replicate (length held) ProvisioningMode /\
  (current_level release = High -> debounced_level release = High ->
   at_change release - start < PROVISIONING_HOLD_MS ->
   (run s [press; release]).2 = [Pressed; Released]).
Proof.
  intros Hd Hp Hl Hc Hdb Hst Hck Hheld.
  assert (E : poll s press = (mk true (Some start) Low false, [Pressed])).
  { unfold poll, on_change. rewrite Hd, Hc, Hl, Hdb, bool_decide_eq_false_2 by done.
    rewrite !bool_decide_eq_true_2 by done. rewrite Hst. unfold check_hold. cbn -[Z.leb Z.sub].
    unfold PROVISIONING_HOLD_MS, FACTORY_RESET_HOLD_MS in *.
    by rewrite !(proj2 (Z.leb_gt _ _)) by lia. }
  cbn [run]. rewrite E. split.
  - assert (Hrun : run (mk true (Some start) Low false) held
                   = (mk true (Some start) Low false, replicate (length held) ProvisioningMode)).
    { induction Hheld as [|r held [Hr Ht] _ IH]; [done|]. cbn [run].
      rewrite poll_held by done. unfold check_hold. cbn [pressed press_start].
      rewrite (proj2 (Z.leb_gt _ _)), (proj2 (Z.leb_le _ _)) by lia. by rewrite IH. }
    by rewrite Hrun.
  - intros Hrl Hrd Ht. unfold poll, on_change. cbn [deadlocked last_level].
    rewrite Hrl, Hrd, (bool_decide_eq_false_2 (High = Low)) by done.
    rewrite bool_decide_eq_true_2 by done. cbn -[Z.leb Z.sub]. unfold PROVISIONING_HOLD_MS, FACTORY_RESET_HOLD_MS in *.
    by rewrite !(proj2 (Z.leb_gt _ _)) by lia.
Qed.
End button.

Section led.
Import ConfigButton LedController.

(** [n] turns that find the same state, with the task not stopped. *)
Definition turns (n : nat) (s : LedState) : list t := replicate n (mk s true).

Lemma task_unchanged last n : task last (turns n last) = replicate n (LedController.SleepMs 100).
Proof.
  induction n as [|n IH]; [done|]. cbn [turns replicate task running negb state]. unfold update.
  rewrite bool_decide_eq_true_2 by done. cbn [negb app]. f_equal. exact IH.
Qed.

Lemma shown_sleeps before n : shown before (replicate n (LedController.SleepMs 100)) = before.
Proof. induction n as [|n IH]; [done|]. apply IH. Qed.

Lemma task_new_state last before n s :
  last <> s -> shown before (task last (turns (S n) s)) = shown before (update last s).2.
Proof.
  intros Hs. cbn [turns replicate task running negb state]. unfold update at 1 2.
  rewrite bool_decide_eq_false_2 by done. cbn [negb snd]. unfold shown. rewrite foldl_app.
  change (replicate n (mk s true)) with (turns n s). rewrite task_unchanged. apply shown_sleeps.
Qed.

(** The colours of the status LED, which is lit by low levels (a divergence from
    the documented colours).  Solid green, for [Connected], lights red and blue;
    solid red, for [Fault], lights green and blue; the amber pulse is right; the
    pulses of [NoUplink] and [BurstInProgress] are given once, after which the LED
    is dark for as long as the state lasts; and a stopped controller changes nothing
    any more, so the lights stay as they were. *)
Theorem led_colours last before n c rest :
  (last <> Connected -> shown before (task last (turns (S n) Connected)) = [Red; Blue]) /\
  (last <> Fault -> shown before (task last (turns (S n) Fault)) = [Green; Blue]) /\
  (last <> NoUplink -> shown before (task last (turns (S n) NoUplink)) = []) /\
  (last <> BurstInProgress ->
     shown before (task last (turns (S n) BurstInProgress)) = [] /\
     omap lit (update last BurstInProgress).2
       = concat (replicate 10 [[Red; Green]; []])) /\
  (last <> Off -> shown before (task last (turns (S n) Off)) = []) /\
  shown before (task last (stop (set_state c Off) :: rest)) = before.
Proof.
  assert (Hu : forall s, last <> s -> bool_decide (s = last) = false)
    by (intros; by apply bool_decide_eq_false_2).
  split_and!; [intros Hs; rewrite task_new_state by done; unfold update; rewrite Hu by done; reflexivity..| | |done].
  - intros Hs. rewrite task_new_state by done. unfold update. rewrite Hu by done. split; reflexivity.
  - intros Hs. rewrite task_new_state by done. unfold update. rewrite Hu by done. reflexivity.
Qed.
End led.

Section watchdog.
Import Watchdog.

(** The watchdog never starts (a defect): its kick task gets a clone of the driver, the
    clone asks for the pin again, and a pin in use is refused, so [new] panics whenever
    the pin was there to be had. *)
Lemma watchdog_never_starts `{GpioCrate, !GpioLaws} held :
  Watchdog.new held =
    if negb gpio_new then (held, Fail GpioInit)
    else if gpio_get held WATCHDOG_GPIO then (held ++ [WATCHDOG_GPIO], Panicked)
    else (held, Fail GpioInit).
Proof.
  unfold Watchdog.new, io_bind, gpio_open, gpio_take, clone. destruct gpio_new; [|done].
  destruct (gpio_get held WATCHDOG_GPIO) eqn:E; [|done]. cbn [negb].
  rewrite gpio_in_use; [done|]. rewrite elem_of_app. right. by apply list_elem_of_singleton.
Qed.

(** The watchdog is kicked periodically: the [n] first rising edges of the kick
    task are exactly 25.02 s apart, the first 25.01 s after the start, so the
    interval stays below the thirty seconds of the chip. *)
Theorem watchdog_period now n :
  rising now (task n) = map (fun i => now + 25010 + 25020 * i) (seqZ 0 (Z.of_nat n)).
Proof.
  revert now. induction n as [|n IH]; intros now; [done|].
  cbn [task kick app rising]. unfold WATCHDOG_KICK_INTERVAL_MS. rewrite IH.
  rewrite (seqZ_cons 0 (Z.of_nat (S n))) by lia. cbn [map]. f_equal; [lia|].
  replace (Z.pred (Z.of_nat (S n))) with (Z.of_nat n) by lia.
  change (Z.succ 0) with (1 + 0). rewrite <- (fmap_add_seqZ 1 0).
  rewrite <- list_fmap_compose. apply list_fmap_ext. intros i x _. cbn. lia.
Qed.
End watchdog.

Section atecc.
Import ATECC608B.

(** The checksum is the usual CRC-8 with polynomial [x^8 + x^2 + x + 1]. *)
Lemma crc8_msb data : bytes_ok data -> crc8 data = msb_crc 8 0x07 0 data.
Proof.
  intros Hok. unfold crc8, msb_crc. generalize 0 as c.
  induction Hok as [|b l Hb _ IH]; intros c; [done|]. cbn [foldl fold_left]. rewrite IH.
  assert (Hs : Nat.iter 8 crc8_bit (Z.lxor c b) = msb_byte 8 0x07 c b).
  { unfold msb_byte. change (8 - 8) with 0. rewrite Z.shiftl_0_r, wrap_small by done.
    change crc8_bit with (msb_bit 8 0x07). reflexivity. }
  by rewrite Hs.
Qed.

(** The repository's unit test of [crc8] expects [0x5B] for this input. *)
Example crc8_test : crc8 [1; 2; 3] = 0x48.
Proof. reflexivity. Qed.

Lemma crc8_range data : bytes_ok data -> in_u 8 (crc8 data).
Proof. intros. rewrite crc8_msb by done. apply msb_crc_range; unfold in_u; lia. Qed.

Lemma set_at_prefix (pre : bytes) n x :
  1 <= n -> set_at (pre ++ fill 0 n) (len pre) x = Ret ((pre ++ [x]) ++ fill 0 (n - 1)).
Proof.
  intros Hn. unfold set_at. rewrite copy_cursor by (rewrite ?len_cons, ?len_nil; lia). done.
Qed.

Section commands.
Context `{I2cBus, !I2cBusLaws}.

(** The bus accepts everything. *)
Definition bus_accepts : Prop :=
  (forall h a, address_ok h a = true) /\ (forall h d, bus_write_ok h d = true).

Definition wake_events : list event :=
  [SetAddress 0; BusWrite [0]; SleepMs 1; SetAddress ATECC608B_ADDR].

Lemma wake_accepted h : bus_accepts -> wake h = (h ++ wake_events, Fin tt).
Proof.
  intros [Ha Hw]. unfold wake, io_bind, set_slave_address, i2c_write, sleep, emit.
  rewrite !Ha, Hw. by rewrite <- !app_assoc.
Qed.

Lemma sign_command digest :
  len digest = 32 ->
  (cmd ← set_at (fill 0 36) 0 (opcode_u8 Sign);
   cmd ← set_at cmd 1 0x80;
   cmd ← set_at cmd 2 0x00;
   cmd ← copy_from_slice cmd 3 35 digest;
   body ← cmd.[0 ~> 35];
   set_at cmd 35 (crc8 body))
  = Ret (([0x41; 0x80; 0] ++ digest) ++ [crc8 ([0x41; 0x80; 0] ++ digest)]).
Proof.
  intros Hd. rewrite (set_at_prefix [] 36) by lia. mstep.
  rewrite (set_at_prefix [0x41] 35) by lia. mstep.
  rewrite (set_at_prefix [0x41; 0x80] 34) by lia. mstep.
  change (([0x41; 0x80] ++ [0]) ++ fill 0 (34 - 1)) with ([0x41; 0x80; 0] ++ fill 0 33).
  rewrite (copy_cursor 0 [0x41; 0x80; 0]) by (rewrite ?Hd; done). mstep.
  set (c := [0x41; 0x80; 0] ++ digest).
  assert (Hc : len c = 35) by (unfold c; rewrite len_app, Hd; done).
  rewrite Hd. change (33 - 32) with 1. 
  rewrite (slice_Ret _ 0 35) by (rewrite ?len_app, ?Hc, ?len_fill; lia). mstep. 
  rewrite (sub_app_l c) by lia. rewrite <- Hc, set_at_prefix by lia. apply f_equal, app_nil_r.
Qed.

(** A signature request is well formed and its answer is passed on unchanged.  On
    a bus that accepts writes, [sign] sends exactly the command [0x41 0x80 0] with
    the digest and a correct CRC-8; it returns the 64 bytes after the status byte
    when that is 1, and otherwise an error with the status; it never panics. *)
Theorem atecc_sign digest h :
  bus_accepts -> len digest = 32 ->
  let cmd := ([0x41; 0x80; 0] ++ digest) ++ [crc8 ([0x41; 0x80; 0] ++ digest)] in
  let h' := (h ++ wake_events) ++ [BusWrite cmd; SleepMs 100; BusRead 68] in
  let h_read := (h ++ wake_events) ++ [BusWrite cmd; SleepMs 100] in
  sign digest h = (h',
    match bus_read h_read 68 with
    | None => Fail I2cRead
    | Some r => let status := from_be (sub r 0 1) in
                if status =? 1 then Fin (sub r 1 64) else Fail (InvalidResponse status)
    end).
Proof.
  intros Hb Hd. cbv zeta. unfold sign. rewrite Hd. cbn [Z.eqb Pos.eqb negb].
  unfold io_bind at 1. rewrite wake_accepted by done. cbv zeta.
  rewrite sign_command by done. unfold io_bind at 1, of_outcome at 1.
  set (cmd := _ ++ [crc8 _]). unfold io_bind at 1, i2c_write. rewrite (proj2 Hb).
  unfold io_bind at 1, sleep, emit. unfold io_bind at 1, i2c_read. rewrite <- !app_assoc. cbn [app].
  change (64 + 4) with 68.
  destruct (bus_read _ 68) as [r|] eqn:E; [|done]. apply bus_read_len in E as [Hl _].
  destruct (sub_step r 0 0 ltac:(lia) ltac:(lia)) as (b & Hb0 & Hs). change (1 + 0) with 1 in Hs.
  rewrite Hs, sub_0. change (from_be [b]) with (b + 256 * 0). rewrite Z.mul_0_r, Z.add_0_r.
  unfold check_header, io_bind, of_outcome, io_fail, io_ret. rewrite Hb0.
  destruct (b =? 1) eqn:E1; cbn [negb]; [|done].
  rewrite (slice_Ret r 1 65) by lia. mstep.
  rewrite (copy_cursor_0 0 (sub r 1 (65 - 1)) 64) by (rewrite ?len_sub; lia).
  rewrite len_sub by lia. by rewrite app_nil_r.
Qed.

(** [verify] can never verify (a defect): with a digest and a signature of the
    right lengths it panics as soon as the chip is awake, because it copies the
    signature to the bytes 36 to 100 of a 99-byte command. *)
Theorem atecc_verify_panics digest signature h :
  len digest = 32 -> len signature = 64 ->
  match (verify digest signature h).2 with Fin _ => False | _ => True end /\
  (bus_accepts -> verify digest signature h = (h ++ wake_events, Panicked)).
Proof.
  intros Hd Hs.
  assert (Hp : (cmd ← set_at (fill 0 99) 0 (opcode_u8 Verify); cmd ← set_at cmd 1 0x00;
    cmd ← set_at cmd 2 0x00; cmd ← set_at cmd 3 0x00; cmd ← copy_from_slice cmd 4 36 digest;
    cmd ← copy_from_slice cmd 36 100 signature; body ← cmd.[0 ~> 98];
    set_at cmd 98 (crc8 body)) = Panic).
  { rewrite (set_at_prefix [] 99) by lia. mstep. rewrite (set_at_prefix [0x45] 98) by lia. mstep.
    rewrite (set_at_prefix [0x45; 0] 97) by lia. mstep.
    rewrite (set_at_prefix [0x45; 0; 0] 96) by lia. mstep.
    change (([0x45; 0; 0] ++ [0]) ++ fill 0 (96 - 1)) with ([0x45; 0; 0; 0] ++ fill 0 95).
    rewrite (copy_cursor 0 [0x45; 0; 0; 0]) by (rewrite ?Hd; done). mstep.
    unfold copy_from_slice at 1. rewrite (proj2 (Z.leb_gt 100 _)); [done|].
    len_simpl. lia. }
  assert (Hv : verify digest signature h = io_bind wake (fun _ => of_outcome Panic) h).
  { unfold verify. rewrite Hd, Hs. cbn [Z.eqb Pos.eqb negb]. cbv zeta. rewrite Hp.
    unfold io_bind. destruct (wake h) as [h1 [[]|e| |]]; done. }
  rewrite Hv. unfold io_bind, of_outcome. split; [by destruct (wake h) as [h1 [[]|e| |]]|].
  intros Hb. by rewrite wake_accepted.
Qed.
End commands.
End atecc.

(** ** Witnesses *)

Lemma button_reset_deadlocks_witness :
  (ConfigButton.run (ConfigButton.mk true (Some 0) ConfigButton.Low false)
    [ConfigButton.mkReading ConfigButton.Low ConfigButton.Low 10000 10000]).2 = [].
Proof.
  apply (button_reset_deadlocks (ConfigButton.mk true (Some 0) ConfigButton.Low false) 0
    (ConfigButton.mkReading ConfigButton.Low ConfigButton.Low 10000 10000) []);
    try reflexivity; vm_compute; discriminate.
Defined.

Lemma button_press_events_witness :
  (ConfigButton.run (ConfigButton.initial ConfigButton.High)
    [ConfigButton.mkReading ConfigButton.Low ConfigButton.Low 5 6;
     ConfigButton.mkReading ConfigButton.Low ConfigButton.Low 3006 3006]).2
  = [ConfigButton.Pressed; ConfigButton.ProvisioningMode].
Proof.
  apply (button_press_events (ConfigButton.initial ConfigButton.High) 5
    (ConfigButton.mkReading ConfigButton.Low ConfigButton.Low 5 6)
    [ConfigButton.mkReading ConfigButton.Low ConfigButton.Low 3006 3006]
    (ConfigButton.mkReading ConfigButton.Low ConfigButton.Low 0 0)); try reflexivity.
  constructor; [|constructor]. split; [reflexivity|]. vm_compute. split; [discriminate|reflexivity].
Defined.

Lemma led_colours_witness :
  LedController.shown [] (LedController.task LedController.Off [LedController.mk LedController.Connected true])
  = [LedController.Red; LedController.Blue].
Proof.
  apply (led_colours LedController.Off [] 0 (LedController.mk LedController.Off true) []). discriminate.
Defined.

Lemma watchdog_period_witness :
  Watchdog.rising 0 (Watchdog.task 2) = [25010; 50030].
Proof. apply (watchdog_period 0 2). Defined.

(** A chip that answers every read with ones. *)
Definition ones_bus : ATECC608B.I2cBus := {|
  ATECC608B.address_ok _ _ := true;
  ATECC608B.bus_write_ok _ _ := true;
  ATECC608B.bus_read _ n := if n <? 0 then None else Some (fill 1 n)
|}.

Lemma ones_bus_laws : @ATECC608B.I2cBusLaws ones_bus.
Proof.
  constructor. cbn. intros _ n r. destruct (n <? 0) eqn:E; [done|]. breflect. intros [= <-].
  rewrite len_fill. split; [lia|]. apply Forall_replicate. unfold in_u. lia.
Qed.

Lemma atecc_sign_witness :
  exists h, @ATECC608B.sign ones_bus (fill 7 32) [] = (h, Fin (fill 1 64)).
Proof.
  eexists. rewrite (@atecc_sign ones_bus ones_bus_laws (fill 7 32) []); [reflexivity|by split|done].
Defined.

Lemma atecc_verify_panics_witness :
  (@ATECC608B.verify ones_bus (fill 7 32) (fill 8 64) []).2 = Panicked.
Proof.
  rewrite (proj2 (@atecc_verify_panics ones_bus (fill 7 32) (fill 8 64) [] eq_refl eq_refl));
    [reflexivity|by split].
Defined.
