(* ===== verification/Modem.v ===== *)
(** * Cellular modems ([src/src/hardware]: gm02sp.rs, bg95.rs)

    The AT-command drivers of the two LTE-M modems.  The drivers differ only in names
    and comments; module [GM02SP] models the code, module [BG95] names its operations
    for the other file.  The serial port and the clocks are the environment: they
    answer as functions of what has happened so far.  The two loops (reading a reply,
    waiting for the network) get a number of turns; [modem_returns] shows how many
    are enough.

    [new] awaits in a function that is not [async] and [parse_at_int] advances an
    iterator bound without [mut]; both are read as if they were. *)

From S2P Require Import Prelude Float64 Text StrOps Io.

#[local] Open Scope io_scope.

Inductive event :=
| PortWrite (d : bytes)
| PortRead
| ReadClock
| ReadUnixTime
| SleepMs (ms : Z).

(** What a read of the port gives: [TimedOut] is the error kind of that name. *)
Inductive reply := Chunk (d : bytes) | TimedOut | Broken.

(** [now]: the monotone clock in nanoseconds; [unix_ms]: the wall clock. *)
Class Port := {
  now : list event -> Z;
  unix_ms : list event -> Z;
  write_ok : list event -> bytes -> bool;
  port_reply : list event -> reply
}.

(** The clock does not go back, sleeping takes its time, and a read takes at least
    [read_ns]. *)
Class ClockLaws `{Port} (read_ns : Z) : Prop := {
  now_mono : forall h e, now h <= now (h ++ [e]);
  now_sleep : forall h ms, now h + ms * 1000000 <= now (h ++ [SleepMs ms]);
  now_read : forall h, now h + read_ns <= now (h ++ [PortRead])
}.

Definition CRLF : bytes := [13; 10].

Module GM02SP.

Definition AT_TIMEOUT_MS : Z := 5000.
Definition REG_TIMEOUT_MS : Z := 60000.

Inductive ModemState := Off | Booting | Registered | Connecting | Connected | Error.
Inductive NetworkType := LTE_M | NB_IoT | NTN | Unknown.

Record SignalQuality := mkSignal { rssi : Z; ber : Z; rsrp : Z; rsrq : Z; sinr : Z }.

Record GnssFix := mkFix {
  latitude : f64;
  longitude : f64;
  altitude : f64;
  speed : f64;
  heading : f64;
  fix_quality : Z;
  satellites : Z;
  timestamp : Z
}.

(** The port is in the environment. *)
Record t := mk { state : ModemState; network_type : NetworkType }.

(** The texts of system errors are not modelled. *)
Inductive Gm02spError :=
| SerialInit | SerialWrite | SerialRead
| Timeout (cmd : bytes)
| AtError (response : bytes)
| RegistrationTimeout
| ConnectionFailed (response : bytes)
| SendFailed (response : bytes)
| InvalidGnssResponse (response : bytes).

Abbreviation modem := (io (t * list event) Gm02spError).

(** [i32], truncated to the field's type. *)
Definition parse_i32 : bytes -> option Z := parse_int (- 2 ^ 31) (2 ^ 31 - 1).
Definition parse_u8 : bytes -> option Z := parse_int 0 255.

Definition parse_at_int (response keyword : bytes) (index : nat) : option Z :=
  start ← find keyword response;
  after_colon ← find [58] (drop (Z.to_nat start) response);
  let values := split_on 44 (drop (Z.to_nat (start + after_colon + 1)) response) in
  value ← values !! index;
  parse_i32 (trim value).

Section driver.
Context `{Port}.

Definition tell (e : event) : modem unit := fun st => ((st.1, st.2 ++ [e]), Fin tt).
Definition clock : modem Z := fun st => ((st.1, st.2 ++ [ReadClock]), Fin (now st.2)).
Definition set_state (s : ModemState) : modem unit := fun st =>
  ((mk s (network_type st.1), st.2), Fin tt).
Definition set_network_type (n : NetworkType) : modem unit := fun st =>
  ((mk (state st.1) n, st.2), Fin tt).

Definition write_all (d : bytes) : modem unit := fun st =>
  ((st.1, st.2 ++ [PortWrite d]), if write_ok st.2 d then Fin tt else Fail SerialWrite).

(** [self.port.read(&mut buf)]: the chunk read, or nothing after a timeout. *)
Definition port_read : modem (option bytes) := fun st =>
  ((st.1, st.2 ++ [PortRead]),
   match port_reply st.2 with
   | Chunk d => Fin (Some d)
   | TimedOut => Fin None
   | Broken => Fail SerialRead
   end).

(** [SystemTime::now()] in milliseconds; the [unwrap] panics before the epoch. *)
Definition unix_time : modem Z := fun st =>
  ((st.1, st.2 ++ [ReadUnixTime]),
   if unix_ms st.2 <? 0 then Panicked else Fin (wrap 64 (unix_ms st.2))).

Definition elapsed_over (limit_ms start t : Z) : bool := limit_ms * 1000000 <? t - start.

(** The loop of [send_at]. *)
Fixpoint read_reply (polls : nat) (cmd : bytes) (start : Z) (response : bytes) : modem bytes :=
  match polls with
  | O => io_wait
  | S polls =>
      t <~ clock;
      if elapsed_over AT_TIMEOUT_MS start t then io_fail (Timeout cmd) else
      r <~ port_read;
      match r with
      | Some d =>
          let response := response ++ from_utf8_lossy d in
          if contains response (lit "OK") then io_ret response
          else if contains response (lit "ERROR") then io_fail (AtError response)
          else read_reply polls cmd start response
      | None => read_reply polls cmd start response
      end
  end.

Definition send_at (polls : nat) (cmd : bytes) : modem bytes :=
  write_all (cmd ++ CRLF);;;
  start <~ clock;
  read_reply polls cmd start [].

Definition power_on : modem unit := io_ret tt.

Definition reset : modem unit :=
  set_state Booting;;;
  tell (SleepMs 3000).

Definition registered_reply (response : bytes) : bool :=
  contains response (lit "+CREG: 1,1") || contains response (lit "+CREG: 1,5").

(** The loop of [register_network]. *)
Fixpoint await_network (turns polls : nat) (start : Z) : modem unit :=
  match turns with
  | O => io_wait
  | S turns =>
      t <~ clock;
      if elapsed_over REG_TIMEOUT_MS start t then io_fail RegistrationTimeout else
      response <~ send_at polls (lit "AT+CREG?");
      if registered_reply response then set_state Registered
      else (tell (SleepMs 2000);;; await_network turns polls start)
  end.

Definition register_network (turns polls : nat) : modem unit :=
  send_at polls (lit "AT+QNBIOTEURC=1");;;
  start <~ clock;
  await_network turns polls start;;;
  response <~ send_at polls (lit "AT+QNWINFO");
  if contains response (lit "LTE-M") then set_network_type LTE_M
  else if contains response (lit "NB-IoT") then set_network_type NB_IoT
  else if contains response (lit "NTN") then set_network_type NTN
  else io_ret tt.

(** The command that asks for the serving cell; the quotes are bytes 34. *)
Definition qeng_command : bytes := lit "AT+QENG=" ++ [34] ++ lit "servingcell" ++ [34].

Definition get_signal_quality (polls : nat) : modem SignalQuality :=
  response <~ send_at polls (lit "AT+CSQ");
  let rssi := swrap 8 (default 99 (parse_at_int response (lit "CSQ") 0)) in
  let ber := wrap 8 (default 99 (parse_at_int response (lit "CSQ") 1)) in
  response <~ send_at polls qeng_command;
  let rsrp := swrap 16 (default (-140) (parse_at_int response (lit "rsrp") 0)) in
  let rsrq := swrap 8 (default (-20) (parse_at_int response (lit "rsrq") 0)) in
  let sinr := swrap 8 (default (-20) (parse_at_int response (lit "sinr") 0)) in
  io_ret (mkSignal rssi ber rsrp rsrq sinr).

Definition open_command (host : bytes) (port : Z) : bytes :=
  lit "AT+QIOPEN=1,0," ++ [34] ++ lit "TCP" ++ [34] ++ lit "," ++ [34] ++ host ++ [34]
    ++ lit "," ++ int_to_string port ++ lit ",0,1".

Definition open_tcp (polls : nat) (host : bytes) (port : Z) : modem Z :=
  response <~ send_at polls (open_command host port);
  if contains response (lit "OK") then (set_state Connected;;; io_ret 0)
  else io_fail (ConnectionFailed response).

Definition send_tcp (polls : nat) (data : bytes) : modem unit :=
  response <~ send_at polls (lit "AT+QISEND=0," ++ int_to_string (len data));
  if negb (contains response (lit ">")) then io_fail (SendFailed response) else
  write_all data;;;
  response <~ send_at polls [];
  if contains response (lit "SEND OK") then io_ret tt else io_fail (SendFailed response).

Definition enable_gnss (polls : nat) : modem unit :=
  send_at polls (lit "AT+QGPS=1");;; io_ret tt.

(** [parts[i].parse::<f64>().unwrap_or(0.0)] *)
Definition f64_field (part : bytes) : f64 := default (f64_of_Z 0) (parse_f64 part).

Definition get_gnss_fix (polls : nat) : modem GnssFix :=
  response <~ send_at polls (lit "AT+QGPSLOC=2");
  match split_on 44 response with
  | _ :: p1 :: p2 :: p3 :: p4 :: p5 :: p6 :: _ :: _ :: _ :: _ :: p11 :: _ =>
      ts <~ unix_time;
      io_ret (mkFix (f64_field p1) (f64_field p2) (f64_field p3) (f64_field p4) (f64_field p5)
        (default 0 (parse_u8 p6)) (default 0 (parse_u8 p11)) ts)
  | _ => io_fail (InvalidGnssResponse response)
  end.

Definition get_esim_status (polls : nat) : modem bytes :=
  response <~ send_at polls (lit "AT+CIMI");
  io_ret (trim response).

(** [opened]: the port could be opened. *)
Definition new (opened : bool) (polls : nat) (h : list event)
  : (t * list event) * run Gm02spError t :=
  if negb opened then ((mk Off Unknown, h), Fail SerialInit) else
  (power_on;;;
   tell (SleepMs 3000);;;
   send_at polls (lit "ATE0");;;
   send_at polls (lit "AT");;;
   set_state Booting;;;
   (fun st => (st, Fin st.1))) (mk Off Unknown, h).
End driver.

End GM02SP.

(** bg95.rs: the same code under other names. *)
Module BG95.
Definition ModemState : Type := GM02SP.ModemState.
Definition NetworkType : Type := GM02SP.NetworkType.
Definition SignalQuality : Type := GM02SP.SignalQuality.
Definition GnssFix : Type := GM02SP.GnssFix.
Definition t : Type := GM02SP.t.
Definition Bg95Error : Type := GM02SP.Gm02spError.

Section driver.
Context `{Port}.
Definition parse_at_int : bytes -> bytes -> nat -> option Z := GM02SP.parse_at_int.
Definition send_at : nat -> bytes -> GM02SP.modem bytes := GM02SP.send_at.
Definition power_on : GM02SP.modem unit := GM02SP.power_on.
Definition reset : GM02SP.modem unit := GM02SP.reset.
Definition register_network : nat -> nat -> GM02SP.modem unit := GM02SP.register_network.
Definition get_signal_quality : nat -> GM02SP.modem GM02SP.SignalQuality := GM02SP.get_signal_quality.
Definition open_tcp : nat -> bytes -> Z -> GM02SP.modem Z := GM02SP.open_tcp.
Definition send_tcp : nat -> bytes -> GM02SP.modem unit := GM02SP.send_tcp.
Definition enable_gnss : nat -> GM02SP.modem unit := GM02SP.enable_gnss.
Definition get_gnss_fix : nat -> GM02SP.modem GM02SP.GnssFix := GM02SP.get_gnss_fix.
Definition get_esim_status : nat -> GM02SP.modem bytes := GM02SP.get_esim_status.
Definition new : bool -> nat -> list event -> (GM02SP.t * list event) * run GM02SP.Gm02spError GM02SP.t :=
  GM02SP.new.
End driver.
End BG95.

Import GM02SP.

(** ** Histories only grow *)

(** Every run of [m] extends the history, and leaves the modem's fields related to
    the old ones by [R]. *)
Definition moves {A} (R : t -> t -> Prop) (m : modem A) : Prop :=
  forall st, exists evs, (m st).1.2 = st.2 ++ evs /\ R st.1 (m st).1.1.

Abbreviation same := (fun a b : t => b = a).

Section growth.
Context `{Port}.

Lemma moves_stay {A} (m : modem A) : (forall st, (m st).1 = st) -> moves same m.
Proof. intros Hm st. exists []. by rewrite Hm, app_nil_r. Qed.

Lemma moves_tell e : moves same (tell e).
Proof. intros st. by exists [e]. Qed.
Lemma moves_clock : moves same clock.
Proof. intros st. by exists [ReadClock]. Qed.
Lemma moves_write d : moves same (write_all d).
Proof. intros st. by exists [PortWrite d]. Qed.
Lemma moves_read : moves same port_read.
Proof. intros st. by exists [PortRead]. Qed.
Lemma moves_unix : moves same unix_time.
Proof. intros st. by exists [ReadUnixTime]. Qed.

Lemma moves_seq {A B} (R S T : t -> t -> Prop) (m : modem A) (k : A -> modem B) :
  moves R m -> (forall a, moves S (k a)) ->
  (forall x y, R x y -> T x y) -> (forall x y z, R x y -> S y z -> T x z) ->
  moves T (io_bind m k).
Proof.
  intros Hm Hk HRT HT st. unfold io_bind. destruct (Hm st) as (e1 & He & Hs).
  destruct (m st) as [[s1 h1] r]. cbn [fst snd] in *. subst h1.
  destruct r as [a|e| |]; [|by exists e1; auto..].
  destruct (Hk a (s1, st.2 ++ e1)) as (e2 & He & Hs2). exists (e1 ++ e2).
  rewrite He, app_assoc. cbn [fst] in Hs2. eauto.
Qed.

Lemma moves_bind {A B} (R : t -> t -> Prop) (m : modem A) (k : A -> modem B) :
  moves same m -> (forall s, R s s) -> (forall a, moves R (k a)) -> moves R (io_bind m k).
Proof. intros Hm Hr Hk. apply (moves_seq same R); [done..| |]; by intros; subst. Qed.
End growth.

Create HintDb modem.
#[export] Hint Resolve moves_tell moves_clock moves_write moves_read moves_unix : modem.

(** Discharges [moves same] of straight-line code. *)
Ltac moves_auto :=
  repeat (apply (moves_bind same); [solve [auto with modem]|done|intros ?]);
  first [solve [auto with modem] | solve [by apply moves_stay] | idtac].

Section commands.
Context `{Port}.

Lemma moves_reply polls cmd start resp : moves same (read_reply polls cmd start resp).
Proof.
  revert resp. induction polls as [|p IH]; intros resp; [by apply moves_stay|]. cbn [read_reply].
  moves_auto. destruct (elapsed_over _ _ _); moves_auto.
  destruct a0 as [d|]; [|done]. cbv zeta.
  destruct (contains _ _); moves_auto. destruct (contains _ _); moves_auto.
Qed.
Hint Resolve moves_reply : modem.

Lemma moves_send polls cmd : moves same (send_at polls cmd).
Proof. unfold send_at. moves_auto. Qed.
Hint Resolve moves_send : modem.

(** [send_at] returns only replies that contain [OK]. *)
Lemma reply_ok polls cmd start resp st st' r :
  read_reply polls cmd start resp st = (st', Fin r) -> contains r (lit "OK") = true.
Proof.
  revert resp st. induction polls as [|p IH]; intros resp st Hr; [done|]. cbn [read_reply] in Hr.
  unfold io_bind at 1, clock in Hr. destruct (elapsed_over _ _ _); [done|].
  unfold io_bind at 1, port_read in Hr. cbn [fst snd] in Hr.
  destruct (port_reply _) as [d| |]; [|by eapply IH|done]. cbv zeta in Hr.
  destruct (contains _ (lit "OK")) eqn:E in Hr; [by io_inv|].
  destruct (contains _ _) in Hr; [done|]. by eapply IH.
Qed.

Lemma send_ok polls cmd st st' r :
  send_at polls cmd st = (st', Fin r) -> contains r (lit "OK") = true.
Proof. unfold send_at. intros. io_inv. by eapply reply_ok. Qed.

(** An error of [send_at] is never [ConnectionFailed]. *)
Lemma reply_not_connection polls cmd start resp st st' r :
  read_reply polls cmd start resp st = (st', Fail (ConnectionFailed r)) -> False.
Proof.
  revert resp st. induction polls as [|p IH]; intros resp st Hr; [done|]. cbn [read_reply] in Hr.
  unfold io_bind at 1, clock in Hr. destruct (elapsed_over _ _ _); [done|].
  unfold io_bind at 1, port_read in Hr. cbn [fst snd] in Hr.
  destruct (port_reply _) as [d| |]; [|by eapply IH|done]. cbv zeta in Hr.
  destruct (contains _ (lit "OK")) in Hr; [done|].
  destruct (contains _ _) in Hr; [done|]. by eapply IH.
Qed.

(** ** Time *)

Section time.
Context (read_ns : Z) `{!ClockLaws read_ns}.

Lemma now_app h evs : now h <= now (h ++ evs).
Proof.
  revert h. induction evs as [|e evs IH]; intros h; [rewrite app_nil_r; lia|].
  pose proof (now_mono h e). pose proof (IH (h ++ [e])). rewrite <- app_assoc in *. cbn [app] in *. lia.
Qed.

Lemma now_moves {A} R (m : modem A) st : moves R m -> now st.2 <= now (m st).1.2.
Proof. intros Hm. destruct (Hm st) as (e & -> & _). apply now_app. Qed.

(** Enough turns for a reply: each takes at least [read_ns]. *)
Lemma reply_returns polls cmd start resp st :
  0 < read_ns -> (1 <= polls)%nat ->
  AT_TIMEOUT_MS * 1000000 < now st.2 - start + (Z.of_nat polls - 1) * read_ns ->
  (read_reply polls cmd start resp st).2 <> Waiting.
Proof.
  intros Hr. revert resp st. induction polls as [|p IH]; intros resp st Hp Ht; [lia|].
  cbn [read_reply]. unfold io_bind at 1, clock.
  destruct (elapsed_over _ start (now st.2)) eqn:E; [done|].
  unfold elapsed_over in E. breflect.
  assert (Hn : now st.2 + read_ns <= now ((st.2 ++ [ReadClock]) ++ [PortRead])).
  { pose proof (now_mono st.2 ReadClock). pose proof (now_read (st.2 ++ [ReadClock])). lia. }
  assert (1 <= p)%nat by (destruct p; lia).
  unfold io_bind, port_read. cbn [fst snd].
  destruct (port_reply _) as [d| |]; [|apply IH; cbn [snd]; lia|done].
  cbv zeta. destruct (contains _ _); [done|]. destruct (contains _ _); [done|].
  apply IH; cbn [snd]; lia.
Qed.

Definition enough_polls : Z := AT_TIMEOUT_MS * 1000000 / read_ns + 2.

Lemma send_returns polls cmd st :
  0 < read_ns -> enough_polls <= Z.of_nat polls -> (send_at polls cmd st).2 <> Waiting.
Proof.
  intros Hr Hp. unfold enough_polls in Hp.
  assert (0 <= AT_TIMEOUT_MS * 1000000 / read_ns) by (apply Z.div_pos; [unfold AT_TIMEOUT_MS|]; lia).
  unfold send_at, io_bind, write_all, clock. destruct (write_ok _ _); [|done]. cbn [fst snd].
  apply reply_returns; [done|lia|]. cbn [snd].
  pose proof (now_mono (st.2 ++ [PortWrite (cmd ++ CRLF)]) ReadClock).
  pose proof (Z.mul_succ_div_gt (AT_TIMEOUT_MS * 1000000) read_ns Hr). nia.
Qed.
End time.
End commands.
#[export] Hint Resolve moves_reply moves_send : modem.

(** ** The public operations *)

Inductive call :=
| Reset | Register | Signal | Open (host : bytes) (port : Z) | Send (data : bytes)
| EnableGnss | Fix | Esim.

Section calls.
Context `{Port}.

Definition perform (turns polls : nat) (c : call) : modem unit :=
  match c with
  | Reset => reset
  | Register => register_network turns polls
  | Signal => get_signal_quality polls;;; io_ret tt
  | Open host port => open_tcp polls host port;;; io_ret tt
  | Send data => send_tcp polls data
  | EnableGnss => enable_gnss polls
  | Fix => get_gnss_fix polls;;; io_ret tt
  | Esim => get_esim_status polls;;; io_ret tt
  end.

(** The calls one after another, whatever their results. *)
Definition perform_all (turns polls : nat) (cs : list call) (st : t * list event)
  : t * list event := foldl (fun st c => (perform turns polls c st).1) st cs.

(** The abstract machine: the state after a call that ended with [r]. *)
Definition next_state (c : call) (r : run Gm02spError unit) (s s' : ModemState) : Prop :=
  match c, r with
  | Reset, _ => s' = Booting
  | Register, Fin _ => s' = Registered
  | Register, _ => s' = s \/ s' = Registered
  | Open _ _, Fin _ => s' = Connected
  | _, _ => s' = s
  end.

Abbreviation registers :=
  (fun a b : t => b = a \/ (state b = Registered /\ network_type b = network_type a)).

Lemma moves_await turns polls start : moves registers (await_network turns polls start).
Proof.
  induction turns as [|n IH]; cbn [await_network].
  { intros st. exists []. rewrite app_nil_r. auto. }
  apply moves_bind; [auto with modem|auto|]. intros tm. destruct (elapsed_over _ _ _).
  { intros st. exists []. rewrite app_nil_r. auto. }
  apply moves_bind; [auto with modem|auto|]. intros resp. destruct (registered_reply resp).
  { intros st. exists []. rewrite app_nil_r. auto. }
  apply moves_bind; [auto with modem|auto|]. by intros _.
Qed.

Lemma await_Fin turns polls start st st' :
  await_network turns polls start st = (st', Fin tt) -> state st'.1 = Registered.
Proof.
  revert st. induction turns as [|n IH]; intros st Hr; [done|]. cbn [await_network] in Hr.
  unfold io_bind at 1, clock in Hr. destruct (elapsed_over _ _ _); [done|].
  apply bind_Fin_inv in Hr as (st1 & resp & _ & Hr). destruct (registered_reply resp).
  - by injection Hr as <-.
  - apply bind_Fin_inv in Hr as (st2 & [] & _ & Hr). by eapply IH.
Qed.

(** Setting the type of the network leaves the state. *)
Abbreviation keeps_state := (fun a b : t => state b = state a).

Lemma moves_network resp :
  moves keeps_state
    (if contains resp (lit "LTE-M") then set_network_type LTE_M
     else if contains resp (lit "NB-IoT") then set_network_type NB_IoT
     else if contains resp (lit "NTN") then set_network_type NTN else io_ret tt).
Proof. intros st. exists []. rewrite app_nil_r. by repeat case_match. Qed.

Lemma moves_register turns polls :
  moves (fun a b => state b = state a \/ state b = Registered) (register_network turns polls).
Proof.
  unfold register_network. do 2 (apply moves_bind; [auto with modem|auto|intros ?]).
  apply (moves_seq registers keeps_state); [apply moves_await| |naive_solver congruence..].
  intros _. apply moves_bind; [auto with modem|done|]. apply moves_network.
Qed.

Lemma register_Fin turns polls st st' :
  register_network turns polls st = (st', Fin tt) -> state st'.1 = Registered.
Proof.
  intros Hr. unfold register_network in Hr. do 2 apply bind_Fin_inv in Hr as (? & ? & _ & Hr).
  apply bind_Fin_inv in Hr as (st1 & [] & H1 & Hr). apply await_Fin in H1.
  apply bind_Fin_inv in Hr as (st2 & resp & H2 & Hr).
  destruct (moves_send polls (lit "AT+QNWINFO") st1) as (e2 & _ & Hs). rewrite H2 in Hs.
  destruct (moves_network resp st2) as (e3 & _ & Hs3). rewrite Hr in Hs3.
  cbn [fst] in *. congruence.
Qed.

(** [open_tcp] connects or changes nothing; [ConnectionFailed] is never returned,
    since a reply without [OK] is not returned by [send_at]. *)
Lemma open_cases polls host port st :
  let '(st', r) := open_tcp polls host port st in
  (exists evs, st'.2 = st.2 ++ evs) /\
  match r with
  | Fin n => n = 0 /\ st'.1 = mk Connected (network_type st.1)
  | Fail (ConnectionFailed _) => False
  | _ => st'.1 = st.1
  end.
Proof.
  unfold open_tcp, io_bind at 1.
  destruct (moves_send polls (open_command host port) st) as (e & He & Hs).
  destruct (send_at _ _ st) as [st1 r] eqn:E. cbn [fst snd] in *.
  destruct r as [resp|err| |].
  - apply send_ok in E. rewrite E. unfold io_bind, set_state, io_ret. cbn [fst snd].
    rewrite Hs. split; [by exists e|done].
  - split; [by exists e|]. destruct err; try done.
    exfalso. revert E. unfold send_at, io_bind, write_all, clock. destruct (write_ok _ _); [|done].
    cbn [fst snd]. clear. intros E. by apply reply_not_connection in E.
  - by split; [exists e|].
  - by split; [exists e|].
Qed.

(** The value of a computation does not matter. *)
Lemma moves_drop {A} (m : modem A) : moves same m -> moves same (m;;; io_ret tt).
Proof. intros Hm. apply moves_bind; [done..|]. intros _. by apply moves_stay. Qed.

Lemma moves_fix polls : moves same (get_gnss_fix polls).
Proof. unfold get_gnss_fix. moves_auto. repeat case_match; moves_auto. Qed.

Lemma moves_others turns polls c :
  match c with Reset | Register | Open _ _ => False | _ => True end ->
  moves same (perform turns polls c).
Proof.
  destruct c as [| | |host port|data| | |]; try done; intros _; cbn [perform].
  - apply moves_drop. unfold get_signal_quality. moves_auto.
  - unfold send_tcp. moves_auto. destruct (negb _); moves_auto. destruct (contains _ _); moves_auto.
  - unfold enable_gnss. moves_auto.
  - apply moves_drop, moves_fix.
  - apply moves_drop. unfold get_esim_status. moves_auto.
Qed.

Lemma perform_step turns polls c st :
  let '(st', r) := perform turns polls c st in
  (exists evs, st'.2 = st.2 ++ evs) /\ next_state c r (state st.1) (state st'.1) /\
  (c <> Register -> network_type st'.1 = network_type st.1).
Proof.
  destruct (perform turns polls c st) as [st' r] eqn:E.
  assert (Hsame : moves same (perform turns polls c) ->
    (exists evs, st'.2 = st.2 ++ evs) /\ st'.1 = st.1).
  { intros Hm. destruct (Hm st) as (e & He & Hs). rewrite E in *. by split; [exists e|]. }
  destruct c as [| | |host port|data| | |];
    try (destruct (Hsame ltac:(by apply moves_others)) as [Hh ->];
         split_and!; [done|by destruct r|done]).
  - injection E as <- <-. cbn. eauto.
  - destruct (moves_register turns polls st) as (e & He & Hs). cbn [perform] in E. rewrite E in *.
    split; [by exists e|]. split; [|done].
    destruct r as [[]|err| |]; cbn [next_state]; try done. by eapply register_Fin.
  - cbn [perform] in E. unfold io_bind in E. pose proof (open_cases polls host port st) as Ho.
    destruct (open_tcp _ _ _ st) as [st1 r1]. destruct Ho as [Hh Ho].
    destruct r1 as [n|err| |]; injection E as <- <-.
    + destruct Ho as [-> ->]. by split_and!.
    + assert (st1.1 = st.1) as -> by by destruct err. by split_and!.
    + rewrite Ho. by split_and!.
    + rewrite Ho. by split_and!.
Qed.
End calls.

(** ** Waiting ends *)

Section returning.
Context `{Port} (read_ns : Z) `{!ClockLaws read_ns} (turns polls : nat).
Context (Hread : 0 < read_ns) (Hpolls : enough_polls read_ns <= Z.of_nat polls).

Lemma bind_returns {A B} (m : modem A) (k : A -> modem B) st :
  (m st).2 <> Waiting -> (forall a st', (k a st').2 <> Waiting) -> (io_bind m k st).2 <> Waiting.
Proof. intros Hm Hk. unfold io_bind. destruct (m st) as [st' [a|e| |]]; [apply Hk|done..]. Qed.

Lemma at_returns {B} cmd (k : bytes -> modem B) st :
  (forall a st', (k a st').2 <> Waiting) -> (io_bind (send_at polls cmd) k st).2 <> Waiting.
Proof. intros. apply bind_returns; [by apply (send_returns read_ns)|done]. Qed.

Lemma await_returns n start st :
  (1 <= n)%nat ->
  REG_TIMEOUT_MS * 1000000 < now st.2 - start + (Z.of_nat n - 1) * 2000000000 ->
  (await_network n polls start st).2 <> Waiting.
Proof.
  revert st. induction n as [|n IH]; intros st Hn Ht; [lia|]. cbn [await_network].
  unfold io_bind at 1, clock. destruct (elapsed_over _ start (now st.2)) eqn:E; [done|].
  unfold elapsed_over in E. breflect. assert (1 <= n)%nat by (destruct n; lia).
  pose proof (send_returns read_ns polls (lit "AT+CREG?") (st.1, st.2 ++ [ReadClock]) Hread Hpolls) as Hs.
  pose proof (now_mono st.2 ReadClock) as H1.
  pose proof (now_moves read_ns same _ (st.1, st.2 ++ [ReadClock]) (moves_send polls (lit "AT+CREG?"))) as H2.
  unfold io_bind at 1. destruct (send_at _ _ _) as [st1 [resp|e| |]]; [|done..].
  destruct (registered_reply resp); [done|]. unfold io_bind, tell. cbn [fst snd] in *.
  pose proof (now_sleep st1.2 2000). apply IH; cbn [snd]; lia.
Qed.

Lemma register_returns st :
  (32 <= turns)%nat -> (register_network turns polls st).2 <> Waiting.
Proof.
  intros Hturns. unfold register_network. apply at_returns. intros _ st1.
  unfold io_bind at 1, clock. unfold io_bind at 1.
  pose proof (await_returns turns (now st1.2) (st1.1, st1.2 ++ [ReadClock]) ltac:(lia)) as Ha.
  pose proof (now_mono st1.2 ReadClock).
  destruct (await_network _ _ _ _) as [st2 [u|e| |]]; [|done..|].
  - apply at_returns. intros resp st3. by repeat case_match.
  - apply Ha. cbn [snd]. unfold REG_TIMEOUT_MS. lia.
Qed.

Lemma fix_returns st : (get_gnss_fix polls st).2 <> Waiting.
Proof.
  apply at_returns. intros r st1. repeat case_match; try done.
  apply bind_returns; [|done]. unfold unix_time. by destruct (_ <? _).
Qed.
End returning.

(** C20: Every operation of the modem returns, whatever the modem answers: if the clock
    advances by at least [read_ns] during a read, then five seconds' worth of reads
    and two more, and 32 turns of the registration loop, are enough for a result or
    an error. *)
Theorem modem_returns `{Port} read_ns `{!ClockLaws read_ns} turns polls c st :
  0 < read_ns -> enough_polls read_ns <= Z.of_nat polls -> (32 <= turns)%nat ->
  (perform turns polls c st).2 <> Waiting.
Proof.
  intros Hr Hp Ht. destruct c as [| | |host port|data| | |]; cbn [perform]; [done|by apply (register_returns read_ns)|..].
  - apply bind_returns; [|done]. apply (at_returns read_ns); [done..|]. intros r st1. cbv zeta.
    by apply (at_returns read_ns).
  - apply bind_returns; [|done]. apply (at_returns read_ns); [done..|]. intros r st1. by case_match.
  - apply (at_returns read_ns); [done..|]. intros r st1. destruct (negb _); [done|].
    apply bind_returns; [unfold write_all; by destruct (write_ok _ _)|]. intros _ st2.
    apply (at_returns read_ns); [done..|]. intros r2 st3. by case_match.
  - by apply (at_returns read_ns).
  - apply bind_returns; [by apply (fix_returns read_ns)|done].
  - apply bind_returns; [|done]. by apply (at_returns read_ns).
Qed.

(** C22: The life cycle of the modem.  After a successful [new], and after any calls,
    the state is [Booting], [Registered] or [Connected] ([Connecting] and [Error] are
    never used); and every further call moves it as the abstract machine says: only
    [reset], registration and a successful [open_tcp] change it. *)
Theorem modem_state_machine `{Port} opened turns polls h st m cs :
  new opened polls h = (st, Fin m) ->
  let st1 := perform_all turns polls cs st in
  (state st1.1 = Booting \/ state st1.1 = Registered \/ state st1.1 = Connected) /\
  forall c, let '(st2, r) := perform turns polls c st1 in
    (exists evs, st2.2 = st1.2 ++ evs) /\
    next_state c r (state st1.1) (state st2.1) /\
    (c <> Register -> network_type st2.1 = network_type st1.1).
Proof.
  intros Hn. cbv zeta. split; [|intros c; apply perform_step].
  assert (H0 : state st.1 = Booting).
  { unfold new in Hn. destruct (negb opened); [done|]. io_inv.
    unfold set_state in *. by simplify_eq/=. }
  assert (Hinv : state st.1 = Booting \/ state st.1 = Registered \/ state st.1 = Connected) by auto.
  clear Hn H0 m. revert st Hinv. induction cs as [|c cs IH]; intros st Hinv; [done|].
  apply IH. pose proof (perform_step turns polls c st) as Hs.
  destruct (perform turns polls c st) as [st2 r]. destruct Hs as (_ & Hs & _). cbn [fst].
  destruct c, r; cbn [next_state] in Hs; rewrite ?Hs; auto; destruct Hs as [->| ->]; auto.
Qed.

(** ** Replies *)

Section replies.
Context `{Port}.

(** The modem answers a command with a text that arrives in one piece and in time. *)
Definition answers (h : list event) (cmd text : bytes) : Prop :=
  let h1 := h ++ [PortWrite (cmd ++ CRLF)] in
  write_ok h (cmd ++ CRLF) = true /\
  now (h1 ++ [ReadClock]) - now h1 <= AT_TIMEOUT_MS * 1000000 /\
  port_reply (h1 ++ [ReadClock; ReadClock]) = Chunk text.

Definition exchange (cmd : bytes) : list event :=
  [PortWrite (cmd ++ CRLF); ReadClock; ReadClock; PortRead].

Definition ascii (text : bytes) : Prop := Forall (fun b => 0 <= b <= 0x7F) text.

Lemma send_answer p cmd text m h :
  answers h cmd text -> ascii text -> contains text (lit "OK") = true ->
  send_at (S p) cmd (m, h) = ((m, h ++ exchange cmd), Fin text).
Proof.
  intros (Hw & Ht & Hr) Ha Hok. unfold send_at, io_bind at 1, write_all. cbn [fst snd].
  rewrite Hw. unfold io_bind at 1, clock at 1. cbn [fst snd read_reply].
  unfold io_bind at 1, clock, elapsed_over. cbn [fst snd].
  rewrite (proj2 (Z.ltb_ge _ _)) by done.
  unfold io_bind, port_read, io_ret, exchange. cbn [fst snd]. rewrite <- !app_assoc in *. cbn [app] in *.
  rewrite Hr. cbv zeta. cbn [app]; rewrite lossy_ascii by done. by rewrite Hok.
Qed.

(** The end of every successful reply. *)
Definition ok_line : bytes := CRLF ++ CRLF ++ lit "OK" ++ CRLF.

Definition csq_reply (rssi ber : Z) : bytes :=
  CRLF ++ lit "+CSQ: " ++ int_to_string rssi ++ lit "," ++ int_to_string ber ++ ok_line.

Definition loc_reply (ws : list bytes) (numsv : Z) : bytes :=
  concat (map (fun w => w ++ [44]) ws) ++ int_to_string numsv ++ ok_line.

Lemma no_comma z : 0 <= z -> 44 ∉ int_to_string z.
Proof.
  intros Hz Hin. destruct (print_digits z Hz) as [_ Hd].
  apply list_elem_of_In in Hin. rewrite Forall_forall in Hd. apply Hd in Hin. lia.
Qed.

Lemma last_no_comma z : 0 <= z -> 44 ∉ int_to_string z ++ ok_line.
Proof.
  intros Hz. rewrite not_elem_of_app. split; [by apply no_comma|]. unfold ok_line. compute_done.
Qed.

(** The last value of a reply runs to its end and is not a number. *)
Lemma last_value_lost lo hi z : parse_int lo hi (int_to_string z ++ ok_line) = None.
Proof.
  change (int_to_string z ++ ok_line) with (int_to_string z ++ 13 :: [10; 13; 10; 79; 75; 13; 10]).
  by apply parse_int_bad.
Qed.

Lemma last_value_trimmed z : 0 <= z -> parse_i32 (trim (int_to_string z ++ ok_line)) = None.
Proof.
  intros Hz. destruct (print_digits z Hz) as [Hne Hd]. destruct (int_to_string z) as [|c w]; [done|].
  apply Forall_cons_1 in Hd as [Hc _].
  change ((c :: w) ++ ok_line) with (c :: w ++ [13; 10; 13; 10; 79] ++ [75; 13; 10]).
  rewrite app_assoc, trim_line by lia. rewrite <- app_assoc. cbn [app].
  change (c :: w ++ 13 :: [10; 13; 10; 79; 75]) with ((c :: w) ++ 13 :: [10; 13; 10; 79; 75]).
  by apply parse_int_bad.
Qed.

Lemma csq_values r b :
  0 <= r <= 99 -> 0 <= b ->
  parse_at_int (csq_reply r b) (lit "CSQ") 0 = Some r /\
  parse_at_int (csq_reply r b) (lit "CSQ") 1 = None.
Proof.
  intros Hr Hb.
  assert (Hp : forall i, parse_at_int (csq_reply r b) (lit "CSQ") i
    = value ← [32 :: int_to_string r; int_to_string b ++ ok_line] !! i; parse_i32 (trim value)).
  { intros i.
    transitivity (value ← split_on 44 ((32 :: int_to_string r) ++ 44 :: int_to_string b ++ ok_line) !! i;
                  parse_i32 (trim value)); [reflexivity|].
    rewrite split_on_here, split_on_last; [done|by apply last_no_comma|].
    rewrite not_elem_of_cons. split; [done|]. apply no_comma. lia. }
  rewrite !Hp. cbn [lookup list_lookup]. split; [|by apply last_value_trimmed].
  cbn [mbind option_bind]. unfold trim. rewrite trim_start_space. change (trim_end (trim_start ?w)) with (trim w).
  destruct (print_digits r ltac:(lia)) as [Hne Hd].
  assert (trim (int_to_string r) = int_to_string r) as ->.
  { destruct (int_to_string r) as [|c w]; [done|]. apply Forall_cons_1 in Hd as [Hc Hw].
    apply trim_word; [lia|]. eapply list.Forall_impl; [exact Hw|]. cbn. lia. }
  unfold parse_i32. apply parse_int_to_string; lia.
Qed.

Lemma digits_ascii z : ascii (int_to_string z).
Proof. apply int_to_string_ascii. Qed.

Lemma ok_line_ascii : ascii ok_line.
Proof. unfold ascii. compute_done. Qed.

Lemma csq_ascii r b : ascii (csq_reply r b).
Proof.
  unfold ascii, csq_reply, CRLF. repeat apply Forall_app_2; try apply digits_ascii;
    try apply ok_line_ascii; compute_done.
Qed.

Lemma ok_suffix s : contains (s ++ ok_line) (lit "OK") = true.
Proof.
  apply contains_spec. exists (s ++ CRLF ++ CRLF), CRLF. unfold ok_line. by rewrite <- !app_assoc.
Qed.

Lemma loc_ascii ws n : Forall ascii ws -> ascii (loc_reply ws n).
Proof.
  intros Hws. unfold ascii, loc_reply. apply Forall_app_2; [|apply Forall_app_2; [apply digits_ascii|apply ok_line_ascii]].
  induction Hws as [|w ws Hw _ IH]; [constructor|]. cbn [map concat].
  apply Forall_app_2; [|done]. apply Forall_app_2; [done|]. constructor; [lia|constructor].
Qed.
End replies.

(** The last value of a reply is never understood (a defect): it runs on into the
    line with [OK].  A modem that answers [AT+CSQ] with a signal strength and a bit
    error rate in the documented format gives the signal strength, but the bit error
    rate 99 ([unknown]) whatever it reported. *)
Theorem modem_error_rate_lost `{Port} p m h r b cell :
  0 <= r <= 99 -> 0 <= b <= 99 ->
  answers h (lit "AT+CSQ") (csq_reply r b) ->
  answers (h ++ exchange (lit "AT+CSQ")) qeng_command cell ->
  ascii cell -> contains cell (lit "OK") = true ->
  exists h' q, get_signal_quality (S p) (m, h) = ((m, h'), Fin q) /\ rssi q = r /\ ber q = 99.
Proof.
  intros Hr Hb H1 H2 Ha Hok. destruct (csq_values r b Hr ltac:(lia)) as [V0 V1].
  eexists _, _. unfold get_signal_quality. split; [|cbn [rssi ber]].
  - erewrite bind_Fin; [|apply send_answer; [done|apply csq_ascii|]].
    2:{ unfold csq_reply. rewrite !app_assoc. apply ok_suffix. }
    cbv zeta. rewrite V0, V1. erewrite bind_Fin by (by apply send_answer). reflexivity.
  - split; [apply swrap_small; unfold in_i; cbn; lia|done].
Qed.

(** A position reply of the documented format (twelve values, the number of
    satellites last) gives the position, speed, heading and quality its fields
    say, but always zero satellites (a defect, for the same reason). *)
Theorem modem_satellites_lost `{Port} p m h ws n :
  length ws = 11%nat -> Forall (fun w => 44 ∉ w) ws -> Forall ascii ws -> 0 <= n ->
  answers h (lit "AT+QGPSLOC=2") (loc_reply ws n) ->
  0 <= unix_ms (h ++ exchange (lit "AT+QGPSLOC=2")) ->
  let field i := f64_field (nth i ws []) in
  exists h', get_gnss_fix (S p) (m, h) = ((m, h'), Fin (
    mkFix (field 1%nat) (field 2%nat) (field 3%nat) (field 4%nat) (field 5%nat)
      (default 0 (parse_u8 (nth 6 ws []))) 0
      (wrap 64 (unix_ms (h ++ exchange (lit "AT+QGPSLOC=2")))))).
Proof.
  intros Hl Hc Ha Hn H1 Ht. cbv zeta. eexists. unfold get_gnss_fix.
  erewrite bind_Fin; [|apply send_answer; [done|by apply loc_ascii|]].
  2:{ unfold loc_reply. rewrite app_assoc. apply ok_suffix. }
  assert (Hs : split_on 44 (loc_reply ws n) = ws ++ [int_to_string n ++ ok_line]).
  { apply split_on_join; [done|by apply last_no_comma]. }
  rewrite Hs. do 11 (destruct ws as [|? ws]; [done|]). destruct ws; [|done].
  cbn [app nth]. unfold io_bind, unix_time. cbn [fst snd].
  rewrite (proj2 (Z.ltb_ge _ _)) by done. unfold parse_u8 at 2. by rewrite last_value_lost.
Qed.

(** ** The prompt for data *)

Section prompt.
Context `{Port}.

(** Reading the port and the clock. *)
Definition quiet (e : event) : Prop :=
  match e with PortRead | ReadClock => True | _ => False end.

Lemma contains_ok_elem resp : contains resp (lit "OK") = true -> 75 ∈ resp.
Proof.
  intros Hc. apply contains_spec in Hc as (a & b & ->). rewrite !elem_of_app.
  right. left. compute_done.
Qed.

Lemma reply_without_ok polls cmd start resp m h :
  75 ∉ resp ->
  (forall evs, Forall quiet evs ->
     match port_reply (h ++ evs) with Chunk d => 75 ∉ d | _ => True end) ->
  exists evs r, read_reply polls cmd start resp (m, h) = ((m, h ++ evs), r) /\
    Forall quiet evs /\ match r with Fin _ => False | _ => True end.
Proof.
  revert resp h. induction polls as [|p IH]; intros resp h Hk Hp.
  { exists [], Waiting. by rewrite app_nil_r. }
  cbn [read_reply]. unfold io_bind at 1, clock. cbn [fst snd].
  destruct (elapsed_over _ _ _); [exists [ReadClock]; eexists; repeat constructor|].
  unfold io_bind, port_read. cbn [fst snd]. rewrite <- app_assoc. cbn [app].
  assert (Hq : Forall quiet [ReadClock; PortRead]) by (repeat constructor).
  assert (Hnext : forall resp, 75 ∉ resp -> exists evs r,
    read_reply p cmd start resp (m, h ++ [ReadClock; PortRead]) = ((m, h ++ evs), r) /\
    Forall quiet evs /\ match r with Fin _ => False | _ => True end).
  { intros resp' Hr. destruct (IH resp' (h ++ [ReadClock; PortRead]) Hr) as (evs & r & E & He & Hf).
    - intros evs He. rewrite <- app_assoc. apply Hp. by apply Forall_app_2.
    - exists ([ReadClock; PortRead] ++ evs), r. rewrite E, app_assoc.
      split_and!; [done|by apply Forall_app_2|done]. }
  specialize (Hp [ReadClock] ltac:(repeat constructor)).
  destruct (port_reply (h ++ [ReadClock])) as [d| |]; [|by apply Hnext|].
  - cbv zeta. assert (Hr : 75 ∉ resp ++ from_utf8_lossy d).
    { rewrite elem_of_app. intros [?|Hl]; [done|]. apply lossy_elem in Hl as [?|Hl]; [done|].
      revert Hl. change (75 ∉ REPLACEMENT). compute_done. }
    destruct (contains _ (lit "OK")) eqn:E; [by apply contains_ok_elem in E|].
    destruct (contains _ (lit "ERROR")); [|by apply Hnext].
    exists [ReadClock; PortRead]. eexists. split_and!; done.
  - exists [ReadClock; PortRead]. eexists. split_and!; done.
Qed.

Lemma send_without_ok polls cmd m h :
  (forall evs, Forall quiet evs ->
     match port_reply (h ++ PortWrite (cmd ++ CRLF) :: evs) with Chunk d => 75 ∉ d | _ => True end) ->
  exists evs r, send_at polls cmd (m, h) = ((m, h ++ PortWrite (cmd ++ CRLF) :: evs), r) /\
    Forall quiet evs /\ match r with Fin _ => False | _ => True end.
Proof.
  intros Hp. unfold send_at, io_bind, write_all. cbn [fst snd].
  destruct (write_ok _ _); [|exists []; eexists; by split_and!].
  unfold clock. cbn [fst snd]. rewrite <- app_assoc. cbn [app]. set (c := PortWrite _) in *.
  destruct (reply_without_ok polls cmd (now (h ++ [c])) [] m (h ++ [c; ReadClock]))
    as (evs & r & E & He & Hf).
  - apply not_elem_of_nil.
  - intros evs He. rewrite <- app_assoc. apply Hp. by constructor.
  - exists (ReadClock :: evs), r. rewrite E, <- app_assoc. by split_and!; [|constructor|].
Qed.
End prompt.

(** Data is not sent to a modem that asks for it with a bare prompt (a defect).  If
    what the modem answers to [AT+QISEND] before it has the data contains no [OK] (as
    the documented prompt [>] does not), then [send_tcp] only waits: it never
    writes the data, and it fails or is still waiting. *)
Theorem modem_prompt_ignored `{Port} polls data m h :
  let cmd := (lit "AT+QISEND=0," ++ int_to_string (len data)) ++ CRLF in
  (forall evs, Forall quiet evs ->
     match port_reply (h ++ PortWrite cmd :: evs) with Chunk d => 75 ∉ d | _ => True end) ->
  exists evs r, send_tcp polls data (m, h) = ((m, h ++ PortWrite cmd :: evs), r) /\
    Forall quiet evs /\ match r with Fin _ => False | _ => True end.
Proof.
  cbv zeta. intros Hp. destruct (send_without_ok polls _ m h Hp) as (evs & r & E & He & Hf).
  exists evs. unfold send_tcp, io_bind at 1. rewrite E.
  destruct r as [x|e| |]; [done|by eexists..].
Qed.

(** ** Witnesses *)

(** Reads take five seconds, sleeps their time, everything else none. *)
Definition tick (e : event) : Z :=
  match e with PortRead => 5000000000 | SleepMs ms => Z.max 0 (ms * 1000000) | _ => 0 end.
Definition last_command (h : list event) : bytes :=
  foldl (fun c e => match e with PortWrite d => d | _ => c end) [] h.

(** A modem that answers each command as [f] says. *)
Definition scripted (f : bytes -> reply) : Port := {|
  now h := foldl (fun t e => t + tick e) 0 h;
  unix_ms _ := 7;
  write_ok _ _ := true;
  port_reply h := f (last_command h)
|}.

Lemma scripted_laws f : @ClockLaws (scripted f) 5000000000.
Proof. constructor; intros; cbn [now scripted]; rewrite foldl_app; cbn [foldl tick]; [destruct e|..]; cbn [tick]; lia. Qed.

Definition silent : Port := scripted (fun _ => TimedOut).
Definition answering : Port := scripted (fun cmd =>
  if bool_decide (cmd = lit "AT+CSQ" ++ CRLF) then Chunk (csq_reply 15 3)
  else if bool_decide (cmd = lit "AT+CREG?" ++ CRLF) then Chunk (lit "+CREG: 1,5" ++ ok_line)
  else Chunk ok_line).

Lemma modem_returns_witness :
  (@perform silent 32 3 Register (mk Booting Unknown, [])).2 <> Waiting.
Proof.
  apply (@modem_returns silent 5000000000 (scripted_laws _) 32 3 Register);
    [reflexivity|vm_compute; discriminate|repeat constructor].
Defined.

Lemma modem_state_machine_witness :
  let st := (@perform_all answering 1 1 [Register; Open (lit "host") 80]
    (@new answering true 1 []).1).1 in
  state st = Booting \/ state st = Registered \/ state st = Connected.
Proof.
  eapply (@modem_state_machine answering true 1 1 []). vm_compute. reflexivity.
Defined.

Lemma modem_error_rate_lost_witness :
  exists h' q, @get_signal_quality answering 1 (mk Booting Unknown, []) = ((mk Booting Unknown, h'), Fin q)
    /\ rssi q = 15 /\ ber q = 99.
Proof.
  apply (@modem_error_rate_lost answering 0 (mk Booting Unknown) [] 15 3 ok_line);
    [lia|lia|vm_compute; by split_and!|vm_compute; by split_and!|apply ok_line_ascii|reflexivity].
Defined.

Definition sample_fields : list bytes :=
  [lit "+QGPSLOC: 120000.0"; lit "48.8566"; lit "2.3522"; lit "35.0"; lit "0.5"; lit "90.0"; lit "3";
   lit "1.1"; lit "1.2"; lit "2.0"; lit "3.0"].
Definition located : Port := scripted (fun _ => Chunk (loc_reply sample_fields 8)).

Lemma modem_satellites_lost_witness :
  exists h' fix_, @get_gnss_fix located 1 (mk Booting Unknown, []) = ((mk Booting Unknown, h'), Fin fix_)
    /\ fix_quality fix_ = 3 /\ satellites fix_ = 0 /\ parse_f64 (lit "48.8566") = Some (latitude fix_).
Proof.
  destruct (@modem_satellites_lost located 0 (mk Booting Unknown) [] sample_fields 8) as [h' E].
  - reflexivity.
  - compute_done.
  - unfold ascii. compute_done.
  - lia.
  - vm_compute. by split_and!.
  - vm_compute. discriminate.
  - eexists h', _. split; [exact E|]. split_and!; vm_compute; reflexivity.
Defined.

Definition prompting : Port := scripted (fun _ => Chunk (CRLF ++ lit "> ")).

Lemma modem_prompt_ignored_witness :
  exists evs r, @send_tcp prompting 5 [1; 2] (mk Connected LTE_M, [])
    = ((mk Connected LTE_M, PortWrite (lit "AT+QISEND=0,2" ++ CRLF) :: evs), r) /\ Forall quiet evs.
Proof.
  destruct (@modem_prompt_ignored prompting 5 [1; 2] (mk Connected LTE_M) []) as (evs & r & E & He & _).
  - intros evs _. cbn [port_reply prompting scripted]. compute_done.
  - exists evs, r. split; [exact E|exact He].
Defined.
