(* ===== verification/Provisioning.v ===== *)
(** * Provisioning ([src/src/provisioning]: lora_provisioning.rs, provision.rs)

    Joining LoRa nodes over the radio of [Radio], and the provisioning of the gateway
    itself on its configuration partition.

    The radio of [LoRaProvisioningMode] is behind a mutex, which the model has: its
    holder is part of the state, a task that locks it waits while it is held, and a
    guard is released where the language drops it.  Each call of [start] spawns a task;
    any number of them interleave, one step from one lock or radio call to the next.
    The mutexes of the registry and of the flag are held within one such step only.

    provision.rs uses [?] on errors of other types without a conversion, and reads
    the serial number through a value that is not [mut]; an error of the chip is read
    as [AteccError], one of the certificate crate as [Serialization]. *)

From S2P Require Import Prelude Externals Utf8 Text StrOps Io Radio Board.

(** ** LoRa nodes *)

Module LoRaProvisioningMode.

Record LoRaNode := mkNode {
  node_id : Z;
  session_key : bytes;
  last_seen : Z;
  sensor_type : bytes
}.

Record JoinRequest := mkJoin { join_node_id : Z; join_sensor_type : bytes }.

Inductive ProvisioningError := InvalidFrame.

(** Where a task is in its loop.  The guard of [lr1121.lock()] in the scrutinee of the
    [if let] lives until the end of that statement ([EndIfLet]), the one in the
    statement that transmits until the end of the latter. *)
Inductive pc :=
| Head                       (* [while *active.lock().await] *)
| LockRx                     (* [lr1121.lock().await] of the scrutinee *)
| Receiving                    (* [.rx_packet().await] *)
| Insert (node : JoinRequest)
| LockTx (node : LoRaNode)   (* [lr1121.lock().await] of the answer *)
| Transmit (accept : bytes)  (* [.tx_packet(&accept).await] *)
| EndIfLet                   (* the guard of the scrutinee is dropped *)
| Pause                      (* [sleep] *)
| Listening                  (* a call of the radio has not returned *)
| Gone.                      (* left the loop, or panicked *)

(** [lr1121] is the task that holds the guard of the radio's mutex, if one does; the
    radio itself is in the environment. *)
Record t := mk {
  lr1121 : option nat;
  nodes : gmap Z LoRaNode;
  active : bool;
  tasks : list pc
}.

Definition new : t := mk None ∅ false [].

Definition set_lock (s : t) (l : option nat) : t := mk l (nodes s) (active s) (tasks s).
Definition set_nodes (s : t) (ns : gmap Z LoRaNode) : t := mk (lr1121 s) ns (active s) (tasks s).
Definition goto (s : t) (i : nat) (k : pc) : t := mk (lr1121 s) (nodes s) (active s) (<[i := k]> (tasks s)).

Definition parse_join_request (frame : LR1121.LoRaFrame)
  : outcome (result JoinRequest ProvisioningError) :=
  let data := LR1121.data frame in
  if len data <? 8 then Ret (Err InvalidFrame) else
  id ← read_at data 0 4;
  let node_id := from_be id in
  sensor_type_len ← data.[4];
  if len data <? 5 + sensor_type_len then Ret (Err InvalidFrame) else
  s ← data.[5 ~> 5 + sensor_type_len];
  Ret (Ok (mkJoin node_id (from_utf8_lossy s))).

Definition build_join_accept (node : LoRaNode) : bytes :=
  to_be 4 (node_id node) ++ session_key node.

(** What a turn of the task finds: the polls its radio call is given, the clock, and
    the bytes of the random generator. *)
Record observed := mkObs { polls : nat; now : Z; key : bytes }.

(** [lock().await] by task [i]: the mutex once it is free; a task that finds it taken,
    by whomever, waits. *)
Definition lock (i : nat) (s : t) : option t :=
  match lr1121 s with None => Some (set_lock s (Some i)) | Some _ => None end.
(** A guard is dropped. *)
Definition unlock (s : t) : t := set_lock s None.

Section task.
Context `{Device}.

(** The next step of task [i].  A panic drops the guard of the task. *)
Definition turn (i : nat) (o : observed) (c : t * history) : t * history :=
  let '(s, h) := c in
  match tasks s !! i with
  | Some Head => (goto s i (if active s then LockRx else Gone), h)
  | Some LockRx => match lock i s with Some s => (goto s i Receiving, h) | None => c end
  | Some Receiving =>
      match LR1121.rx_packet (polls o) h with
      | (h, Fin frame) =>
          match parse_join_request frame with
          | Ret (Ok node) => (goto s i (Insert node), h)
          | Ret (Err _) => (goto s i EndIfLet, h)
          | Panic => (goto (unlock s) i Gone, h)
          end
      | (h, Fail _) => (goto s i EndIfLet, h)
      | (h, Panicked) => (goto (unlock s) i Gone, h)
      | (h, Waiting) => (goto s i Listening, h)
      end
  | Some (Insert node) =>
      if now o <? 0 then (goto (unlock s) i Gone, h) else
      let node_entry :=
        mkNode (join_node_id node) (key o) (wrap 64 (now o)) (join_sensor_type node) in
      (goto (set_nodes s (<[join_node_id node := node_entry]> (nodes s))) i (LockTx node_entry), h)
  | Some (LockTx node_entry) =>
      let accept := build_join_accept node_entry in
      match lock i s with Some s => (goto s i (Transmit accept), h) | None => c end
  | Some (Transmit accept) =>
      match LR1121.tx_packet (polls o) accept h with
      | (h, Fin _) | (h, Fail _) => (goto (unlock s) i EndIfLet, h)
      | (h, Panicked) => (goto (unlock s) i Gone, h)
      | (h, Waiting) => (goto s i Listening, h)
      end
  | Some EndIfLet => (goto (unlock s) i Pause, h)
  | Some Pause => (goto s i Head, h ++ [SleepMs 100])
  | Some Listening | Some Gone | None => c
  end.
End task.

(** [start] spawns one more task. *)
Definition start (s : t) : t := mk (lr1121 s) (nodes s) true (tasks s ++ [Head]).
Definition stop (s : t) : t := mk (lr1121 s) (nodes s) false (tasks s).

(** The order of the values is the hash map's. *)
Definition get_nodes (order : list (Z * LoRaNode) -> list (Z * LoRaNode)) (s : t) : list LoRaNode :=
  map snd (order (map_to_list (nodes s))).
Definition remove_node (s : t) (id : Z) : t := set_nodes s (delete id (nodes s)).

(** Executions: calls of the interface and steps of the tasks, in any order. *)
Inductive action := Start | Stop | Remove (id : Z) | Turn (i : nat) (o : observed).

Definition perform `{Device} (c : t * history) (a : action) : t * history :=
  match a with
  | Start => (start c.1, c.2)
  | Stop => (stop c.1, c.2)
  | Remove id => (remove_node c.1 id, c.2)
  | Turn i o => turn i o c
  end.

Definition run_actions `{Device} (c : t * history) (acts : list action) : t * history := foldl perform c acts.

End LoRaProvisioningMode.

(** ** The gateway *)

(** [serde_json] on the configuration; [None] is an error.  The law is the round trip;
    JSON text is UTF-8. *)
Record ProvisioningConfig := mkConfig {
  gateway_id : bytes;
  site_id : bytes;
  lora_freq : Z;
  ca_endpoint : bytes
}.
#[global] Instance ProvisioningConfig_eq_dec : EqDecision ProvisioningConfig.
Proof. solve_decision. Defined.

Class JsonCrate := {
  to_json : ProvisioningConfig -> option bytes;
  from_json : bytes -> option ProvisioningConfig
}.
Class JsonLaws `{JsonCrate} : Prop := {
  json_roundtrip : forall c j, to_json c = Some j -> from_json j = Some c;
  json_utf8 : forall c j, to_json c = Some j -> utf8_valid j = true
}.

(** [rcgen]: the PEM text of a signing request for a common name, with a fresh key. *)
Class CsrCrate := csr_pem : bytes -> option bytes.

Module ProvisioningService.

Definition default_config : ProvisioningConfig :=
  mkConfig [] (lit "SITE-001") 915 (lit "https://api.floatgateway.com/v1/provision").

(** [Failed] carries a message. *)
Inductive ProvisioningStatus := NotProvisioned | Provisioning | Provisioned | Failed (msg : bytes).

Inductive ProvisioningError :=
| AteccError | Serialization | Deserialization | CaRequest | CaResponse
| FileWrite | FileRead | FileDelete | ConfigNotMounted | ErrNotProvisioned.

(** The partition: whether its mount point exists, and the two files. *)
Record disk := mkDisk {
  mounted : bool;
  config_json : option bytes;
  gateway_cert : option bytes
}.

Record t := mk { config : ProvisioningConfig; status : ProvisioningStatus }.

(** How a [fs::write] ends: well, before it changes the file, or after some bytes. *)
Inductive write_end := Written | NotOpened | Torn (n : nat).

Definition fs_write (w : write_end) (old : option bytes) (data : bytes) : option bytes * bool :=
  match w with
  | Written => (Some data, true)
  | NotOpened => (old, false)
  | Torn n => (Some (take n data), false)
  end.

Definition is_provisioned (d : disk) : bool :=
  bool_decide (is_Some (config_json d)) && bool_decide (is_Some (gateway_cert d)).

Section ops.
Context `{ATECC608B.I2cBus, HexEncodeCrate, CsrCrate, JsonCrate}.

Definition new (d : disk) (h : list ATECC608B.event)
  : list ATECC608B.event * run ProvisioningError t :=
  match ATECC608B.read_serial h with
  | (h, Fin serial) =>
      let gateway_id := hex_encode serial in
      let config := mkConfig gateway_id (site_id default_config) (lora_freq default_config)
                      (ca_endpoint default_config) in
      let status := if is_provisioned d then Provisioned else NotProvisioned in
      (h, Fin (mk config status))
  | (h, Fail _) => (h, Fail AteccError)
  | (h, Panicked) => (h, Panicked)
  | (h, Waiting) => (h, Waiting)
  end.

Definition generate_csr (s : t) : result bytes ProvisioningError :=
  match csr_pem (gateway_id (config s)) with
  | Some pem => Ok pem
  | None => Err Serialization
  end.

Definition request_certificate (s : t) (csr : bytes) : result bytes ProvisioningError :=
  Ok (lit "PLACEHOLDER_CERTIFICATE").

Definition store_certificate (w : write_end) (d : disk) (cert : bytes)
  : disk * result unit ProvisioningError :=
  if negb (mounted d) then (d, Err ConfigNotMounted) else
  let '(f, ok) := fs_write w (gateway_cert d) cert in
  (mkDisk (mounted d) (config_json d) f, if ok then Ok tt else Err FileWrite).

Definition store_config (w : write_end) (d : disk) (s : t)
  : disk * result unit ProvisioningError :=
  if negb (mounted d) then (d, Err ConfigNotMounted) else
  match to_json (config s) with
  | None => (d, Err Serialization)
  | Some json =>
      let '(f, ok) := fs_write w (config_json d) json in
      (mkDisk (mounted d) f (gateway_cert d), if ok then Ok tt else Err FileWrite)
  end.

(** [readable]: the file can be read. *)
Definition load_config (readable : bool) (d : disk)
  : result ProvisioningConfig ProvisioningError :=
  match config_json d with
  | None => Err ErrNotProvisioned
  | Some json =>
      if negb (readable && utf8_valid json) then Err FileRead else
      match from_json json with Some c => Ok c | None => Err Deserialization end
  end.

(** [w1], [w2]: how the two writes end. *)
Definition provision (w1 w2 : write_end) (d : disk) (s : t)
  : disk * t * result unit ProvisioningError :=
  let s := mk (config s) Provisioning in
  match generate_csr s with
  | Err e => (d, s, Err e)
  | Ok csr =>
      match request_certificate s csr with
      | Err e => (d, s, Err e)
      | Ok cert =>
          let '(d, r) := store_certificate w1 d cert in
          match r with
          | Err e => (d, s, Err e)
          | Ok _ =>
              let '(d, r) := store_config w2 d s in
              match r with
              | Err e => (d, s, Err e)
              | Ok _ => (d, mk (config s) Provisioned, Ok tt)
              end
          end
      end
  end.
End ops.

(** [ok1], [ok2]: the removals succeed. *)
Definition factory_reset (ok1 ok2 : bool) (d : disk) : disk * result unit ProvisioningError :=
  if bool_decide (is_Some (config_json d)) && negb ok1 then (d, Err FileDelete) else
  let d := mkDisk (mounted d) None (gateway_cert d) in
  if bool_decide (is_Some (gateway_cert d)) && negb ok2 then (d, Err FileDelete) else
  (mkDisk (mounted d) None None, Ok tt).

End ProvisioningService.

(** ** Theorems *)

Section join.
Import LoRaProvisioningMode.

(** The first four bytes are the identifier, the next the length of the type. *)
Lemma join_form f id b r :
  LR1121.data f = to_be 4 id ++ b :: r -> in_u 32 id -> 3 <= len r -> 0 <= b ->
  parse_join_request f
  = Ret (if len r <? b then Err InvalidFrame
         else Ok (mkJoin id (from_utf8_lossy (sub r 0 b)))).
Proof.
  intros Hd Hid Hr Hb. unfold parse_join_request. rewrite Hd.
  assert (Hl : len (to_be 4 id ++ b :: r) = 5 + len r) by (len_simpl; lia).
  rewrite !Hl. bcase. rewrite (read_at_Ret _ 0 4) by lia. mstep.
  rewrite sub_app_l by (len_simpl; lia). rewrite from_to_be_small by done.
  rewrite at_app_r by (len_simpl; lia). rewrite len_to_be.
  change (4 - Z.of_nat 4) with 0. rewrite at_cons_0. mstep.
  destruct (len r <? b) eqn:E; breflect; bcase; [done|].
  rewrite (slice_Ret _ 5 (5 + b)) by lia. mstep.
  rewrite sub_app_r, len_to_be by (len_simpl; lia). rewrite sub_cons by lia.
  repeat f_equal; lia.
Qed.

Lemma join_split d :
  bytes_ok d -> 8 <= len d ->
  exists id b r, d = to_be 4 id ++ b :: r /\ in_u 32 id /\ in_u 8 b /\ 3 <= len r.
Proof.
  intros Hok Hl. do 5 (destruct d as [|? d]; [len_simpl; lia|]).
  do 5 (apply Forall_cons_1 in Hok as [? Hok]).
  exists (from_be [z; z0; z1; z2]), z3, d.
  assert (bytes_ok [z; z0; z1; z2]) by (unfold bytes_ok; auto using Forall_cons_2, Forall_nil_2).
  rewrite to_from_be by done. split_and!; [done| |done|len_simpl; lia].
  by apply (from_be_range [z; z0; z1; z2]).
Qed.

(** *** What the radio hears *)

(** The events of a computation, none of which starts a transmission. *)
Definition receives (e : event) : Prop :=
  match e with Transfer (op :: _) => op <> LR1121.opcode_u8 LR1121.SetTx | _ => True end.
Definition listens {A} (m : radio A) : Prop :=
  forall h, exists evs, (m h).1 = h ++ evs /\ Forall receives evs.

Lemma listens_bind {A B} (m : radio A) (k : A -> radio B) :
  listens m -> (forall a, listens (k a)) -> listens (io_bind m k).
Proof.
  intros Hm Hk h. unfold io_bind. destruct (Hm h) as (e1 & He & Hs).
  destruct (m h) as [h1 r]. cbn [fst] in He. subst h1. destruct r as [a|e| |]; [|by exists e1..].
  destruct (Hk a (h ++ e1)) as (e2 & -> & Hs2). exists (e1 ++ e2).
  rewrite app_assoc. split; [done|by apply Forall_app_2].
Qed.

Lemma listens_stay {A} (m : radio A) : (forall h, (m h).1 = h) -> listens m.
Proof. intros Hm h. exists []. by rewrite Hm, app_nil_r. Qed.

Section chip.
Context `{Device}.

Lemma listens_emit e : receives e -> listens (emit e).
Proof. intros He h. exists [e]. split; [done|by constructor]. Qed.
Lemma listens_write d : receives (Transfer d) -> listens (spi_write d).
Proof. intros Hd h. exists [Transfer d]. split; [done|by constructor]. Qed.
Lemma listens_read n : listens (spi_read n).
Proof. intros h. exists [Receive n]. split; [done|by constructor]. Qed.
Lemma listens_poll : listens poll_dio1.
Proof. intros h. exists [PollDio1]. split; [done|by constructor]. Qed.
End chip.
Hint Resolve listens_emit listens_write listens_read listens_poll : core.

Ltac listen :=
  repeat (apply listens_bind; [solve [auto | by apply listens_emit | by apply listens_write]|intros ?]);
  first [solve [auto | by apply listens_emit | by apply listens_stay] | idtac].

Section chip_ops.
Context `{Device}.

Lemma listens_wait n irq : listens (LR1121.wait_for_irq n irq).
Proof.
  induction n as [|n IH]; [by apply listens_stay|]. cbn [LR1121.wait_for_irq]. listen.
  assert (Hirq : listens LR1121.get_irq_status) by (unfold LR1121.get_irq_status; listen).
  destruct a; listen. destruct (negb _); listen.
Qed.

Lemma listens_register r : listens (LR1121.read_register r).
Proof. unfold LR1121.read_register. listen. Qed.
Hint Resolve listens_wait listens_register : core.

Lemma listens_rx n : listens (LR1121.rx_packet n).
Proof.
  assert (listens LR1121.read_buffer) by (unfold LR1121.read_buffer; listen).
  assert (listens LR1121.get_rssi_snr) by (unfold LR1121.get_rssi_snr; listen).
  assert (listens LR1121.clear_irq) by (unfold LR1121.clear_irq; listen).
  unfold LR1121.rx_packet. listen.
Qed.
End chip_ops.
End join.

Section join_theorems.
Import LoRaProvisioningMode.

(** The parser of join requests never panics, and accepts exactly the frames that
    consist of a 32-bit identifier, a length byte, that many bytes of sensor type and
    any trailing bytes, with at least three bytes after the length; the type it
    returns is the text of those bytes, unchanged when they are valid UTF-8. *)
Theorem join_request_exact f j :
  bytes_ok (LR1121.data f) ->
  (exists r, parse_join_request f = Ret r) /\
  (parse_join_request f = Ret (Ok j) <->
   exists ty rest,
     LR1121.data f = to_be 4 (join_node_id j) ++ len ty :: ty ++ rest /\
     in_u 32 (join_node_id j) /\ len ty <= 255 /\ 3 <= len (ty ++ rest) /\
     join_sensor_type j = from_utf8_lossy ty /\
     (utf8_valid ty = true -> join_sensor_type j = ty)).
Proof.
  intros Hok.
  assert (Hback : forall ty rest, LR1121.data f = to_be 4 (join_node_id j) ++ len ty :: ty ++ rest ->
    in_u 32 (join_node_id j) -> 3 <= len (ty ++ rest) -> join_sensor_type j = from_utf8_lossy ty ->
    parse_join_request f = Ret (Ok j)).
  { intros ty rest Hd Hid Hr Ht. rewrite (join_form f _ _ _ Hd) by (done || apply len_nonneg).
    rewrite (proj2 (Z.ltb_ge _ _)) by (pose proof (len_nonneg rest); len_simpl; lia).
    rewrite sub_app_l, <- Ht by done. by destruct j. }
  destruct (decide (8 <= len (LR1121.data f))) as [Hl|Hl].
  - destruct (join_split _ Hok Hl) as (id & b & r & Hd & Hid & Hb & Hr).
    rewrite (join_form _ _ _ _ Hd) by (done || apply Hb). split; [eauto|].
    rewrite (join_form _ _ _ _ Hd) in Hback by (done || apply Hb). split.
    + destruct (len r <? b) eqn:E; [done|]. breflect. intros [= <-]. cbn.
      exists (sub r 0 b), (sub r b (len r - b)). unfold in_u in *.
      rewrite len_sub, <- sub_split, Hd by lia. split_and!; try done; try lia.
      intros Hv. by apply lossy_valid.
    + intros (ty & rest & ? & ? & _ & ? & ? & _). by eapply Hback.
  - assert (E : parse_join_request f = Ret (Err InvalidFrame)).
    { unfold parse_join_request. by bcase. }
    rewrite E. split; [eauto|]. split; [done|].
    intros (ty & rest & Hd & _ & _ & Hr & _). rewrite Hd in Hl. len_simpl. lia.
Qed.

(** *** The mutex of the radio *)

(** The task has the guard of its scrutinee. *)
Definition holds (k : pc) : bool :=
  match k with
  | Receiving | Insert _ | LockTx _ | Transmit _ | EndIfLet | Listening => true
  | Head | LockRx | Pause | Gone => false
  end.
Definition answering (k : pc) : option LoRaNode := match k with LockTx e => Some e | _ => None end.

(** Whoever has the guard is the holder, nobody transmits, and the registry holds
    nothing but the node of the task that wants to answer. *)
Record mode_inv (s : t) : Prop := {
  mi_holder : forall i k, tasks s !! i = Some k -> holds k = true -> lr1121 s = Some i;
  mi_silent : forall i accept, tasks s !! i <> Some (Transmit accept);
  mi_nodes : nodes s = ∅ \/
    exists i e, tasks s !! i = Some (LockTx e) /\ nodes s ⊆ {[node_id e := e]}
}.

Lemma lookup_goto s i k j k' :
  is_Some (tasks s !! i) -> tasks (goto s i k) !! j = Some k' ->
  j = i /\ k' = k \/ j <> i /\ tasks s !! j = Some k'.
Proof.
  intros [k0 Hk]. cbn [goto tasks]. destruct (decide (i = j)) as [<-|Hne].
  - rewrite list_lookup_insert_eq by (by eapply lookup_lt_Some). intros [= <-]. by left.
  - rewrite list_lookup_insert_ne by done. by right.
Qed.

(** A task that did not hold the guard moves on without it. *)
Lemma goto_free s i k0 k :
  mode_inv s -> tasks s !! i = Some k0 -> holds k0 = false -> holds k = false -> mode_inv (goto s i k).
Proof.
  intros [H1 H2 H3] Hk Hf Hf'. assert (Hs : is_Some (tasks s !! i)) by eauto. split.
  - intros j k' Hj Hh. apply (lookup_goto s i k j k' Hs) in Hj as [[-> ->]|[_ Hj]]; [congruence|by eapply H1].
  - intros j accept Hj. apply (lookup_goto s i k j _ Hs) in Hj as [[-> <-]|[_ Hj]]; [done|by eapply H2].
  - destruct H3 as [H3|(j & e & Hj & Hn)]; [by left|right]. exists j, e. split; [|done].
    cbn [goto tasks]. rewrite list_lookup_insert_ne; [done|]. intros ->. rewrite Hj in Hk. by injection Hk as <-.
Qed.

(** The holder moves on, keeping the guard or dropping it; nobody else holds it. *)
Lemma goto_holder s i k0 k ns :
  mode_inv s -> tasks s !! i = Some k0 -> holds k0 = true -> answering k0 = None ->
  (forall accept, k <> Transmit accept) ->
  (answering k = None /\ ns = nodes s \/ exists e, k = LockTx e /\ ns = <[node_id e := e]> (nodes s)) ->
  mode_inv (goto (set_nodes (if holds k then s else unlock s) ns) i k).
Proof.
  intros [H1 H2 H3] Hk Hh Ha Ht Hns. pose proof (H1 i k0 Hk Hh) as Hl.
  set (s1 := set_nodes _ ns). assert (Et : tasks s1 = tasks s) by (unfold s1; by destruct (holds k)).
  assert (Hs : is_Some (tasks s1 !! i)) by (rewrite Et; eauto).
  assert (Hother : forall j k', tasks s !! j = Some k' -> holds k' = true -> j = i)
    by (intros j k' Hj Hh'; pose proof (H1 j k' Hj Hh') as Hl'; rewrite Hl in Hl'; by injection Hl').
  assert (Hempty : nodes s = ∅).
  { destruct H3 as [H3|(j & e & Hj & _)]; [done|]. pose proof (Hother j _ Hj eq_refl) as ->.
    rewrite Hj in Hk. by injection Hk as <-. }
  split.
  - intros j k' Hj Hh'. apply (lookup_goto s1 i k j k' Hs) in Hj as [[-> ->]|[Hne Hj]].
    + unfold s1. cbn [goto set_nodes lr1121]. by rewrite Hh'.
    + rewrite Et in Hj. by apply Hother in Hj.
  - intros j accept Hj. apply (lookup_goto s1 i k j _ Hs) in Hj as [[-> <-]|[_ Hj]]; [by eapply Ht|].
    rewrite Et in Hj. by eapply H2.
  - destruct Hns as [[_ ->]|(e & -> & ->)]; [by left|right]. exists i, e. cbn [goto tasks]. split.
    + apply list_lookup_insert_eq. destruct Hs as [? Hs]. by eapply lookup_lt_Some.
    + unfold s1. cbn [goto set_nodes nodes]. rewrite Hempty. by rewrite insert_empty.
Qed.

(** Receiving takes the guard of the free mutex. *)
Lemma goto_lock s i :
  mode_inv s -> tasks s !! i = Some LockRx -> lr1121 s = None ->
  mode_inv (goto (set_lock s (Some i)) i Receiving).
Proof.
  intros [H1 H2 H3] Hk Hl. assert (Hs : is_Some (tasks (set_lock s (Some i)) !! i)) by eauto. split.
  - intros j k' Hj Hh. apply (lookup_goto _ i _ j k' Hs) in Hj as [[-> _]|[_ Hj]]; [done|].
    apply H1 in Hj; [|done]. by rewrite Hl in Hj.
  - intros j accept Hj. apply (lookup_goto _ i _ j _ Hs) in Hj as [[_ ?]|[_ Hj]]; [done|by eapply H2].
  - destruct H3 as [H3|(j & e & Hj & Hn)]; [by left|]. apply H1 in Hj; [|done]. by rewrite Hl in Hj.
Qed.

(** One step of a task: the invariant, and what the radio hears. *)
Lemma turn_inv `{Device} i o s h :
  mode_inv s ->
  let '(s', h') := turn i o (s, h) in
  mode_inv s' /\ exists evs, h' = h ++ evs /\ Forall receives evs.
Proof.
  intros Hs. assert (Hno : forall x : history, exists evs, x = x ++ evs /\ Forall receives evs)
    by (intros x; exists []; by rewrite app_nil_r).
  assert (Hkeep : forall k0 k, tasks s !! i = Some k0 -> holds k0 = true -> answering k0 = None ->
    answering k = None -> (forall a, k <> Transmit a) ->
    mode_inv (goto (if holds k then s else unlock s) i k)).
  { intros k0 k Hk Hh Ha Ha' Ht. pose proof (goto_holder s i k0 k (nodes s) Hs Hk Hh Ha Ht) as Hg.
    by destruct (holds k); apply Hg; left. }
  unfold turn. destruct (tasks s !! i) as [[| | |node|e|a| | | |]|] eqn:Hk; [..|done|done|done].
  - split; [|done]. by destruct (active s); apply (goto_free s i Head).
  - unfold lock. destruct (lr1121 s) eqn:Hl; [done|]. split; [by apply goto_lock|done].
  - destruct (listens_rx (polls o) h) as (evs & Hh & He).
    destruct (LR1121.rx_packet (polls o) h) as [h1 r]. cbn [fst] in Hh. subst h1.
    assert (Hev : exists evs', h ++ evs = h ++ evs' /\ Forall receives evs') by eauto.
    destruct r as [f|e| |]; [destruct (parse_join_request f) as [[j|e]|]| | |]; (split; [|done]).
    + by apply (Hkeep Receiving (Insert j)).
    + by apply (Hkeep Receiving EndIfLet).
    + by apply (Hkeep Receiving Gone).
    + by apply (Hkeep Receiving EndIfLet).
    + by apply (Hkeep Receiving Gone).
    + by apply (Hkeep Receiving Listening).
  - destruct (now o <? 0); (split; [|done]); [by apply (Hkeep (Insert node) Gone)|].
    set (e := mkNode _ _ _ _). apply (goto_holder s i (Insert node) (LockTx e)); try done. right. by exists e.
  - unfold lock. by rewrite (mi_holder s Hs i _ Hk eq_refl).
  - by apply (mi_silent s Hs) in Hk.
  - split; [|done]. by apply (Hkeep EndIfLet Pause).
  - split; [by apply (goto_free s i Pause)|]. exists [SleepMs 100]. split; [done|by constructor].
Qed.

Lemma spawn_inv s : mode_inv s -> mode_inv (start s).
Proof.
  intros [H1 H2 H3].
  assert (Hl : forall i k, tasks (start s) !! i = Some k -> tasks s !! i = Some k \/ k = Head).
  { intros i k Hi. cbn [start tasks] in Hi. apply lookup_app_Some in Hi as [Hi|[_ Hi]]; [by left|right].
    by apply list_lookup_singleton_Some in Hi as [_ <-]. }
  split.
  - intros i k Hi Hh. destruct (Hl i k Hi) as [Hi'| ->]; [by apply (H1 i k)|done].
  - intros i a Hi. destruct (Hl i _ Hi) as [Hi'|?]; [by eapply H2|done].
  - destruct H3 as [H3|(i & e & Hi & Hn)]; [by left|right]. exists i, e. split; [|done].
    cbn [start tasks]. by apply lookup_app_l_Some.
Qed.

Lemma perform_mode_inv `{Device} a c :
  mode_inv c.1 -> mode_inv (perform c a).1 /\ exists evs, (perform c a).2 = c.2 ++ evs /\ Forall receives evs.
Proof.
  intros Hs. destruct c as [s h]. cbn [fst] in Hs. assert (Hno : exists evs, h = h ++ evs /\ Forall receives evs)
    by (exists []; by rewrite app_nil_r).
  destruct a as [| |id|i o]; cbn [perform fst snd].
  - split; [by apply spawn_inv|done].
  - split; [by destruct Hs|done].
  - split; [|done]. destruct Hs as [H1 H2 H3]. split; [done|done|]. cbn [remove_node set_nodes nodes tasks].
    destruct H3 as [->|(i & e & Hi & Hn)]; [left; apply delete_empty|right]. exists i, e. split; [done|].
    etrans; [apply delete_subseteq|done].
  - pose proof (turn_inv i o s h Hs). by destruct (turn i o (s, h)).
Qed.

Lemma run_mode_inv `{Device} acts c :
  mode_inv c.1 ->
  mode_inv (run_actions c acts).1 /\ exists evs, (run_actions c acts).2 = c.2 ++ evs /\ Forall receives evs.
Proof.
  unfold run_actions. revert c. induction acts as [|a acts IH]; intros c Hc; cbn [foldl].
  { split; [done|]. exists []. by rewrite app_nil_r. }
  destruct (perform_mode_inv a c Hc) as (Hc' & e1 & E1 & F1). destruct (IH _ Hc') as (Hs & e2 & E2 & F2).
  split; [done|]. exists (e1 ++ e2). rewrite E2, E1, <- app_assoc. split; [done|by apply Forall_app_2].
Qed.

Lemma new_mode_inv : mode_inv new.
Proof. split; [by intros i k Hk|by intros i a Hk|by left]. Qed.

(** A task that waits to answer waits for itself. *)
Lemma stuck_step `{Device} a c i e :
  mode_inv c.1 -> tasks c.1 !! i = Some (LockTx e) ->
  tasks (perform c a).1 !! i = Some (LockTx e) /\ nodes (perform c a).1 ⊆ nodes c.1.
Proof.
  intros Hs Hi. destruct c as [s h]. cbn [fst] in *. pose proof (mi_holder s Hs i _ Hi eq_refl) as Hl.
  assert (Hother : forall j k, j <> i -> tasks s !! j = Some k -> holds k = false).
  { intros j k Hne Hj. destruct (holds k) eqn:Hh; [|done]. pose proof (mi_holder s Hs j k Hj Hh). congruence. }
  destruct a as [| |id|j o]; cbn [perform fst snd]; [by split; [apply lookup_app_l_Some|]|done| |].
  { split; [done|apply delete_subseteq]. }
  destruct (decide (j = i)) as [->|Hne].
  { unfold turn. rewrite Hi. unfold lock. by rewrite Hl. }
  unfold turn. destruct (tasks s !! j) as [k|] eqn:Hj; [|done]. pose proof (Hother j k Hne Hj) as Hf.
  destruct k; try done; unfold lock; rewrite ?Hl; cbn [fst goto tasks nodes]; try done;
    (split; [by rewrite list_lookup_insert_ne|done]).
Qed.

(** C40: The join tasks of the provisioning mode register at most one node and never
    answer it (a defect).  In every interleaving of calls and of the tasks' steps,
    whatever the radio receives: none of its events starts a transmission, so no node
    gets its session key, and the registry holds at most one node.  A task that has
    entered a node waits for the mutex of the radio whose guard it still has from its
    [if let]: from then on it waits whatever happens, it alone has the guard, and no
    other node is ever entered.  And this is what the first valid join request leads
    to. *)
Theorem provisioning_deadlocks `{Device} h acts :
  let '(s, h1) := run_actions (new, h) acts in
  (exists evs, h1 = h ++ evs /\ Forall receives evs) /\
  (size (nodes s) <= 1)%nat /\
  (forall i e, tasks s !! i = Some (LockTx e) -> lr1121 s = Some i /\
     forall acts', let s' := (run_actions (s, h1) acts').1 in
       tasks s' !! i = Some (LockTx e) /\ lr1121 s' = Some i /\ nodes s' ⊆ nodes s) /\
  (forall o h2 f j,
     LR1121.rx_packet (polls o) h = (h2, Fin f) -> parse_join_request f = Ret (Ok j) -> 0 <= now o ->
     let e := mkNode (join_node_id j) (key o) (wrap 64 (now o)) (join_sensor_type j) in
     run_actions (new, h) (Start :: replicate 4 (Turn 0 o))
     = (mk (Some 0%nat) {[join_node_id j := e]} true [LockTx e], h2)).
Proof.
  destruct (run_mode_inv acts (new, h) new_mode_inv) as [Hs Hh].
  destruct (run_actions (new, h) acts) as [s h1]. cbn [fst snd] in Hs, Hh.
  split; [done|]. split; [|split].
  - destruct (mi_nodes s Hs) as [->|(i & e & _ & Hn)]; [by rewrite map_size_empty; lia|].
    apply map_subseteq_size in Hn. by rewrite map_size_singleton in Hn.
  - intros i e Hi. split; [by apply (mi_holder s Hs i _ Hi)|]. intros acts'. cbv zeta.
    enough (Hrun : mode_inv (run_actions (s, h1) acts').1 /\
      tasks (run_actions (s, h1) acts').1 !! i = Some (LockTx e) /\
      nodes (run_actions (s, h1) acts').1 ⊆ nodes s).
    { destruct Hrun as (Hs' & Hi' & Hn). split; [done|]. split; [by apply (mi_holder _ Hs' i _ Hi')|done]. }
    induction acts' as [|a acts' IH] using rev_ind; [done|]. destruct IH as (IH1 & IH2 & IH3).
    unfold run_actions in *. rewrite foldl_app. cbn [foldl]. set (c := foldl perform _ acts') in *.
    destruct (stuck_step a c i e IH1 IH2) as [J1 J2].
    split; [by apply perform_mode_inv|]. split; [done|by etrans].
  - intros o h2 f j Hrx Hj Hn e.
    assert (E1 : run_actions (new, h) [Start; Turn 0 o; Turn 0 o]
                 = (mk (Some 0%nat) ∅ true [Receiving], h)) by done.
    assert (E2 : perform (mk (Some 0%nat) ∅ true [Receiving], h) (Turn 0 o)
                 = (mk (Some 0%nat) ∅ true [Insert j], h2))
      by (cbn [perform turn tasks lookup list_lookup]; by rewrite Hrx, Hj).
    change (perform (perform (run_actions (new, h) [Start; Turn 0 o; Turn 0 o]) (Turn 0 o)) (Turn 0 o)
            = (mk (Some 0%nat) {[join_node_id j := e]} true [LockTx e], h2)).
    rewrite E1, E2. cbn. by rewrite (proj2 (Z.ltb_ge _ _)), insert_empty by done.
Qed.
End join_theorems.

Section gateway_theorems.
Import ProvisioningService.
Context `{CsrCrate, JsonCrate, !JsonLaws}.

(** Provisioning the gateway.  A successful [provision] leaves the partition with
    both files, so that a restarted service is [Provisioned] and loads the very
    configuration; the certificate it stores is the placeholder, whatever the
    request.  A failed one leaves the status [Provisioning] (never [Failed]).  And if
    the write of the configuration breaks off, a restarted service takes the
    gateway for provisioned although [provision] failed (a defect). *)
Theorem provision_outcome w1 w2 d s :
  let '(d1, s1, r) := provision w1 w2 d s in
  config s1 = config s /\
  match r with
  | Ok _ => status s1 = Provisioned /\ is_provisioned d1 = true /\
            load_config true d1 = Ok (config s) /\
            gateway_cert d1 = Some (lit "PLACEHOLDER_CERTIFICATE")
  | Err _ => status s1 = Provisioning
  end /\
  (forall n json, mounted d = true -> is_Some (csr_pem (gateway_id (config s))) ->
     to_json (config s) = Some json -> w1 = Written -> w2 = Torn n ->
     r = Err FileWrite /\ is_provisioned d1 = true /\ config_json d1 = Some (take n json)).
Proof.
  destruct (provision w1 w2 d s) as [[d1 s1] r] eqn:E. unfold provision in E. cbv zeta in E.
  cbn [config] in E. unfold generate_csr in E. cbn [config] in E.
  destruct (csr_pem _) as [pem|] eqn:Ec.
  2:{ injection E as <- <- <-. split_and!; [done..|]. by intros n json _ [? ?]. }
  unfold request_certificate, store_certificate in E.
  destruct (mounted d) eqn:Em; cbn [negb] in E; [|by injection E as <- <- <-].
  destruct (fs_write w1 _ _) as [f1 ok1] eqn:E1.
  destruct ok1; [|injection E as <- <- <-; split_and!; [done..|]; intros; subst; by injection E1].
  assert (f1 = Some (lit "PLACEHOLDER_CERTIFICATE")) as -> by (by destruct w1; simplify_eq/=).
  unfold store_config in E. cbn [mounted config config_json gateway_cert negb] in E.
  destruct (to_json (config s)) as [json|] eqn:Ej;
    [|injection E as <- <- <-; split_and!; [done..|]; intros; by simplify_eq].
  destruct (fs_write w2 _ _) as [f2 ok2] eqn:E2.
  destruct ok2; injection E as <- <- <-; [|split_and!; try done; intros; by simplify_eq/=].
  assert (f2 = Some json) as -> by (by destruct w2; simplify_eq/=).
  split_and!; try done; [|intros; by simplify_eq/=].
  unfold load_config. cbn [config_json]. rewrite (json_utf8 _ _ Ej). cbn [andb negb].
  by rewrite (json_roundtrip _ _ Ej).
Qed.

(** A factory reset that succeeds leaves neither file; one that fails removes no
    certificate while the configuration is still there, and once the configuration
    is gone the gateway counts as not provisioned. *)
Theorem factory_reset_outcome ok1 ok2 d :
  let '(d1, r) := factory_reset ok1 ok2 d in
  mounted d1 = mounted d /\
  match r with
  | Ok _ => config_json d1 = None /\ gateway_cert d1 = None
  | Err e => e = FileDelete /\ gateway_cert d1 = gateway_cert d /\
             (config_json d1 = config_json d \/ is_provisioned d1 = false)
  end.
Proof.
  unfold factory_reset, is_provisioned. destruct d as [m c g]. cbn.
  destruct c as [c|], g as [g|], ok1, ok2; cbn; auto.
Qed.
End gateway_theorems.

(** ** Witnesses *)

(** A chip that has received a join request of node 7 with type [tmp]. *)
Definition join_frame : bytes := to_be 4 7 ++ 3 :: lit "tmp".
Definition joining_chip : Device := {|
  write_ok _ _ := true;
  read_reply _ n :=
    Some (if n =? 3 then [0; 255; 255] else if n =? 2 then [0; len join_frame] else [0; 0] ++ join_frame);
  dio1_high _ := true
|}.
Definition join_of_7 : LoRaProvisioningMode.JoinRequest := LoRaProvisioningMode.mkJoin 7 (lit "tmp").

Lemma join_request_exact_witness :
  LoRaProvisioningMode.parse_join_request (LR1121.mkFrame join_frame 0 0 0) = Ret (Ok join_of_7).
Proof.
  apply (join_request_exact (LR1121.mkFrame join_frame 0 0 0) join_of_7); [unfold bytes_ok; compute_done|].
  exists (lit "tmp"), []. split; [reflexivity|]. split; [split; vm_compute; done|].
  split; [vm_compute; discriminate|]. split; [vm_compute; discriminate|]. by split.
Defined.

Lemma provisioning_deadlocks_witness :
  let o := LoRaProvisioningMode.mkObs 1 5 (fill 9 16) in
  let e := LoRaProvisioningMode.mkNode 7 (fill 9 16) 5 (lit "tmp") in
  exists h, @LoRaProvisioningMode.run_actions joining_chip (LoRaProvisioningMode.new, [])
      (LoRaProvisioningMode.Start :: replicate 4 (LoRaProvisioningMode.Turn 0 o))
    = (LoRaProvisioningMode.mk (Some 0%nat) {[7 := e]} true [LoRaProvisioningMode.LockTx e], h).
Proof.
  cbv zeta. eexists. destruct (@provisioning_deadlocks joining_chip [] []) as (_ & _ & _ & Hd).
  apply (Hd (LoRaProvisioningMode.mkObs 1 5 (fill 9 16)) _
    (LR1121.mkFrame join_frame (-129) 8 0) join_of_7); [reflexivity|reflexivity|discriminate].
Defined.

(** A codec that knows one configuration. *)
Definition sample_config : ProvisioningConfig :=
  mkConfig (lit "0123") (lit "SITE-001") 915 (lit "https://ca").
Definition json_one : JsonCrate := {|
  to_json c := if bool_decide (c = sample_config) then Some (lit "{}") else None;
  from_json j := if bool_decide (j = lit "{}") then Some sample_config else None
|}.
Lemma json_one_laws : @JsonLaws json_one.
Proof.
  constructor; cbn; intros c j; destruct (bool_decide (c = sample_config)) eqn:E; intros [= <-];
    [apply bool_decide_eq_true in E; subst|]; reflexivity.
Qed.

Lemma provision_outcome_witness :
  let '(d1, s1, r) := @ProvisioningService.provision (fun n => Some n) json_one
      ProvisioningService.Written ProvisioningService.Written
      (ProvisioningService.mkDisk true None None)
      (ProvisioningService.mk sample_config ProvisioningService.NotProvisioned) in
  r = Ok tt /\ ProvisioningService.is_provisioned d1 = true.
Proof.
  pose proof (@provision_outcome (fun n => Some n) json_one json_one_laws
    ProvisioningService.Written ProvisioningService.Written
    (ProvisioningService.mkDisk true None None)
    (ProvisioningService.mk sample_config ProvisioningService.NotProvisioned)) as H.
  split; [reflexivity|]. exact (proj1 (proj2 (proj1 (proj2 H)))).
Defined.
