(* ===== verification/Storage.v ===== *)
(** * The encrypted volume and the compaction of the log
      ([src/src/storage/encrypted_store.rs], [src/src/storage/wal.rs])

    The parts of the storage layer around [Wal]: the commands that open, mount and
    close the encrypted volume, the opening of the store on top of them, and
    [Wal::compact].

    [compact] filters messages by a field [timestamp_ms] that [Message] does not have;
    the field is a parameter here, so the theorems hold whatever it is meant to be.
    It also uses the list of retained entries after moving it; its length is read as
    taken before. *)

From S2P Require Import Prelude Protocol Bitemporal Snapshot Text Io System Wal.

#[local] Open Scope io_scope.

(** ** The volume *)

Module Volume.

Definition CRYPT_MAPPER : bytes := lit "encrypted_storage".
Definition NVME_DEVICE : bytes := lit "/dev/nvme0n1".
Definition STORAGE_MOUNT : bytes := lit EncryptedStore.STORAGE_MOUNT.
Definition CONFIG_MAPPER : bytes := lit "encrypted_config".
Definition CONFIG_OFFSET_SECTORS : Z := 488384000.

(** [format!("/dev/mapper/{}", mapper)] *)
Definition mapper_path (mapper : bytes) : bytes := lit "/dev/mapper/" ++ mapper.

Definition luks_open (passphrase : bytes) : command :=
  Cmd (lit "cryptsetup") [lit "luksOpen"; NVME_DEVICE; CRYPT_MAPPER] [(lit "CRYPTTAB_KEY", passphrase)].
Definition mount_show : command := Cmd (lit "mount") [lit "--show"; mapper_path CRYPT_MAPPER] [].
Definition mount_ext4 : command := Cmd (lit "mount") [mapper_path CRYPT_MAPPER; STORAGE_MOUNT] [].
Definition umount : command := Cmd (lit "umount") [STORAGE_MOUNT] [].
Definition luks_close : command := Cmd (lit "cryptsetup") [lit "luksClose"; CRYPT_MAPPER] [].
Definition open_plain : command :=
  Cmd (lit "cryptsetup")
    [lit "open"; lit "--type"; lit "plain"; lit "--key-file"; lit "-"; NVME_DEVICE; CONFIG_MAPPER;
     lit "--offset=" ++ int_to_string CONFIG_OFFSET_SECTORS] [].

Abbreviation sys := (io (list sys_event) EncryptedStore.StoreError).

Section ops.
Context `{System}.

Definition open_crypt_volume : sys unit :=
  present <~ exists_ (mapper_path CRYPT_MAPPER);
  if (present : bool) then io_ret tt else
  let passphrase := env_or (lit "FLOAT_CRYPT_PASSPHRASE") (lit "default_passphrase") in
  out <~ run_command (luks_open passphrase) EncryptedStore.CryptSetup;
  if negb (success out) then io_fail EncryptedStore.CryptSetup else io_ret tt.

Definition ensure_mount_point : sys unit :=
  present <~ exists_ STORAGE_MOUNT;
  if negb present then create_dir STORAGE_MOUNT EncryptedStore.MountPoint else io_ret tt.

Definition mount_volume : sys unit :=
  out <~ run_command mount_show EncryptedStore.Mount;
  if success out then io_ret tt else
  out <~ run_command mount_ext4 EncryptedStore.Mount;
  if negb (success out) then io_fail EncryptedStore.Mount else io_ret tt.

(** A failed unmount is only logged. *)
Definition close : sys unit :=
  _ <~ run_command umount EncryptedStore.Unmount;
  out <~ run_command luks_close EncryptedStore.CryptSetup;
  if negb (success out) then io_fail EncryptedStore.CryptSetup else io_ret tt.

Definition open_config_partition : sys unit :=
  present <~ exists_ (mapper_path CONFIG_MAPPER);
  if (present : bool) then io_ret tt else
  let passphrase := env_or (lit "FLOAT_CONFIG_PASSPHRASE") (lit "config_passphrase") in
  spawn_with open_plain passphrase EncryptedStore.CryptSetup.

Definition prepare : sys unit := open_crypt_volume;;; ensure_mount_point;;; mount_volume.

(** [EncryptedStore::open]: the volume, then the log and its replay.  [fault], [opened],
    [content] and [files] are the I/O outcomes of the log, whether its file could be
    opened, its bytes, and the other files of the volume. *)
Definition open `{BincodeCrate WalEntry.t, Crc32Crate} (fault : Z -> option Z)
    (opened : bool) (content : bytes) (files : gmap string bytes) : sys EncryptedStore.t :=
  prepare;;;
  fun h => (h, match EncryptedStore.open None None None fault opened content files with
               | Panic => Panicked
               | Ret (Err e) => Fail e
               | Ret (Ok s) => Fin s
               end).
End ops.
End Volume.

(** ** Compaction *)

Module Compaction.
Section ops.
Context `{BincodeCrate WalEntry.t, Crc32Crate} (timestamp_ms : Message -> Z).

(** [retained]: the messages kept, renumbered from one.  [clock i] is the time that the
    [i]-th new entry reads. *)
Definition retain (cutoff : Z) (messages : list Message) : list Message :=
  List.filter (fun m => cutoff <=? timestamp_ms m) messages.

Fixpoint renumber (clock : nat -> Z) (i : nat) (messages : list Message) : outcome (list WalEntry.t) :=
  match messages with
  | [] => Ret []
  | m :: messages =>
      e ← WalEntry.new (clock i) (wrap 64 (Z.of_nat i + 1)) m;
      es ← renumber clock (S i) messages;
      Ret (e :: es)
  end.

(** The loop that writes the entries; [call] is the number of its first I/O call. *)
Fixpoint write_entries (fault : Z -> option Z) (call : Z) (f : File.t) (es : list WalEntry.t)
  : File.t * result unit WalError :=
  match es with
  | [] => (f, Ok tt)
  | e :: es =>
      match serialize e with
      | None => (f, Err Serialization)
      | Some data =>
          let crc := Wal.compute_crc32 data in
          let '(f, ok) := File.write_all f (to_be 4 (wrap 32 (len data))) (fault call) in
          if negb ok then (f, Err FileWrite) else
          let '(f, ok) := File.write_all f data (fault (call + 1)) in
          if negb ok then (f, Err FileWrite) else
          let '(f, ok) := File.write_all f (to_be 4 crc) (fault (call + 2)) in
          if negb ok then (f, Err FileWrite) else
          write_entries fault (call + 3) f es
      end
  end.

(** I/O calls: 0 (truncate), 1 (seek), 2 (header), 3 (flush), 4 (sync), from 5 the
    entries. *)
Definition compact (fault : Z -> option Z) (now : Z) (clock : nat -> Z) (retain_ms : Z) (w : Wal.t)
  : outcome (Wal.t * result unit WalError) :=
  if now <? 0 then Panic else
  let cutoff := wrap 64 (wrap 64 now - retain_ms) in
  let '(w, r) := Wal.replay w in
  match r with
  | Err e => Ret (w, Err e)
  | Ok all_messages =>
      retained ← renumber clock 0 (retain cutoff all_messages);
      let n := wrap 64 (len retained) in
      if bool_decide (is_Some (fault 0)) then Ret (w, Err FileWrite) else
      let f := File.mk [] (File.pos (Wal.file w)) in
      if bool_decide (is_Some (fault 1)) then Ret (Wal.mk f (Wal.sequence w), Err FileSeek) else
      let f := File.seek_start f 0 in
      let '(f, ok) := File.write_all f (WalHeader.to_bytes (WalHeader.new n)) (fault 2) in
      if negb ok then Ret (Wal.mk f (Wal.sequence w), Err FileWrite) else
      let '(f, r) := write_entries fault 5 f retained in
      match r with
      | Err e => Ret (Wal.mk f (Wal.sequence w), Err e)
      | Ok _ =>
          if bool_decide (is_Some (fault 3)) then Ret (Wal.mk f (Wal.sequence w), Err FileWrite) else
          if bool_decide (is_Some (fault 4)) then Ret (Wal.mk f (Wal.sequence w), Err FileWrite) else
          Ret (Wal.mk f n, Ok tt)
      end
  end.

(** [compact_wal]: the store passes the error on. *)
Definition compact_wal (fault : Z -> option Z) (now : Z) (clock : nat -> Z) (retain_ms : Z)
    (s : EncryptedStore.t) : outcome (EncryptedStore.t * result unit EncryptedStore.StoreError) :=
  '(w, r) ← compact fault now clock retain_ms (EncryptedStore.wal s);
  Ret (EncryptedStore.mk w (EncryptedStore.bitemporal s) (EncryptedStore.files s)
         (EncryptedStore.mount_point s),
       match r with Ok _ => Ok tt | Err e => Err (EncryptedStore.InWal e) end).
End ops.
End Compaction.

(** ** Lemmas *)

Section compaction.
Import Compaction.
Context `{BincodeCrate WalEntry.t, Crc32Crate} (timestamp_ms : Message -> Z).

(** The entries of the messages kept. *)
Definition numbered (clock : nat -> Z) (messages : list Message) : list WalEntry.t :=
  imap (fun i m => WalEntry.mk (wrap 64 (Z.of_nat i + 1)) m (wrap 64 (clock i))) messages.

Lemma renumber_numbered clock messages :
  (forall i, 0 <= clock i) -> renumber clock 0 messages = Ret (numbered clock messages).
Proof.
  intros Hc. unfold numbered.
  enough (Hn : forall i, renumber clock i messages = Ret (imap (fun j m =>
    WalEntry.mk (wrap 64 (Z.of_nat (i + j) + 1)) m (wrap 64 (clock (i + j)%nat))) messages))
    by (rewrite Hn; done).
  induction messages as [|m messages IH]; intros i; [done|]. cbn [renumber imap].
  unfold WalEntry.new. rewrite (proj2 (Z.ltb_ge _ _)) by done. mstep. rewrite IH. mstep.
  rewrite Nat.add_0_r. do 2 f_equal. apply imap_ext. intros j x _. cbn.
  by rewrite Nat.add_succ_r.
Qed.

Lemma write_entries_records call f es ds :
  File.pos f = len (File.content f) ->
  Forall2 (fun e d => serialize e = Some d) es ds ->
  write_entries no_fault call f es
  = (File.mk (File.content f ++ concat (map Wal.record ds))
       (len (File.content f ++ concat (map Wal.record ds))), Ok tt).
Proof.
  intros Hp Hs. revert call f Hp. induction Hs as [|e d es ds Hs _ IH]; intros call f Hp; cbn [write_entries map concat].
  { rewrite app_nil_r. destruct f as [c p]. cbn in *. by rewrite Hp. }
  rewrite Hs. unfold no_fault at 1 2 3. cbn [File.write_all negb].
  rewrite (write_at_end f) by done.
  rewrite (write_at_end (File.mk _ _)) by (cbn [File.pos File.content]; by rewrite len_app).
  cbn [File.content].
  rewrite (write_at_end (File.mk _ _)) by (cbn [File.pos File.content]; by rewrite !len_app).
  cbn [File.content]. rewrite IH by (cbn [File.pos File.content]; by rewrite !len_app).
  cbn [File.content].
  assert (E : ((File.content f ++ to_be 4 (wrap 32 (len d))) ++ d) ++ to_be 4 (Wal.compute_crc32 d)
              = File.content f ++ Wal.record d) by (unfold Wal.record; by rewrite <- !app_assoc).
  by rewrite E, <- !app_assoc.
Qed.
End compaction.

(** ** Theorems *)

Section compaction_theorems.
Import Compaction.
Context `{BincodeCrate WalEntry.t, Crc32Crate} (timestamp_ms : Message -> Z).

(** C25: Compaction keeps exactly the recent messages.  When the replay finds the
    messages of the log and no I/O fails, the file afterwards consists of a header
    and the entries of the messages not older than the cut-off, in order, numbered
    from one, and the next append continues after them. *)
Theorem compact_exact now clock retain_ms w messages ds :
  0 <= now -> (forall i, 0 <= clock i) -> (Wal.replay w).2 = Ok messages ->
  let kept := List.filter (fun m => wrap 64 (wrap 64 now - retain_ms) <=? timestamp_ms m) messages in
  Forall2 (fun e d => serialize e = Some d) (numbered clock kept) ds -> len kept < 2 ^ 64 ->
  let content := WalHeader.to_bytes (WalHeader.new (len kept)) ++ concat (map Wal.record ds) in
  compact timestamp_ms no_fault now clock retain_ms w
  = Ret (Wal.mk (File.mk content (len content)) (len kept), Ok tt).
Proof.
  intros Hn Hc Hr kept Hs Hl content. unfold compact. rewrite (proj2 (Z.ltb_ge _ _)) by done.
  cbv zeta. destruct (Wal.replay w) as [w1 r]. cbn [snd] in Hr. subst r.
  change (retain timestamp_ms _ messages) with kept. rewrite renumber_numbered by done. mstep. change (no_fault _) with (@None Z).
  change (bool_decide (is_Some (@None Z))) with false. cbn [File.write_all].
  assert (Hlen : len (numbered clock kept) = len kept) by (unfold len, numbered; by rewrite length_imap).
  rewrite Hlen, wrap_small by (unfold in_u; pose proof (len_nonneg kept); lia).
  rewrite (write_at_end (File.seek_start _ _)) by done. cbn [File.content File.seek_start app].
  rewrite len_nil, Z.add_0_l.
  by rewrite (write_entries_records 5 (File.mk _ _) _ ds) by done.
Qed.

(** Compaction is not atomic (a defect): if the header cannot be written after the
    file has been truncated, nothing of the log is left, not even the messages it was
    to keep. *)
Theorem compact_loses_log fault now clock retain_ms w messages :
  0 <= now -> (forall i, 0 <= clock i) -> (Wal.replay w).2 = Ok messages ->
  fault 0 = None -> fault 1 = None -> fault 2 = Some 0 ->
  exists w', compact timestamp_ms fault now clock retain_ms w = Ret (w', Err FileWrite) /\
    File.content (Wal.file w') = [].
Proof.
  intros Hn Hc Hr F0 F1 F2. unfold compact. rewrite (proj2 (Z.ltb_ge _ _)) by done.
  cbv zeta. destruct (Wal.replay w) as [w1 r]. cbn [snd] in Hr. subst r.
  rewrite renumber_numbered by done. mstep. rewrite F0, F1, F2.
  cbn [bool_decide File.write_all negb]. eexists. split; [reflexivity|]. reflexivity.
Qed.

Lemma to_be_8_small n : 0 <= n < 2 ^ 16 -> to_be 8 n = [0; 0; 0; 0; 0; 0] ++ to_be 2 n.
Proof.
  intros Hn. unfold to_be. cbn [to_le]. assert (n / 256 / 256 = 0) as ->; [|done].
  rewrite Z.div_div by lia. apply Z.div_small. lia.
Qed.

(** A length field that announces more than the file holds ends the replay. *)
Lemma replay_overlong hd r seq :
  len hd = WAL_HEADER_SIZE -> 4 <= len r -> len r - 4 < from_be (sub r 0 4) ->
  (Wal.replay (Wal.mk (File.mk (hd ++ r) 0) seq)).2 = Err FileRead.
Proof.
  intros Hh Hr Hn. unfold Wal.replay, File.unread. cbn [Wal.file File.content File.pos].
  rewrite drop_0, (proj2 (Z.ltb_ge _ _)) by (len_simpl; lia). cbn [snd].
  rewrite drop_app_length' by (unfold len in Hh; lia). cbn [Wal.replay_entries].
  rewrite (proj2 (Z.ltb_ge _ _)) by (unfold WAL_ENTRY_HEADER_SIZE; lia).
  rewrite (proj2 (Z.ltb_lt _ _)); [done|]. unfold len in *. rewrite length_drop. lia.
Qed.

(** A compacted log cannot be read again (a defect: the header is 18 bytes long, but
    the reader skips 16).  A file of less than 64 KiB with between one and 65535 kept
    entries is refused by every later replay from its start. *)
Theorem compact_unreadable n ds seq :
  1 <= n < 2 ^ 16 -> ds <> [] ->
  let content := WalHeader.to_bytes (WalHeader.new n) ++ concat (map Wal.record ds) in
  len content < 2 ^ 16 ->
  (Wal.replay (Wal.mk (File.mk content 0) seq)).2 = Err FileRead.
Proof.
  intros Hn Hds content Hl. destruct ds as [|d ds]; [done|]. 
  set (rest := d ++ to_be 4 (Wal.compute_crc32 d) ++ concat (map Wal.record ds)).
  set (L := wrap 32 (len d)). assert (HL : in_u 32 L) by (by apply wrap_range).
  assert (E : content = (WAL_MAGIC ++ to_be 2 WAL_VERSION ++ [0; 0; 0; 0; 0; 0])
                        ++ to_be 2 n ++ to_be 4 L ++ rest).
  { unfold content, WalHeader.to_bytes, WalHeader.new. cbn [WalHeader.magic WalHeader.version WalHeader.sequence].
    rewrite to_be_8_small by lia. cbn [map concat]. unfold Wal.record at 1, rest.
    by rewrite <- !app_assoc. }
  rewrite E in *. pose proof (len_nonneg rest).
  apply replay_overlong; [reflexivity|len_simpl; lia|].
  assert (Hb : from_be (sub (to_be 2 n ++ to_be 4 L ++ rest) 0 4) = n * 2 ^ 16 + L / 2 ^ 16).
  { change (sub (to_be 2 n ++ to_be 4 L ++ rest) 0 4)
      with [n / 256 mod 256; n mod 256; L / 256 / 256 / 256 mod 256; L / 256 / 256 mod 256].
    unfold from_be. cbn [reverse rev_append from_le]. unfold in_u in HL.
    rewrite (Z.mod_small (n / 256)) by (split; [apply Z.div_pos|apply Z.div_lt_upper_bound]; lia).
    rewrite (Z.mod_small (L / 256 / 256 / 256)), !Z.div_div
      by (rewrite ?Z.div_div by lia; try (split; [apply Z.div_pos|apply Z.div_lt_upper_bound]); lia).
    change (256 * 256) with (2 ^ 16). change (256 * (2 ^ 16)) with (2 ^ 16 * 256).
    rewrite <- (Z.div_div L (2 ^ 16) 256) by lia.
    pose proof (Z.div_mod n 256 ltac:(lia)). pose proof (Z.div_mod (L / 2 ^ 16) 256 ltac:(lia)). lia. }
  rewrite Hb. assert (0 <= L / 2 ^ 16) by (apply Z.div_pos; [apply HL|lia]).
  rewrite len_app in Hl. pose proof (len_nonneg (WAL_MAGIC ++ to_be 2 WAL_VERSION ++ [0; 0; 0; 0; 0; 0])). lia.
Qed.
End compaction_theorems.

Section volume_theorems.
Import Volume.
Context `{System}.

Definition passphrase : bytes := env_or (lit "FLOAT_CRYPT_PASSPHRASE") (lit "default_passphrase").

(** What opening the volume asks of the system, and when it goes on. *)
Lemma open_crypt_cases h :
  let hm := h ++ [Exists (mapper_path CRYPT_MAPPER)] in
  open_crypt_volume h =
    if path_exists h (mapper_path CRYPT_MAPPER) then (hm, Fin tt)
    else (hm ++ [Run (luks_open passphrase)],
          match run_output hm (luks_open passphrase) with
          | Some o => if success o then Fin tt else Fail EncryptedStore.CryptSetup
          | None => Fail EncryptedStore.CryptSetup
          end).
Proof.
  cbv zeta. unfold open_crypt_volume, io_bind at 1, exists_. destruct (path_exists _ _); [done|].
  cbv zeta. fold passphrase. unfold io_bind, run_command.
  destruct (run_output _ _) as [o|]; [|done]. by destruct (success o).
Qed.

(** The volume is there: it was open before, or [luksOpen] has reported success. *)
Definition volume_open (h : list sys_event) : Prop :=
  path_exists h (mapper_path CRYPT_MAPPER) = true \/
  exists o, run_output (h ++ [Exists (mapper_path CRYPT_MAPPER)]) (luks_open passphrase) = Some o /\
    success o = true.

Lemma ensure_events h :
  exists evs r, ensure_mount_point h = (h ++ evs, r) /\
    (forall c, ~ (Run c ∈ evs)) /\
    match r with Fin _ => True | Fail e => e = EncryptedStore.MountPoint | _ => False end.
Proof.
  unfold ensure_mount_point, io_bind, exists_. destruct (path_exists _ _); cbn [negb].
  - exists [Exists STORAGE_MOUNT], (Fin tt). split_and!; [done|set_solver|done].
  - unfold create_dir. exists [Exists STORAGE_MOUNT; CreateDir STORAGE_MOUNT].
    eexists. split_and!; [by rewrite <- app_assoc|set_solver|]. by destruct (create_dir_all _ _).
Qed.

Lemma mount_events h :
  exists evs r, mount_volume h = (h ++ evs, r) /\
    match r with Fin _ => True | Fail e => e = EncryptedStore.Mount | _ => False end /\
    (evs = [Run mount_show] \/
     evs = [Run mount_show; Run mount_ext4] /\
     exists o, run_output h mount_show = Some o /\ success o = false).
Proof.
  unfold mount_volume, io_bind at 1, run_command. destruct (run_output h mount_show) as [o|] eqn:E.
  2:{ exists [Run mount_show]. eexists. split_and!; eauto. done. }
  destruct (success o) eqn:Eo; [exists [Run mount_show]; eexists; split_and!; eauto; done|].
  unfold io_bind. rewrite <- app_assoc. exists [Run mount_show; Run mount_ext4].
  destruct (run_output _ mount_ext4) as [o2|]; [destruct (success o2)|]; eexists; split_and!; eauto; done.
Qed.

Lemma rest_events h :
  exists evs r, io_bind ensure_mount_point (fun _ => mount_volume) h = (h ++ evs, r) /\
    match r with
    | Fin _ => True
    | Fail e => e = EncryptedStore.MountPoint \/ e = EncryptedStore.Mount
    | _ => False
    end /\
    ~ (Run (luks_open passphrase) ∈ evs) /\
    ((Run mount_ext4 ∈ evs) -> exists h1 o, run_output h1 mount_show = Some o /\ success o = false).
Proof.
  unfold io_bind. destruct (ensure_events h) as (e1 & r1 & E1 & N1 & R1). rewrite E1.
  destruct r1 as [u|e| |]; [|exists e1; eexists; (split_and!; [done|by left|apply N1|intros Hc; by apply N1 in Hc])|done..].
  destruct (mount_events (h ++ e1)) as (e2 & r2 & E2 & R2 & Hc). rewrite E2.
  exists (e1 ++ e2), r2. split_and!; [by rewrite app_assoc|destruct r2; try done; by right| |].
  - rewrite not_elem_of_app. split; [apply N1|]. destruct Hc as [->|[-> _]]; set_solver.
  - rewrite elem_of_app. intros [Hm|Hm]; [by apply N1 in Hm|].
    destruct Hc as [->|(-> & o & Ho)]; [set_solver|eauto].
Qed.

(** The encrypted volume is prepared safely, whatever the system answers.  The
    preparation ends with success or with the error of the step that failed; it mounts
    only a volume that is open and that is not mounted already; and a volume that is
    open and mounted is left alone. *)
Theorem volume_prepared h :
  exists evs r, prepare h = (h ++ evs, r) /\
    match r with
    | Fin _ => volume_open h
    | Fail e => e = EncryptedStore.CryptSetup \/ e = EncryptedStore.MountPoint \/ e = EncryptedStore.Mount
    | _ => False
    end /\
    ((Run mount_ext4 ∈ evs) -> volume_open h /\
      exists h1 o, run_output h1 mount_show = Some o /\ success o = false) /\
    (path_exists h (mapper_path CRYPT_MAPPER) = true -> ~ (Run (luks_open passphrase) ∈ evs)).
Proof.
  unfold prepare, io_bind at 1. rewrite open_crypt_cases. cbv zeta.
  set (hm := h ++ [Exists (mapper_path CRYPT_MAPPER)]).
  destruct (path_exists h _) eqn:Ep.
  - destruct (rest_events hm) as (evs & r & E & R & N & M). rewrite E.
    exists (Exists (mapper_path CRYPT_MAPPER) :: evs), r. unfold hm at 1. rewrite <- app_assoc.
    split_and!; [done|destruct r; try done; [by left|naive_solver]| |set_solver].
    intros Hm. split; [by left|]. apply M. set_solver.
  - destruct (run_output hm _) as [o|] eqn:Eo; [destruct (success o) eqn:Es|].
    2,3: exists [Exists (mapper_path CRYPT_MAPPER); Run (luks_open passphrase)]; eexists;
      unfold hm; rewrite <- app_assoc; split_and!; [done|by left|set_solver|done].
    destruct (rest_events (hm ++ [Run (luks_open passphrase)])) as (evs & r & E & R & N & M).
    assert (Hv : volume_open h) by (right; eauto). rewrite E.
    exists (Exists (mapper_path CRYPT_MAPPER) :: Run (luks_open passphrase) :: evs), r.
    unfold hm. rewrite <- !app_assoc. split_and!; [done|destruct r; try done; naive_solver| |done].
    intros Hm. split; [done|]. apply M. set_solver.
Qed.

(** Closing the store.  The unmount is attempted first, but only a failure to start
    it stops the closing: otherwise [luksClose] is run whatever the unmount reports,
    and its report alone decides the result. *)
Theorem volume_close h o :
  run_output h umount = Some o ->
  close h = ((h ++ [Run umount]) ++ [Run luks_close],
    match run_output (h ++ [Run umount]) luks_close with
    | Some o2 => if success o2 then Fin tt else Fail EncryptedStore.CryptSetup
    | None => Fail EncryptedStore.CryptSetup
    end).
Proof.
  intros Ho. unfold close, io_bind at 1, run_command at 1. rewrite Ho. unfold io_bind, run_command.
  destruct (run_output _ luks_close) as [o2|]; [|done]. by destruct (success o2).
Qed.

(** The configuration partition is reported open as soon as [cryptsetup] has been
    started and has taken the passphrase, whether or not it goes on to succeed (a
    defect: its exit status is never read). *)
Theorem config_partition_unchecked h :
  let pass := env_or (lit "FLOAT_CONFIG_PASSPHRASE") (lit "config_passphrase") in
  let hm := h ++ [Exists (mapper_path CONFIG_MAPPER)] in
  path_exists h (mapper_path CONFIG_MAPPER) = false -> spawn_writes hm open_plain pass = true ->
  open_config_partition h = (hm ++ [Spawn open_plain pass], Fin tt).
Proof.
  cbv zeta. intros Hp Hs. unfold open_config_partition, io_bind, exists_. rewrite Hp.
  unfold spawn_with. by rewrite Hs.
Qed.

(** The store is never opened, since its log is not. *)
Lemma open_not_Fin `{BincodeCrate WalEntry.t, Crc32Crate} fault opened content files h :
  match (open fault opened content files h).2 with Fin _ => False | _ => True end.
Proof.
  unfold open, io_bind. destruct (prepare h) as [h1 [u|e| |]]; [|done..]. cbn [snd].
  unfold EncryptedStore.open. destruct (Wal.open fault opened content) as [[w|e]|] eqn:E; [|done..].
  by apply open_not_Ok in E.
Qed.
End volume_theorems.

(** ** Witnesses *)

(** A log with one readable entry behind sixteen bytes. *)
Definition sample_wal : Wal.t :=
  Wal.mk (File.mk (fill 0 16 ++ @Wal.record crc32_sum [0; 0; 0; 0]) 0) 1.

Lemma compact_exact_witness :
  exists w, @Compaction.compact bincode_entries crc32_sum t_system no_fault 10 (fun _ => 7) 10 sample_wal
    = Ret (w, Ok tt) /\ Wal.sequence w = 1.
Proof.
  eexists. split.
  - apply (@compact_exact bincode_entries crc32_sum t_system 10 (fun _ => 7) 10 sample_wal
      [sample_message] [[0; 0; 0; 0]]); [lia|intros; lia|reflexivity| |reflexivity].
    constructor; [reflexivity|constructor].
  - reflexivity.
Defined.

Lemma compact_loses_log_witness :
  exists w, @Compaction.compact bincode_entries crc32_sum t_system
      (fun i => if i =? 2 then Some 0 else None) 10 (fun _ => 7) 10 sample_wal = Ret (w, Err FileWrite) /\
    File.content (Wal.file w) = [].
Proof.
  apply (@compact_loses_log bincode_entries crc32_sum t_system (fun i => if i =? 2 then Some 0 else None)
    10 (fun _ => 7) 10 sample_wal [sample_message]); try reflexivity; intros; lia.
Defined.

Lemma compact_unreadable_witness :
  (@Wal.replay bincode_entries crc32_sum (Wal.mk (File.mk
    (WalHeader.to_bytes (WalHeader.new 1) ++ @Wal.record crc32_sum [0; 0; 0; 0]) 0) 1)).2 = Err FileRead.
Proof. apply (@compact_unreadable bincode_entries crc32_sum 1 [[0; 0; 0; 0]] 1); [lia|done|reflexivity]. Defined.

Lemma volume_close_witness :
  @Volume.close willing [] = ([Run Volume.umount; Run Volume.luks_close], Fin tt).
Proof. apply (@volume_close willing [] (mkOutput true [] [])). reflexivity. Defined.

Lemma config_partition_unchecked_witness :
  (@Volume.open_config_partition willing []).2 = Fin tt.
Proof. rewrite (@config_partition_unchecked willing []); reflexivity. Defined.
