(* ===== verification/Can.v ===== *)
(** * CAN sensor reader ([src/src/sensor/can.rs])

    The reader of the CAN bus: the three interpretations of a frame, the loop that
    delivers messages, sending, and the filter it installs.  The crate [socketcan] is
    a parameter: its type of frames, of which the reader asks the identifier and the
    data only, how frames are built, and which frames a filter lets through.

    [parse_j1939] and [parse_canopen] push a [u32] into a byte vector, which does not
    type-check; the values are masked to a byte before, so the pushes are read with
    [as u8]. *)

From S2P Require Import Prelude Protocol Sensors.

(** ** The crate *)

(** Frames are more than [id] and [data]: they are standard or extended, and data,
    remote or error frames. *)
Class CanCrate := {
  CANFrame : Type;
  id : CANFrame -> Z;
  data : CANFrame -> bytes;
  frame_new : Z -> bytes -> option CANFrame;
  filter_accepts : Z -> Z -> CANFrame -> bool      (* filter id, mask, received frame *)
}.
(** Identifiers have at most 29 bits, a frame at most eight bytes; a filter whose mask
    leaves the flags out compares the identifiers under the mask. *)
Class CanLaws `{CanCrate} : Prop := {
  id_range : forall f : CANFrame, in_u 29 (id f);
  data_size : forall f : CANFrame, len (data f) <= 8;
  filter_masked : forall fid mask (f : CANFrame), in_u 29 mask ->
    filter_accepts fid mask f = (Z.land (id f) mask =? Z.land fid mask)
}.

Module CanReader.

Inductive CanError := SocketOpen | SocketConfig | SocketRead | SocketWrite | FrameBuild.

Section reader.
Context `{CanCrate}.

Definition parse_j1939 (now : Z) (frame : CANFrame) : result Message CanError :=
  let can_id := id frame in
  let priority := Z.land (Z.shiftr can_id 26) 0x07 in
  let pgn := Z.land (Z.shiftr can_id 8) 0x03FFFF in
  let source := Z.land can_id 0xFF in
  let message_data := to_be 4 priority ++ to_be 4 pgn ++ [wrap 8 source] ++ data frame in
  Ok (sensor_message now message_data).

Definition parse_canopen (now : Z) (frame : CANFrame) : result Message CanError :=
  let can_id := id frame in
  let function := Z.land (Z.shiftr can_id 7) 0x0F in
  let node_id := Z.land can_id 0x7F in
  let message_data := [wrap 8 function] ++ [wrap 8 node_id] ++ data frame in
  Ok (sensor_message now message_data).

Definition parse_raw (now : Z) (frame : CANFrame) : Message :=
  sensor_message now (to_be 4 (id frame) ++ data frame).

(** The message [start] sends for a frame. *)
Definition on_frame (now : Z) (frame : CANFrame) : Message :=
  match parse_j1939 now frame with
  | Ok msg => msg
  | Err _ =>
      match parse_canopen now frame with
      | Ok msg => msg
      | Err _ => parse_raw now frame
      end
  end.

(** What a read of the socket gives, and the clock at that time. *)
Inductive reading := Frame (now : Z) (f : CANFrame) | WouldBlock | ReadError.

(** The loop of [start] over its readings: the messages sent, and the error that ended
    it, if one did. *)
Fixpoint start (rs : list reading) : list Message * option CanError :=
  match rs with
  | [] => ([], None)
  | Frame now f :: rs => let '(l, e) := start rs in (on_frame now f :: l, e)
  | WouldBlock :: rs => start rs
  | ReadError :: _ => ([], Some SocketRead)
  end.

(** [opened], [configured]: the socket opens and takes the filter.  The filter is
    [CANFilter::new(0x000, 0x7FF)]; [received] is what it lets through. *)
Definition new (opened configured : bool) : result unit CanError :=
  if negb opened then Err SocketOpen else if negb configured then Err SocketConfig else Ok tt.

Definition received (frames : list CANFrame) : list CANFrame :=
  List.filter (fun f => filter_accepts 0x000 0x7FF f) frames.

(** [written]: the socket takes the frame. *)
Definition send_frame (written : bool) (can_id : Z) (d : bytes) : result CANFrame CanError :=
  match frame_new can_id d with
  | None => Err FrameBuild
  | Some frame => if written then Ok frame else Err SocketWrite
  end.
End reader.

End CanReader.

(** ** Theorems *)

Section can.
Import CanReader.

(** The identifier of a frame, put together from the fields of its message. *)
Definition j1939_id (d : bytes) : Z :=
  from_be (sub d 0 4) * 2 ^ 26 + from_be (sub d 4 4) * 2 ^ 8 + from_be (sub d 8 1).

Lemma land_field z n : 0 <= n -> Z.land z (2 ^ n - 1) = z mod 2 ^ n.
Proof. intros. rewrite <- Z.land_ones by lia. by rewrite Z.ones_equiv. Qed.

(** The three fields make up the identifier. *)
Lemma j1939_fields i :
  in_u 29 i ->
  let p := Z.land (Z.shiftr i 26) 0x07 in
  let g := Z.land (Z.shiftr i 8) 0x03FFFF in
  let s := Z.land i 0xFF in
  in_u 32 p /\ in_u 32 g /\ in_u 8 s /\ p * 2 ^ 26 + g * 2 ^ 8 + s = i.
Proof.
  intros Hi. cbv zeta. change 0x07 with (2 ^ 3 - 1). change 0x03FFFF with (2 ^ 18 - 1).
  change 0xFF with (2 ^ 8 - 1). rewrite !land_field, !Z.shiftr_div_pow2 by lia. unfold in_u in *.
  pose proof (Z.mod_pos_bound (i / 2 ^ 26) (2 ^ 3) ltac:(lia)).
  pose proof (Z.mod_pos_bound (i / 2 ^ 8) (2 ^ 18) ltac:(lia)).
  pose proof (Z.mod_pos_bound i (2 ^ 8) ltac:(lia)).
  rewrite (Z.mod_small (i / 2 ^ 26)) in * by (split; [apply Z.div_pos|apply Z.div_lt_upper_bound]; lia).
  pose proof (Z.div_mod i (2 ^ 8) ltac:(lia)). pose proof (Z.div_mod (i / 2 ^ 8) (2 ^ 18) ltac:(lia)) as Hd.
  rewrite Z.div_div in Hd by lia. change (2 ^ 8 * 2 ^ 18) with (2 ^ 26) in Hd. lia.
Qed.

(** The J1939 message of a frame, its parts and its size. *)
Lemma on_frame_data `{CanCrate, !CanLaws} now f :
  let d := Protocol.data (on_frame now f) in
  j1939_id d = id f /\ sub d 9 (len d - 9) = data f /\ len d = 9 + len (data f).
Proof.
  pose proof (id_range f) as Hid. pose proof (data_size f) as Hd. cbv zeta.
  destruct (j1939_fields _ Hid) as (Hp & Hg & Hs & Hsum).
  unfold on_frame, parse_j1939, sensor_message, message_new. cbn [Protocol.data].
  rewrite wrap_small by done. unfold j1939_id.
  set (p := Z.land (Z.shiftr (id f) 26) 0x07) in *. set (g := Z.land (Z.shiftr (id f) 8) 0x03FFFF) in *.
  set (s := Z.land (id f) 0xFF) in *.
  assert (Hl : len (to_be 4 p ++ to_be 4 g ++ [s] ++ data f) = 9 + len (data f)) by (len_simpl; lia).
  rewrite Hl, (proj2 (Z.ltb_ge _ _)) by (change (max_message_size IridiumSBD) with 340; lia).
  rewrite Hl, (sub_app_l (to_be 4 p) _ 4), (sub_mid (to_be 4 p) (to_be 4 g) _ 4 4) by (rewrite ?len_to_be; done).
  rewrite (app_assoc (to_be 4 p)), (sub_mid (to_be 4 p ++ to_be 4 g) [s] (data f) 8 1)
    by (rewrite ?len_app, ?len_to_be; done).
  rewrite !from_to_be_small by done. split_and!; [|..|done].
  - etransitivity; [|exact Hsum]. unfold from_be. cbn [reverse rev_append from_le]. lia.
  - rewrite app_assoc, sub_app_r by (len_simpl; lia). rewrite !len_app, !len_to_be.
    apply sub_all. lia.
Qed.

(** C36: What a message keeps of a CAN frame is its identifier and its data, and
    nothing else.  Every frame gives exactly one message, of nine bytes and the data,
    from which all bits of the identifier and the data can be read back; and two
    frames give the same message if and only if they agree in these two, whatever
    else the crate distinguishes in them (an 11-bit and a 29-bit identifier of the
    same value, a data and a remote frame). *)
Theorem can_message_exact `{CanCrate, !CanLaws} now (f f' : CANFrame) :
  let d := Protocol.data (on_frame now f) in
  j1939_id d = id f /\ sub d 9 (len d - 9) = data f /\ len d = 9 + len (data f) /\
  (on_frame now f' = on_frame now f <-> id f' = id f /\ data f' = data f).
Proof.
  intros d. destruct (on_frame_data now f) as (E1 & E2 & E3). do 3 (split; [done|]). split.
  - intros E. destruct (on_frame_data now f') as (F1 & F2 & _). rewrite E in F1, F2. split; congruence.
  - intros [E F]. unfold on_frame, parse_j1939. by rewrite E, F.
Qed.

(** The reader delivers the frames it reads, in order, one message each, up to the
    first error of the socket; every one of them is taken for J1939, so the CANopen and
    raw interpretations are never used. *)
Theorem can_delivery `{CanCrate} rs :
  let before := take (length (start rs).1) (omap (fun r => match r with Frame n f => Some (n, f) | _ => None end) rs) in
  map Ok (start rs).1 = map (fun '(n, f) => parse_j1939 n f) before /\
  ((start rs).2 = None ->
   length (start rs).1 = length (omap (fun r => match r with Frame n f => Some (n, f) | _ => None end) rs)) /\
  ((start rs).2 = Some SocketRead <-> ReadError ∈ rs).
Proof.
  cbv zeta. induction rs as [|r rs (IH1 & IH2 & IH3)].
  { cbn. split_and!; [done..|]. split; [done|]. intros Hr. by apply not_elem_of_nil in Hr. }
  rewrite elem_of_cons. destruct r as [n f| |]; cbn [start omap list_omap].
  - destruct (start rs) as [l e]. cbn [fst snd length take map] in *. split_and!.
    + by f_equal.
    + intros He. f_equal. by apply IH2.
    + rewrite IH3. naive_solver.
  - split_and!; [done..|]. rewrite IH3. naive_solver.
  - cbn. split_and!; [done..|]. split; auto.
Qed.

(** The filter that is meant to accept everything accepts only the identifiers whose
    eleven low bits are zero (a defect): of the 11-bit frames of CANopen only the one
    with identifier zero passes, and of J1939 only frames with source address zero. *)
Theorem can_filter_rejects `{CanCrate, !CanLaws} frames (f : CANFrame) :
  (In f (received frames) <-> In f frames /\ id f mod 2 ^ 11 = 0) /\
  (In f (received frames) -> id f < 2 ^ 11 -> id f = 0) /\
  (In f (received frames) -> Z.land (id f) 0xFF = 0).
Proof.
  pose proof (id_range f) as Hid.
  assert (Hf : In f (received frames) <-> In f frames /\ id f mod 2 ^ 11 = 0).
  { unfold received. rewrite filter_In, filter_masked by (unfold in_u; lia). change 0x7FF with (2 ^ 11 - 1).
    by rewrite land_field, Z.land_0_l, Z.eqb_eq by lia. }
  split; [done|]. rewrite Hf. unfold in_u in Hid. split.
  - intros [_ Hm] Hlt. by rewrite Z.mod_small in Hm by lia.
  - intros [_ Hm]. change 0xFF with (2 ^ 8 - 1). rewrite land_field by lia.
    apply Z.mod_divide in Hm as [k ->]; [|lia]. change (2 ^ 11) with (2 ^ 3 * 2 ^ 8).
    rewrite Z.mul_assoc. by apply Z.mod_mul.
Qed.
End can.

(** ** Witnesses *)

(** Frames with their kind, filters on the identifier with its flags above. *)
Record frame := mkFrame { extended : bool; remote : bool; ident : Z; content : bytes }.
Definition can_id (f : frame) : Z := wrap (if extended f then 29 else 11) (ident f).
Definition can_ref : CanCrate := {|
  CANFrame := frame;
  id := can_id;
  data f := take 8 (content f);
  frame_new i d := if len d <=? 8 then Some (mkFrame (2047 <? i) false i d) else None;
  filter_accepts fid mask f :=
    let flags := (if extended f then 2 ^ 31 else 0) + (if remote f then 2 ^ 30 else 0) in
    Z.land (flags + can_id f) mask =? Z.land fid mask
|}.

Lemma can_id_range f : in_u 29 (can_id f).
Proof.
  unfold can_id. assert (Hw : forall w, 0 <= w -> in_u w (wrap w (ident f))) by (intros; by apply wrap_range).
  destruct (extended f); [by apply Hw|]. specialize (Hw 11). unfold in_u in *. lia.
Qed.

(** Flags above the mask do not take part. *)
Lemma land_above x y mask : in_u 29 mask -> Z.land (x * 2 ^ 30 + y) mask = Z.land y mask.
Proof.
  intros Hm. unfold in_u in Hm. assert (E : mask = Z.land mask (Z.ones 30))
    by (rewrite Z.land_ones by lia; rewrite Z.mod_small; lia).
  rewrite E, (Z.land_comm mask), !Z.land_assoc, !Z.land_ones by lia. f_equal.
  rewrite Z.add_comm. apply Z_mod_plus_full.
Qed.

Lemma can_ref_laws : @CanLaws can_ref.
Proof.
  constructor; cbn [id data filter_accepts can_ref CANFrame].
  - apply can_id_range.
  - intros f. unfold len. rewrite length_take. lia.
  - intros fid mask f Hm. f_equal.
    rewrite <- (land_above ((if extended f then 2 else 0) + (if remote f then 1 else 0)) (can_id f) mask Hm).
    f_equal. destruct (extended f), (remote f); lia.
Qed.

Definition sample_frame : frame := mkFrame true false 0x18FEEE00 [1; 2; 3].

(** A standard data frame and an extended remote frame that become one message. *)
Lemma can_message_exact_witness :
  j1939_id (Protocol.data (@CanReader.on_frame can_ref 5 sample_frame)) = 0x18FEEE00 /\
  @CanReader.on_frame can_ref 5 (mkFrame false false 0x123 [7]) =
  @CanReader.on_frame can_ref 5 (mkFrame true true 0x123 [7]).
Proof.
  destruct (@can_message_exact can_ref can_ref_laws 5 sample_frame sample_frame) as (Hid & _).
  split; [etrans; [exact Hid|vm_compute; reflexivity]|].
  destruct (@can_message_exact can_ref can_ref_laws 5 (mkFrame true true 0x123 [7])
    (mkFrame false false 0x123 [7])) as (_ & _ & _ & H).
  apply H. split; vm_compute; reflexivity.
Defined.

Lemma can_filter_rejects_witness :
  ~ In sample_frame (@CanReader.received can_ref [sample_frame]).
Proof.
  intros Hin. apply (proj1 (@can_filter_rejects can_ref can_ref_laws [sample_frame] sample_frame)) in Hin.
  destruct Hin as [_ Hin]. vm_compute in Hin. discriminate Hin.
Defined.
