(* ===== verification/Gnss.v ===== *)
(** * Positioning and the hardware clock ([src/src/gnss]: gnss.rs, rtc.rs)

    The service that asks the modem for positions, with its waiting loop, and the
    synchronisation of the hardware clock by the command [hwclock].

    The service returns the modem's fix where its own type, with two more fields, is
    expected, and uses [?] on the modem's errors without a conversion; neither
    type-checks.  The fix is read as completed with the defaults of the missing
    fields, and the error as wrapped in [ModemError]. *)

From S2P Require Import Prelude Float64 Text StrOps Io System Modem.

#[local] Open Scope io_scope.

Record GnssFix := mkGnssFix {
  latitude : f64;
  longitude : f64;
  altitude : f64;
  speed : f64;
  heading : f64;
  fix_quality : Z;
  satellites : Z;
  timestamp : Z;
  hdop : f64;
  vdop : f64
}.

Definition f64_lit (text : bytes) : f64 := default (f64_of_Z 0) (parse_f64 text).

Definition GnssFix_default : GnssFix :=
  mkGnssFix (f64_of_Z 0) (f64_of_Z 0) (f64_of_Z 0) (f64_of_Z 0) (f64_of_Z 0) 0 0 0
    (f64_lit (lit "99.99")) (f64_lit (lit "99.99")).

Definition of_modem (f : GM02SP.GnssFix) : GnssFix :=
  mkGnssFix (GM02SP.latitude f) (GM02SP.longitude f) (GM02SP.altitude f) (GM02SP.speed f)
    (GM02SP.heading f) (GM02SP.fix_quality f) (GM02SP.satellites f) (GM02SP.timestamp f)
    (hdop GnssFix_default) (vdop GnssFix_default).

Module GnssService.

Inductive GnssError := NotEnabled | Timeout | ModemError (e : GM02SP.Gm02spError).

Record t := mk { modem : GM02SP.t; enabled : bool }.

Abbreviation service := (io (t * list Modem.event) GnssError).

(** An operation of the modem, with its errors wrapped. *)
Definition on_modem {A} (m : GM02SP.modem A) : service A := fun st =>
  let '((md, h), r) := m (modem st.1, st.2) in
  ((mk md (enabled st.1), h),
   match r with
   | Fin a => Fin a
   | Fail e => Fail (ModemError e)
   | Panicked => Panicked
   | Waiting => Waiting
   end).

Section service.
Context `{Port}.

Definition is_enabled (s : t) : bool := enabled s.

Definition new (polls : nat) (md : GM02SP.t) (h : list Modem.event) : (t * list Modem.event) * run GnssError t :=
  (on_modem (GM02SP.enable_gnss polls);;;
   (fun st => ((mk (modem st.1) true, st.2), Fin (mk (modem st.1) true)))) (mk md false, h).

Definition get_fix (polls : nat) : service GnssFix := fun st =>
  if negb (enabled st.1) then (st, Fail NotEnabled) else
  (fix_ <~ on_modem (GM02SP.get_gnss_fix polls);
   io_ret (of_modem fix_)) st.

(** The loop of [wait_for_fix]. *)
Fixpoint await_fix (turns polls : nat) (timeout_ms start : Z) : service GnssFix :=
  match turns with
  | O => io_wait
  | S turns =>
      t <~ on_modem GM02SP.clock;
      if GM02SP.elapsed_over timeout_ms start t then io_fail Timeout else
      fix_ <~ get_fix polls;
      if 0 <? fix_quality fix_ then io_ret fix_
      else (on_modem (GM02SP.tell (SleepMs 1000));;; await_fix turns polls timeout_ms start)
  end.

Definition wait_for_fix (turns polls : nat) (timeout_ms : Z) : service GnssFix :=
  start <~ on_modem GM02SP.clock;
  await_fix turns polls timeout_ms start.
End service.

End GnssService.

Module RtcSync.

Inductive RtcError := Hwclock (text : bytes).

Definition RTC_DEVICE : bytes := lit "/dev/rtc0".

Definition set_command (ts : Z) : command :=
  Cmd (lit "hwclock") [lit "--set"; lit "--date"; lit "@" ++ int_to_string ts; lit "--rtc"; RTC_DEVICE] [].
Definition show_command : command :=
  Cmd (lit "hwclock") [lit "--show"; lit "--rtc"; RTC_DEVICE] [].

Section rtc.
Context `{System}.

(** The text of a system error is not modelled: it is empty. *)
Definition sync_from_gnss (fix_ : GnssFix) : io (list sys_event) RtcError unit :=
  let ts := timestamp fix_ / 1000 in
  o <~ run_command (set_command ts) (Hwclock []);
  if negb (success o) then io_fail (Hwclock (from_utf8_lossy (stderr o))) else io_ret tt.

(** [unix_s]: the system time in seconds, negative before the epoch. *)
Definition get_rtc_time (unix_s : Z) : io (list sys_event) RtcError Z :=
  o <~ run_command show_command (Hwclock []);
  if negb (success o) then io_fail (Hwclock (from_utf8_lossy (stderr o))) else
  of_outcome (if unix_s <? 0 then Panic else Ret unix_s).

Definition is_rtc_running : io (list sys_event) RtcError bool :=
  o <~ run_command show_command (Hwclock []);
  io_ret (success o).
End rtc.

End RtcSync.

Import GnssService RtcSync.

(** ** Waiting for a fix *)

Section waiting.
Context `{Port} (read_ns : Z) `{!ClockLaws read_ns} (polls : nat).

Lemma on_modem_Fin {A} (m : GM02SP.modem A) st st' a :
  on_modem m st = (st', Fin a) ->
  m (modem st.1, st.2) = ((modem st'.1, st'.2), Fin a) /\ enabled st'.1 = enabled st.1.
Proof.
  unfold on_modem. destruct (m _) as [[md h] [x|e| |]]; by intros [= <- <-].
Qed.

(** [get_fix] asks the modem, and keeps the flag. *)
Lemma get_fix_inv st st' f :
  get_fix polls st = (st', Fin f) ->
  enabled st.1 = true /\ enabled st'.1 = true /\
  exists g, f = of_modem g /\
    GM02SP.get_gnss_fix polls (modem st.1, st.2) = ((modem st'.1, st'.2), Fin g).
Proof.
  unfold get_fix. destruct (enabled st.1) eqn:E; [|done]. cbn [negb]. intros Hg.
  apply bind_Fin_inv in Hg as (st1 & g & H1 & Hg). injection Hg as <- <-.
  apply on_modem_Fin in H1 as [H1 H2]. rewrite H2. eauto.
Qed.

(** The history of [get_fix] only grows. *)
Lemma get_fix_now st : now st.2 <= now (get_fix polls st).1.2.
Proof.
  unfold get_fix. destruct (negb _); [cbn; lia|]. unfold io_bind, on_modem.
  pose proof (now_moves read_ns same _ (modem st.1, st.2) (moves_fix polls)) as Hm.
  by destruct (GM02SP.get_gnss_fix _ _) as [[md h] [g|e| |]].
Qed.

Lemma await_fix_Fin turns timeout start st st' f :
  await_fix turns polls timeout start st = (st', Fin f) -> 0 < fix_quality f.
Proof.
  revert st. induction turns as [|n IH]; intros st Hr; [done|]. cbn [await_fix] in Hr.
  apply bind_Fin_inv in Hr as (st1 & t1 & _ & Hr). destruct (GM02SP.elapsed_over _ _ _); [done|].
  apply bind_Fin_inv in Hr as (st2 & g & _ & Hr). destruct (0 <? fix_quality g) eqn:E.
  - injection Hr as _ <-. by breflect.
  - apply bind_Fin_inv in Hr as (st3 & u & _ & Hr). by eapply IH.
Qed.

(** A turn of the loop that does not end it takes a second. *)
Lemma await_fix_returns turns timeout start st :
  0 < read_ns -> enough_polls read_ns <= Z.of_nat polls -> (1 <= turns)%nat ->
  timeout * 1000000 < now st.2 - start + (Z.of_nat turns - 1) * 1000000000 ->
  (await_fix turns polls timeout start st).2 <> Waiting.
Proof.
  intros Hr Hp. revert st. induction turns as [|n IH]; intros st Hn Ht; [lia|]. cbn [await_fix].
  unfold io_bind at 1, on_modem at 1, GM02SP.clock. cbn [fst snd modem].
  destruct (GM02SP.elapsed_over _ start _) eqn:E; [done|].
  unfold GM02SP.elapsed_over in E. breflect. assert (1 <= n)%nat by (destruct n; lia).
  set (st1 := (mk (modem st.1) (enabled st.1), st.2 ++ [ReadClock])).
  assert (now st.2 <= now st1.2) by apply now_mono.
  pose proof (get_fix_now st1) as Hg.
  assert (Hw : (get_fix polls st1).2 <> Waiting).
  { unfold get_fix. destruct (negb _); [done|]. unfold io_bind, on_modem.
    pose proof (fix_returns read_ns polls Hr Hp (modem st1.1, st1.2)) as Hf.
    by destruct (GM02SP.get_gnss_fix _ _) as [[md h] [g|e| |]]. }
  unfold io_bind at 1. destruct (get_fix polls st1) as [st2 [f|e| |]]; [|done..].
  destruct (0 <? fix_quality f); [done|]. unfold io_bind, on_modem, GM02SP.tell.
  cbn [fst snd modem] in *. pose proof (now_sleep st2.2 1000). apply IH; cbn [snd]; lia.
Qed.
End waiting.

(** The loop of a service that is not enabled ends in its first turn. *)
Lemma wait_disabled `{Port} n polls timeout_ms s h :
  enabled s = false ->
  wait_for_fix (S n) polls timeout_ms (s, h)
  = ((s, h ++ [ReadClock; ReadClock]),
     Fail (if GM02SP.elapsed_over timeout_ms (now h) (now (h ++ [ReadClock])) then Timeout else NotEnabled)).
Proof.
  intros He. unfold wait_for_fix. cbn [await_fix].
  unfold io_bind at 1, on_modem, GM02SP.clock, io_bind at 1. cbn [fst snd modem enabled].
  rewrite <- app_assoc. destruct s as [md e]. cbn [modem enabled app] in *. subst e.
  by destruct (GM02SP.elapsed_over _ _ _).
Qed.

(** C21: Waiting for a position ends, whatever the modem answers: one turn per second of
    the timeout and two more are enough for a result; a position that is returned is
    valid; and a service that is not enabled sends the modem nothing. *)
Theorem gnss_wait_returns `{Port} read_ns `{!ClockLaws read_ns} turns polls timeout_ms st :
  0 < read_ns -> enough_polls read_ns <= Z.of_nat polls ->
  0 <= timeout_ms -> timeout_ms / 1000 + 2 <= Z.of_nat turns ->
  let r := (wait_for_fix turns polls timeout_ms st).2 in
  r <> Waiting /\
  (forall f, r = Fin f -> 0 < fix_quality f) /\
  (enabled st.1 = false ->
   (r = Fail NotEnabled \/ r = Fail Timeout) /\
   (wait_for_fix turns polls timeout_ms st).1.2 = st.2 ++ [ReadClock; ReadClock]).
Proof.
  intros Hr Hp Hto Ht. cbv zeta. pose proof (Z.mul_succ_div_gt timeout_ms 1000 ltac:(lia)).
  assert (0 <= timeout_ms / 1000) by (apply Z.div_pos; lia). split_and!.
  - unfold wait_for_fix, io_bind, on_modem at 1, GM02SP.clock. cbn [fst snd modem].
    apply (await_fix_returns read_ns); [done..|lia|]. cbn [snd].
    pose proof (now_mono st.2 ReadClock). lia.
  - intros f Hf. destruct (wait_for_fix _ _ _ _) as [st' r] eqn:E. cbn [snd] in Hf. subst r.
    apply bind_Fin_inv in E as (st1 & t1 & _ & E). by apply await_fix_Fin in E.
  - intros He. destruct turns as [|n]; [lia|]. destruct st as [s h]. rewrite wait_disabled by done.
    cbn [fst snd]. by destruct (GM02SP.elapsed_over _ _ _); split; [right|..|left|].
Qed.

(** ** The time of a fix *)

Lemma gnss_fix_time `{Port} polls m h st' g :
  GM02SP.get_gnss_fix polls (m, h) = (st', Fin g) ->
  exists h1, st'.2 = h1 ++ [ReadUnixTime] /\ 0 <= unix_ms h1 /\ GM02SP.timestamp g = wrap 64 (unix_ms h1).
Proof.
  intros Hg. apply bind_Fin_inv in Hg as ([m1 h1] & r & _ & Hg).
  repeat (case_match; [done|]). apply bind_Fin_inv in Hg as (st2 & ts & Hu & Hg).
  injection Hg as <- <-. unfold GM02SP.unix_time in Hu. cbn [fst snd] in Hu.
  destruct (unix_ms h1 <? 0) eqn:E; [done|]. injection Hu as <- <-. breflect. eauto.
Qed.

(** The hardware clock is set to the system's own time (a defect): the timestamp of a
    fix is the system clock when the answer was parsed, whatever time the satellites
    give, and synchronising with the fix runs exactly one [hwclock --set] with that
    time in whole seconds. *)
Theorem rtc_gets_system_time `{Port, System} polls st st' f h :
  get_fix polls st = (st', Fin f) ->
  exists h1, st'.2 = h1 ++ [ReadUnixTime] /\
    (sync_from_gnss f h).1 = h ++ [Run (set_command (wrap 64 (unix_ms h1) / 1000))] /\
    ((sync_from_gnss f h).2 = Fin tt <->
     exists o, run_output h (set_command (wrap 64 (unix_ms h1) / 1000)) = Some o /\ success o = true).
Proof.
  intros Hg. apply get_fix_inv in Hg as (_ & _ & g & -> & Hg).
  apply gnss_fix_time in Hg as (h1 & H1 & _ & Ht). exists h1. split; [done|].
  unfold sync_from_gnss. cbn [of_modem timestamp]. rewrite Ht. cbv zeta.
  unfold io_bind, run_command. destruct (run_output h _) as [o|].
  - destruct (success o) eqn:E; cbn; (split; [done|]); naive_solver congruence.
  - cbn. split; [done|]. naive_solver.
Qed.

(** Reading the hardware clock gives the system's time too. *)
Lemma rtc_time_is_system_time `{System} unix_s h h' v :
  get_rtc_time unix_s h = (h', Fin v) -> v = unix_s.
Proof.
  intros Hg. apply bind_Fin_inv in Hg as (h1 & o & _ & Hg). destruct (negb _); [done|].
  unfold of_outcome in Hg. destruct (_ <? _); by injection Hg.
Qed.

(** ** Giving up *)

(** The modem answers the question for a position with a text that arrives in one
    piece and in time. *)
Lemma send_error `{Port} p cmd text m h :
  answers h cmd text -> ascii text ->
  contains text (lit "OK") = false -> contains text (lit "ERROR") = true ->
  GM02SP.send_at (S p) cmd (m, h) = ((m, h ++ exchange cmd), Fail (GM02SP.AtError text)).
Proof.
  intros (Hw & Ht & Hr) Ha Hok He. unfold GM02SP.send_at, io_bind at 1, GM02SP.write_all. cbn [fst snd].
  rewrite Hw. unfold io_bind at 1, GM02SP.clock at 1. cbn [fst snd GM02SP.read_reply].
  unfold io_bind at 1, GM02SP.clock, GM02SP.elapsed_over. cbn [fst snd].
  rewrite (proj2 (Z.ltb_ge _ _)) by done.
  unfold io_bind, GM02SP.port_read, io_fail, exchange. cbn [fst snd]. rewrite <- !app_assoc in *. cbn [app] in *.
  rewrite Hr. cbv zeta. cbn [app]; rewrite lossy_ascii by done. by rewrite Hok, He.
Qed.

(** [wait_for_fix] does not wait for a modem that says it has no position yet: an
    error reply to the first question (the modem's answer while it has no fix) ends the
    waiting with that error, however long the timeout. *)
Theorem gnss_wait_gives_up `{Port} n p timeout_ms s h text :
  let h1 := h ++ [ReadClock; ReadClock] in
  enabled s = true -> now (h ++ [ReadClock]) - now h <= timeout_ms * 1000000 ->
  answers h1 (lit "AT+QGPSLOC=2") text -> ascii text ->
  contains text (lit "OK") = false -> contains text (lit "ERROR") = true ->
  wait_for_fix (S n) (S p) timeout_ms (s, h)
  = ((s, h1 ++ exchange (lit "AT+QGPSLOC=2")), Fail (ModemError (GM02SP.AtError text))).
Proof.
  cbv zeta. intros He Hn Ha Hx Hok Herr. unfold wait_for_fix. cbn [await_fix].
  unfold io_bind at 1, on_modem, GM02SP.clock, io_bind at 1. cbn [fst snd modem enabled].
  unfold GM02SP.elapsed_over. rewrite (proj2 (Z.ltb_ge _ _)) by done. rewrite <- app_assoc. cbn [app].
  unfold io_bind at 1, get_fix. cbn [fst snd enabled]. rewrite He. cbn [negb].
  unfold io_bind at 1, on_modem. cbn [fst snd modem enabled]. unfold GM02SP.get_gnss_fix, io_bind at 1.
  rewrite (send_error p _ text) by done. by destruct s as [md []].
Qed.

(** ** Witnesses *)

(** A modem without a position. *)
Definition no_fix : Port := scripted (fun _ => Chunk (lit "+CME ERROR: 516")).
Definition enabled_service : GnssService.t := mk (GM02SP.mk GM02SP.Booting GM02SP.Unknown) true.

Lemma gnss_wait_returns_witness : (@wait_for_fix silent 4 3 2000 (enabled_service, [])).2 <> Waiting.
Proof.
  apply (@gnss_wait_returns silent 5000000000 (scripted_laws _) 4 3 2000 (enabled_service, []));
    vm_compute; congruence.
Defined.

Lemma rtc_gets_system_time_witness :
  exists h1, (@get_fix located 1 (enabled_service, [])).1.2 = h1 ++ [ReadUnixTime].
Proof.
  destruct (@get_fix located 1 (enabled_service, [])) as [st' r] eqn:E.
  assert (Hr : exists f, r = Fin f) by (vm_compute in E; injection E as _ <-; by eexists).
  destruct Hr as [f ->].
  destruct (@rtc_gets_system_time located willing 1 (enabled_service, []) st' f [] E) as (h1 & H1 & _).
  by exists h1.
Defined.

Lemma gnss_wait_gives_up_witness :
  (@wait_for_fix no_fix 9 9 60000 (enabled_service, [])).2
  = Fail (ModemError (GM02SP.AtError (lit "+CME ERROR: 516"))).
Proof.
  rewrite (@gnss_wait_gives_up no_fix 8 8 60000 enabled_service [] (lit "+CME ERROR: 516"));
    [done|done|vm_compute; congruence|split_and!; vm_compute; congruence|unfold ascii; compute_done|done|done].
Defined.
