(* ===== verification/Mesh.v ===== *)
(** * The mesh aggregator over the radio ([src/src/lora/mesh.rs])

    [Lora] models the decoding of a frame; here is the task that gets its frames from
    the radio, and the acknowledgement that is sent through it.  [send_ack] uses [?] on
    an error of the radio without a conversion; the error is passed on as it is. *)

From S2P Require Import Prelude Protocol Io Radio Lora.

#[local] Open Scope io_scope.

Module LoRaMeshAggregator.

(** The radio is in the environment; the messages sent are those the task delivers. *)
Record t := mk { node_registry : NodeRegistry.t }.

Definition new : t := mk NodeRegistry.new.

(** Where the task is: in its loop, in [rx_packet], or dead after a panic. *)
Inductive task := Running | Listening | Dead.

(** What a turn finds: the polls of the radio call, and the clock. *)
Record observed := mkObs { polls : nat; now : Z }.

Section ops.
Context `{Device, HmacCrate}.

(** One turn of the loop: the radio, the messages sent so far, the task. *)
Definition turn (a : t) (o : observed) (c : history * list Message * task) : history * list Message * task :=
  let '(h, sent, k) := c in
  match k with
  | Running =>
      match LR1121.rx_packet (polls o) h with
      | (h, Fin frame) =>
          match LoRaMesh.on_frame (now o) (LR1121.data frame) (node_registry a) with
          | Ret m => (h ++ [SleepMs 10], sent ++ option_list m, Running)
          | Panic => (h, sent, Dead)
          end
      | (h, Fail _) => (h ++ [SleepMs 10], sent, Running)
      | (h, Panicked) => (h, sent, Dead)
      | (h, Waiting) => (h, sent, Listening)
      end
  | _ => c
  end.

(** [start]: the task runs from the head of its loop. *)
Definition start (a : t) (os : list observed) (h : history) : history * list Message * task :=
  foldl (fun c o => turn a o c) (h, [], Running) os.

Definition send_ack (polls : nat) (node_id seq : Z) : radio unit :=
  LR1121.tx_packet polls (LoRaMesh.ack_packet node_id seq).
End ops.

End LoRaMeshAggregator.

Import LoRaMeshAggregator.

(** A frame gives no message: the task panics, or the frame is refused. *)
Lemma frame_undelivered `{HmacCrate} now d reg :
  match LoRaMesh.on_frame now d reg with Ret m => m = None | Panic => True end.
Proof.
  unfold LoRaMesh.on_frame, LoRaMesh.decode_sensor_frame, NodeRegistry.get_node.
  destruct (len d <? 12); [done|].
  destruct (read_at d 0 4); [|done]. mstep. destruct (read_at d 4 2); [|done]. mstep.
  destruct (d.[6]); [|done]. mstep. destruct (d.[7 ~> len d - 4]); [|done]. mstep.
  by destruct (slice_from d (len d - 4)).
Qed.

Lemma start_sends_nothing `{Device, HmacCrate} a os h : (start a os h).1.2 = [].
Proof.
  unfold start. generalize Running as k. revert h.
  induction os as [|o os IH]; intros h k; [done|]. cbn [foldl].
  destruct k; [|apply IH..]. unfold turn at 2.
  destruct (LR1121.rx_packet (polls o) h) as [h1 [frame|e| |]]; [|apply IH..].
  pose proof (frame_undelivered (now o) (LR1121.data frame) (node_registry a)) as Hf.
  destruct (LoRaMesh.on_frame _ _ _) as [m|]; [subst m|]; apply IH.
Qed.

(** The mesh task delivers nothing (a defect).  Whatever the radio receives, and
    whichever nodes are registered, no message is ever sent to the gateway: frames
    shorter than twelve bytes are refused, and the first longer one ends the task in a
    panic, because the registry is locked with a blocking call inside it; a task that
    has ended stays so. *)
Theorem mesh_never_delivers `{Device, HmacCrate} a os h :
  (start a os h).1.2 = [] /\
  forall o frame h1, LR1121.rx_packet (polls o) h = (h1, Fin frame) ->
    12 <= len (LR1121.data frame) -> start a (o :: os) h = (h1, [], Dead).
Proof.
  assert (Hdead : forall os h, foldl (fun c o => turn a o c) (h, [], Dead) os = (h, [], Dead)).
  { intros os1 h1. induction os1 as [|o os1 IH]; [done|]. exact IH. }
  split; [apply start_sends_nothing|].
  intros o frame h1 Hr Hlen. unfold start. cbn [foldl]. unfold turn at 2. rewrite Hr.
  assert (Hp : LoRaMesh.on_frame (now o) (LR1121.data frame) (node_registry a) = Panic).
  { unfold LoRaMesh.on_frame, LoRaMesh.decode_sensor_frame.
    rewrite (proj2 (Z.ltb_ge _ _)) by lia. rewrite !read_at_Ret by lia. mstep.
    destruct (at_Ret (LR1121.data frame) 6) as (x & -> & _); [lia|]. mstep.
    rewrite (slice_Ret _ 7) by lia. mstep. unfold slice_from.
    by rewrite (slice_Ret _ (len _ - 4)) by lia. }
  rewrite Hp. apply Hdead.
Qed.
