(* ===== verification/Supervisor.v ===== *)
(** * The hardware supervisor ([src/src/main.rs])

    The binary: its start-up sequence over all the drivers, the configuration it reads
    from the environment, the tasks it spawns (button, positioning, bridge) and its
    shutdown.  The world is one history per device; each step is the driver's own
    operation, lifted to the world.

    [main] moves the radio driver twice, clones the modem, shares the store and uses
    the provisioning mode after moving it into a task, and awaits a constructor that is
    not [async]; none of this type-checks.  It is read with shared handles, which is
    what the bindings are used for.  With the feature [hardware] the function is inside
    a module, so the crate would have no entry point; it is read as the entry point. *)

From S2P Require Import Prelude Protocol Externals Text Io System Bitemporal Snapshot Sensors Lora Can.
From S2P Require Import Reliability Gateway Wal Storage Radio Board Modem Provisioning Gnss Mesh.

#[local] Open Scope io_scope.

(** Without the feature [hardware]: two lines on the error output, and the exit code. *)
Definition main_without_hardware : Z := 1.

Module main_hardware.

(** ** The world *)

Record world := mkWorld {
  pins : list Z;                       (* in use *)
  system : list sys_event;
  i2c : list ATECC608B.event;
  port : GM02SP.t * list Modem.event;
  spi : list Radio.event
}.

(** [Box<dyn Error>]: the error of the step that failed. *)
Inductive MainError :=
| EWatchdog (e : Watchdog.WatchdogError)
| EStore (e : EncryptedStore.StoreError)
| EAtecc (e : ATECC608B.AteccError)
| EProvisioning (e : ProvisioningService.ProvisioningError)
| EModem (e : GM02SP.Gm02spError)
| ERadio (e : RadioError)
| EButton (e : ConfigButton.ButtonError)
| ELed (e : LedController.LedError)
| EGnss (e : GnssService.GnssError)
| ESignal.

(** A step of one device, with [?] on its error. *)
Definition on {S E A} (get : world -> S) (put : S -> world -> world) (err : E -> MainError)
    (m : io S E A) : io world MainError A := fun w =>
  let '(s, r) := m (get w) in
  (put s w, match r with
            | Fin a => Fin a
            | Fail e => Fail (err e)
            | Panicked => Panicked
            | Waiting => Waiting
            end).

Definition on_pins {E A} (err : E -> MainError) (m : io (list Z) E A) : io world MainError A :=
  on pins (fun s w => mkWorld s (system w) (i2c w) (port w) (spi w)) err m.
Definition on_system {E A} (err : E -> MainError) (m : io (list sys_event) E A) : io world MainError A :=
  on system (fun s w => mkWorld (pins w) s (i2c w) (port w) (spi w)) err m.
Definition on_i2c {E A} (err : E -> MainError) (m : io (list ATECC608B.event) E A) : io world MainError A :=
  on i2c (fun s w => mkWorld (pins w) (system w) s (port w) (spi w)) err m.
Definition on_port {E A} (err : E -> MainError) (m : io (GM02SP.t * list Modem.event) E A)
  : io world MainError A :=
  on port (fun s w => mkWorld (pins w) (system w) (i2c w) s (spi w)) err m.
Definition on_spi {E A} (err : E -> MainError) (m : io (list Radio.event) E A) : io world MainError A :=
  on spi (fun s w => mkWorld (pins w) (system w) (i2c w) (port w) s) err m.

(** ** Configuration *)

Record ASTSCredentials := mkCredentials {
  account_id : bytes;
  api_key : bytes;
  mno_partner_id : option bytes
}.

Record TelemetryConfig := mkTelemetry {
  enabled : bool;
  endpoint : option bytes;
  ping_interval_ms : Z
}.

(** [str::parse::<bool>] *)
Definition parse_bool (s : bytes) : option bool :=
  if bool_decide (s = lit "true") then Some true
  else if bool_decide (s = lit "false") then Some false else None.
Definition parse_u32 : bytes -> option Z := parse_int 0 (2 ^ 32 - 1).

Section configuration.
Context `{System}.

Definition lora_freq : Z := default 915 (parse_u32 (env_or (lit "LORA_FREQ") (lit "915"))).

Definition asts_credentials : option ASTSCredentials :=
  match env_var (lit "ASTS_ACCOUNT_ID") with
  | None => None
  | Some _ =>
      match env_var (lit "ASTS_API_KEY") with
      | None => None
      | Some _ =>
          Some (mkCredentials (env_or (lit "ASTS_ACCOUNT_ID") []) (env_or (lit "ASTS_API_KEY") [])
                  (env_var (lit "ASTS_MNO_PARTNER_ID")))
      end
  end.

Definition telemetry_config : TelemetryConfig :=
  mkTelemetry
    (default false (parse_bool (env_or (lit "TELEMETRY_ENABLED") (lit "false"))))
    (env_var (lit "TELEMETRY_ENDPOINT"))
    (default 5000 (parse_u64 (env_or (lit "TELEMETRY_PING_INTERVAL_MS") (lit "5000")))).
End configuration.

(** ** Start-up *)

(** What the run is given from outside: the log file and its I/O outcomes, whether the
    buses open, the configuration partition, the turns and polls of the modem's loops,
    the level of the button, the clock, and whether the signal handlers install. *)
Record inputs := mkInputs {
  wal_fault : Z -> option Z;
  wal_opened : bool;
  wal_content : bytes;
  wal_files : gmap string bytes;
  i2c_opened : bool;
  config_disk : ProvisioningService.disk;
  port_opened : bool;
  turns : nat;
  polls : nat;
  spi_init : option RadioError;
  button_level : ConfigButton.Level;
  wall_ms : Z;
  gateway_now : Z;
  signals : bool
}.

(** What is alive when the supervisor is ready. *)
Record services := mkServices {
  encrypted_store : EncryptedStore.t;
  gateway_id : bytes;
  provisioning : ProvisioningService.t;
  lr1121 : LR1121.t;
  config_button : ConfigButton.t;
  led_controller : LedController.t;
  provisioning_mode : LoRaProvisioningMode.t;
  gnss_service : GnssService.t;
  startup_time : Z;
  gateway : Gateway.t;
  lora_aggregator : LoRaMeshAggregator.t
}.

Section start_up.
Context `{System, GpioCrate, ATECC608B.I2cBus, Port, Device}.
Context `{BincodeCrate WalEntry.t, Crc32Crate, HexEncodeCrate}.

(** Constructors that start from a history of their own state. *)
Definition modem_new (i : inputs) : io (GM02SP.t * list Modem.event) GM02SP.Gm02spError GM02SP.t :=
  fun st => GM02SP.new (port_opened i) (polls i) st.2.
Definition gnss_new (i : inputs) : io (GM02SP.t * list Modem.event) GnssService.GnssError GnssService.t :=
  fun st => let '((s, h), r) := GnssService.new (polls i) st.1 st.2 in ((GnssService.modem s, h), r).

(** [LR1121::new]: the bus, the pins, and the chip. *)
Definition radio_new (i : inputs) : io world MainError LR1121.t :=
  match spi_init i with
  | Some e => io_fail (ERadio e)
  | None => on_pins ERadio LR1121.take_pins;;; on_spi ERadio (LR1121.new None lora_freq)
  end.

Definition start_up (i : inputs) : io world MainError services :=
  (* 1: watchdog *)
  _watchdog <~ on_pins EWatchdog Watchdog.new;
  (* 2: encrypted volume, write-ahead log *)
  store <~ on_system EStore (Volume.open (wal_fault i) (wal_opened i) (wal_content i) (wal_files i));
  (* 3: ECC chip, provisioning status *)
  on_i2c EAtecc (ATECC608B.new (i2c_opened i));;;
  serial <~ on_i2c EAtecc ATECC608B.read_serial;
  prov <~ on_i2c EProvisioning (ProvisioningService.new (config_disk i));
  (* 4: modem *)
  modem <~ on_port EModem (modem_new i);
  on_port EModem (GM02SP.register_network (turns i) (polls i));;;
  (* 5: radio *)
  radio <~ radio_new i;
  (* 7: button, LED, provisioning mode; the readers of 6 are tasks *)
  button <~ on_pins EButton (ConfigButton.new (button_level i));
  led <~ on_pins ELed LedController.new;
  let mode := LoRaProvisioningMode.new in
  (* 8 *)
  let led := LedController.set_state led LedController.NoUplink in
  (* 9: positioning *)
  gnss <~ on_port EGnss (gnss_new i);
  (* 10: gateway *)
  let startup := init_startup_time (wall_ms i) in
  let gw := Gateway.new (gateway_now i) 60000000000
              (bool_decide (is_Some asts_credentials))
              (enabled telemetry_config && bool_decide (is_Some (endpoint telemetry_config))) in
  (* 11: the mesh aggregator always starts *)
  let led := LedController.set_state led LedController.Connected in
  if negb (signals i) then io_fail ESignal else
  io_ret (mkServices store (hex_encode serial) prov radio button led mode gnss startup gw LoRaMeshAggregator.new).

(** Graceful shutdown, after a signal. *)
Definition shutdown (s : services) : io world MainError services :=
  let led := LedController.stop (LedController.set_state (led_controller s) LedController.Off) in
  on_system EStore Volume.close;;;
  io_ret (mkServices (encrypted_store s) (gateway_id s) (provisioning s) (lr1121 s) (config_button s)
    led (LoRaProvisioningMode.stop (provisioning_mode s)) (gnss_service s) (startup_time s)
    (gateway s) (lora_aggregator s)).

Definition main (i : inputs) : io world MainError services :=
  s <~ start_up i;
  shutdown s.
End start_up.

(** ** Tasks *)

(** The reader tasks: the messages each hands to the channel of the bridge.  A reader
    that cannot be built, and the error that ends a loop, are dropped. *)
Definition rs232_task (opened : result unit string) (rs : list Sensors.reading) : outcome (list Message) :=
  match Rs232.new opened with
  | Ok _ => '(l, _) ← Rs232.start rs; Ret l
  | Err _ => Ret []
  end.

Definition rs485_task `{GpioCrate} (opened : result unit string) (held : list Z) (rs : list Sensors.reading)
  : outcome (list Message) :=
  match (Rs485.new opened held).2 with
  | Fin r => '(l, _, _) ← Rs485.start r rs; Ret l
  | _ => Ret []
  end.

Definition can_task `{CanCrate} (opened configured : bool) (rs : list CanReader.reading) : list Message :=
  match CanReader.new opened configured with
  | Ok _ => (CanReader.start rs).1
  | Err _ => []
  end.

(** The button task: the provisioning mode, the number of listening tasks started, the
    configuration partition and the system. *)
Record button_world := mkButton {
  mode : LoRaProvisioningMode.t;
  listeners : Z;
  disk : ProvisioningService.disk;
  commands : list sys_event
}.

Definition reboot : command := Cmd (lit "reboot") [] [].

(** [ok1], [ok2]: the removals of the factory reset succeed.  All results are dropped. *)
Definition on_button (ok1 ok2 : bool) (b : button_world) (e : ConfigButton.ButtonEvent) : button_world :=
  match e with
  | ConfigButton.ProvisioningMode =>
      mkButton (LoRaProvisioningMode.start (mode b)) (listeners b + 1) (disk b) (commands b)
  | ConfigButton.FactoryReset =>
      let '(d, _) := ProvisioningService.factory_reset ok1 ok2 (disk b) in
      mkButton (mode b) (listeners b) d (commands b ++ [Run reboot])
  | _ => b
  end.

(** A turn of the positioning task: ask, set the hardware clock if the position is
    valid, sleep for a minute. *)
Section gnss_task.
Context `{System, Port}.

Definition gnss_turn (polls : nat) (st : GnssService.t * list Modem.event) (h : list sys_event)
  : (GnssService.t * list Modem.event) * list sys_event * bool :=
  let '(st, r) := GnssService.get_fix polls st in
  let slept := (st.1, st.2 ++ [SleepMs 60000]) in
  match r with
  | Fin f => if 0 <? fix_quality f then (slept, (RtcSync.sync_from_gnss f h).1, true) else (slept, h, true)
  | Fail _ => (slept, h, true)
  | Panicked | Waiting => (st, h, false)
  end.
End gnss_task.

(** The bridge, from the sensors and from the mesh: store, then send; both results are
    dropped.  A turn has the I/O outcomes of the log, the clock, and the readings of the
    gateway. *)
Record turn := mkTurn {
  fault : Z -> option Z;
  now_ms : Z;
  readings : Gateway.env;
  message : Message
}.

Section bridge.
Context `{BincodeCrate WalEntry.t, Crc32Crate}.
Context `{CrcCrate, HexCrate, HexEncodeCrate, ZstdCrate, NomCrate}.

Definition bridge_one (st : EncryptedStore.t * Gateway.t) (x : turn) : outcome (EncryptedStore.t * Gateway.t) :=
  '(s, _) ← EncryptedStore.store (fault x) (now_ms x) st.1 (message x);
  g ← Gateway.send st.2 (readings x) (message x);
  Ret (s, g).

Fixpoint bridge (st : EncryptedStore.t * Gateway.t) (xs : list turn) : outcome (EncryptedStore.t * Gateway.t) :=
  match xs with
  | [] => Ret st
  | x :: xs => st ← bridge_one st x; bridge st xs
  end.
End bridge.

End main_hardware.

Import main_hardware.

(** ** The supervisor never starts *)

Section never_starts.
Context `{System, GpioCrate, ATECC608B.I2cBus, Port, Device}.
Context `{BincodeCrate WalEntry.t, Crc32Crate, HexEncodeCrate}.

(** What a computation that stops at its first step leaves. *)
Lemma bind_stops {St Err A B} (m : io St Err A) (k : A -> io St Err B) h :
  match (m h).2 with Fin _ => False | _ => True end ->
  (io_bind m k h).1 = (m h).1 /\ match (io_bind m k h).2 with Fin _ => False | _ => True end.
Proof. unfold io_bind. by destruct (m h) as [h' [a|e| |]]. Qed.

Lemma store_stops i w :
  let m := on_system EStore (Volume.open (wal_fault i) (wal_opened i) (wal_content i) (wal_files i)) in
  match (m w).2 with Fin _ => False | _ => True end.
Proof.
  cbv zeta. unfold on_system, on.
  pose proof (open_not_Fin (wal_fault i) (wal_opened i) (wal_content i) (wal_files i) (system w)) as Ho.
  by destruct (Volume.open _ _ _ _ _) as [h [s|e| |]].
Qed.

(** The first two steps, whatever the pins do. *)
Lemma start_stops i w :
  match (start_up i w).2 with Fin _ => False | _ => True end /\
  i2c (start_up i w).1 = i2c w /\ port (start_up i w).1 = port w /\ spi (start_up i w).1 = spi w.
Proof.
  destruct (start_up i w) as [w' r] eqn:E. unfold start_up, io_bind at 1, on_pins, on in E.
  destruct (Watchdog.new (pins w)) as [p [u|e| |]]; [|injection E as <- <-; done..].
  match type of E with io_bind ?m ?k ?w1 = _ =>
    destruct (bind_stops m k w1 (store_stops i w1)) as [E1 E2] end.
  rewrite E in E1, E2. cbn [fst snd] in *. split; [done|]. rewrite E1. unfold on_system, on.
  by destruct (Volume.open _ _ _ _ _) as [h [s|e| |]].
Qed.

(** A pin in use is refused: the first step already stops. *)
Lemma watchdog_stops i w :
  GpioLaws ->
  system (start_up i w).1 = system w /\
  ((start_up i w).2 = Fail (EWatchdog Watchdog.GpioInit) \/ (start_up i w).2 = Panicked).
Proof.
  intros HL. destruct (start_up i w) as [w' r] eqn:E. unfold start_up, io_bind at 1, on_pins, on in E.
  rewrite watchdog_never_starts in E. destruct gpio_new; cbn [negb] in E; [|injection E as <- <-; auto].
  destruct (gpio_get _ _); injection E as <- <-; auto.
Qed.

(** A failed start is the end of [main]. *)
Lemma main_stops i w :
  match (start_up i w).2 with Fin _ => False | _ => True end ->
  (main i w).1 = (start_up i w).1 /\
  forall e, ((start_up i w).2 = Fail e -> (main i w).2 = Fail e) /\
            ((start_up i w).2 = Panicked -> (main i w).2 = Panicked).
Proof. unfold main, io_bind. destruct (start_up i w) as [w' [s|e| |]]; naive_solver. Qed.
End never_starts.

(** C9: The supervisor never becomes ready (a defect).  Whatever the files, buses, clocks
    and environment variables are, [main] ends with an error or a panic in one of its
    first two steps: the log cannot be opened, so nothing is ever sent to the ECC chip,
    the modem or the radio.  On a system that refuses a pin in use it ends in the first
    one: the watchdog's constructor fails or panics, and no command is run. *)
Theorem supervisor_never_starts `{System, GpioCrate, ATECC608B.I2cBus, Port, Device}
    `{BincodeCrate WalEntry.t, Crc32Crate, HexEncodeCrate} i w :
  let '(w', r) := main i w in
  match r with Fin _ => False | _ => True end /\
  i2c w' = i2c w /\ port w' = port w /\ spi w' = spi w /\
  (GpioLaws -> system w' = system w /\ (r = Fail (EWatchdog Watchdog.GpioInit) \/ r = Panicked)).
Proof.
  destruct (start_stops i w) as (Hf & Hu). destruct (bind_stops (start_up i) shutdown w Hf) as [_ Hm].
  destruct (main_stops i w Hf) as [E Hr]. change (io_bind (start_up i) shutdown w) with (main i w) in Hm.
  destruct (main i w) as [w' r]. cbn [fst snd] in *. subst w'.
  do 4 (split; [done || apply Hu|]). intros HL. destruct (watchdog_stops i w HL) as [Hs Hc].
  split; [done|]. destruct Hc as [Hc|Hc]; [left|right]; by apply (Hr (EWatchdog Watchdog.GpioInit)).
Qed.

(** ** The bridge *)

(** What the readers and the mesh hand to the bridge. *)
Inductive sensor_output `{HmacCrate, GpioCrate, Device, CanCrate} : Message -> Prop :=
| from_rs232 opened rs l m : rs232_task opened rs = Ret l -> m ∈ l -> sensor_output m
| from_rs485 opened held rs l m : rs485_task opened held rs = Ret l -> m ∈ l -> sensor_output m
| from_can opened configured rs m : m ∈ can_task opened configured rs -> sensor_output m
| from_mesh a os h m : m ∈ (LoRaMeshAggregator.start a os h).1.2 -> sensor_output m.

Lemma can_operational `{CanCrate} rs : Forall (fun m => priority m = Operational) (CanReader.start rs).1.
Proof.
  induction rs as [|[now f| |] rs IH]; cbn [CanReader.start]; [done| |done|done].
  destruct (CanReader.start rs) as [l e]. by constructor.
Qed.

Lemma sensor_not_emergency `{HmacCrate, GpioCrate, Device, CanCrate} m : sensor_output m -> is_emergency m = false.
Proof.
  intros Hm. apply bool_decide_eq_false_2. enough (priority m = Operational) as -> by done.
  destruct Hm as [opened rs l m E Hin|opened held rs l m E Hin|opened configured rs m Hin|a os h m Hin].
  - unfold rs232_task in E. destruct (Rs232.new opened); [|injection E as <-; by apply not_elem_of_nil in Hin].
    apply bind_Ret in E as ([l' e] & E & Hl). injection Hl as <-. apply rs232_operational in E.
    rewrite List.Forall_forall in E. by apply E, list_elem_of_In.
  - unfold rs485_task in E. destruct (Rs485.new opened held).2 as [r|e| |];
      [|injection E as <-; by apply not_elem_of_nil in Hin..].
    apply bind_Ret in E as ([[l' e] r'] & E & Hl). injection Hl as <-. apply rs485_operational in E.
    rewrite List.Forall_forall in E. by apply E, list_elem_of_In.
  - unfold can_task in Hin. destruct (CanReader.new _ _); [|by apply not_elem_of_nil in Hin].
    pose proof (can_operational rs) as E. rewrite List.Forall_forall in E. by apply E, list_elem_of_In.
  - rewrite start_sends_nothing in Hin. by apply not_elem_of_nil in Hin.
Qed.

Section bridge_theorems.
Context `{BincodeCrate WalEntry.t, !BincodeLaws WalEntry.t, Crc32Crate}.
Context `{CrcCrate, HexCrate, HexEncodeCrate, ZstdCrate, NomCrate}.

Abbreviation log s := (File.content (Wal.file (EncryptedStore.wal s))).
Abbreviation seq_of s := (Wal.sequence (EncryptedStore.wal s)).

(** The entry the log gets for the [i]-th message of a run. *)
Definition entry_at (s : EncryptedStore.t) (i : nat) (x : turn) : WalEntry.t :=
  WalEntry.mk (wrap 64 (seq_of s + Z.of_nat i + 1)) (message x) (wrap 64 (now_ms x)).

(** The messages that were stored: those whose flag is set. *)
Definition stored (xs : list turn) (outs : list (bool * bytes)) : list Message :=
  omap (fun '(x, o) => if (o.1 : bool) then Some (message x) else None) (zip xs outs).

Lemma store_returns fault now s m :
  0 <= now -> exists s' r, EncryptedStore.store fault now s m = Ret (s', r).
Proof.
  intros Hn. unfold EncryptedStore.store, Wal.append, WalEntry.new.
  rewrite (proj2 (Z.ltb_ge now 0)) by done. mstep.
  repeat first [case_bool_decide | case_match]; mstep; eauto.
Qed.

Lemma bridge_one_spec s g x :
  is_emergency (message x) = false -> 0 <= now_ms x ->
  exists s1 g1 (stored : bool) c, bridge_one (s, g) x = Ret (s1, g1) /\
    Gateway.batcher_in g1 = Gateway.batcher_in g ++ [message x] /\
    Gateway.posts g1 = Gateway.posts g /\ Gateway.transmission_in g1 = Gateway.transmission_in g /\
    EncryptedStore.bitemporal s1
      = foldl BiTemporalStore.store (EncryptedStore.bitemporal s) (if stored then [message x] else []) /\
    log s1 = log s ++ c /\ seq_of s1 = wrap 64 (seq_of s + 1) /\
    (stored = true -> exists d, serialize (entry_at s 0 x) = Some d /\ c = Wal.record d).
Proof.
  intros He Hn. destruct (store_returns (fault x) (now_ms x) s (message x) Hn) as (s1 & r & E).
  unfold bridge_one, Gateway.send. cbn [fst snd]. rewrite E. mstep. rewrite He. mstep.
  apply store_cases in E as [Hq E]. unfold entry_at. rewrite Z.add_0_r.
  destruct r as [u|e]; destruct E as [Hb E]; [destruct E as (d & Hd & Hc)|destruct E as [c Hc]].
  - eexists s1, _, true, (Wal.record d). split; [done|]. split_and!; try done.
    intros _. rewrite Hq in Hd. by exists d.
  - by eexists s1, _, false, c.
Qed.

Lemma bridge_spec s g xs :
  Forall (fun x => is_emergency (message x) = false /\ 0 <= now_ms x) xs ->
  exists s' g' outs, bridge (s, g) xs = Ret (s', g') /\ length outs = length xs /\
    Gateway.batcher_in g' = Gateway.batcher_in g ++ map message xs /\
    Gateway.posts g' = Gateway.posts g /\ Gateway.transmission_in g' = Gateway.transmission_in g /\
    EncryptedStore.bitemporal s'
      = foldl BiTemporalStore.store (EncryptedStore.bitemporal s) (stored xs outs) /\
    log s' = log s ++ concat (map snd outs) /\
    forall i x o, xs !! i = Some x -> outs !! i = Some o -> o.1 = true ->
      exists d, serialize (entry_at s i x) = Some d /\ o.2 = Wal.record d.
Proof.
  intros Hxs. revert s g. induction Hxs as [|x xs [He Hn] _ IH]; intros s g.
  { exists s, g, []. cbn. by rewrite !app_nil_r. }
  destruct (bridge_one_spec s g x He Hn) as (s1 & g1 & b & c & E & B1 & B2 & B3 & B4 & B5 & B6 & B7).
  destruct (IH s1 g1) as (s' & g' & outs & E' & Hl & I1 & I2 & I3 & I4 & I5 & I6).
  exists s', g', ((b, c) :: outs). cbn [bridge]. rewrite E. mstep.
  rewrite E', I1, I2, I3, I4, I5, B1, B2, B3, B4, B5, <- !app_assoc. cbn [length map concat app snd].
  split_and!; [done|by rewrite Hl|done..| |done|].
  - unfold stored. cbn. rewrite <- foldl_app. by destruct b.
  - intros [|i] y o Hy Ho Hf.
    + cbn in Hy, Ho. injection Hy as <-. injection Ho as <-. by apply B7.
    + destruct (I6 i y o Hy Ho Hf) as (d & Hd & Hc). exists d. split; [|done]. rewrite <- Hd. f_equal.
      unfold entry_at. f_equal. rewrite B6, <- !Z.add_assoc. unfold wrap. rewrite Z.add_mod_idemp_l by lia.
      f_equal. lia.
Qed.
End bridge_theorems.


(** ** The button *)

Definition count_events (e : ConfigButton.ButtonEvent) (evs : list ConfigButton.ButtonEvent) : nat :=
  length (List.filter (fun x => bool_decide (x = e)) evs).

Lemma count_replicate e e' n :
  count_events e (replicate n e') = if bool_decide (e' = e) then n else 0%nat.
Proof.
  unfold count_events. induction n as [|n IH]; [by case_bool_decide|]. cbn [replicate List.filter].
  case_bool_decide; cbn [length]; by rewrite IH.
Qed.

Lemma button_task_counts ok1 ok2 b evs :
  let b' := foldl (on_button ok1 ok2) b evs in
  listeners b' = listeners b + Z.of_nat (count_events ConfigButton.ProvisioningMode evs) /\
  commands b' = commands b ++ replicate (count_events ConfigButton.FactoryReset evs) (Run reboot) /\
  LoRaProvisioningMode.nodes (mode b') = LoRaProvisioningMode.nodes (mode b).
Proof.
  cbv zeta. revert b. induction evs as [|e evs IH]; intros b; [cbn; rewrite app_nil_r; auto with lia|].
  cbn [foldl]. destruct (IH (on_button ok1 ok2 b e)) as (-> & -> & ->). clear IH.
  destruct e; cbn [on_button]; unfold count_events; cbn [List.filter].
  - by rewrite !bool_decide_eq_false_2 by done.
  - by rewrite !bool_decide_eq_false_2 by done.
  - rewrite bool_decide_eq_true_2, bool_decide_eq_false_2 by done.
    unfold LoRaProvisioningMode.start. cbn [listeners commands mode length LoRaProvisioningMode.nodes].
    split_and!; [lia|done|done].
  - rewrite bool_decide_eq_false_2, bool_decide_eq_true_2 by done.
    destruct (ProvisioningService.factory_reset _ _ _) as [d r]. cbn [listeners commands mode length replicate].
    rewrite <- app_assoc. by split_and!.
Qed.

(** A reset whose removals succeed leaves neither file, and nothing brings one back. *)
Definition wiped (d : ProvisioningService.disk) : Prop :=
  ProvisioningService.config_json d = None /\ ProvisioningService.gateway_cert d = None.

Lemma button_wipes b evs :
  (wiped (disk b) \/ ConfigButton.FactoryReset ∈ evs) -> wiped (disk (foldl (on_button true true) b evs)).
Proof.
  revert b. induction evs as [|e evs IH]; intros b Hw.
  { destruct Hw as [?|Hw]; [done|]. by apply not_elem_of_nil in Hw. }
  cbn [foldl]. apply IH. rewrite elem_of_cons in Hw.
  destruct e; cbn [on_button]; unfold LoRaProvisioningMode.start, ProvisioningService.factory_reset; cbn [disk];
    try naive_solver.
  rewrite !andb_false_r. by left.
Qed.

(** What the button does.  While it is held, every turn of its thread that finds it
    held between three and ten seconds starts one more task that listens on the radio
    (a defect: the mode is meant to be entered once), and nothing is erased.  A factory
    reset erases both files and runs [reboot], once per event. *)
Theorem button_tasks s start press held b evs :
  ConfigButton.deadlocked s = false -> ConfigButton.pressed s = false ->
  ConfigButton.last_level s = ConfigButton.High ->
  ConfigButton.current_level press = ConfigButton.Low ->
  ConfigButton.debounced_level press = ConfigButton.Low -> ConfigButton.at_change press = start ->
  ConfigButton.at_check press - start < ConfigButton.PROVISIONING_HOLD_MS ->
  Forall (fun r => ConfigButton.current_level r = ConfigButton.Low /\
    ConfigButton.PROVISIONING_HOLD_MS <= ConfigButton.at_check r - start < ConfigButton.FACTORY_RESET_HOLD_MS) held ->
  let b1 := foldl (on_button true true) b (ConfigButton.run s (press :: held)).2 in
  listeners b1 = listeners b + Z.of_nat (length held) /\ commands b1 = commands b /\ disk b1 = disk b /\
  (ConfigButton.FactoryReset ∈ evs ->
   let b2 := foldl (on_button true true) b evs in
   wiped (disk b2) /\
   commands b2 = commands b ++ replicate (count_events ConfigButton.FactoryReset evs) (Run reboot)).
Proof.
  intros Hd Hp Hl Hc Hdb Hst Hck Hheld. cbv zeta.
  destruct (button_press_events s start press held press) as [-> _]; try done. clear Hheld.
  set (evs1 := ConfigButton.Pressed :: replicate (length held) ConfigButton.ProvisioningMode).
  assert (Hn : count_events ConfigButton.ProvisioningMode evs1 = length held /\
               count_events ConfigButton.FactoryReset evs1 = 0%nat).
  { split; [|apply (count_replicate ConfigButton.FactoryReset)].
    exact (count_replicate ConfigButton.ProvisioningMode ConfigButton.ProvisioningMode (length held)). }
  destruct (button_task_counts true true b evs1) as (-> & -> & _). destruct Hn as [-> ->].
  rewrite app_nil_r. split_and!; [done|done| |].
  - unfold evs1. cbn [foldl on_button]. generalize (length held) as n. intros n. revert b.
    induction n as [|n IH]; intros b; [done|]. cbn [replicate foldl]. rewrite IH. done.
  - intros Hin. split; [apply button_wipes; by right|].
    by destruct (button_task_counts true true b evs) as (_ & -> & _).
Qed.

(** ** The pins *)

Section pins.
Context `{GpioCrate}.

(** A driver that takes [ps]. *)
Definition takes {E A} (m : io (list Z) E A) (ps : list Z) : Prop :=
  forall held, (forall p, p ∈ ps -> ~ (p ∈ held)) -> exists a, m held = (held ++ ps, Fin a).

Lemma takes_bind {E A B} (m : io (list Z) E A) (k : A -> io (list Z) E B) ps qs :
  takes m ps -> (forall a, takes (k a) qs) -> Forall (fun q => ~ (q ∈ ps)) qs -> takes (io_bind m k) (ps ++ qs).
Proof.
  intros Hm Hk Hd held Hh. destruct (Hm held) as [a E1].
  { intros p Hp. apply Hh. rewrite elem_of_app. by left. }
  destruct (Hk a (held ++ ps)) as [b E2].
  { intros q Hq. rewrite elem_of_app. intros [Hx|Hx].
    - revert Hx. apply Hh. rewrite elem_of_app. by right.
    - revert Hx. rewrite List.Forall_forall in Hd. by apply Hd, list_elem_of_In. }
  exists b. rewrite (bind_Fin _ _ _ _ _ E1), E2. by rewrite app_assoc.
Qed.

Lemma takes_ret {E A} (a : A) : takes (io_ret a : io (list Z) E A) [].
Proof. intros held _. exists a. by rewrite app_nil_r. Qed.

Lemma takes_open {E} (e : E) : gpio_new = true -> takes (gpio_open e) [].
Proof. intros Hg held _. exists tt. unfold gpio_open. by rewrite Hg, app_nil_r. Qed.

Lemma takes_pin {E} (e : E) p :
  (forall held p, 0 <= p <= 27 -> ~ (p ∈ held) -> gpio_get held p = true) ->
  0 <= p <= 27 -> takes (gpio_take p e) [p].
Proof.
  intros Hf Hp held Hh. exists tt. unfold gpio_take. rewrite Hf; [done|done|].
  apply Hh. by apply list_elem_of_singleton.
Qed.

(** The drivers do not compete for pins: the pins of the watchdog, the radio, the
    RS-485 port, the button and the LED are all different, so on a board that gives
    every pin not in use each driver (the watchdog apart) gets its own, whatever the
    others have taken. *)
Theorem pins_compatible level :
  gpio_new = true -> (forall held p, 0 <= p <= 27 -> ~ (p ∈ held) -> gpio_get held p = true) ->
  let radio := [LR1121.LR1121_CS_PIN; LR1121.LR1121_DIO1_PIN; LR1121.LR1121_RESET_PIN] in
  let led := [LedController.LED_RED_PIN; LedController.LED_GREEN_PIN; LedController.LED_BLUE_PIN] in
  takes LR1121.take_pins radio /\
  takes (Rs485.new (Ok tt)) [Rs485.RS485_DE_RE_PIN] /\
  takes (ConfigButton.new level) [ConfigButton.CONFIG_BUTTON_PIN] /\
  takes LedController.new led /\
  NoDup (Watchdog.WATCHDOG_GPIO :: Rs485.RS485_DE_RE_PIN :: ConfigButton.CONFIG_BUTTON_PIN :: radio ++ led).
Proof.
  intros Hg Hfree. cbv zeta.
  pose proof (fun E e => takes_open (E := E) e Hg) as Ho.
  pose proof (fun E e p => takes_pin (E := E) e p Hfree) as Ht.
  split_and!; [| | | |compute_done].
  - apply (takes_bind _ _ [] [8; 22; 23]); [apply Ho|intros _|compute_done].
    apply (takes_bind _ _ [8] [22; 23]); [by apply Ht|intros _|compute_done].
    apply (takes_bind _ _ [22] [23]); [by apply Ht|intros _; by apply Ht|compute_done].
  - apply (takes_bind _ _ [] [5]); [apply Ho|intros _|compute_done].
    apply (takes_bind _ _ [5] []); [by apply Ht|intros _; apply takes_ret|compute_done].
  - apply (takes_bind _ _ [] [18]); [apply Ho|intros _|compute_done].
    apply (takes_bind _ _ [18] []); [by apply Ht|intros _; apply takes_ret|compute_done].
  - apply (takes_bind _ _ [] [17; 27; 6]); [apply Ho|intros _|compute_done].
    apply (takes_bind _ _ [17] [27; 6]); [by apply Ht|intros _|compute_done].
    apply (takes_bind _ _ [27] [6]); [by apply Ht|intros _|compute_done].
    apply (takes_bind _ _ [6] []); [by apply Ht|intros _; apply takes_ret|compute_done].
Qed.
End pins.

(** ** Configuration, positioning, shutdown *)

(** Requests are sent only with both credentials.  The supervisor has credentials
    exactly when both variables are set, and then they are those values; without them
    the gateway it builds posts nothing. *)
Theorem credentials_gate `{System, HexEncodeCrate} now tele ev n req :
  (forall c, asts_credentials = Some c <->
     exists a k, env_var (lit "ASTS_ACCOUNT_ID") = Some a /\ env_var (lit "ASTS_API_KEY") = Some k /\
       c = mkCredentials a k (env_var (lit "ASTS_MNO_PARTNER_ID"))) /\
  (asts_credentials = None ->
   Gateway.posts (Gateway.post (Gateway.new now 60000000000 (bool_decide (is_Some asts_credentials)) tele)
     ev n req) = []).
Proof.
  split.
  - intros c. unfold asts_credentials, env_or. destruct (env_var (lit "ASTS_ACCOUNT_ID")) as [a|]; [|naive_solver].
    destruct (env_var (lit "ASTS_API_KEY")) as [k|]; naive_solver.
  - intros ->. rewrite bool_decide_eq_false_2 by (by intros [? ?]). done.
Qed.

(** The positioning task sets the hardware clock only after a valid position: a turn runs
    no command, or exactly one [hwclock --set], with the time of a position of positive
    quality. *)
Theorem gnss_task_sets_clock `{System, Port} polls st h :
  let '(_, h', _) := gnss_turn polls st h in
  h' = h \/ exists st1 f, GnssService.get_fix polls st = (st1, Fin f) /\ 0 < fix_quality f /\
              h' = h ++ [Run (RtcSync.set_command (timestamp f / 1000))].
Proof.
  unfold gnss_turn. destruct (GnssService.get_fix polls st) as [st1 [f|e| |]] eqn:E; [|by left..].
  destruct (0 <? fix_quality f) eqn:Eq; [|by left]. right. exists st1, f. split_and!; [done|by breflect|].
  unfold RtcSync.sync_from_gnss, io_bind, run_command. destruct (run_output _ _) as [o|]; [|done].
  by destruct (negb (success o)).
Qed.

(** Shutting down touches nothing but the volume: the unmount is run first; the volume is
    closed after it even if the unmount reports a failure, and not at all if it could
    not be started; and only when the close succeeds is the provisioning mode stopped.
    (The watchdog is not kicked, although the header of the file says so.) *)
Theorem shutdown_sequence `{System} s w :
  let '(w', r) := shutdown s w in
  pins w' = pins w /\ i2c w' = i2c w /\ port w' = port w /\ spi w' = spi w /\
  match run_output (system w) Volume.umount with
  | None => system w' = system w ++ [Run Volume.umount] /\ r = Fail (EStore EncryptedStore.Unmount)
  | Some _ =>
      system w' = system w ++ [Run Volume.umount; Run Volume.luks_close] /\
      match run_output (system w ++ [Run Volume.umount]) Volume.luks_close with
      | Some o =>
          if success o then exists s', r = Fin s' /\
            LoRaProvisioningMode.active (provisioning_mode s') = false /\
            led_controller s' = LedController.mk LedController.Off false
          else r = Fail (EStore EncryptedStore.CryptSetup)
      | None => r = Fail (EStore EncryptedStore.CryptSetup)
      end
  end.
Proof.
  unfold shutdown, io_bind, on_system, on, Volume.close, io_bind, run_command.
  destruct (run_output (system w) Volume.umount) as [o1|]; [|done].
  destruct (run_output _ Volume.luks_close) as [o2|]; cbn; [|by rewrite <- app_assoc].
  destruct (success o2); cbn; rewrite <- app_assoc; split_and!; try done. by eexists.
Qed.

(** ** Witnesses *)

Definition dead_bus : ATECC608B.I2cBus := {|
  ATECC608B.address_ok _ _ := true; ATECC608B.bus_write_ok _ _ := true; ATECC608B.bus_read _ _ := None
|}.
Definition sample_inputs : inputs :=
  mkInputs (fun _ => None) true [] ∅ true (ProvisioningService.mkDisk true None None) true 32 3 None
    ConfigButton.High 1 0 true.
Definition empty_world : world := mkWorld [] [] [] (GM02SP.mk GM02SP.Off GM02SP.Unknown, []) [].

Lemma supervisor_never_starts_witness :
  (@main willing gpio_ref dead_bus silent quiet_chip bincode_entries crc32_sum hex_encode_ref
     sample_inputs empty_world).2 = Panicked.
Proof.
  pose proof (@supervisor_never_starts willing gpio_ref dead_bus silent quiet_chip bincode_entries crc32_sum
    hex_encode_ref sample_inputs empty_world) as Hs.
  destruct (@main willing gpio_ref dead_bus silent quiet_chip bincode_entries crc32_sum hex_encode_ref
    sample_inputs empty_world) as [w' r] eqn:E.
  destruct Hs as (_ & _ & _ & _ & Hs). destruct (Hs gpio_ref_laws) as [_ [Hr|Hr]]; [|exact Hr].
  exfalso. subst r. vm_compute in E. discriminate E.
Defined.

(** One Modbus frame, read at time 7 and bridged with a working log. *)
Definition modbus_message_7 : Message := mkMessage IridiumSBD [1; 3; 0; 0; 0; 10] Operational 7 7 7.
Definition bincode_7 : BincodeCrate WalEntry.t := bincode_table [WalEntry.mk 1 modbus_message_7 7].
Lemma bincode_7_laws : @BincodeLaws WalEntry.t bincode_7.
Proof. by apply bincode_table_laws. Qed.


Lemma button_tasks_witness :
  listeners (foldl (on_button true true)
    (mkButton LoRaProvisioningMode.new 0 (ProvisioningService.mkDisk true None None) [])
    (ConfigButton.run (ConfigButton.initial ConfigButton.High)
      (ConfigButton.mkReading ConfigButton.Low ConfigButton.Low 5 5
       :: replicate 4 (ConfigButton.mkReading ConfigButton.Low ConfigButton.Low 0 4000))).2) = 4.
Proof.
  apply (button_tasks (ConfigButton.initial ConfigButton.High) 5
    (ConfigButton.mkReading ConfigButton.Low ConfigButton.Low 5 5)
    (replicate 4 (ConfigButton.mkReading ConfigButton.Low ConfigButton.Low 0 4000))
    (mkButton LoRaProvisioningMode.new 0 (ProvisioningService.mkDisk true None None) []) []); try reflexivity.
  repeat constructor; vm_compute; congruence.
Defined.

Lemma pins_compatible_witness :
  exists c, @LedController.new gpio_ref [26] = ([26; 17; 27; 6], Fin c).
Proof.
  destruct (@pins_compatible gpio_ref ConfigButton.High eq_refl) as (_ & _ & _ & Hl & _).
  - intros held p _ Hp. by apply bool_decide_eq_true_2.
  - apply (Hl [26]). intros p Hp Hin. apply list_elem_of_singleton in Hin as ->.
    apply (bool_decide_eq_true_2 (26 ∈ _)) in Hp. vm_compute in Hp. discriminate Hp.
Defined.
