(* ===== verification/Errors.v ===== *)
(** * The texts of the error types (their [Display] implementations)

    What the gateway writes to its log for each error.  Errors that wrap the text
    of a system or library error show it after a prefix; where the model of the
    error leaves that text out, it is the argument [cause].  The lemmas say when
    two errors can be told apart by their texts. *)

From S2P Require Import Prelude Crc Protocol Externals Utf8 Text IridiumSbd AstsProtobuf InmarsatC.
From S2P Require Import Translator Snapshot Bitemporal Sharding Reliability Sensors Lora Buffers Wal.
From S2P Require Import StrOps System Io Radio Board Modem Provisioning Storage Can Gnss.

(** [{:0wx}] and [{:0wX}] of an integer of at most [w] hexadecimal digits. *)
Definition fmt_hex (upper : bool) (w : nat) (n : Z) : bytes :=
  map (fun i => let d := Z.shiftr n (4 * Z.of_nat i) mod 16 in
                if d <? 10 then 48 + d else (if upper then 55 else 87) + d) (rev (seq 0 w)).

Definition BufferError_fmt (e : BufferError) : bytes :=
  match e with
  | TooLarge requested max =>
      lit "Buffer too large: requested " ++ int_to_string requested ++ lit " bytes, max " ++
      int_to_string max ++ lit " bytes"
  | AllocationFailed => lit "Buffer allocation failed"
  | InvalidSize => lit "Invalid buffer size"
  end.

Definition ParseError_fmt (e : InmarsatCMessage.ParseError) : bytes :=
  match e with
  | InmarsatCMessage.InvalidMagicNumber found expected =>
      lit "Invalid magic number: found 0x" ++ fmt_hex false 8 found ++ lit ", expected 0x" ++
      fmt_hex false 8 expected
  | InmarsatCMessage.ChecksumMismatch expected found =>
      lit "Checksum mismatch: expected 0x" ++ fmt_hex false 4 expected ++ lit ", found 0x" ++
      fmt_hex false 4 found
  | InmarsatCMessage.InvalidLength min found =>
      lit "Invalid length: minimum " ++ int_to_string min ++ lit ", found " ++ int_to_string found
  | InmarsatCMessage.InvalidDestinationId value => lit "Invalid destination ID: " ++ value
  | InmarsatCMessage.InvalidSourceId value => lit "Invalid source ID: " ++ value
  end.

Definition TranslateError_fmt (e : TranslateError) : bytes :=
  match e with
  | InvalidProtocol => lit "Invalid protocol"
  | DataTooLarge => lit "Data exceeds protocol maximum size"
  | CodecError => lit "Codec translation error"
  | CompressionError => lit "Compression error"
  end.

Definition ShardError_fmt (e : ShardManager.ShardError) : bytes :=
  match e with
  | ShardManager.Full => lit "Shard is full"
  | ShardManager.NotFound => lit "Shard not found"
  | ShardManager.Backpressure => lit "Backpressure: buffer utilization >80%"
  | ShardManager.Timeout => lit "Operation timeout"
  end.

Definition CircuitBreakerError_fmt {E} (fmt : E -> bytes) (e : Breaker.CircuitBreakerError E) : bytes :=
  match e with
  | Breaker.EOpen => lit "circuit breaker open"
  | Breaker.Inner e => fmt e
  end.

Definition WalError_fmt (cause : bytes) (e : WalError) : bytes :=
  match e with
  | FileOpen => lit "Failed to open WAL file: " ++ cause
  | FileRead => lit "Failed to read WAL file: " ++ cause
  | FileWrite => lit "Failed to write WAL file: " ++ cause
  | FileSeek => lit "Failed to seek WAL file: " ++ cause
  | Serialization => lit "Serialization error: " ++ cause
  | Deserialization => lit "Deserialization error: " ++ cause
  | InvalidHeader => lit "Invalid WAL header"
  | CrcMismatch => lit "CRC mismatch in WAL entry"
  end.

(** An error of the log ([?] on its result) is shown by its own text. *)
Definition StoreError_fmt (cause : bytes) (e : EncryptedStore.StoreError) : bytes :=
  match e with
  | EncryptedStore.CryptSetup => lit "cryptsetup error: " ++ cause
  | EncryptedStore.MountPoint => lit "Mount point error: " ++ cause
  | EncryptedStore.Mount => lit "Mount error: " ++ cause
  | EncryptedStore.Unmount => lit "Unmount error: " ++ cause
  | EncryptedStore.StoreRead => lit "File read error: " ++ cause
  | EncryptedStore.StoreWrite => lit "File write error: " ++ cause
  | EncryptedStore.StoreSerialization => lit "Serialization error: " ++ cause
  | EncryptedStore.StoreDeserialization => lit "Deserialization error: " ++ cause
  | EncryptedStore.Sync => lit "Sync error: " ++ cause
  | EncryptedStore.InWal e => WalError_fmt cause e
  end.

Definition MeshError_fmt (e : LoRaMesh.MeshError) : bytes :=
  match e with
  | LoRaMesh.InvalidFrame => lit "Invalid LoRa frame"
  | LoRaMesh.UnknownNode => lit "Unknown LoRa node"
  | LoRaMesh.MicMismatch => lit "MIC verification failed"
  end.

Definition JoinError_fmt (e : LoRaProvisioningMode.ProvisioningError) : bytes :=
  match e with LoRaProvisioningMode.InvalidFrame => lit "Invalid LoRa frame" end.

Definition ProvisioningError_fmt (cause : bytes) (e : ProvisioningService.ProvisioningError) : bytes :=
  match e with
  | ProvisioningService.AteccError => lit "ATECC608B error: " ++ cause
  | ProvisioningService.Serialization => lit "Serialization error: " ++ cause
  | ProvisioningService.Deserialization => lit "Deserialization error: " ++ cause
  | ProvisioningService.CaRequest => lit "CA request error: " ++ cause
  | ProvisioningService.CaResponse => lit "CA response error: " ++ cause
  | ProvisioningService.FileWrite => lit "File write error: " ++ cause
  | ProvisioningService.FileRead => lit "File read error: " ++ cause
  | ProvisioningService.FileDelete => lit "File delete error: " ++ cause
  | ProvisioningService.ConfigNotMounted => lit "Config partition not mounted"
  | ProvisioningService.ErrNotProvisioned => lit "Gateway not provisioned"
  end.

Definition CanError_fmt (cause : bytes) (e : CanReader.CanError) : bytes :=
  match e with
  | CanReader.SocketOpen => lit "Socket open failed: " ++ cause
  | CanReader.SocketConfig => lit "Socket config failed: " ++ cause
  | CanReader.SocketRead => lit "Socket read failed: " ++ cause
  | CanReader.SocketWrite => lit "Socket write failed: " ++ cause
  | CanReader.FrameBuild => lit "Frame build failed: " ++ cause
  end.

Definition Rs232Error_fmt (e : Rs232.Rs232Error) : bytes :=
  match e with
  | Rs232.SerialInit e => lit "Serial init failed: " ++ lit e
  | Rs232.SerialRead e => lit "Serial read failed: " ++ lit e
  | Rs232.InvalidFrame => lit "Invalid frame format"
  | Rs232.CrcMismatch => lit "CRC mismatch"
  end.

Definition Rs485Error_fmt (e : Rs485.Rs485Error) : bytes :=
  match e with
  | Rs485.SerialInit e => lit "Serial init failed: " ++ lit e
  | Rs485.SerialRead e => lit "Serial read failed: " ++ lit e
  | Rs485.SerialWrite e => lit "Serial write failed: " ++ lit e
  | Rs485.GpioInit e => lit "GPIO init failed: " ++ lit e
  | Rs485.InvalidFrame => lit "Invalid frame format"
  | Rs485.CrcMismatch => lit "CRC mismatch"
  end.

Definition Gm02spError_fmt (cause : bytes) (e : GM02SP.Gm02spError) : bytes :=
  match e with
  | GM02SP.SerialInit => lit "Serial init failed: " ++ cause
  | GM02SP.SerialWrite => lit "Serial write failed: " ++ cause
  | GM02SP.SerialRead => lit "Serial read failed: " ++ cause
  | GM02SP.Timeout cmd => lit "AT command timeout: " ++ cmd
  | GM02SP.AtError resp => lit "AT command error: " ++ resp
  | GM02SP.RegistrationTimeout => lit "Network registration timeout"
  | GM02SP.ConnectionFailed resp => lit "Connection failed: " ++ resp
  | GM02SP.SendFailed resp => lit "Send failed: " ++ resp
  | GM02SP.InvalidGnssResponse resp => lit "Invalid GNSS response: " ++ resp
  end.

(** [bg95.rs] prints the same texts. *)
Definition Bg95Error_fmt (cause : bytes) (e : BG95.Bg95Error) : bytes := Gm02spError_fmt cause e.

Definition GnssError_fmt (cause : bytes) (e : GnssService.GnssError) : bytes :=
  match e with
  | GnssService.NotEnabled => lit "GNSS not enabled"
  | GnssService.Timeout => lit "GNSS fix timeout"
  | GnssService.ModemError e => lit "Modem error: " ++ Gm02spError_fmt cause e
  end.

Definition RtcError_fmt (e : RtcSync.RtcError) : bytes :=
  match e with RtcSync.Hwclock text => lit "hwclock error: " ++ text end.

Definition AteccError_fmt (cause : bytes) (e : ATECC608B.AteccError) : bytes :=
  match e with
  | ATECC608B.I2cInit => lit "I2C init failed: " ++ cause
  | ATECC608B.I2cWrite => lit "I2C write failed: " ++ cause
  | ATECC608B.I2cRead => lit "I2C read failed: " ++ cause
  | ATECC608B.InvalidResponse b => lit "Invalid response byte: 0x" ++ fmt_hex true 2 b
  | ATECC608B.InvalidDigestLength => lit "Digest must be 32 bytes"
  | ATECC608B.InvalidSignatureLength => lit "Signature must be 64 bytes"
  | ATECC608B.LockFailed => lit "Lock operation failed"
  end.

Definition ButtonError_fmt (cause : bytes) (e : ConfigButton.ButtonError) : bytes :=
  match e with ConfigButton.GpioInit => lit "GPIO init failed: " ++ cause end.

Definition LedError_fmt (cause : bytes) (e : LedController.LedError) : bytes :=
  match e with LedController.GpioInit => lit "GPIO init failed: " ++ cause end.

Definition WatchdogError_fmt (cause : bytes) (e : Watchdog.WatchdogError) : bytes :=
  match e with
  | Watchdog.GpioInit => lit "GPIO init failed: " ++ cause
  | Watchdog.KickFailed => lit "Watchdog kick failed"
  end.

(** The two radios differ in one text. *)
Definition RadioError_fmt (chip : bytes) (cause : bytes) (e : RadioError) : bytes :=
  match e with
  | SpiInit => lit "SPI init failed: " ++ cause
  | SpiWrite => lit "SPI write failed: " ++ cause
  | SpiRead => lit "SPI read failed: " ++ cause
  | GpioInit => lit "GPIO init failed: " ++ cause
  | Timeout => lit "Operation timeout"
  | InvalidResponse => lit "Invalid response from " ++ chip
  end.
Definition Lr1121Error_fmt : bytes -> RadioError -> bytes := RadioError_fmt (lit "LR1121").
Definition Sx1262Error_fmt : bytes -> RadioError -> bytes := RadioError_fmt (lit "SX1262").

(** ** Lemmas: the texts tell the errors apart *)

Example wal_texts_distinct c c' e e' : WalError_fmt c e = WalError_fmt c' e' -> e = e'.
Proof. destruct e, e'; try done; intros H; cbn in H; congruence. Qed.

Example provisioning_texts_distinct c c' e e' :
  ProvisioningError_fmt c e = ProvisioningError_fmt c' e' -> e = e'.
Proof. destruct e, e'; try done; intros H; cbn in H; congruence. Qed.

Example can_texts_distinct c c' e e' : CanError_fmt c e = CanError_fmt c' e' -> e = e'.
Proof. destruct e, e'; try done; intros H; cbn in H; congruence. Qed.

(** The modem's texts determine the error, with the command or response in it. *)
Example modem_texts_distinct c c' e e' : Gm02spError_fmt c e = Gm02spError_fmt c' e' -> e = e'.
Proof. destruct e, e'; try done; intros H; cbn in H; congruence. Qed.

(** The breaker's text may be that of the error it wraps: an open breaker and an
    inner error that prints the same cannot be told apart. *)
Example breaker_texts_ambiguous :
  CircuitBreakerError_fmt (fun e : bytes => e) Breaker.EOpen =
  CircuitBreakerError_fmt (fun e : bytes => e) (Breaker.Inner (lit "circuit breaker open")).
Proof. reflexivity. Qed.

Example parse_error_text :
  ParseError_fmt (InmarsatCMessage.InvalidMagicNumber 0xDEADBEEF InmarsatCMessage.MAGIC_NUMBER) =
  lit "Invalid magic number: found 0xdeadbeef, expected 0x494e4d01".
Proof. vm_compute. reflexivity. Qed.
Example atecc_error_text :
  AteccError_fmt [] (ATECC608B.InvalidResponse 0x1F) = lit "Invalid response byte: 0x1F".
Proof. vm_compute. reflexivity. Qed.
