(* ===== verification/SystemTests.v ===== *)
(** * The unit tests of the gateway, its components and the telemetry pipeline

    The remaining [tests] modules under [src/src], translated as in [CodecTests]:
    a test returns or panics.  What a test reads from the clock is an argument.  The
    tests of the cache, the reconciler, the cadence rules and the gateway pass for
    every clock that behaves as the test's author assumed (it does not run
    backwards, and a [sleep] lasts at least its time); those of the telemetry
    pipeline are evaluated at sample readings. *)

From Stdlib Require Import SpecFloat.
From S2P Require Import Prelude Float64 Crc Protocol Externals Utf8 Text AstsProtobuf Translator.
From S2P Require Import Cache Reliability Snapshot Bitemporal Batching Sharding ClockReconciliation.
From S2P Require Import Cadence Metrics Gateway Pipeline OtelSpan OtelBundle OtelConverter.
From S2P Require Import OtelReconciler CodecTests Io Board.

Module cache_tests.
Import AsyncCache.

Definition MS : Z := 1000000.
Definition sample (now : Z) (d : bytes) : Message := message_new now IridiumSBD d Operational.

(** [t0] is read by [set], [t1] by [get]; [now] stamps the message. *)
Definition test_cache_get_set (now t0 t1 : Z) : outcome unit :=
  let cache := new 100 (60 * 1000 * MS) in
  let message := sample now (lit "test data") in
  let cache := set cache t0 IridiumSBD (lit "test data") message in
  let cached := get cache t1 IridiumSBD (lit "test data") in
  assert (is_some cached).

Definition test_cache_ttl (now t0 t1 : Z) : outcome unit :=
  let cache := new 100 (100 * MS) in
  let message := sample now (lit "test data") in
  let cache := set cache t0 IridiumSBD (lit "test data") message in
  let cached := get cache t1 IridiumSBD (lit "test data") in
  assert (negb (is_some cached)).

Definition test_get_batch_hit_and_miss (now t0 t1 t2 : Z) : outcome unit :=
  let cache := new 100 (60 * 1000 * MS) in
  let msg := sample now (lit "batchkey") in
  let cache := set cache t0 IridiumSBD (lit "batchkey") msg in
  let results := get_batch cache [(t1, IridiumSBD, lit "batchkey")] in
  hit ← results.[0];
  _ ← assert (is_some hit);
  let miss := get_batch cache [(t2, InmarsatC, lit "batchkey")] in
  miss ← miss.[0];
  assert (negb (is_some miss)).

Definition test_eviction_order_o1 (now t0 t1 t2 t3 t4 : Z) : outcome unit :=
  let cache := new 2 (60 * 1000 * MS) in
  let cache := set cache t0 IridiumSBD [1] (sample now [1]) in
  let cache := set cache t1 IridiumSBD [2] (sample now [2]) in
  let cache := set cache t2 IridiumSBD [3] (sample now [3]) in
  _ ← assert (negb (is_some (get cache t3 IridiumSBD [1])));
  assert (is_some (get cache t4 IridiumSBD [3])).
End cache_tests.

Module batcher_tests.

(** The test cannot see the batch: the receiver stays in the batcher. *)
Definition test_emergency_bypass (now t0 t1 t2 : Z) : outcome task :=
  let emergency_msg := message_new now IridiumSBD (lit "emergency") Emergency in
  Ret (AsyncBatcher.run_default 10 100 t0 [Recv t1 t2 emergency_msg]).
End batcher_tests.

Module clock_tests.
Import ClockReconciler.

(** The literals [0.9], [0.5] and [0.8]. *)
Definition tenths (n : Z) : f64 := f64_div (f64_of_Z n) (f64_of_Z 10).

Definition test_clock_reconciliation (t0 t1 : Z) : outcome unit :=
  let reconciler := new 10 300000 LocalClock in
  let offset := new_offset t0 1 1000 (tenths 9) in
  let reconciler := register_offset reconciler [] offset in
  network_time ← unwrap (reconcile reconciler t1 1 10000);
  assert_eq network_time 9000.

Definition test_confidence_filtering (t0 t1 : Z) : outcome unit :=
  let reconciler := new 10 300000 LocalClock in
  let offset := new_offset t0 1 1000 (tenths 5) in
  let reconciler := register_offset reconciler [] offset in
  let result := reconcile_with_confidence reconciler t1 1 10000 (tenths 8) in
  assert (negb (is_some result)).
End clock_tests.

Module cadence_tests.
Import CadenceTranslator.

Definition is_send (a : TranslationAction) : bool := match a with ASend => true | _ => false end.

Definition test_cadence_translation (t0 t1 : Z) : outcome unit :=
  let translator := add_rule new
    (mkRule IridiumSBD OncePerHour ASTSpaceMobile Every5Seconds "heartbeat" (Throttle 5000)) in
  '(action, _) ← translate_message translator t0 t1 "heartbeat" IridiumSBD Operational;
  assert (is_send action).

Definition test_emergency_passthrough (t0 t1 : Z) : outcome unit :=
  '(action, _) ← translate_message new t0 t1 "heartbeat" IridiumSBD Emergency;
  assert (is_send action).

Definition test_default_rules : outcome unit :=
  let rules := default_iridium_to_asts_rules in
  assert_eq (len rules) 4.
End cadence_tests.

Module otel_tests.

(** [CompactSpan::new([a; 16], [b; 8], "sensor.read", sensor)]; [ns] is the pair of
    its two clock readings. *)
Definition sensor_read (ns : Z * Z) (a b : Z) (sensor : bytes) : outcome CompactSpan.t :=
  CompactSpan.new ns.1 ns.2 (fill a 16) (fill b 8) (lit "sensor.read") sensor.

(** *** otel_compact_span.rs *)
Section span.
Context `{BufCrate}.

Definition test_encode_decode_roundtrip (ns : Z * Z) : outcome unit :=
  span ← sensor_read ns 1 2 (lit "sensor-001");
  let span := CompactSpan.with_t_event span 1000 in
  let span := CompactSpan.with_t_system span 1500 in
  let span := CompactSpan.with_attribute span (lit "temperature") (lit "25.5") in
  let span := CompactSpan.with_status span StatusOk in
  let encoded := CompactSpan.encode span in
  decoded ← CompactSpan.decode encoded; decoded ← unwrap_ok decoded;
  _ ← assert_eq (CompactSpan.trace_id decoded) (CompactSpan.trace_id span);
  _ ← assert_eq (CompactSpan.span_id decoded) (CompactSpan.span_id span);
  _ ← assert_eq (CompactSpan.name decoded) (CompactSpan.name span);
  _ ← assert_eq (CompactSpan.t_event decoded) (CompactSpan.t_event span);
  _ ← assert_eq (CompactSpan.t_system decoded) (CompactSpan.t_system span);
  _ ← assert_eq (CompactSpan.sensor_id decoded) (CompactSpan.sensor_id span);
  _ ← assert_eq (CompactSpan.attributes decoded) (CompactSpan.attributes span);
  assert_eq (CompactSpan.status decoded) (CompactSpan.status span).

Definition test_spread_calculation (ns : Z * Z) : outcome unit :=
  span ← sensor_read ns 1 2 (lit "sensor-001");
  let span := CompactSpan.with_t_event span 1000 in
  let span := CompactSpan.with_t_system span 1500 in
  assert_eq (CompactSpan.spread_ms span) 500.
End span.

(** *** otel_bundle.rs *)
Section bundle.
Context `{BufCrate} (zstd gzip : LevelCodec).

Definition test_bundle_encode_decode (n0 : Z) (ns1 ns2 : Z * Z) : outcome unit :=
  bundle ← TelemetryBundle.new n0 1;
  span1 ← sensor_read ns1 1 2 (lit "sensor-001");
  span2 ← sensor_read ns2 3 4 (lit "sensor-002");
  let bundle := TelemetryBundle.add_span bundle span1 in
  let bundle := TelemetryBundle.add_span bundle span2 in
  let encoded := TelemetryBundle.encode bundle in
  decoded ← TelemetryBundle.decode zstd gzip encoded; decoded ← unwrap_ok decoded;
  _ ← assert_eq (TelemetryBundle.sequence_number decoded) (TelemetryBundle.sequence_number bundle);
  assert_eq (TelemetryBundle.span_count decoded) 2.

(** The loop [for i in 0..10]. *)
Fixpoint add_temperatures (clock : Z -> Z * Z) (ids : list Z) (bundle : TelemetryBundle.t)
    : outcome TelemetryBundle.t :=
  match ids with
  | [] => Ret bundle
  | i :: ids =>
      span ← sensor_read (clock i) i i (lit "sensor-001");
      let span := CompactSpan.with_attribute span (lit "temperature") (int_to_string (i * 10)) in
      add_temperatures clock ids (TelemetryBundle.add_span bundle span)
  end.

Definition test_bundle_zstd_compression (n0 : Z) (clock : Z -> Z * Z) : outcome unit :=
  bundle ← TelemetryBundle.new n0 1;
  let bundle := TelemetryBundle.with_compression bundle CompressionType.Zstd in
  bundle ← add_temperatures clock (seqZ 0 10) bundle;
  let '(bundle, r) := TelemetryBundle.compress zstd gzip bundle 3 in
  _ ← unwrap_ok r;
  let encoded := TelemetryBundle.encode bundle in
  decoded ← TelemetryBundle.decode zstd gzip encoded; decoded ← unwrap_ok decoded;
  _ ← assert_eq (TelemetryBundle.span_count decoded) 10;
  assert (negb (is_some (TelemetryBundle.compressed_data decoded))).
End bundle.

(** *** otel_converter.rs *)
Section converter.
Context `{HexEncodeCrate, JsonMapCrate}.

(** [iter().cloned().collect::<HashMap>().get(key)]: the last value of the key. *)
Definition collected (key : bytes) (l : list (bytes * bytes)) : option bytes :=
  foldl (fun o kv => if bool_decide (kv.1 = key) then Some kv.2 else o) None l.

Definition test_compact_to_otlp_conversion (ns : Z * Z) : outcome unit :=
  compact ← sensor_read ns 1 2 (lit "sensor-001");
  let compact := CompactSpan.with_t_event compact 1000 in
  let compact := CompactSpan.with_t_system compact 1500 in
  let compact := CompactSpan.with_attribute compact (lit "temperature") (lit "25.5") in
  let otlp := OtlpSpan.from_compact compact in
  _ ← assert_eq (OtlpSpan.trace_id otlp) (hex_encode (fill 1 16));
  _ ← assert_eq (OtlpSpan.span_id otlp) (hex_encode (fill 2 8));
  _ ← assert_eq (OtlpSpan.name otlp) (lit "sensor.read");
  let attrs := OtlpSpan.attributes otlp in
  _ ← assert_eq (collected (lit "t_event") attrs) (Some (lit "1000"));
  _ ← assert_eq (collected (lit "t_system") attrs) (Some (lit "1500"));
  assert_eq (collected (lit "spread_ms") attrs) (Some (lit "500")).

Definition test_bundle_to_export_request (n0 : Z) (ns : Z * Z) : outcome unit :=
  bundle ← TelemetryBundle.new n0 1;
  span ← sensor_read ns 1 2 (lit "sensor-001");
  let bundle := TelemetryBundle.add_span bundle span in
  let request := OtlpExportRequest.from_bundle bundle in
  _ ← assert_eq (len (OtlpExportRequest.spans request)) 1;
  assert (existsb (fun kv => bool_decide (kv.1 = lit "bundle.sequence_number"))
            (OtlpExportRequest.resource_attributes request)).

Definition test_otlp_json_serialization (ns : Z * Z) : outcome unit :=
  compact ← sensor_read ns 1 2 (lit "sensor-001");
  let otlp := OtlpSpan.from_compact compact in
  let json := OtlpSpan.to_json otlp in
  _ ← assert (match json with JObject _ => true | _ => false end);
  assert (match json_get json (lit "name") with
          | Some (JString s) => bool_decide (s = lit "sensor.read")
          | _ => false
          end).
End converter.

(** *** otel_reconciler.rs: the order in which the map is visited is an argument. *)
Section reconciler.
Context `{HexEncodeCrate} (order : BitemporalReconciler.state -> list bytes).

(** [OtlpSpan::from_compact(&CompactSpan::new(..).with_t_event(te).with_t_system(ts))] *)
Definition stamped (ns : Z * Z) (a b te ts : Z) : outcome OtlpSpan.t :=
  compact ← sensor_read ns a b (lit "sensor-001");
  let compact := CompactSpan.with_t_system (CompactSpan.with_t_event compact te) ts in
  Ret (OtlpSpan.from_compact compact).

Definition test_ingest_and_query (ns : Z * Z) : outcome unit :=
  otlp ← stamped ns 1 2 1000 1500;
  let reconciler := BitemporalReconciler.ingest BitemporalReconciler.new otlp in
  _ ← assert_eq (BitemporalReconciler.record_count (order reconciler) reconciler) 1;
  let results := BitemporalReconciler.query_valid_time (order reconciler) reconciler 500 2000 in
  assert_eq (len results) 1.

Fixpoint ingest_all (clock : Z -> Z * Z) (ids : list Z) (reconciler : BitemporalReconciler.state)
    : outcome BitemporalReconciler.state :=
  match ids with
  | [] => Ret reconciler
  | i :: ids =>
      otlp ← stamped (clock i) i i (i * 100) (i * 100 + 500);
      ingest_all clock ids (BitemporalReconciler.ingest reconciler otlp)
  end.

Definition test_spread_stats (clock : Z -> Z * Z) : outcome unit :=
  reconciler ← ingest_all clock (seqZ 0 10) BitemporalReconciler.new;
  let stats := BitemporalReconciler.spread_stats (order reconciler) reconciler 0 10000 in
  _ ← assert_eq (ReconciliationStats.total_records stats) 10;
  _ ← assert_eq (ReconciliationStats.positive_spread stats) 10;
  assert (SFeqb (ReconciliationStats.avg_spread_ms stats) (f64_of_Z 500)).

Definition test_system_belief_at (ns1 ns2 : Z * Z) : outcome unit :=
  otlp1 ← stamped ns1 1 2 1000 1500;
  otlp2 ← stamped ns2 1 2 1000 2000;
  let reconciler := BitemporalReconciler.ingest BitemporalReconciler.new otlp1 in
  let reconciler := BitemporalReconciler.ingest reconciler otlp2 in
  let belief := BitemporalReconciler.system_belief_at (order reconciler) reconciler 1800 in
  assert_eq (len belief) 1.
End reconciler.
End otel_tests.

Module atecc608b_tests.
Definition test_crc8 : outcome unit :=
  let data := [0x01; 0x02; 0x03] in
  let crc := ATECC608B.crc8 data in
  assert_eq crc 0x5B.
End atecc608b_tests.

Module gateway_tests.
Section tests.
Context `{CrcCrate, HexCrate, HexEncodeCrate, ZstdCrate, NomCrate}.

(** The message is sent; what the tasks then do is up to the scheduler. *)
Definition test_gateway_creation (now t0 : Z) (ev : Gateway.env) : outcome Pipeline.t :=
  let gateway := Pipeline.start t0 (60 * 1000000000) false false in
  let message := message_new now IridiumSBD (lit "test") Operational in
  Pipeline.run gateway [Pipeline.Send ev message].
End tests.
End gateway_tests.

(** ** The tests pass *)

Section cache.
Import cache_tests AsyncCache.

(** A lookup after an insertion. *)
Lemma get_after_set c t0 t1 p d m :
  get (set c t0 p d m) t1 p d = if Z.max 0 (t1 - t0) <? default_ttl c then Some m else None.
Proof.
  rewrite set_evicted. cbv zeta. unfold get. cbn [entries]. rewrite lookup_insert_eq. cbn [mbind option_bind].
  unfold fresh. cbn [timestamp ttl default_ttl new]. done.
Qed.

Example test_cache_get_set_passes now t0 t1 :
  t0 <= t1 < t0 + 60 * 1000 * MS -> test_cache_get_set now t0 t1 = Ret tt.
Proof.
  intros Ht. unfold test_cache_get_set. rewrite get_after_set. cbn [default_ttl new].
  by rewrite (proj2 (Z.ltb_lt _ _)) by lia.
Qed.

Example test_cache_ttl_passes now t0 t1 :
  t0 + 150 * MS <= t1 -> test_cache_ttl now t0 t1 = Ret tt.
Proof.
  unfold MS. intros Ht. unfold test_cache_ttl, MS. rewrite get_after_set. cbn [default_ttl new].
  by rewrite (proj2 (Z.ltb_ge _ _)) by lia.
Qed.

Example test_get_batch_hit_and_miss_passes now t0 t1 t2 :
  t0 <= t1 < t0 + 60 * 1000 * MS -> test_get_batch_hit_and_miss now t0 t1 t2 = Ret tt.
Proof.
  intros Ht. unfold test_get_batch_hit_and_miss. set (c := set _ _ _ _ _).
  change (get_batch c [(t1, IridiumSBD, lit "batchkey")]) with [get c t1 IridiumSBD (lit "batchkey")].
  change (get_batch c [(t2, InmarsatC, lit "batchkey")]) with [get c t2 InmarsatC (lit "batchkey")].
  assert (E : get c t2 InmarsatC (lit "batchkey") = None).
  { unfold get, c. rewrite set_evicted. cbv zeta. cbn [entries].
    rewrite lookup_insert_ne by (vm_compute; congruence). done. }
  rewrite E. unfold c. rewrite get_after_set. cbn [default_ttl new]. by rewrite (proj2 (Z.ltb_lt _ _)) by lia.
Qed.

Example test_eviction_order_o1_passes now t0 t1 t2 t3 t4 :
  t2 <= t4 < t2 + 60 * 1000 * MS -> test_eviction_order_o1 now t0 t1 t2 t3 t4 = Ret tt.
Proof.
  intros Ht. unfold test_eviction_order_o1. set (c := set (set _ _ _ _ _) _ _ _ _).
  assert (E1 : get c t3 IridiumSBD [1] = None) by (vm_compute; reflexivity).
  rewrite E1. unfold c. rewrite get_after_set.
  change (default_ttl _) with (60 * 1000 * MS). by rewrite (proj2 (Z.ltb_lt _ _)) by lia.
Qed.
End cache.

(** The emergency leaves at once, alone in its batch. *)
Example test_emergency_bypass_passes now t0 t1 t2 :
  exists s, batcher_tests.test_emergency_bypass now t0 t1 t2 = Ret s /\
    outputs s = [[message_new now IridiumSBD (lit "emergency") Emergency]] /\ buffer s = [].
Proof. eexists. split; [done|]. done. Qed.

(** An offset that was just registered with an empty reconciler. *)
Lemma clock_registered t0 t1 c :
  ClockReconciler.get_offset (ClockReconciler.register_offset
    (ClockReconciler.new 10 300000 ClockReconciler.LocalClock) [] (ClockReconciler.new_offset t0 1 1000 c)) t1 1
  = if 300000 <? wrap 64 (t1 - t0) then None else Some (ClockReconciler.new_offset t0 1 1000 c).
Proof.
  unfold ClockReconciler.get_offset, ClockReconciler.register_offset.
  cbn [ClockReconciler.offsets ClockReconciler.new ClockReconciler.max_age].
  change (ClockReconciler.device_id _) with 1. by rewrite lookup_insert_eq.
Qed.

Example test_clock_reconciliation_passes t0 t1 :
  t0 <= t1 <= t0 + 300000 -> clock_tests.test_clock_reconciliation t0 t1 = Ret tt.
Proof.
  intros Ht. unfold clock_tests.test_clock_reconciliation, ClockReconciler.reconcile.
  rewrite clock_registered, wrap_small by (unfold in_u; lia).
  by rewrite (proj2 (Z.ltb_ge _ _)) by lia.
Qed.

(** The low confidence is refused, whatever the clocks say. *)
Example test_confidence_filtering_passes t0 t1 : clock_tests.test_confidence_filtering t0 t1 = Ret tt.
Proof.
  unfold clock_tests.test_confidence_filtering, ClockReconciler.reconcile_with_confidence.
  rewrite clock_registered. by destruct (_ <? _).
Qed.

Example test_cadence_translation_passes t0 t1 :
  t0 <= t1 -> cadence_tests.test_cadence_translation t0 t1 = Ret tt.
Proof.
  intros Ht. unfold cadence_tests.test_cadence_translation, CadenceTranslator.translate_message.
  rewrite bool_decide_eq_false_2 by done. set (rule := mkRule _ _ _ _ _ _).
  change (CadenceTranslator.find_rule _ _ _) with (Some rule). cbn [transformation rule].
  unfold CadenceTranslator.limit, RateLimiter.should_send.
  change (CadenceTranslator.rate_limiters _) with (∅ : gmap string RateLimiter.t). rewrite lookup_empty.
  mstep. cbn [RateLimiter.min_interval RateLimiter.last_sent RateLimiter.new].
  by rewrite (proj2 (Z.leb_le _ _)) by lia.
Qed.

Example cadence_tests_pass t0 t1 :
  passes [cadence_tests.test_emergency_passthrough t0 t1; cadence_tests.test_default_rules] = true.
Proof. vm_compute. reflexivity. Qed.

(** The clock of the telemetry tests: two readings per span, in nanoseconds. *)
Definition ticks (i : Z) : Z * Z := (1700000000123456789 + 1000 * i, 1700000000123457000 + 1000 * i).

Section otel.
Import otel_tests.

Example otel_tests_pass :
  passes [@test_encode_decode_roundtrip buf_ref (ticks 0); test_spread_calculation (ticks 0);
    @test_bundle_encode_decode buf_ref sample_zstd sample_gzip 0 (ticks 0) (ticks 1);
    @test_bundle_zstd_compression buf_ref sample_zstd sample_gzip 0 ticks;
    @test_compact_to_otlp_conversion hex_encode_ref (ticks 0);
    @test_bundle_to_export_request hex_encode_ref 0 (ticks 0);
    @test_otlp_json_serialization hex_encode_ref json_map_ref (ticks 0);
    @test_ingest_and_query hex_encode_ref (fun m => map fst (map_to_list m)) (ticks 0);
    @test_spread_stats hex_encode_ref (fun m => map fst (map_to_list m)) ticks;
    @test_system_belief_at hex_encode_ref (fun m => map fst (map_to_list m)) (ticks 0) (ticks 1)] = true.
Proof. vm_compute. reflexivity. Qed.
End otel.

(** One test of the repository does not pass: [crc8] of [01 02 03] is [0x48]. *)
Example test_crc8_fails : atecc608b_tests.test_crc8 = Panic.
Proof. vm_compute. reflexivity. Qed.

(** The gateway test, with whatever the tasks do afterwards: nothing panics. *)
Section gateway.
Context `{CrcCrate, HexCrate, HexEncodeCrate, ZstdCrate, NomCrate}.
Context `{!CrcLaws, !HexLaws, !ZstdLaws, !NomLaws}.

Example test_gateway_creation_passes now t0 ev acts :
  in_u 64 now -> env_ok ev -> Forall action_ok acts ->
  exists s s', gateway_tests.test_gateway_creation now t0 ev = Ret s /\ Pipeline.run s acts = Ret s' /\
    Pipeline.sent s = [message_new now IridiumSBD (lit "test") Operational].
Proof.
  intros Hnow Hev Ha. set (m := message_new now IridiumSBD (lit "test") Operational).
  assert (Hm : msg_ok m) by (apply message_new_ok; [done|compute_done]).
  destruct (run_inv _ [Pipeline.Send ev m] (start_inv t0 (60 * 1000000000) false false)) as (s & Hr & Hs & E);
    [constructor; [by split|constructor]|].
  destruct (run_inv s acts Hs Ha) as (s' & Hr' & _). exists s, s'. done.
Qed.
End gateway.
